(* ===== verification/_CoqProject ===== *)
-Q . S2P
Prelude.v
External.v
ObjectId.v
ObjectDb.v
UndoDb.v
Asset.v
Vesting.v
Authority.v
Float.v
Protocol.v
Chain.v
Balance.v
Accounting.v
Market.v
MarketSupply.v
Evaluator.v
MarketEvaluator.v
MarketLaws.v
Scenario.v
Book.v
MarketTheorems.v
BlackSwan.v
AssetObject.v
Transfers.v
TransferLaws.v
Permits.v
AssetOps.v
AccountOps.v
AccountEvaluator.v
MemberEvaluator.v
Votes.v
Elections.v
Budget.v
AssetEvaluator.v
AssetText.v
ExchangeRate.v
Credit.v
CreditEvaluator.v
BitassetEvaluator.v
AssetLaws.v
AssetTheorems.v
FeeLaws.v
AccountLaws.v
BudgetLaws.v
CreditLaws.v
CreditTheorems.v
ExchangeRateLaws.v
OperationRules.v
Proposal.v
Operations.v
ProposalLaws.v
Invariant.v
Fees.v
Schedule.v
Block.v
DbUpdate.v
DbUpdateLaws.v
Maintenance.v
Frames.v
MaintenanceLaws.v
ReviveLaws.v
ProposalTheorems.v
ForkDb.v
BlockDb.v
Blocks.v
BlocksLaws.v
MaintainedNode.v
BlocksTheorems.v
MaintenanceTheorems.v
