(* ===== verification/Prelude.v ===== *)
(** * Karma Core: a verification development (root file)

    Karma Core is a delegated-proof-of-stake blockchain node in the Graphene
    family with loans of its own.  Everything that decides the state of the chain
    is in [src/libraries/chain] over the object and undo databases of
    [src/libraries/db]; this development models that code as functions and proves
    what makes it correct.

    ** How the program is put together, and where each part is

    A node ([database.hpp], a database and a state machine in one class) holds
    objects in indexes, changes them by evaluating the operations of
    transactions, does housekeeping after the transactions of a block, and
    follows the longest fork by undoing and redoing blocks.

    - Objects and undo ([libraries/db]): [ObjectId], [ObjectDb] (indexes and the
      next identifiers), [UndoDb] (sessions, undo, merge, commit).
    - Values ([chain/protocol], [asset_object.cpp]): [Asset] (amounts, prices,
      feeds), [AssetText] (amounts as text and as floating point), [Float]
      (binary32 and binary64), [Vesting] ([vesting_balance_object.cpp]).
    - The state ([database.hpp] and the object headers): [Chain], one record per
      class of objects and one finite map per index, with [find], [get],
      [create], [modify] and [remove] of the object database; [Protocol] has
      the operations and the transaction; [Scenario] is a concrete state.
    - Balances, fees of accounts ([db_balance.cpp], [account_object.cpp]):
      [Balance].
    - The market ([db_market.cpp], [db_update.cpp]): [Market]; its operations
      ([market_evaluator.cpp]): [MarketEvaluator].
    - The template of all operations ([evaluator.cpp], [evaluator.hpp]):
      [Evaluator], a class whose instances are the evaluators of [Transfers],
      [AssetOps] with [AssetEvaluator] and [BitassetEvaluator] (and
      [AssetObject], the price feeds), [ExchangeRate], [Credit] with
      [CreditEvaluator], [AccountOps] with [AccountEvaluator],
      [MemberEvaluator] (witnesses, committee, workers, chain parameters,
      genesis balances), and [Proposal].
    - Authorities ([transaction.cpp], [authority.hpp]): [Authority]; what an
      operation costs, must satisfy and requires ([operations.cpp],
      [fee_schedule.cpp]): [OperationRules]; executing operations, proposals
      and transactions ([db_block.cpp]): [Operations].
    - Blocks ([block.cpp]), the schedule of the witnesses
      ([db_witness_schedule.cpp]) and the housekeeping of a block
      ([db_update.cpp]): [Block], [Schedule], [DbUpdate].
    - The maintenance ([db_maint.cpp], [vote_count.hpp], [fba_object.cpp]):
      [Votes] (the tally and the elections), [Budget] (the reserve, witnesses and
      workers) and [Maintenance] (fee-backed assets, buybacks, parameters, the
      next maintenance, bids on settled assets, and all of it in order).
    - Forks ([fork_database.cpp]), blocks on disk ([block_database.cpp]) and the
      node ([db_block.cpp], [db_with.hpp]): [ForkDb], [BlockDb], [Blocks]; the node
      takes the maintenance through a class, [Blocks.Housekeeping].
      [MaintainedNode] implements it twice: [coded_housekeeping] is the maintenance
      as it is written, [watched_housekeeping] ends a run where the written one
      goes on with books that may be broken.

    ** Conventions

    A function of the code keeps its name.  An exception is [Throw]; code that
    changes the state is in the monad [M] of this file, in which a throw carries
    the state it left, and a handler goes on from there ([Maintenance.catching])
    or from the state that an undo session restores; the node's monad keeps
    the node on a throw, too.  [share_type] is checked 64-bit arithmetic, unsigned
    integers wrap.  A C++ reference is an identifier dereferenced where the code
    dereferences it.  A failed [assert] is a throw; so is what the language
    leaves undefined (a reference to a removed object, a conversion that does
    not fit), and no handler of the chain catches it ([Chain.fatal]), so a
    theorem about runs that return excludes it.  Loops that are not structural take
    fuel, always computed from the sizes of the tables they consume, and a
    theorem says that it is enough (the market, the buybacks, the fork database,
    the proposals, the exchange rates, the Merkle root, the call price).  What the
    loops of the market and of the maintenance do without fuel is a parameter
    of them, the class [Exhausted]; by default they throw, and the theorems say
    that the parameter has no influence: no loop ever comes to it.

    Code outside the repository - the [fc] submodule, Boost, the C++ library
    where it is not specified - is a class of operations with a class of laws
    stating its documented behaviour ([External], and [SignatureOps],
    [AddressOps], [PackOps], [BlockOps], [RawOps], [CalendarOps] ... beside the
    code that calls it); each has a concrete implementation on which the
    witnesses of the theorems run.

    ** What the theorems show

    - The books: [Accounting.surplus] is all a state holds of an asset less its
      recorded supply, as the test suite reckons it.  [Evaluator] proves the
      template against the class [EvaluatorLaws], which [MarketLaws],
      [TransferLaws], [AssetLaws], [AssetTheorems], [CreditLaws],
      [ExchangeRateLaws], [FeeLaws] and [AccountLaws] discharge; [ProposalLaws]
      and [Invariant] extend this to any history of operations and time and to
      transactions, [DbUpdateLaws] to the housekeeping, [BudgetLaws],
      [MaintenanceLaws] and [ReviveLaws] to the maintenance, and [BlocksLaws] and
      [BlocksTheorems] to everything a node can be given.  The theorems about many
      operations exclude those that break the books in the code, by
      [ProposalLaws.plain_operation]: the updates of a bitasset and the requests of
      a credit with a deposit.  Those about the maintenance compare it with the
      one under the watch, which ends a run when an operation of the chain itself
      throws while it is applied, or a position is left with a negative collateral:
      where both end the same, the books are kept.
    - What the chain never does: [Frames] shows for every operation and every part
      of the end of a block that it leaves the head of the chain and the records of
      the transactions alone, except for the parts that are there to change them.
    - The maintenance: [Elections], [BudgetLaws], [ReviveLaws],
      [MaintenanceTheorems] - who is elected and which majority rules, what a
      budget may spend, when a settled asset is revived, the time of the next
      maintenance, the fee for registering, the end of the buybacks.
    - Undo: [UndoDb] refines a stack of snapshots, which [Blocks] then uses.
    - The node: [BlocksTheorems] - the books after any requests, what a block that
      was accepted went through, that no transaction is applied twice, the node
      after a refused or popped block or a pushed transaction.
    - The market: [MarketTheorems], [Book], [BlackSwan] - priority, fairness,
      termination, the outcome of a black swan.
    - Authority: [Authority], [Invariant], [ProposalTheorems] - nothing is
      executed without the authority it requires, and whoever has it is let through.
    - Blocks: [Schedule], [Block], [DbUpdate], [ForkDb], [BlockDb] - fair
      rounds, the Merkle root, irreversibility, the longest chain, the store.
    - Loans and rates: [CreditTheorems], [ExchangeRateLaws].
    - Vesting, permissions, feeds, fees, texts: in the file of each.
    - Where the code does not do what it means to, a theorem shows it.

    ** Not modelled, and why

    - [libraries/net], [libraries/app], [libraries/wallet], [libraries/plugins],
      [programs]: input and output, the API and its queries, key storage; they
      call the chain and add nothing to its state.
    - [libraries/utilities], [egenesis], [genesis_state.cpp], [db_init.cpp]:
      word lists, the embedded genesis and the state made from it.
    - The vote buffers of a maintenance are a record threaded through the
      elections instead of members of the database.
    - Assertions ([assert_evaluator.cpp]) and blinded transfers
      ([confidential_evaluator.cpp]): they need the packed form of the state and
      commitments of an elliptic curve; account transfers have no evaluator.
    - Notifications, debugging, replay and opening of files ([db_notify.cpp],
      [db_debug.cpp], [db_management.cpp]): observers and I/O.
    - The contents of memos, histories kept as text or JSON, and the fields of
      operations kept only for observers: nothing reads them. *)
From Stdlib Require Import ZArith Lia List String.
From stdpp Require Import base gmap sets list strings sorting.

Open Scope Z_scope.

(** ** Results: a C++ call either returns or throws (an [fc::exception], here its
    message). *)
Inductive outcome (E A : Type) : Type :=
| Ok (a : A)
| Throw (e : E).
Arguments Ok {E A} a.
Arguments Throw {E A} e%_string.
Notation result := (outcome string).

#[export] Instance result_ret {E} : MRet (outcome E) := fun A a => Ok a.
#[export] Instance result_bind {E} : MBind (outcome E) :=
  fun A B f r => match r with Ok a => f a | Throw e => Throw e end.

Definition is_ok {E A} (r : outcome E A) : bool :=
  match r with Ok _ => true | Throw _ => false end.

(** [FC_ASSERT] on the pure level. *)
Definition fc_assert (b : bool) (msg : string) : result unit :=
  if b then Ok tt else Throw msg.

(** The elements of an [optional]/iterator that must be there. *)
Definition of_option {A} (o : option A) (msg : string) : result A :=
  match o with Some a => Ok a | None => Throw msg end.

(** ** State passing with exceptions.  A throw keeps the state it left: a caller
    that survives it goes on from there, or restores an earlier one (an undo
    session). *)
Definition M (S A : Type) : Type := S -> outcome (string * S) (A * S).

#[export] Instance M_ret S : MRet (M S) := fun A a s => Ok (a, s).
#[export] Instance M_bind S : MBind (M S) :=
  fun A B f m s => match m s with Ok (a, s') => f a s' | Throw e => Throw e end.

Section StateOps.
Context {S : Type}.
Definition get_state : M S S := fun s => Ok (s, s).
Definition gets {A} (f : S -> A) : M S A := fun s => Ok (f s, s).
Definition put_state (s : S) : M S unit := fun _ => Ok (tt, s).
Definition update (f : S -> S) : M S unit := fun s => Ok (tt, f s).
Definition lift {A} (r : result A) : M S A :=
  fun s => match r with Ok a => Ok (a, s) | Throw e => Throw (e, s) end.
Definition require (b : bool) (msg : string) : M S unit := lift (fc_assert b msg).
Definition throw {A} (msg : string) : M S A := fun s => Throw (msg, s).
Definition when (b : bool) (m : M S unit) : M S unit := if b then m else mret tt.
End StateOps.

(** A loop or recursion of the model that has used up its steps.  The code has no
    such case, and it is never reached: a loop written with [exhausted] is shown to
    do the same whatever is put there. *)
Definition out_of_fuel : string := "out of fuel".
Class Exhausted (S : Type) : Type := exhausted : forall {A}, M S A.
#[export] Instance exhausted_throws S : Exhausted S := fun A => throw out_of_fuel.

(** Run a list of state changes in order (the [for] loops of the code). *)
Fixpoint for_each {S A} (l : list A) (f : A -> M S unit) : M S unit :=
  match l with
  | [] => mret tt
  | x :: l' => f x ≫= fun _ => for_each l' f
  end.


(** *** Inversion of successful runs *)
Lemma result_bind_Ok {A B} (m : result A) (f : A -> result B) b :
  m ≫= f = Ok b -> exists a, m = Ok a /\ f a = Ok b.
Proof. destruct m as [a|e]; cbn; [eauto | discriminate]. Qed.

Lemma M_bind_Ok {S A B} (m : M S A) (f : A -> M S B) s b s' :
  (m ≫= f) s = Ok (b, s') -> exists a s1, m s = Ok (a, s1) /\ f a s1 = Ok (b, s').
Proof.
  unfold mbind, M_bind. destruct (m s) as [[a s1]|e]; [eauto | discriminate].
Qed.

Lemma M_ret_Ok {S A} (a b : A) (s s' : S) :
  (mret a : M S A) s = Ok (b, s') -> a = b /\ s = s'.
Proof. by intros [= -> ->]. Qed.

Lemma gets_Ok {S A} (f : S -> A) s a s' : gets f s = Ok (a, s') -> a = f s /\ s' = s.
Proof. by intros [= <- <-]. Qed.

Lemma get_state_Ok {S} (s a s' : S) : get_state s = Ok (a, s') -> a = s /\ s' = s.
Proof. by intros [= <- <-]. Qed.

Lemma update_Ok {S} (f : S -> S) s u s' : update f s = Ok (u, s') -> s' = f s.
Proof. by intros [= _ <-]. Qed.

Lemma put_state_Ok {S} (s0 s s' : S) u : put_state s0 s = Ok (u, s') -> s' = s0.
Proof. by intros [= _ <-]. Qed.

Lemma lift_Ok {S A} (r : result A) (s : S) a s' : lift r s = Ok (a, s') -> r = Ok a /\ s' = s.
Proof. unfold lift. destruct r; [by intros [= <- <-] | discriminate]. Qed.

Lemma fc_assert_Ok b msg u : fc_assert b msg = Ok u -> b = true.
Proof. by destruct b. Qed.

Lemma require_Ok {S} b msg (s : S) u s' : require b msg s = Ok (u, s') -> b = true /\ s' = s.
Proof. intros [? ->]%lift_Ok. split; [by eapply fc_assert_Ok | done]. Qed.

Lemma of_option_Ok {A} (o : option A) msg a : of_option o msg = Ok a -> o = Some a.
Proof. destruct o; cbn; congruence. Qed.

Lemma throw_Ok {S A} msg (s : S) (a : A) s' : throw msg s = Ok (a, s') -> False.
Proof. discriminate. Qed.

Lemma when_Ok {S} b (m : M S unit) s u s' :
  when b m s = Ok (u, s') -> (b = true /\ m s = Ok (u, s')) \/ (b = false /\ s' = s).
Proof. destruct b; cbn; [by left | intros [= _ <-]; by right]. Qed.

Lemma M_bind_ext {S A B} (m : M S A) (f g : A -> M S B) s :
  (forall a s', m s = Ok (a, s') -> f a s' = g a s') -> (m ≫= f) s = (m ≫= g) s.
Proof. unfold mbind, M_bind. destruct (m s) as [[a s']|e]; auto. Qed.

Lemma M_bind_ext' {S A B} (m m' : M S A) (f g : A -> M S B) s :
  m s = m' s -> (forall a s', f a s' = g a s') -> (m ≫= f) s = (m' ≫= g) s.
Proof. unfold mbind, M_bind. intros ->. destruct (m' s) as [[a s']|e]; auto. Qed.

(** The same through a run that both do. *)
Lemma M_bind_same {S A B} (m0 m m' : M S A) (f g : A -> M S B) s :
  m s = m0 s -> m' s = m0 s -> (forall a s', m0 s = Ok (a, s') -> f a s' = g a s') -> (m ≫= f) s = (m' ≫= g) s.
Proof. unfold mbind, M_bind. intros -> ->. destruct (m0 s) as [[a s']|e]; auto. Qed.

(** One step of inversion of a successful run in the context. *)
Ltac inv_ok1 :=
  match goal with
  | H : (_ ≫= _) _ = Ok (_, _) |- _ =>
      let a := fresh "a" in let s := fresh "s" in
      let H1 := fresh "Hrun" in apply M_bind_Ok in H as (a & s & H1 & H)
  | H : _ ≫= _ = Ok _ |- _ =>
      let a := fresh "a" in let H1 := fresh "Hrun" in
      apply result_bind_Ok in H as (a & H1 & H)
  | H : mret _ _ = Ok (_, _) |- _ => apply M_ret_Ok in H as [? ?]; subst
  | H : gets _ _ = Ok (_, _) |- _ => apply gets_Ok in H as [? ?]; subst
  | H : get_state _ = Ok (_, _) |- _ => apply get_state_Ok in H as [? ?]; subst
  | H : update _ _ = Ok (_, _) |- _ => apply update_Ok in H; subst
  | H : put_state _ _ = Ok (_, _) |- _ => apply put_state_Ok in H; subst
  | H : require _ _ _ = Ok (_, _) |- _ => apply require_Ok in H as [? ?]; subst
  | H : lift _ _ = Ok (_, _) |- _ => apply lift_Ok in H as [? ?]; subst
  | H : of_option _ _ = Ok _ |- _ => apply of_option_Ok in H
  | H : fc_assert _ _ = Ok _ |- _ => apply fc_assert_Ok in H
  | H : throw _ _ = Ok _ |- _ => discriminate H
  | H : exhausted _ = Ok _ |- _ => discriminate H
  | H : Throw _ = Ok _ |- _ => discriminate H
  | H : Ok _ = Ok _ |- _ => injection H as H; try subst
  | H : mret _ = Ok _ |- _ => injection H as H; try subst
  end.
Ltac inv_ok := repeat inv_ok1.

(** The same, replacing only the variables the step binds, so that equations
    between states in the context are kept. *)
Ltac run_ok1 :=
  match goal with
  | H : (_ ≫= _) _ = Ok (_, _) |- _ =>
      let a := fresh "a" in let s := fresh "s" in
      let H1 := fresh "Hrun" in apply M_bind_Ok in H as (a & s & H1 & H)
  | H : _ ≫= _ = Ok _ |- _ =>
      let a := fresh "a" in let H1 := fresh "Hrun" in
      apply result_bind_Ok in H as (a & H1 & H)
  | H : mret _ _ = Ok (_, _) |- _ =>
      let B := fresh "Hret" in apply M_ret_Ok in H as [B <-];
      match type of B with ?x = ?y => first [is_var x; subst x | is_var y; subst y | idtac] end
  | H : gets _ _ = Ok (_, _) |- _ => apply gets_Ok in H as [-> ->]
  | H : get_state _ = Ok (_, _) |- _ => apply get_state_Ok in H as [-> ->]
  | H : update _ _ = Ok (_, _) |- _ => apply update_Ok in H
  | H : put_state _ _ = Ok (_, _) |- _ => apply put_state_Ok in H
  | H : require _ _ _ = Ok (_, _) |- _ =>
      let B := fresh "Hreq" in apply require_Ok in H as [B ->]
  | H : lift _ _ = Ok (_, _) |- _ => let B := fresh "Hval" in apply lift_Ok in H as [B ->]
  | H : of_option _ _ = Ok _ |- _ => apply of_option_Ok in H
  | H : fc_assert _ _ = Ok _ |- _ => apply fc_assert_Ok in H
  | H : throw _ _ = Ok _ |- _ => discriminate H
  | H : exhausted _ = Ok _ |- _ => discriminate H
  | H : Throw _ = Ok _ |- _ => discriminate H
  | H : Ok _ = Ok _ |- _ => injection H as H
  | H : mret _ = Ok _ |- _ => injection H as H
  end.

(** Closed decidable propositions, by evaluation. *)
Ltac by_decide := refine (bool_decide_eq_true_1 _ _); vm_compute; reflexivity.

(** Evaluate the monadic operations of a run in the goal. *)
Ltac run_cbn :=
  unfold mbind, M_bind, result_bind, mret, M_ret, result_ret, get_state, gets, update,
    put_state, require, lift, fc_assert, throw, when; cbn.

(** An invariant of the body of a loop is an invariant of the loop. *)
Lemma for_each_ind {S A} (P : S -> S -> Prop) (f : A -> M S unit) l s s' u :
  (forall s, P s s) -> (forall s1 s2 s3, P s1 s2 -> P s2 s3 -> P s1 s3) ->
  (forall x s1 s2 v, x ∈ l -> f x s1 = Ok (v, s2) -> P s1 s2) ->
  for_each l f s = Ok (u, s') -> P s s'.
Proof.
  intros Hr Ht. revert s. induction l as [|x l IH]; intros s Hf; cbn; intros H; inv_ok; auto.
  eapply Ht; [eapply Hf; [left|eassumption] | eapply IH; [|eassumption]].
  intros; eapply Hf; [by right | eassumption].
Qed.

(** ** Sums over finite maps *)
Section SumMap.
Context {K A : Type} `{Countable K}.
Implicit Types (m : gmap K A) (f g : K -> A -> Z).

Definition sum_map f m : Z := map_fold (fun k x acc => f k x + acc) 0 m.

Lemma sum_map_empty f : sum_map f ∅ = 0.
Proof. apply map_fold_empty. Qed.

Lemma sum_map_insert_new f m k x :
  m !! k = None -> sum_map f (<[k := x]> m) = f k x + sum_map f m.
Proof.
  intros Hk. unfold sum_map. rewrite map_fold_insert_L; [done | | done].
  intros; lia.
Qed.

Lemma sum_map_delete f m k x :
  m !! k = Some x -> sum_map f (delete k m) = sum_map f m - f k x.
Proof.
  intros Hk. rewrite <- (insert_delete_id m k x Hk) at 2.
  rewrite sum_map_insert_new by apply lookup_delete_eq. lia.
Qed.

Lemma sum_map_insert f m k x y :
  m !! k = Some x -> sum_map f (<[k := y]> m) = sum_map f m - f k x + f k y.
Proof.
  intros Hk. rewrite <- insert_delete_eq.
  rewrite sum_map_insert_new by apply lookup_delete_eq.
  rewrite (sum_map_delete f m k x Hk). lia.
Qed.

Lemma sum_map_nonneg f m :
  (forall k x, m !! k = Some x -> 0 <= f k x) -> 0 <= sum_map f m.
Proof.
  induction m as [|k x m Hk IH] using map_ind; intros Hf.
  - by rewrite sum_map_empty.
  - rewrite sum_map_insert_new by done.
    assert (0 <= f k x) by (apply Hf; by rewrite lookup_insert_eq).
    assert (0 <= sum_map f m); [apply IH; intros j y Hj; apply Hf|lia].
    rewrite lookup_insert_ne; [done | congruence].
Qed.

Lemma sum_map_ext f g m :
  (forall k x, m !! k = Some x -> f k x = g k x) -> sum_map f m = sum_map g m.
Proof.
  induction m as [|k x m Hk IH] using map_ind; intros Hf; [done|].
  rewrite !sum_map_insert_new by done.
  rewrite (Hf k x) by apply lookup_insert_eq. f_equal. apply IH.
  intros j y Hj. apply Hf. rewrite lookup_insert_ne; [done | congruence].
Qed.

Fixpoint sum_list f (l : list (K * A)) : Z :=
  match l with [] => 0 | x :: l' => f x.1 x.2 + sum_list f l' end.
Lemma sum_list_app f l1 l2 : sum_list f (l1 ++ l2) = sum_list f l1 + sum_list f l2.
Proof. induction l1 as [|x l1 IH]; cbn; [done|]. rewrite IH. lia. Qed.
Lemma sum_list_zero f l : (forall x, x ∈ l -> f x.1 x.2 = 0) -> sum_list f l = 0.
Proof.
  induction l as [|x l IH]; cbn; intros Hf; [done|].
  rewrite Hf, IH; [done| |by left]. intros y Hy. apply Hf. by right.
Qed.
Lemma sum_list_ext f g l : (forall x, x ∈ l -> f x.1 x.2 = g x.1 x.2) -> sum_list f l = sum_list g l.
Proof.
  induction l as [|x l IH]; cbn; intros Hf; [done|].
  rewrite Hf, IH; [done| |by left]. intros y Hy. apply Hf. by right.
Qed.
Lemma sum_list_perm f l1 l2 : l1 ≡ₚ l2 -> sum_list f l1 = sum_list f l2.
Proof. induction 1; cbn; lia. Qed.
Lemma sum_map_list f m : sum_map f m = sum_list f (map_to_list m).
Proof.
  induction m as [|k x m Hk IH] using map_ind.
  - by rewrite sum_map_empty, map_to_list_empty.
  - rewrite sum_map_insert_new by done.
    rewrite (sum_list_perm f _ ((k, x) :: map_to_list m)) by by apply map_to_list_insert.
    cbn. by rewrite IH.
Qed.
End SumMap.

(** ** Sorted lists *)
Lemma sorted_app_inv {A} (R : A -> A -> Prop) l1 x l2 :
  StronglySorted R (l1 ++ x :: l2) -> (forall y, y ∈ l1 -> R y x) /\ (forall y, y ∈ l2 -> R x y).
Proof.
  induction l1 as [|z l1 IH]; cbn; intros [Hs Hf]%StronglySorted_inv; rewrite Forall_forall in Hf.
  - split; [by intros y ?%not_elem_of_nil|done].
  - destruct (IH Hs) as [H1 H2]. split; [|done]. intros y [->|Hy]%elem_of_cons; [|auto].
    apply Hf. set_solver.
Qed.

(** [std::sort] and [std::partial_sort] by a comparison that orders the elements
    strictly but for equivalent ones. *)
Section SortBy.
Context {A : Type} (lt : A -> A -> bool).
Fixpoint insert_by (x : A) (l : list A) : list A :=
  match l with
  | [] => [x]
  | y :: l' => if lt y x then y :: insert_by x l' else x :: l
  end.
Definition sort_by : list A -> list A := foldr insert_by [].
Lemma insert_by_perm x l : insert_by x l ≡ₚ x :: l.
Proof. induction l as [|y l IH]; cbn; [done|]. destruct (lt y x); [|done]. rewrite IH. constructor. Qed.
Lemma sort_by_perm l : sort_by l ≡ₚ l.
Proof. induction l as [|x l IH]; cbn; [done|]. by rewrite insert_by_perm, IH. Qed.
Definition weak_order : Prop :=
  (forall x y, lt x y = true -> lt y x = false)
  /\ (forall x y z, lt y x = false -> lt z y = false -> lt z x = false).
Lemma sort_by_sorted l : weak_order -> StronglySorted (fun x y => lt y x = false) (sort_by l).
Proof.
  intros [Ha Ht]. induction l as [|x l IH]; cbn; [constructor|]. induction IH as [|y m Hm IHm Hy]; cbn.
  - by repeat constructor.
  - rewrite Forall_forall in Hy. destruct (lt y x) eqn:E.
    + constructor; [done|]. apply Forall_forall. intros z. rewrite insert_by_perm. intros [->|Hz]%elem_of_cons; auto.
    + constructor; [by constructor; [|apply Forall_forall]|]. constructor; [done|]. apply Forall_forall. eauto.
Qed.
End SortBy.

(** ** Counting *)
Definition count {A} (p : A -> bool) (l : list A) : nat := length (List.filter p l).
Lemma count_app {A} (p : A -> bool) l1 l2 : count p (l1 ++ l2) = (count p l1 + count p l2)%nat.
Proof. unfold count. by rewrite List.filter_app, length_app. Qed.
Lemma count_cons {A} (p : A -> bool) x l : count p (x :: l) = ((if p x then 1 else 0) + count p l)%nat.
Proof. unfold count. cbn. by destruct (p x). Qed.
Lemma count_le {A} (p : A -> bool) l : (count p l <= length l)%nat.
Proof. induction l as [|x l IH]; [done|]. rewrite count_cons. cbn. destruct (p x); lia. Qed.
Lemma count_none {A} (p : A -> bool) l : (forall x, x ∈ l -> p x = false) -> count p l = 0%nat.
Proof.
  induction l as [|x l IH]; intros Hp; [done|]. rewrite count_cons, Hp by (by left).
  rewrite IH; [done|]. intros y Hy. apply Hp. by right.
Qed.
Lemma count_perm {A} (p : A -> bool) l1 l2 : l1 ≡ₚ l2 -> count p l1 = count p l2.
Proof. induction 1; rewrite ?count_cons in *; lia. Qed.

(** ** Machine integers *)
Definition int64_min : Z := - 2 ^ 63.
Definition int64_max : Z := 2 ^ 63 - 1.
Definition in_int64 (z : Z) : Prop := int64_min <= z <= int64_max.
#[export] Instance in_int64_dec z : Decision (in_int64 z).
Proof. unfold in_int64. apply _. Defined.

(** Wrap-around of an unsigned integer of [w] bits. *)
Definition wrap (w z : Z) : Z := z mod 2 ^ w.

Lemma wrap_id w z : 0 <= z < 2 ^ w -> wrap w z = z.
Proof. apply Z.mod_small. Qed.

(** Linear arithmetic with divisions and remainders by constants. *)
Ltac div_lia := Z.div_mod_to_equations; lia.

(** Packing: a shifted high part and a low part that fits below it. *)
Lemma land_shiftl_small hi lo k : 0 <= k -> 0 <= lo < 2 ^ k -> Z.land (Z.shiftl hi k) lo = 0.
Proof.
  intros Hk Hlo. apply Z.bits_inj'. intros n Hn. rewrite Z.land_spec, Z.bits_0.
  destruct (Z.lt_ge_cases n k).
  - by rewrite Z.shiftl_spec_low by done.
  - rewrite <- (Z.mod_small lo (2 ^ k)) by done.
    rewrite Z.mod_pow2_bits_high by lia. apply andb_false_r.
Qed.

Lemma lor_shiftl hi lo k : 0 <= k -> 0 <= lo < 2 ^ k -> Z.lor (Z.shiftl hi k) lo = hi * 2 ^ k + lo.
Proof.
  intros Hk Hlo. rewrite <- Z.shiftl_mul_pow2 by done. rewrite <- Z.add_lor_land.
  rewrite land_shiftl_small by done. lia.
Qed.

Create HintDb chain.
Create Rewrite HintDb sums.
#[export] Hint Resolve Z.le_refl : chain.
#[export] Hint Rewrite @sum_map_empty : sums.
