(* ===== verification/External.v ===== *)
(** * Interfaces of the code outside the repository

    The chain calls the [fc] submodule ([safe<int64_t>], [to_string],
    [to_uint64], the hash tables' iteration order) and Boost (128-bit integers, rationals,
    multi-index containers).  None of that code is part of the repository, so
    each is a class of operations ([...Ops]) which the model takes as a
    parameter, with a class of laws ([...Laws]) that states the documented
    behaviour the chain relies on.  The module [Ref] gives one concrete
    implementation of each, used to evaluate the model on concrete inputs. *)
From Stdlib Require Import ZArith Lia String Ascii DecimalString DecimalN Decimal.
From stdpp Require Import base gmap list strings sorting.
From S2P Require Import Prelude.

(** ** [fc::safe<int64_t>]: arithmetic that throws on overflow *)
Class SafeOps : Type := {
  safe_add : Z -> Z -> result Z;
  safe_sub : Z -> Z -> result Z;
  safe_mul : Z -> Z -> result Z;
  safe_neg : Z -> result Z;
}.
Class SafeLaws `{SafeOps} : Prop := {
  safe_add_spec a b c : safe_add a b = Ok c <-> c = a + b /\ in_int64 (a + b);
  safe_sub_spec a b c : safe_sub a b = Ok c <-> c = a - b /\ in_int64 (a - b);
  safe_mul_spec a b c : safe_mul a b = Ok c <-> c = a * b /\ in_int64 (a * b);
  safe_neg_spec a c : safe_neg a = Ok c <-> c = - a /\ in_int64 (- a);
}.

(** ** 128-bit unsigned integers ([boost::multiprecision::uint128_t],
    [fc::uint128]).  Only the behaviour inside the range is relied upon. *)
Class U128Ops : Type := {
  u128 : Z -> Z;
  u128_mul : Z -> Z -> Z;
  u128_div : Z -> Z -> result Z;
  u128_add : Z -> Z -> Z;
  u128_sub : Z -> Z -> Z;
  to_uint64 : Z -> result Z;
}.
Class U128Laws `{U128Ops} : Prop := {
  u128_id z : 0 <= z < 2 ^ 128 -> u128 z = z;
  u128_mul_spec a b : 0 <= a -> 0 <= b -> a * b < 2 ^ 128 -> u128_mul a b = a * b;
  u128_div_spec a b : 0 <= a < 2 ^ 128 -> 0 < b < 2 ^ 128 -> u128_div a b = Ok (a / b);
  u128_add_spec a b : 0 <= a -> 0 <= b -> a + b < 2 ^ 128 -> u128_add a b = a + b;
  u128_sub_spec a b : 0 <= b <= a -> a < 2 ^ 128 -> u128_sub a b = a - b;
  to_uint64_spec z : 0 <= z < 2 ^ 64 -> to_uint64 z = Ok z;
  to_uint64_in_range z n : to_uint64 z = Ok n -> 0 <= n < 2 ^ 64;
}.

(** [fc::uint128 r(a); r *= p; r /= d; r.to_uint64()]: the proportions of fees
    and volumes, with a 128-bit intermediate product. *)
Definition u128_ratio `{U128Ops} (a p d : Z) : result Z :=
  match u128_div (u128_mul (u128 a) p) d with
  | Ok r => to_uint64 r
  | Throw e => Throw e
  end.
Lemma u128_ratio_spec `{U128Laws} a p d :
  0 <= a < 2 ^ 64 -> 0 <= p < 2 ^ 63 -> 0 < d < 2 ^ 63 -> a * p / d < 2 ^ 64 ->
  u128_ratio a p d = Ok (a * p / d).
Proof.
  intros Ha Hp Hd Hr. unfold u128_ratio.
  rewrite u128_id, u128_mul_spec, u128_div_spec by nia.
  apply to_uint64_spec. split; [apply Z.div_pos; nia | done].
Qed.
Lemma ratio_le a p d : 0 <= a -> 0 <= p <= d -> 0 < d -> 0 <= a * p / d <= a.
Proof.
  intros. split; [apply Z.div_pos; nia|]. apply Z.div_le_upper_bound; nia.
Qed.

(** ** [boost::rational<int128_t>]: a numerator and a positive denominator
    in lowest terms; a zero denominator throws [bad_rational]. *)
Class RationalOps : Type := {
  rational : Z -> Z -> result (Z * Z);
  rational_mul : Z * Z -> Z * Z -> Z * Z;
}.
Definition lowest_terms (p q : Z) : Prop := 0 < q /\ Z.gcd p q = 1.
Class RationalLaws `{RationalOps} : Prop := {
  rational_spec n d : Z.abs n < 2 ^ 127 -> 0 < d < 2 ^ 127 ->
    exists p q, rational n d = Ok (p, q) /\ p * d = n * q /\ lowest_terms p q;
  rational_zero n : is_ok (rational n 0) = false;
  rational_mul_spec p1 q1 p2 q2 : lowest_terms p1 q1 -> lowest_terms p2 q2 ->
    Z.abs (p1 * p2) < 2 ^ 127 -> q1 * q2 < 2 ^ 127 ->
    exists p q, rational_mul (p1, q1) (p2, q2) = (p, q)
      /\ p * (q1 * q2) = (p1 * p2) * q /\ lowest_terms p q;
}.

(** ** Containers.  [ordered lt l] is the traversal of an [ordered_unique]
    view of a multi-index container that holds [l], by the comparison [lt];
    [hashed l] is the traversal of an [unordered_map]/[unordered_set] that
    holds [l], whose order the standard leaves open. *)
Class IndexOps : Type := {
  ordered : forall {A : Type}, (A -> A -> bool) -> list A -> list A;
  hashed : forall {A : Type}, list A -> list A;
}.
Definition strict_order_on {A} (lt : A -> A -> bool) (l : list A) : Prop :=
  (forall x, x ∈ l -> lt x x = false) /\
  (forall x y z, x ∈ l -> y ∈ l -> z ∈ l -> lt x y = true -> lt y z = true -> lt x z = true) /\
  (forall x y, x ∈ l -> y ∈ l -> x <> y -> lt x y = true \/ lt y x = true).
Lemma strict_order_on_incl {A} (lt : A -> A -> bool) (l l' : list A) :
  (forall x, x ∈ l' -> x ∈ l) -> strict_order_on lt l -> strict_order_on lt l'.
Proof. intros Hi (Hirr & Htr & Htot). repeat split; eauto. Qed.

Class IndexLaws `{IndexOps} : Prop := {
  ordered_perm {A} (lt : A -> A -> bool) l : ordered lt l ≡ₚ l;
  ordered_sorted {A} (lt : A -> A -> bool) l :
    NoDup l -> strict_order_on lt l -> StronglySorted (fun x y => lt x y = true) (ordered lt l);
  hashed_perm {A} (l : list A) : hashed l ≡ₚ l;
}.

(** [std::nth_element( l, l + n, end )]: the list it leaves.  The element at [n]
    is the one sorting would put there; which of several equivalent ones it is,
    and how the rest is arranged, is open. *)
Class NthOps : Type := nth_element : forall {A : Type}, (A -> A -> bool) -> nat -> list A -> list A.
Class NthLaws `{NthOps} : Prop := {
  nth_element_perm {A} (lt : A -> A -> bool) n l : nth_element lt n l ≡ₚ l;
  nth_element_split {A} (lt : A -> A -> bool) n l l1 x l2 :
    (forall y z, y ∈ l -> z ∈ l -> lt y z = true -> lt z y = false) ->
    (forall y z w, y ∈ l -> z ∈ l -> w ∈ l -> lt y w = true -> lt y z = true \/ lt z w = true) ->
    nth_element lt n l = l1 ++ x :: l2 -> length l1 = n ->
    (forall y, y ∈ l1 -> lt x y = false) /\ (forall y, y ∈ l2 -> lt y x = false);
}.

(** ** Times: [fc::time_point_sec] counts seconds in 32 bits. *)
Class TimeOps : Type := time_add : Z -> Z -> Z.
Class TimeLaws `{TimeOps} : Prop :=
  time_add_spec t n : 0 <= t -> 0 <= n -> t + n < 2 ^ 32 -> time_add t n = t + n.

(** ** Decimal text ([fc::to_string(uint64_t)], [fc::to_uint64]) *)
Class TextOps : Type := {
  fc_to_string : Z -> string;
  fc_to_uint64 : string -> result Z;
}.
Definition dot : ascii := "."%char.
Fixpoint has_char (c : ascii) (s : string) : bool :=
  match s with
  | EmptyString => false
  | String a s' => Ascii.eqb a c || has_char c s'
  end.
Class TextLaws `{TextOps} : Prop := {
  to_uint64_to_string n : 0 <= n < 2 ^ 64 -> fc_to_uint64 (fc_to_string n) = Ok n;
  to_string_no_dot n : has_char dot (fc_to_string n) = false;
  to_string_nonempty n : fc_to_string n <> ""%string;
  to_uint64_range s n : fc_to_uint64 s = Ok n -> 0 <= n < 2 ^ 64;
}.

(** ** [fc::to_string(int64_t)]: decimal notation *)
Class Int64TextOps : Type := int64_to_string : Z -> string.
Definition digit (c : ascii) : option Z :=
  let n := Z.of_N (N_of_ascii c) - 48 in if (0 <=? n) && (n <=? 9) then Some n else None.
(** The value of digits, from the most significant one. *)
Fixpoint digits_value (acc : Z) (l : list ascii) : option Z :=
  match l with
  | [] => Some acc
  | c :: l' => match digit c with Some d => digits_value (10 * acc + d) l' | None => None end
  end.
Class Int64TextLaws `{Int64TextOps} : Prop := {
  int64_text_value n : 0 <= n < 2 ^ 63 -> digits_value 0 (list_ascii_of_string (int64_to_string n)) = Some n;
  int64_text_length n k : 0 < n < 2 ^ 63 -> 10 ^ Z.of_nat k <= n < 10 ^ Z.of_nat (S k) -> String.length (int64_to_string n) = S k;
  int64_text_nonempty n : int64_to_string n <> ""%string;
  int64_text_negative n : 0 < n < 2 ^ 63 -> int64_to_string (- n) = String "-" (int64_to_string n);
}.

(** ** A concrete implementation of each interface *)
Module Ref.
Definition checked (z : Z) : result Z :=
  if bool_decide (in_int64 z) then Ok z else Throw "integer overflow".

#[export] Instance safe_ops : SafeOps := {
  safe_add a b := checked (a + b);
  safe_sub a b := checked (a - b);
  safe_mul a b := checked (a * b);
  safe_neg a := checked (- a);
}.

Lemma checked_spec z c : checked z = Ok c <-> c = z /\ in_int64 z.
Proof.
  unfold checked. case_bool_decide; split.
  - by intros [= <-].
  - by intros [-> _].
  - discriminate.
  - by intros [_ ?].
Qed.

#[export] Instance safe_laws : SafeLaws.
Proof. split; intros; apply checked_spec. Qed.

#[export] Instance u128_ops : U128Ops := {
  u128 z := wrap 128 z;
  u128_mul a b := wrap 128 (a * b);
  u128_div a b := if Z.eqb b 0 then Throw "division by zero" else Ok (a / b);
  u128_add a b := wrap 128 (a + b);
  u128_sub a b := wrap 128 (a - b);
  to_uint64 z := if (0 <=? z) && (z <? 2 ^ 64) then Ok z else Throw "to_uint64";
}.

#[export] Instance u128_laws : U128Laws.
Proof.
  split; intros; cbn.
  - by apply wrap_id.
  - apply wrap_id; nia.
  - by rewrite (proj2 (Z.eqb_neq b 0)) by lia.
  - apply wrap_id; lia.
  - apply wrap_id; lia.
  - by rewrite (proj2 (Z.leb_le 0 z)), (proj2 (Z.ltb_lt z (2 ^ 64))) by lia.
  - match goal with E : to_uint64 z = Ok n |- _ => cbn in E; destruct (Z.leb_spec 0 z), (Z.ltb_spec z (2 ^ 64)); cbn in E end;
      by simplify_eq.
Qed.

Definition reduce (n d : Z) : Z * Z :=
  let g := Z.gcd n d in (Z.sgn d * (n / g), Z.abs d / g).

#[export] Instance rational_ops : RationalOps := {
  rational n d := if Z.eqb d 0 then Throw "bad_rational" else Ok (reduce n d);
  rational_mul x y := reduce (x.1 * y.1) (x.2 * y.2);
}.

Lemma reduce_spec n d : 0 < d ->
  exists p q, reduce n d = (p, q) /\ p * d = n * q /\ lowest_terms p q.
Proof.
  intros Hd. exists (n / Z.gcd n d), (d / Z.gcd n d). unfold reduce, lowest_terms.
  rewrite Z.sgn_pos, Z.abs_eq, Z.mul_1_l by lia.
  destruct (Z.gcd_divide_l n d) as [a Ha], (Z.gcd_divide_r n d) as [b Hb].
  pose proof (Z.gcd_nonneg n d).
  assert (Hg : Z.gcd n d <> 0) by (rewrite Z.gcd_eq_0; lia).
  split; [done|]. repeat split.
  - clear -Ha Hb Hg. set (g := Z.gcd n d) in *. clearbody g. subst n d.
    rewrite !Z.div_mul by done. ring.
  - apply Z.div_str_pos. split; [lia|]. apply Z.divide_pos_le; [done|apply Z.gcd_divide_r].
  - by apply Z.gcd_div_gcd.
Qed.

#[export] Instance rational_laws : RationalLaws.
Proof.
  split; cbn.
  - intros n d _ Hd. rewrite (proj2 (Z.eqb_neq d 0)) by lia.
    destruct (reduce_spec n d) as (p & q & -> & ?); [lia|]. eauto.
  - done.
  - intros p1 q1 p2 q2 [? _] [? _] _ _. apply reduce_spec. nia.
Qed.

(** Insertion sort: stable, and sorted when [lt] is a strict total order. *)
Fixpoint insert_sorted {A} (lt : A -> A -> bool) (x : A) (l : list A) : list A :=
  match l with
  | [] => [x]
  | y :: l' => if lt x y then x :: l else y :: insert_sorted lt x l'
  end.
Fixpoint isort {A} (lt : A -> A -> bool) (l : list A) : list A :=
  match l with [] => [] | x :: l' => insert_sorted lt x (isort lt l') end.

#[export] Instance index_ops : IndexOps := { ordered A lt l := isort lt l; hashed A l := l }.

Lemma insert_sorted_perm {A} (lt : A -> A -> bool) x l : insert_sorted lt x l ≡ₚ x :: l.
Proof.
  induction l as [|y l IH]; cbn; [done|]. destruct (lt x y); [done|].
  rewrite IH. apply Permutation_swap.
Qed.

Lemma isort_perm {A} (lt : A -> A -> bool) l : isort lt l ≡ₚ l.
Proof. induction l as [|x l IH]; cbn; [done|]. by rewrite insert_sorted_perm, IH. Qed.

Lemma insert_sorted_sorted {A} (lt : A -> A -> bool) x l :
  x ∉ l -> strict_order_on lt (x :: l) ->
  StronglySorted (fun x y => lt x y = true) l ->
  StronglySorted (fun x y => lt x y = true) (insert_sorted lt x l).
Proof.
  intros Hx Ho Hs. induction l as [|y l IH]; cbn; [by repeat constructor|].
  pose proof Ho as (Hirr & Htr & Htot).
  apply StronglySorted_inv in Hs as [Hs Hy].
  destruct (lt x y) eqn:Hxy.
  - constructor; [by constructor|]. constructor; [done|].
    rewrite Forall_forall in Hy |- *. intros z Hz.
    apply (Htr x y z); first [set_solver | done | by apply Hy].
  - assert (Hyx : lt y x = true).
    { assert (Hne : x <> y) by set_solver.
      destruct (Htot x y ltac:(set_solver) ltac:(set_solver) Hne); congruence. }
    constructor.
    + apply IH; [set_solver| |done].
      apply (strict_order_on_incl lt (x :: y :: l)); [set_solver|done].
    + rewrite Forall_forall in Hy |- *. intros z Hz.
      rewrite insert_sorted_perm in Hz. apply elem_of_cons in Hz as [->|Hz]; auto.
Qed.

Lemma isort_sorted {A} (lt : A -> A -> bool) l :
  NoDup l -> strict_order_on lt l ->
  StronglySorted (fun x y => lt x y = true) (isort lt l).
Proof.
  induction l as [|x l IH]; cbn; [constructor|]. intros [Hx Hnd]%NoDup_cons Ho.
  apply insert_sorted_sorted.
  - by rewrite isort_perm.
  - eapply strict_order_on_incl; [|exact Ho]. intros z. set_unfold. by rewrite isort_perm.
  - apply IH; [done|]. eapply strict_order_on_incl; [|exact Ho]. set_solver.
Qed.

#[export] Instance index_laws : IndexLaws.
Proof.
  split; cbn; intros; [apply isort_perm | by apply isort_sorted | done].
Qed.

#[export] Instance time_ops : TimeOps := fun t n => wrap 32 (t + n).
#[export] Instance time_laws : TimeLaws.
Proof. intros t n ? ? ?. apply wrap_id. lia. Qed.

#[export] Instance nth_ops : NthOps := fun A lt n l => isort lt l.
Lemma insert_sorted_weak {A} (lt : A -> A -> bool) x l :
  (forall y z, y ∈ x :: l -> z ∈ x :: l -> lt y z = true -> lt z y = false) ->
  (forall y z w, y ∈ x :: l -> z ∈ x :: l -> w ∈ x :: l -> lt y w = true -> lt y z = true \/ lt z w = true) ->
  StronglySorted (fun y z => lt z y = false) l ->
  StronglySorted (fun y z => lt z y = false) (insert_sorted lt x l).
Proof.
  induction l as [|y l IH]; cbn; intros Ha Hc Hs; [by repeat constructor|].
  apply StronglySorted_inv in Hs as [Hs Hy]. rewrite Forall_forall in Hy.
  destruct (lt x y) eqn:Hxy.
  - constructor; [constructor; [done|by rewrite Forall_forall]|]. rewrite Forall_forall.
    intros z [->|Hz]%elem_of_cons; [by apply Ha; [set_solver..|]|].
    apply not_true_is_false. intros L. destruct (Hc z y x ltac:(set_solver) ltac:(set_solver) ltac:(set_solver) L) as [L'|L'].
    + rewrite Hy in L'; done.
    + rewrite (Ha x y) in L' by (done || set_solver). done.
  - constructor.
    + apply IH; [| |done].
      * intros z w Hz Hw. apply Ha; set_solver.
      * intros z w v Hz Hw Hv. apply Hc; set_solver.
    + rewrite Forall_forall. intros z. rewrite insert_sorted_perm. intros [->|Hz]%elem_of_cons; auto.
Qed.
Lemma isort_weak {A} (lt : A -> A -> bool) l :
  (forall y z, y ∈ l -> z ∈ l -> lt y z = true -> lt z y = false) ->
  (forall y z w, y ∈ l -> z ∈ l -> w ∈ l -> lt y w = true -> lt y z = true \/ lt z w = true) ->
  StronglySorted (fun y z => lt z y = false) (isort lt l).
Proof.
  induction l as [|x l IH]; cbn; intros Ha Hc; [constructor|].
  assert (Hin : forall y, y ∈ x :: isort lt l -> y ∈ x :: l) by (intros y; by rewrite isort_perm).
  apply insert_sorted_weak.
  - intros y z Hy Hz. apply Ha; auto.
  - intros y z w Hy Hz Hw. apply Hc; auto.
  - apply IH; intros; [apply Ha|apply Hc]; set_solver.
Qed.
#[export] Instance nth_laws : NthLaws.
Proof.
  split; unfold nth_element, nth_ops.
  - intros. apply isort_perm.
  - intros A lt n l l1 x l2 Ha Hc E _.
    pose proof (isort_weak lt l Ha Hc) as Hs. rewrite E in Hs. by apply sorted_app_inv in Hs.
Qed.

#[export] Instance text_ops : TextOps := {
  fc_to_string n := NilEmpty.string_of_uint (N.to_uint (Z.to_N n));
  fc_to_uint64 s :=
    match NilZero.uint_of_string s with
    | Some d => let n := Z.of_N (N.of_uint d) in
                if n <? 2 ^ 64 then Ok n else Throw "overflow"
    | None => Throw "parse error"
    end;
}.

Lemma string_of_uint_no_dot d : has_char dot (NilEmpty.string_of_uint d) = false.
Proof. induction d; cbn; auto. Qed.

Lemma to_uint_nonnil n : N.to_uint n <> Decimal.Nil.
Proof. destruct n; cbn; [done|]. apply DecimalPos.Unsigned.to_uint_nonnil. Qed.

#[export] Instance text_laws : TextLaws.
Proof.
  split; cbn.
  - intros n Hn.
    pose proof (to_uint_nonnil (Z.to_N n)) as Hnn.
    replace (NilZero.uint_of_string _) with (Some (N.to_uint (Z.to_N n))).
    { rewrite DecimalN.Unsigned.of_to. rewrite Z2N.id by lia.
      by rewrite (proj2 (Z.ltb_lt n (2 ^ 64))) by lia. }
    symmetry. rewrite <- (NilZero.usu (N.to_uint (Z.to_N n)) Hnn). f_equal.
    destruct (N.to_uint (Z.to_N n)); done.
  - intros n. apply string_of_uint_no_dot.
  - intros n. pose proof (to_uint_nonnil (Z.to_N n)). by destruct (N.to_uint _).
  - intros s n. destruct (NilZero.uint_of_string s) as [d|]; [|done].
    destruct (Z.ltb_spec (Z.of_N (N.of_uint d)) (2 ^ 64)); [|done]. intros [= <-]. lia.
Qed.

(** Decimal digits. *)
Definition digit_char (d : Z) : ascii := ascii_of_N (Z.to_N (48 + d)).
Fixpoint digits_of (fuel : nat) (n : Z) : list ascii :=
  match fuel with
  | O => []
  | S fuel' => (if n <? 10 then [] else digits_of fuel' (n / 10)) ++ [digit_char (n mod 10)]
  end.
Definition int64_text_ops : Int64TextOps := fun n =>
  let t := string_of_list_ascii (digits_of 20 (Z.abs n)) in if n <? 0 then String "-" t else t.

Lemma digit_digit_char d : 0 <= d < 10 -> digit (digit_char d) = Some d.
Proof.
  intros Hd. assert (H : forallb (fun n => bool_decide (digit (digit_char (Z.of_nat n)) = Some (Z.of_nat n))) (seq 0 10) = true)
    by reflexivity.
  rewrite forallb_forall in H. specialize (H (Z.to_nat d)). rewrite bool_decide_eq_true, Z2Nat.id in H by lia.
  apply H, in_seq. lia.
Qed.
Lemma digits_value_app acc l1 l2 :
  digits_value acc (l1 ++ l2) = match digits_value acc l1 with Some n => digits_value n l2 | None => None end.
Proof. revert acc. induction l1 as [|c l1 IH]; intros acc; cbn; [done|]. destruct (digit c); [apply IH|done]. Qed.
Lemma digits_of_S fuel n :
  digits_of (S fuel) n = (if n <? 10 then [] else digits_of fuel (n / 10)) ++ [digit_char (n mod 10)].
Proof. done. Qed.
Lemma digits_of_value fuel n :
  0 <= n < 10 ^ Z.of_nat (S fuel) -> digits_value 0 (digits_of (S fuel) n) = Some n.
Proof.
  revert n. induction fuel as [|fuel IH]; intros n Hn; rewrite digits_of_S.
  - change (10 ^ Z.of_nat 1) with 10 in Hn. rewrite (proj2 (Z.ltb_lt n 10)), Z.mod_small by lia. cbn [app digits_value].
    by rewrite digit_digit_char by lia.
  - rewrite digits_value_app. destruct (Z.ltb_spec n 10) as [Hs|Hs].
    + cbn [digits_value]. by rewrite Z.mod_small, digit_digit_char by lia.
    + rewrite IH.
      * cbn [digits_value]. rewrite digit_digit_char by (apply Z.mod_pos_bound; lia). f_equal.
        pose proof (Z.div_mod n 10). lia.
      * split; [apply Z.div_pos; lia|]. apply Z.div_lt_upper_bound; [lia|].
        rewrite Nat2Z.inj_succ, Z.pow_succ_r in Hn by lia. lia.
Qed.
Lemma digits_of_length fuel n k :
  (k < fuel)%nat -> 0 < n -> 10 ^ Z.of_nat k <= n < 10 ^ Z.of_nat (S k) -> length (digits_of fuel n) = S k.
Proof.
  revert n k. induction fuel as [|fuel IH]; intros n k Hk Hn Hb; [lia|]. cbn [digits_of]. rewrite length_app. cbn [length].
  rewrite Nat2Z.inj_succ, Z.pow_succ_r in Hb by lia.
  destruct (Z.ltb_spec n 10) as [Hs|Hs]; destruct k as [|k]; cbn [length] in *; try lia.
  - rewrite Nat2Z.inj_succ, Z.pow_succ_r in Hb by lia. pose proof (Z.pow_pos_nonneg 10 (Z.of_nat k)). lia.
  - rewrite (IH (n / 10) k); [lia|lia|apply Z.div_str_pos; lia|].
    rewrite Nat2Z.inj_succ, Z.pow_succ_r in * by lia.
    split; [apply Z.div_le_lower_bound; lia|apply Z.div_lt_upper_bound; lia].
Qed.
Lemma length_of_list l : String.length (string_of_list_ascii l) = length l.
Proof. induction l; cbn; congruence. Qed.
Lemma int64_text_laws : @Int64TextLaws int64_text_ops.
Proof.
  assert (Hlt : forall k, 10 ^ Z.of_nat k < 2 ^ 63 -> (k < 20)%nat).
  { intros k Hk. destruct (Nat.lt_ge_cases k 20) as [|Hge]; [done|]. exfalso.
    pose proof (Z.pow_le_mono_r 10 20 (Z.of_nat k) ltac:(lia) ltac:(lia)). lia. }
  split; unfold int64_to_string, int64_text_ops.
  - intros n Hn. rewrite (proj2 (Z.ltb_ge n 0)), Z.abs_eq, list_ascii_of_string_of_list_ascii by lia.
    apply digits_of_value. change (10 ^ Z.of_nat 20) with 100000000000000000000. lia.
  - intros n k Hn Hk. rewrite (proj2 (Z.ltb_ge n 0)), Z.abs_eq, length_of_list by lia.
    apply digits_of_length; [apply Hlt; lia|lia|done].
  - intros n. destruct (n <? 0); [done|]. cbn [digits_of]. by destruct (if _ <? 10 then _ else _).
  - intros n Hn. rewrite (proj2 (Z.ltb_lt (- n) 0)), (proj2 (Z.ltb_ge n 0)) by lia. by rewrite Z.abs_opp.
Qed.
End Ref.
