(* ===== verification/ObjectId.v ===== *)
(** * Object identifiers ([libraries/db/include/graphene/db/object_id.hpp])

    An [object_id_type] is one [uint64_t] that packs a space (8 bits), a type
    (8 bits) and an instance (48 bits); its text form is
    ["space.type.instance"].  The model keeps the number as a [Z] and the
    shifts and masks of the source. *)
From Stdlib Require Import ZArith Lia String Ascii.
From stdpp Require Import base strings.
From S2P Require Import Prelude External.

Module ObjectId.

Notation object_id_type := Z (only parsing).
Definition GRAPHENE_DB_MAX_INSTANCE_ID : Z := Z.shiftr (wrap 64 (-1)) 16.

(** The constructor [object_id_type( s, t, i )]. *)
Definition object_id (s t i : Z) : result object_id_type :=
  if Z.shiftr i 48 =? 0
  then Ok (Z.lor (Z.lor (Z.shiftl s 56) (Z.shiftl t 48)) i)
  else Throw "instance overflow".

Definition space (n : object_id_type) : Z := wrap 8 (Z.shiftr n 56).
Definition type (n : object_id_type) : Z := wrap 8 (Z.land (Z.shiftr n 48) 0xff).
Definition space_type (n : object_id_type) : Z := wrap 16 (Z.shiftr n 48).
Definition instance (n : object_id_type) : Z := Z.land n GRAPHENE_DB_MAX_INSTANCE_ID.
Definition is_null (n : object_id_type) : bool := n =? 0.
Definition id_lt (a b : object_id_type) : bool := a <? b.
(** [operator++]. *)
Definition succ (n : object_id_type) : object_id_type := wrap 64 (n + 1).
(** [operator+( const object_id_type&, int64_t )]. *)
Definition add (a : object_id_type) (delta : Z) : result object_id_type :=
  object_id (space a) (type a) (wrap 64 (instance a + delta)).
(** [is<T>()] and [as<T>()] for a [T] with the given [space_id] and [type_id]. *)
Definition is_a (space_id type_id : Z) (n : object_id_type) : bool :=
  Z.shiftr n 48 =? Z.lor (Z.shiftl space_id 8) type_id.
Definition as_a (space_id type_id : Z) (n : object_id_type) : result Z :=
  if is_a space_id type_id n then Ok (instance n) else Throw "is<T>()".

(** ** Text form *)
Section Text.
Context `{TextOps}.

(** [operator std::string()] and [to_variant]. *)
Definition to_text (n : object_id_type) : string :=
  (fc_to_string (space n) ++ "." ++ fc_to_string (type n) ++ "." ++ fc_to_string (instance n))%string.

(** [std::string::find] and [substr] on [size_t] positions. *)
Definition npos : Z := 2 ^ 64 - 1.
Fixpoint index_of (c : ascii) (s : string) : option nat :=
  match s with
  | EmptyString => None
  | String a s' => if Ascii.eqb a c then Some 0%nat else S <$> index_of c s'
  end.
Fixpoint drop (n : nat) (s : string) : string :=
  match n, s with
  | O, _ => s
  | S n', String _ s' => drop n' s'
  | S _, EmptyString => EmptyString
  end.
Definition find (s : string) (c : ascii) (pos : Z) : Z :=
  if Z.of_nat (String.length s) <? pos then npos
  else match index_of c (drop (Z.to_nat pos) s) with
       | Some i => pos + Z.of_nat i
       | None => npos
       end.
Definition substr (s : string) (pos len : Z) : result string :=
  if Z.of_nat (String.length s) <? pos then Throw "out_of_range"
  else let rest := drop (Z.to_nat pos) s in
       Ok (substring 0 (Z.to_nat (Z.min len (Z.of_nat (String.length rest)))) rest).

(** [from_variant( const fc::variant&, object_id_type& )]. *)
Definition from_text (s : string) : result object_id_type :=
  let first_dot := find s dot 0 in
  let second_dot := find s dot (wrap 64 (first_dot + 1)) in
  _ ← fc_assert (negb (first_dot =? second_dot)) "first_dot != second_dot";
  _ ← fc_assert (negb (first_dot =? 0) && negb (first_dot =? npos)) "first_dot";
  inst_text ← substr s (wrap 64 (second_dot + 1)) npos;
  number ← fc_to_uint64 inst_text;
  _ ← fc_assert (number <=? GRAPHENE_DB_MAX_INSTANCE_ID) "instance";
  space_text ← substr s 0 first_dot;
  space_id ← fc_to_uint64 space_text;
  _ ← fc_assert (space_id <=? 0xff) "space_id";
  type_text ← substr s (wrap 64 (first_dot + 1)) (wrap 64 (second_dot - first_dot - 1));
  type_id ← fc_to_uint64 type_text;
  _ ← fc_assert (type_id <=? 0xff) "type_id";
  mret (Z.lor number (Z.lor (Z.shiftl space_id 56) (Z.shiftl type_id 48))).
End Text.

(** ** Packing *)
Lemma pack_value s t i :
  0 <= t < 2 ^ 8 -> 0 <= i < 2 ^ 48 ->
  Z.lor (Z.lor (Z.shiftl s 56) (Z.shiftl t 48)) i = (s * 2 ^ 8 + t) * 2 ^ 48 + i.
Proof.
  intros Ht Hi.
  replace (Z.shiftl s 56) with (Z.shiftl (Z.shiftl s 8) 48) by (by rewrite Z.shiftl_shiftl).
  rewrite <- Z.shiftl_lor, lor_shiftl by lia. by rewrite lor_shiftl by lia.
Qed.

Lemma object_id_ok s t i :
  0 <= t < 2 ^ 8 -> 0 <= i < 2 ^ 48 -> object_id s t i = Ok ((s * 2 ^ 8 + t) * 2 ^ 48 + i).
Proof.
  intros Ht Hi. unfold object_id.
  replace (Z.shiftr i 48) with 0 by (rewrite Z.shiftr_div_pow2 by lia; symmetry; by apply Z.div_small).
  cbn. by rewrite pack_value.
Qed.

Lemma instance_mod n : instance n = n mod 2 ^ 48.
Proof. unfold instance. change GRAPHENE_DB_MAX_INSTANCE_ID with (Z.ones 48). by apply Z.land_ones. Qed.

Lemma type_value n : type n = (n / 2 ^ 48) mod 2 ^ 8.
Proof.
  unfold type, wrap. change 0xff with (Z.ones 8). rewrite Z.land_ones, Z.shiftr_div_pow2 by lia.
  by rewrite Z.mod_mod by lia.
Qed.

Lemma space_value n : space n = (n / 2 ^ 56) mod 2 ^ 8.
Proof. unfold space, wrap. by rewrite Z.shiftr_div_pow2. Qed.

Lemma components s t i :
  0 <= s < 2 ^ 8 -> 0 <= t < 2 ^ 8 -> 0 <= i < 2 ^ 48 ->
  let n := (s * 2 ^ 8 + t) * 2 ^ 48 + i in
  0 <= n < 2 ^ 64 /\ space n = s /\ type n = t /\ instance n = i.
Proof.
  intros Hs Ht Hi n.
  assert (Hn : n / 2 ^ 48 = s * 2 ^ 8 + t).
  { unfold n. rewrite Z.div_add_l by lia. rewrite (Z.div_small i) by lia. lia. }
  split; [unfold n; lia|]. rewrite space_value, type_value, instance_mod, Hn.
  change (2 ^ 56) with (2 ^ 48 * 2 ^ 8). rewrite <- Z.div_div, Hn by lia.
  rewrite Z.div_add_l, (Z.div_small t), Z.add_0_r by lia.
  repeat split.
  - by apply Z.mod_small.
  - rewrite Z.add_comm, Z.mod_add by lia. by apply Z.mod_small.
  - unfold n. rewrite Z.add_comm, Z.mod_add by lia. by apply Z.mod_small.
Qed.

Lemma split_number n :
  0 <= n < 2 ^ 64 -> 0 <= space n < 2 ^ 8 /\ 0 <= type n < 2 ^ 8 /\ 0 <= instance n < 2 ^ 48
    /\ n = (space n * 2 ^ 8 + type n) * 2 ^ 48 + instance n.
Proof.
  intros Hn. rewrite space_value, type_value, instance_mod.
  pose proof (Z.mod_pos_bound (n / 2 ^ 56) (2 ^ 8)).
  pose proof (Z.mod_pos_bound (n / 2 ^ 48) (2 ^ 8)).
  pose proof (Z.mod_pos_bound n (2 ^ 48)).
  split_and!; try lia.
  change (2 ^ 56) with (2 ^ 48 * 2 ^ 8). rewrite <- Z.div_div by lia.
  rewrite (Z.mod_small (n / 2 ^ 48 / 2 ^ 8)).
  2: { split; [repeat apply Z.div_pos; lia|]. repeat apply Z.div_lt_upper_bound; lia. }
  pose proof (Z.div_mod (n / 2 ^ 48) (2 ^ 8)). pose proof (Z.div_mod n (2 ^ 48)). lia.
Qed.
#[export] Hint Resolve object_id_ok components : chain.

(** ** Strings *)
Lemma length_app_str a b : String.length (a ++ b)%string = (String.length a + String.length b)%nat.
Proof. induction a as [|x a IH]; [done|]. exact (f_equal S IH). Qed.

Lemma app_assoc_str a b c : ((a ++ b) ++ c)%string = (a ++ (b ++ c))%string.
Proof. induction a as [|x a IH]; [done|exact (f_equal (String x) IH)]. Qed.

Lemma drop_app a b : drop (String.length a) (a ++ b)%string = b.
Proof. induction a as [|x a IH]; [by destruct b|exact IH]. Qed.

Lemma index_of_app c a b :
  has_char c a = false -> index_of c (a ++ String c b)%string = Some (String.length a).
Proof.
  induction a as [|x a IH]; intros Ha.
  - change (index_of c ("" ++ String c b)%string)
      with (if Ascii.eqb c c then Some 0%nat else S <$> index_of c b).
    by rewrite Ascii.eqb_refl.
  - change (Ascii.eqb x c || has_char c a = false) in Ha.
    apply orb_false_iff in Ha as [Hx Ha].
    change (index_of c (String x a ++ String c b)%string)
      with (if Ascii.eqb x c then Some 0%nat else S <$> index_of c (a ++ String c b)%string).
    by rewrite Hx, IH.
Qed.

Lemma substring_app a b : substring 0 (String.length a) (a ++ b)%string = a.
Proof. induction a as [|x a IH]; [by destruct b|exact (f_equal (String x) IH)]. Qed.

Lemma substring_all a : substring 0 (String.length a) a = a.
Proof. induction a as [|x a IH]; [done|exact (f_equal (String x) IH)]. Qed.

Lemma app_cons_dot a b : (a ++ "." ++ b)%string = (a ++ String dot b)%string.
Proof. done. Qed.

(** [find] of the first dot at or after the end of a prefix. *)
Lemma find_after pre a b :
  has_char dot a = false ->
  find (pre ++ a ++ String dot b)%string dot (Z.of_nat (String.length pre))
    = Z.of_nat (String.length pre) + Z.of_nat (String.length a).
Proof.
  intros Ha. unfold find. rewrite length_app_str.
  rewrite (proj2 (Z.ltb_ge _ _)) by lia. rewrite Nat2Z.id, drop_app.
  by rewrite index_of_app.
Qed.

Lemma substr_mid pre a b :
  substr (pre ++ a ++ b)%string (Z.of_nat (String.length pre)) (Z.of_nat (String.length a)) = Ok a.
Proof.
  unfold substr. rewrite length_app_str. rewrite (proj2 (Z.ltb_ge _ _)) by lia.
  rewrite Nat2Z.id, drop_app, length_app_str. rewrite Z.min_l by lia.
  by rewrite Nat2Z.id, substring_app.
Qed.

Lemma substr_rest pre a :
  Z.of_nat (String.length a) < npos ->
  substr (pre ++ a)%string (Z.of_nat (String.length pre)) npos = Ok a.
Proof.
  intros Hl. unfold substr. rewrite length_app_str. rewrite (proj2 (Z.ltb_ge _ _)) by lia.
  rewrite Nat2Z.id, drop_app. rewrite Z.min_r by lia. by rewrite Nat2Z.id, substring_all.
Qed.

(** Where the two dots and the three fields of ["A.B.C"] are. *)
Lemma text_fields A B C :
  has_char dot A = false -> has_char dot B = false ->
  let s := (A ++ String dot (B ++ String dot C))%string in
  let a := Z.of_nat (String.length A) in let b := Z.of_nat (String.length B) in
  Z.of_nat (String.length C) < npos ->
  find s dot 0 = a /\ find s dot (a + 1) = a + 1 + b
  /\ substr s 0 a = Ok A /\ substr s (a + 1) b = Ok B /\ substr s (a + 1 + b + 1) npos = Ok C.
Proof.
  intros HA HB s a b HC.
  assert (Ha : Z.of_nat (String.length (A ++ String dot "")%string) = a + 1)
    by (rewrite length_app_str; cbn [String.length]; lia).
  assert (Hb : Z.of_nat (String.length ((A ++ String dot "") ++ B ++ String dot "")%string)
               = a + 1 + b + 1)
    by (rewrite !length_app_str in *; cbn [String.length] in *; lia).
  assert (E1 : s = ((A ++ String dot "") ++ B ++ String dot C)%string)
    by (unfold s; by rewrite app_assoc_str).
  assert (E2 : s = (((A ++ String dot "") ++ B ++ String dot "") ++ C)%string)
    by (rewrite E1, !app_assoc_str; done).
  split_and!.
  - exact (find_after "" A _ HA).
  - rewrite E1, <- Ha. exact (find_after _ B _ HB).
  - exact (substr_mid "" A _).
  - rewrite E1, <- Ha. exact (substr_mid _ B _).
  - rewrite E2, <- Hb. by apply substr_rest.
Qed.

(** ** Properties *)

(** Packing is a bijection between the [uint64] numbers and the triples of
    a space and a type below 256 and an instance below 2^48, an instance that
    does not fit throws, and the order of the numbers is the lexicographic
    order of the triples. *)
Theorem object_id_bijection :
  (forall s t i, 0 <= s < 256 -> 0 <= t < 256 -> 0 <= i < 2 ^ 48 ->
     exists n, object_id s t i = Ok n /\ 0 <= n < 2 ^ 64
       /\ space n = s /\ type n = t /\ instance n = i)
  /\ (forall s t i, 2 ^ 48 <= i -> is_ok (object_id s t i) = false)
  /\ (forall n, 0 <= n < 2 ^ 64 -> object_id (space n) (type n) (instance n) = Ok n)
  /\ (forall n m, 0 <= n < 2 ^ 64 -> 0 <= m < 2 ^ 64 ->
     id_lt n m = true <->
       (space n < space m \/ space n = space m /\ (type n < type m \/
         type n = type m /\ instance n < instance m))).
Proof.
  split_and!.
  - intros s t i Hs Ht Hi. eexists. split; [by apply object_id_ok|]. by apply components.
  - intros s t i Hi. unfold object_id.
    rewrite (proj2 (Z.eqb_neq _ 0)); [done|]. rewrite Z.shiftr_div_pow2 by lia.
    pose proof (Z.div_str_pos i (2 ^ 48)). lia.
  - intros n Hn. destruct (split_number n Hn) as (? & ? & ? & E).
    rewrite E at 4. by apply object_id_ok.
  - intros n m Hn Hm. unfold id_lt. rewrite Z.ltb_lt.
    destruct (split_number n Hn) as (? & ? & ? & En).
    destruct (split_number m Hm) as (? & ? & ? & Em).
    lia.
Qed.

(** The text form of an identifier reads back as the same number. *)
Theorem text_roundtrip `{TextLaws} n :
  0 <= n < 2 ^ 64 -> Z.of_nat (String.length (to_text n)) < npos - 1 ->
  from_text (to_text n) = Ok n.
Proof.
  intros Hn Hlen. destruct (split_number n Hn) as (Hs & Ht & Hi & En).
  unfold from_text. unfold to_text in *. rewrite !app_cons_dot in *.
  rewrite length_app_str in Hlen. cbn [String.length] in Hlen.
  rewrite length_app_str in Hlen. cbn [String.length] in Hlen. unfold npos in Hlen.
  destruct (text_fields (fc_to_string (space n)) (fc_to_string (type n)) (fc_to_string (instance n)))
    as (F1 & F2 & S1 & S2 & S3); [apply to_string_no_dot..|unfold npos; lia|].
  pose proof (to_string_nonempty (space n)) as Hne.
  assert (Ha : 0 < Z.of_nat (String.length (fc_to_string (space n))))
    by (destruct (fc_to_string (space n)); [done|cbn [String.length]; lia]).
  rewrite F1, (wrap_id 64 (_ + 1)), F2 by lia.
  rewrite (wrap_id 64 (_ + 1 + _ + 1)), (wrap_id 64 (_ - _ - 1)) by lia.
  replace (_ + 1 + _ - _ - 1) with (Z.of_nat (String.length (fc_to_string (type n)))) by lia.
  rewrite S1, S2, S3. cbn [mbind result_bind].
  rewrite !to_uint64_to_string by lia. cbn [mbind result_bind].
  change GRAPHENE_DB_MAX_INSTANCE_ID with (2 ^ 48 - 1).
  repeat match goal with
  | |- context [?x <=? ?y] => rewrite (proj2 (Z.leb_le x y)) by lia
  | |- context [?x =? ?y] => rewrite (proj2 (Z.eqb_neq x y)) by (unfold npos; lia)
  end.
  cbn. rewrite Z.lor_comm, pack_value by lia. by rewrite <- En.
Qed.

(** ** Witnesses, at the reference implementation of the external code *)
Section Witnesses.
Import Ref.

Lemma text_roundtrip_witness :
  exists n, object_id 2 13 4294967301 = Ok n /\ from_text (to_text n) = Ok n.
Proof.
  eexists. split; [vm_compute; reflexivity|].
  apply text_roundtrip; vm_compute; done.
Defined.
End Witnesses.
End ObjectId.
