(* ===== verification/ObjectDb.v ===== *)
(** * The object database ([libraries/db]: [index.hpp], [generic_index.hpp],
    [simple_index.hpp], [object_database.hpp])

    Objects live in one index per (space, type); an index owns the next
    identifier it will give.  The model keeps all objects in one finite map
    from identifiers and the next identifiers in another, keyed by the
    identifier of instance 0 of the index.  The content of an object is a
    parameter, as the code handles it through [clone] and [move_from] only.
    A [generic_index] may have further unique keys: [conflict a b] says that
    two objects share one of them. *)
From Stdlib Require Import ZArith Lia String.
From stdpp Require Import base gmap list.
From S2P Require Import Prelude External ObjectId.

Module ObjectDb.
Import ObjectId.

Record object_database (obj : Type) : Type := {
  objects : gmap Z obj;
  next_ids : gmap Z object_id_type;
}.
Arguments objects {obj} _.
Arguments next_ids {obj} _.
Arguments Build_object_database {obj} _ _.

(** The index an identifier belongs to, named by its instance 0
    ([object_id_type( id.space(), id.type(), 0 )]). *)
Definition index_of_id (id : object_id_type) : Z :=
  Z.lor (Z.shiftl (space id) 56) (Z.shiftl (type id) 48).

Section Index.
Context {obj : Type} (conflict : obj -> obj -> bool).
Implicit Types d : object_database obj.

Definition set_objects d (m : gmap Z obj) : object_database obj :=
  Build_object_database m (next_ids d).
Definition set_next_ids d (n : gmap Z object_id_type) : object_database obj :=
  Build_object_database (objects d) n.

(** A unique key of [o] (stored at [id]) is taken by another object of its index. *)
Definition key_taken (m : gmap Z obj) (id : Z) (o : obj) : bool :=
  existsb (fun kx => negb (kx.1 =? id) && (index_of_id kx.1 =? index_of_id id) && conflict o kx.2)
          (map_to_list m).

(** [object_database::get_index]: the index must have been added. *)
Definition get_next_id d (ix : Z) : result object_id_type :=
  of_option (next_ids d !! ix) "get_index".
Definition use_next_id d (ix : Z) : result (object_database obj) :=
  n ← get_next_id d ix; Ok (set_next_ids d (<[ix := succ n]> (next_ids d))).
Definition set_next_id d (ix : Z) (id : object_id_type) : result (object_database obj) :=
  _ ← get_next_id d ix; Ok (set_next_ids d (<[ix := id]> (next_ids d))).

Definition find_object d (id : Z) : option obj := objects d !! id.
Definition get_object d (id : Z) : result obj :=
  of_option (find_object d id) "Unable to find Object".

(** [generic_index::insert]. *)
Definition index_insert d (id : Z) (o : obj) : result (object_database obj) :=
  _ ← get_next_id d (index_of_id id);
  if bool_decide (is_Some (objects d !! id)) || key_taken (objects d) id o
  then Throw "Could not insert object, most likely a uniqueness constraint was violated"
  else Ok (set_objects d (<[id := o]> (objects d))).

(** [generic_index::create]: returns the identifier given to the object. *)
Definition index_create d (ix : Z) (constructor : object_id_type -> obj)
  : result (object_id_type * object_database obj) :=
  id ← get_next_id d ix;
  let o := constructor id in
  if bool_decide (is_Some (objects d !! id)) || key_taken (objects d) id o
  then Throw "Could not create object! Most likely a uniqueness constraint is violated."
  else d' ← use_next_id (set_objects d (<[id := o]> (objects d))) ix; Ok (id, d').

(** [generic_index::modify]. *)
Definition index_modify d (id : Z) (m : obj -> obj) : result (object_database obj) :=
  o ← get_object d id;
  if key_taken (objects d) id (m o)
  then Throw "Could not modify object, most likely a index constraint was violated"
  else Ok (set_objects d (<[id := m o]> (objects d))).

(** [generic_index::remove]; the reference passed in is to a stored object. *)
Definition index_remove d (id : Z) : result (object_database obj) :=
  _ ← get_object d id;
  Ok (set_objects d (delete id (objects d))).
End Index.

(** ** Well-formed databases

    Every object of an index has an identifier below the next one, and the
    next identifier belongs to its index. *)
Section WellFormed.
Context {obj : Type}.
Implicit Types d : object_database obj.

Record db_wf d : Prop := {
  wf_next ix n : next_ids d !! ix = Some n -> 0 <= n < 2 ^ 64 /\ index_of_id n = ix;
  wf_fresh id : is_Some (objects d !! id) ->
    exists n, next_ids d !! index_of_id id = Some n /\ 0 <= id < n;
}.

(** The index has a free instance left (instances have 48 bits). *)
Definition has_room d (ix : Z) : Prop :=
  forall n, next_ids d !! ix = Some n -> instance n < 2 ^ 48 - 1.
End WellFormed.

Lemma index_of_id_value id :
  0 <= id < 2 ^ 64 -> index_of_id id = id - instance id.
Proof.
  intros Hid. destruct (split_number id Hid) as (? & ? & ? & E). unfold index_of_id.
  rewrite <- (Z.lor_0_r (Z.lor _ _)). rewrite pack_value by lia. lia.
Qed.

Lemma succ_same_index n :
  0 <= n < 2 ^ 64 -> instance n < 2 ^ 48 - 1 ->
  succ n = n + 1 /\ 0 <= succ n < 2 ^ 64 /\ index_of_id (succ n) = index_of_id n.
Proof.
  intros Hn Hi. destruct (split_number n Hn) as (Hs & Ht & Hin & E).
  destruct (components (space n) (type n) (instance n + 1)) as (H1 & H2 & H3 & H4); [lia..|].
  replace ((space n * 2 ^ 8 + type n) * 2 ^ 48 + (instance n + 1)) with (n + 1) in * by lia.
  assert (Es : succ n = n + 1) by (apply wrap_id; lia).
  rewrite Es. split_and!; [done|lia|lia|]. unfold index_of_id. by rewrite H2, H3.
Qed.

(** ** [simple_index]: a vector of objects by instance *)
Module SimpleIndex.
Section Simple.
Context {obj : Type}.
Implicit Types l : list (option obj).

Definition find l (inst : nat) : option obj := mjoin (l !! inst).

(** [_objects.resize( n )] when it grows the vector. *)
Definition grow l (n : nat) : list (option obj) :=
  if (n <=? length l)%nat then l else l ++ replicate (n - length l) None.

(** [create]: [inst] is the instance of the next identifier. *)
Definition create l (inst : nat) (o : obj) : list (option obj) :=
  <[inst := Some o]> (grow l (S inst)).
Definition insert l (inst : nat) (o : obj) : list (option obj) :=
  <[inst := Some o]> (grow l (S inst)).
Definition modify l (inst : nat) (m : obj -> obj) : list (option obj) :=
  alter (fmap m) inst l.

(** [while( size() > 0 && back() == nullptr ) pop_back();] *)
Fixpoint pop_nulls (rl : list (option obj)) : list (option obj) :=
  match rl with None :: rl' => pop_nulls rl' | _ => rl end.
Definition remove l (inst : nat) : list (option obj) :=
  reverse (pop_nulls (reverse (<[inst := None]> l))).

Definition size l : nat := length l.

(** No trailing null: what [remove] re-establishes. *)
Definition trimmed l : Prop := last l <> Some None.

Lemma find_grow l n i : find (grow l n) i = find l i.
Proof.
  unfold find, grow. destruct (Nat.leb_spec n (length l)); [done|].
  destruct (decide (i < length l)%nat).
  - by rewrite lookup_app_l.
  - rewrite lookup_app_r by lia. rewrite (lookup_ge_None_2 l i) by lia.
    destruct (decide (i - length l < n - length l)%nat).
    + by rewrite lookup_replicate_2.
    + by rewrite lookup_ge_None_2 by (rewrite length_replicate; lia).
Qed.

Lemma length_grow l n : (n <= length (grow l n))%nat.
Proof.
  unfold grow. destruct (Nat.leb_spec n (length l)); [done|].
  rewrite length_app, length_replicate. lia.
Qed.

Lemma find_pop_nulls rl i : find (reverse (pop_nulls rl)) i = find (reverse rl) i.
Proof.
  induction rl as [|[o|] rl IH]; [done..|].
  change (find (reverse (pop_nulls rl)) i = find (reverse (None :: rl)) i).
  rewrite IH, reverse_cons. unfold find. destruct (decide (i < length (reverse rl))%nat).
  - by rewrite lookup_app_l.
  - rewrite lookup_app_r, (lookup_ge_None_2 (reverse rl)) by lia.
    by destruct (i - length (reverse rl))%nat.
Qed.

Lemma pop_nulls_head rl : head (pop_nulls rl) <> Some None.
Proof. by induction rl as [|[o|] rl IH]. Qed.
End Simple.
End SimpleIndex.

(** [simple_index] implements a finite map keyed by the instance, whatever
    the gaps left by removals: each operation changes the entry it names and
    no other, and a removal leaves no trailing null entry. *)
Theorem simple_index_is_a_map {obj : Type} (l : list (option obj)) (i : nat) (o : obj) (m : obj -> obj) :
  (forall j, SimpleIndex.find (SimpleIndex.create l i o) j
     = if decide (i = j) then Some o else SimpleIndex.find l j)
  /\ (forall j, SimpleIndex.find (SimpleIndex.insert l i o) j
     = if decide (i = j) then Some o else SimpleIndex.find l j)
  /\ (forall j, SimpleIndex.find (SimpleIndex.modify l i m) j
     = if decide (i = j) then m <$> SimpleIndex.find l i else SimpleIndex.find l j)
  /\ (forall j, SimpleIndex.find (SimpleIndex.remove l i) j
     = if decide (i = j) then None else SimpleIndex.find l j)
  /\ SimpleIndex.trimmed (SimpleIndex.remove l i).
Proof.
  assert (Hset : forall j, SimpleIndex.find (<[i := Some o]> (SimpleIndex.grow l (S i))) j
     = if decide (i = j) then Some o else SimpleIndex.find l j).
  { intros j. rewrite <- (SimpleIndex.find_grow l (S i) j). unfold SimpleIndex.find.
    pose proof (SimpleIndex.length_grow l (S i)).
    destruct (decide (i = j)) as [->|]; [by rewrite list_lookup_insert_eq by lia|].
    by rewrite list_lookup_insert_ne. }
  split_and!; [done|done|..]; [intros j..|].
  - unfold SimpleIndex.find, SimpleIndex.modify.
    destruct (decide (i = j)) as [->|]; [|by rewrite list_lookup_alter_ne].
    rewrite list_lookup_alter_eq. by destruct (l !! j).
  - unfold SimpleIndex.remove. rewrite SimpleIndex.find_pop_nulls, reverse_involutive.
    unfold SimpleIndex.find. destruct (decide (i = j)) as [->|]; [|by rewrite list_lookup_insert_ne].
    destruct (decide (j < length l)%nat); [by rewrite list_lookup_insert_eq|].
    rewrite list_insert_ge by lia. by rewrite lookup_ge_None_2 by lia.
  - unfold SimpleIndex.trimmed, SimpleIndex.remove. rewrite last_reverse.
    apply SimpleIndex.pop_nulls_head.
Qed.

End ObjectDb.
