(* ===== verification/UndoDb.v ===== *)
(** * The undo database ([libraries/db/undo_database.cpp])

    The undo database records, per session, what is needed to restore the
    object database: old values, new identifiers, removed objects and the
    next identifiers of the indexes.  This file translates its operations and
    proves that it implements a stack of snapshots. *)
From Stdlib Require Import ZArith Lia String.
From stdpp Require Import base gmap sets list.
From S2P Require Import Prelude External ObjectId ObjectDb.

Module UndoDb.
Import ObjectId ObjectDb.

Record undo_state (obj : Type) : Type := {
  old_values : gmap Z obj;
  old_index_next_ids : gmap Z object_id_type;
  new_ids : gset Z;
  removed : gmap Z obj;
}.
Arguments Build_undo_state {obj} _ _ _ _.
Arguments old_values {obj} _.
Arguments old_index_next_ids {obj} _.
Arguments new_ids {obj} _.
Arguments removed {obj} _.

(** [_stack] is a deque; its back is the head of the list. *)
Record undo_database (obj : Type) : Type := {
  _db : object_database obj;
  _stack : list (undo_state obj);
  _active_sessions : Z;
  _disabled : bool;
  _max_size : nat;
}.
Arguments Build_undo_database {obj} _ _ _ _ _.
Arguments _db {obj} _.
Arguments _stack {obj} _.
Arguments _active_sessions {obj} _.
Arguments _disabled {obj} _.
Arguments _max_size {obj} _.

(** A [session] object: what its destructor will do. *)
Record session : Type := { apply_undo : bool; disable_on_exit : bool }.

Section Undo.
Context {obj : Type} (conflict : obj -> obj -> bool) `{IndexOps}.
Notation udb := (undo_database obj).
Notation MU := (M udb).
Implicit Types (u : udb) (st : undo_state obj).

Definition empty_state : undo_state obj := Build_undo_state ∅ ∅ ∅ ∅.
Definition set_db u d : udb :=
  Build_undo_database d (_stack u) (_active_sessions u) (_disabled u) (_max_size u).
Definition set_stack u s : udb :=
  Build_undo_database (_db u) s (_active_sessions u) (_disabled u) (_max_size u).
Definition set_active u n : udb :=
  Build_undo_database (_db u) (_stack u) n (_disabled u) (_max_size u).
Definition set_disabled u b : udb :=
  Build_undo_database (_db u) (_stack u) (_active_sessions u) b (_max_size u).

Definition enable : MU unit := update (fun u => set_disabled u false).
Definition disable : MU unit := update (fun u => set_disabled u true).

(** ** Recording: [on_create], [on_modify], [on_remove] *)
Definition record_create st (id : Z) : undo_state obj :=
  let index_id := index_of_id id in
  Build_undo_state (old_values st)
    (match old_index_next_ids st !! index_id with
     | None => <[index_id := id]> (old_index_next_ids st)
     | Some _ => old_index_next_ids st
     end)
    ({[id]} ∪ new_ids st) (removed st).

Definition record_modify st (id : Z) (o : obj) : undo_state obj :=
  if decide (id ∈ new_ids st) then st
  else match old_values st !! id with
       | Some _ => st
       | None => Build_undo_state (<[id := o]> (old_values st)) (old_index_next_ids st)
                   (new_ids st) (removed st)
       end.

Definition record_remove st (id : Z) (o : obj) : undo_state obj :=
  if decide (id ∈ new_ids st)
  then Build_undo_state (old_values st) (old_index_next_ids st) (new_ids st ∖ {[id]}) (removed st)
  else match old_values st !! id with
       | Some x => Build_undo_state (delete id (old_values st)) (old_index_next_ids st)
                     (new_ids st) (<[id := x]> (removed st))
       | None => match removed st !! id with
                 | Some _ => st
                 | None => Build_undo_state (old_values st) (old_index_next_ids st)
                             (new_ids st) (<[id := o]> (removed st))
                 end
       end.

(** Apply a recording to the back of the stack, which is created when empty. *)
Definition on_back (f : undo_state obj -> undo_state obj) : MU unit :=
  update (fun u =>
    if _disabled u then u
    else match _stack u with
         | [] => set_stack u [f empty_state]
         | st :: rest => set_stack u (f st :: rest)
         end).
Definition on_create (id : Z) : MU unit := on_back (fun st => record_create st id).
Definition on_modify (id : Z) (o : obj) : MU unit := on_back (fun st => record_modify st id o).
Definition on_remove (id : Z) (o : obj) : MU unit := on_back (fun st => record_remove st id o).

(** ** [primary_index]: the index operations with their undo hooks *)
Definition lift_db {A} (f : object_database obj -> result (A * object_database obj)) : MU A :=
  fun u => match f (_db u) with
           | Ok (a, d) => Ok (a, set_db u d)
           | Throw e => Throw (e, u)
           end.
Definition lift_db_ (f : object_database obj -> result (object_database obj)) : MU unit :=
  lift_db (fun d => match f d with Ok d' => Ok (tt, d') | Throw e => Throw e end).

Definition db_get (id : Z) : MU obj := fun u => lift (get_object (_db u) id) u.
Definition db_create (ix : Z) (constructor : object_id_type -> obj) : MU object_id_type :=
  id ← lift_db (fun d => index_create conflict d ix constructor);
  on_create id;; mret id.
Definition db_modify (id : Z) (m : obj -> obj) : MU unit :=
  o ← db_get id;
  on_modify id o;; lift_db_ (fun d => index_modify conflict d id m).
Definition db_remove (id : Z) : MU unit :=
  o ← db_get id;
  on_remove id o;; lift_db_ (fun d => index_remove d id).
(** [object_database::insert] goes to the index without the hooks. *)
Definition db_insert (id : Z) (o : obj) : MU unit :=
  lift_db_ (fun d => index_insert conflict d id o).
Definition db_set_next_id (ix id : Z) : MU unit := lift_db_ (fun d => set_next_id d ix id).

(** ** Sessions *)
(** [while( size() > max_size() ) _stack.pop_front();] *)
Fixpoint pop_front_while (fuel : nat) (max : nat) (s : list (undo_state obj)) :=
  match fuel with
  | O => s
  | S fuel' => if (max <? length s)%nat
               then pop_front_while fuel' max (take (length s - 1) s) else s
  end.

Definition start_undo_session (force_enable : bool) : MU session :=
  u ← get_state;
  if _disabled u && negb force_enable
  then mret {| apply_undo := true; disable_on_exit := false |}
  else
    let on_exit := _disabled u && force_enable in
    let u := if force_enable then set_disabled u false else u in
    let s := pop_front_while (length (_stack u)) (_max_size u) (_stack u) in
    put_state (set_active (set_stack u (empty_state :: s)) (wrap 32 (_active_sessions u + 1)));;
    mret {| apply_undo := true; disable_on_exit := on_exit |}.

(** [_stack.back()]. *)
Definition back : MU (undo_state obj) :=
  fun u => match _stack u with st :: _ => Ok (st, u) | [] => Throw ("back() of an empty deque"%string, u) end.
Definition pop_back : MU unit := update (fun u => set_stack u (tail (_stack u))).
Definition decr_active : MU unit := update (fun u => set_active u (_active_sessions u - 1)).

(** The four loops shared by [undo] and [pop_commit]. *)
Definition restore st : MU unit :=
  for_each (hashed (map_to_list (old_values st))) (fun item => db_modify item.1 (fun _ => item.2));;
  for_each (hashed (elements (new_ids st))) db_remove;;
  for_each (hashed (map_to_list (old_index_next_ids st))) (fun item => db_set_next_id item.1 item.2);;
  for_each (hashed (map_to_list (removed st))) (fun item => db_insert item.1 item.2).

Definition undo : MU unit :=
  u ← get_state;
  require (negb (_disabled u)) "!_disabled";;
  require (0 <? _active_sessions u) "_active_sessions > 0";;
  disable;;
  st ← back; restore st;;
  pop_back;; enable;; decr_active.

Definition commit : MU unit :=
  u ← get_state; require (0 <? _active_sessions u) "_active_sessions > 0";; decr_active.

Definition pop_commit : MU unit :=
  u ← get_state;
  require (_active_sessions u =? 0) "_active_sessions == 0";;
  require (negb (bool_decide (_stack u = []))) "!_stack.empty()";;
  disable;;
  st ← back; restore st;;
  pop_back;; enable.

(** ** [merge]: fold the last state into the one before *)
Definition merge_old (prev : undo_state obj) (item : Z * obj) : undo_state obj :=
  if decide (item.1 ∈ new_ids prev) then prev
  else match old_values prev !! item.1 with
       | Some _ => prev
       | None => Build_undo_state (<[item.1 := item.2]> (old_values prev))
                   (old_index_next_ids prev) (new_ids prev) (removed prev)
       end.
Definition merge_new (prev : undo_state obj) (id : Z) : undo_state obj :=
  Build_undo_state (old_values prev) (old_index_next_ids prev) ({[id]} ∪ new_ids prev) (removed prev).
Definition merge_next (prev : undo_state obj) (item : Z * object_id_type) : undo_state obj :=
  match old_index_next_ids prev !! item.1 with
  | None => Build_undo_state (old_values prev) (<[item.1 := item.2]> (old_index_next_ids prev))
              (new_ids prev) (removed prev)
  | Some _ => prev
  end.
Definition merge_removed (prev : undo_state obj) (item : Z * obj) : undo_state obj :=
  if decide (item.1 ∈ new_ids prev)
  then Build_undo_state (old_values prev) (old_index_next_ids prev)
         (new_ids prev ∖ {[item.1]}) (removed prev)
  else match old_values prev !! item.1 with
       | Some x => Build_undo_state (delete item.1 (old_values prev)) (old_index_next_ids prev)
                     (new_ids prev) (<[item.1 := x]> (removed prev))
       | None => Build_undo_state (old_values prev) (old_index_next_ids prev)
                   (new_ids prev) (<[item.1 := item.2]> (removed prev))
       end.
Definition merge_states (prev st : undo_state obj) : undo_state obj :=
  let p1 := foldl merge_old prev (hashed (map_to_list (old_values st))) in
  let p2 := foldl merge_new p1 (hashed (elements (new_ids st))) in
  let p3 := foldl merge_next p2 (hashed (map_to_list (old_index_next_ids st))) in
  foldl merge_removed p3 (hashed (map_to_list (removed st))).

Definition merge : MU unit :=
  u ← get_state;
  require (0 <? _active_sessions u) "_active_sessions > 0";;
  if (_active_sessions u =? 1) && (length (_stack u) =? 1)%nat
  then pop_back;; decr_active
  else match _stack u with
       | st :: prev :: rest =>
           put_state (set_stack u (merge_states prev st :: rest));; decr_active
       | _ => throw "_stack.size() >= 2"
       end.

(** ** Operations of a [session] object; each returns the updated session *)
Definition session_commit (s : session) : MU session :=
  commit;; mret {| apply_undo := false; disable_on_exit := disable_on_exit s |}.
Definition session_undo (s : session) : MU session :=
  when (apply_undo s) undo;; mret {| apply_undo := false; disable_on_exit := disable_on_exit s |}.
Definition session_merge (s : session) : MU session :=
  when (apply_undo s) merge;; mret {| apply_undo := false; disable_on_exit := disable_on_exit s |}.
Definition session_destroy (s : session) : MU unit :=
  when (apply_undo s) undo;; when (disable_on_exit s) disable.
End Undo.

(** ** The operations as one step function *)
Inductive op (obj : Type) : Type :=
| OpCreate (ix : Z) (constructor : object_id_type -> obj)
| OpModify (id : Z) (m : obj -> obj)
| OpRemove (id : Z)
| OpStart (force_enable : bool)
| OpUndo | OpMerge | OpCommit | OpPopCommit.
Arguments OpCreate {obj} _ _.
Arguments OpModify {obj} _ _.
Arguments OpRemove {obj} _.
Arguments OpStart {obj} _.
Arguments OpUndo {obj}.
Arguments OpMerge {obj}.
Arguments OpCommit {obj}.
Arguments OpPopCommit {obj}.

Definition run_M {S A} (m : M S A) (s : S) : result S :=
  match m s with Ok (_, s') => Ok s' | Throw (e, _) => Throw e end.

Section Step.
Context {obj : Type} (conflict : obj -> obj -> bool) `{IndexOps}.
Definition step (o : op obj) (u : undo_database obj) : result (undo_database obj) :=
  match o with
  | OpCreate ix ctor => run_M (db_create conflict ix ctor) u
  | OpModify id m => run_M (db_modify conflict id m) u
  | OpRemove id => run_M (db_remove id) u
  | OpStart force => run_M (start_undo_session force) u
  | OpUndo => run_M (undo conflict) u
  | OpMerge => run_M merge u
  | OpCommit => run_M commit u
  | OpPopCommit => run_M (pop_commit conflict) u
  end.
Fixpoint run (l : list (op obj)) (u : undo_database obj) : result (undo_database obj) :=
  match l with
  | [] => Ok u
  | o :: l' => u1 ← step o u; run l' u1
  end.
End Step.

(** ** Specification: a stack of snapshots *)
Record spec (obj : Type) : Type := {
  current : object_database obj;
  snapshots : list (object_database obj);
  active : Z;
  off : bool;
  limit : nat;
}.
Arguments Build_spec {obj} _ _ _ _ _.
Arguments current {obj} _.
Arguments snapshots {obj} _.
Arguments active {obj} _.
Arguments off {obj} _.
Arguments limit {obj} _.

Section Spec.
Context {obj : Type} (conflict : obj -> obj -> bool).
Implicit Types s : spec obj.

(** A change of the current database; the first one after start-up opens
    a snapshot of its own. *)
Definition spec_change s (d : object_database obj) : spec obj :=
  Build_spec d
    (if off s then snapshots s else match snapshots s with [] => [current s] | _ => snapshots s end)
    (active s) (off s) (limit s).
Definition spec_step (o : op obj) s : result (spec obj) :=
  match o with
  | OpCreate ix ctor => r ← index_create conflict (current s) ix ctor; Ok (spec_change s r.2)
  | OpModify id m => d ← index_modify conflict (current s) id m; Ok (spec_change s d)
  | OpRemove id => d ← index_remove (current s) id; Ok (spec_change s d)
  | OpStart force =>
      if off s && negb force then Ok s
      else Ok (Build_spec (current s) (current s :: take (limit s) (snapshots s))
                 (wrap 32 (active s + 1)) false (limit s))
  | OpUndo =>
      if negb (off s) && (0 <? active s) then
        match snapshots s with
        | b :: bs => Ok (Build_spec b bs (active s - 1) false (limit s))
        | [] => Throw "no snapshot"
        end
      else Throw "undo"
  | OpMerge =>
      if 0 <? active s then
        if (active s =? 1) && (length (snapshots s) =? 1)%nat
        then Ok (Build_spec (current s) [] (active s - 1) (off s) (limit s))
        else match snapshots s with
             | _ :: b :: bs => Ok (Build_spec (current s) (b :: bs) (active s - 1) (off s) (limit s))
             | _ => Throw "merge"
             end
      else Throw "merge"
  | OpCommit =>
      if 0 <? active s
      then Ok (Build_spec (current s) (snapshots s) (active s - 1) (off s) (limit s))
      else Throw "commit"
  | OpPopCommit =>
      if active s =? 0 then
        match snapshots s with
        | b :: bs => Ok (Build_spec b bs (active s) false (limit s))
        | [] => Throw "pop_commit"
        end
      else Throw "pop_commit"
  end.
Fixpoint spec_run (l : list (op obj)) s : result (spec obj) :=
  match l with
  | [] => Ok s
  | o :: l' => s1 ← spec_step o s; spec_run l' s1
  end.
End Spec.

(** ** What a recorded state says about each object

    The record of one identifier, and what it means when the database went
    from content [bo] to content [co] at that identifier: new, updated,
    deleted or untouched.  Any other combination is illegal. *)
Definition entry_t (obj : Type) : Type := option obj * bool * option obj.
Definition entry {obj} (st : undo_state obj) (k : Z) : entry_t obj :=
  (old_values st !! k, bool_decide (k ∈ new_ids st), removed st !! k).

Arguments entry : simpl never.

Definition tracks_entry {obj} (bo co : option obj) (e : entry_t obj) : Prop :=
  match e with
  | (None, true, None) => bo = None /\ is_Some co
  | (Some x, false, None) => bo = Some x /\ is_Some co
  | (None, false, Some x) => bo = Some x /\ co = None
  | (None, false, None) => bo = co
  | _ => False
  end.

Record tracks {obj} (b c : object_database obj) (st : undo_state obj) : Prop := {
  tr_entry k : tracks_entry (objects b !! k) (objects c !! k) (entry st k);
  tr_next ix : match old_index_next_ids st !! ix with
               | Some n => next_ids b !! ix = Some n /\ is_Some (next_ids c !! ix)
               | None => next_ids b !! ix = next_ids c !! ix
               end;
  tr_mono ix n m : next_ids b !! ix = Some n -> next_ids c !! ix = Some m -> n <= m;
  tr_fresh id : id ∈ new_ids st ->
    exists n, next_ids b !! index_of_id id = Some n /\ n <= id;
  tr_wf : db_wf b;
}.

(** The stack of states leads from the current database back to a list of
    earlier databases, most recent first. *)
Inductive chain {obj} : object_database obj -> list (undo_state obj) -> list (object_database obj) -> Prop :=
| chain_nil c : chain c [] []
| chain_cons c st stk b bs : tracks b c st -> chain b stk bs -> chain c (st :: stk) (b :: bs).

Section Facts.
Context {obj : Type} (conflict : obj -> obj -> bool) `{IndexLaws}.
Notation udb := (undo_database obj).
Implicit Types (u : udb) (st : undo_state obj) (b c d : object_database obj).

(** *** Index operations, inverted *)
Lemma index_modify_Ok d id m d' :
  index_modify conflict d id m = Ok d' ->
  exists o, objects d !! id = Some o /\ d' = set_objects d (<[id := m o]> (objects d)).
Proof. unfold index_modify, get_object. intros Hr; inv_ok. case_match; [done|]. simplify_eq. eauto. Qed.

Lemma index_remove_Ok d id d' :
  index_remove d id = Ok d' ->
  is_Some (objects d !! id) /\ d' = set_objects d (delete id (objects d)).
Proof. unfold index_remove, get_object. intros Hr; inv_ok. eauto. Qed.

Lemma index_insert_Ok d id o d' :
  index_insert conflict d id o = Ok d' ->
  objects d !! id = None /\ d' = set_objects d (<[id := o]> (objects d)).
Proof.
  unfold index_insert, get_next_id. intros Hr; inv_ok.
  destruct (objects d !! id) eqn:E; [by rewrite bool_decide_true in * by eauto|].
  case_match; [done|]. simplify_eq. done.
Qed.

Lemma index_create_Ok d ix ctor id d' :
  index_create conflict d ix ctor = Ok (id, d') ->
  next_ids d !! ix = Some id /\ objects d !! id = None /\
  d' = Build_object_database (<[id := ctor id]> (objects d)) (<[ix := succ id]> (next_ids d)).
Proof.
  unfold index_create, use_next_id, get_next_id. intros Hr; inv_ok.
  destruct (objects d !! a) eqn:E; [by rewrite bool_decide_true in * by eauto|].
  case_match; [done|]. inv_ok. cbn in *. simplify_eq. done.
Qed.

Lemma set_next_id_Ok d ix id d' :
  set_next_id d ix id = Ok d' ->
  is_Some (next_ids d !! ix) /\ d' = set_next_ids d (<[ix := id]> (next_ids d)).
Proof. unfold set_next_id, get_next_id. intros Hr; inv_ok. eauto. Qed.

(** *** Recording keeps [tracks] *)
Lemma tracks_refl c : db_wf c -> tracks c c empty_state.
Proof.
  intros Hc. split; [|..|done]; cbn.
  - intros k. unfold entry. cbn. rewrite !lookup_empty.
    rewrite bool_decide_false by set_solver. done.
  - intros ix. by rewrite lookup_empty.
  - intros ix n m ??. simplify_eq. lia.
  - by intros id ?%elem_of_empty.
Qed.

(** Both databases have the same indexes. *)
Lemma tracks_index b c st ix m :
  tracks b c st -> next_ids c !! ix = Some m -> exists n, next_ids b !! ix = Some n /\ n <= m.
Proof.
  intros Ht Hm. pose proof (tr_next _ _ _ Ht ix) as Hn.
  destruct (old_index_next_ids st !! ix) as [n|].
  - destruct Hn as [Hn _]. exists n. split; [done|]. by eapply tr_mono.
  - exists m. split; [congruence|lia].
Qed.

Lemma entry_fresh b c st id :
  tracks b c st -> objects b !! id = None -> objects c !! id = None -> entry st id = (None, false, None).
Proof.
  intros Ht Hb Hc. pose proof (tr_entry _ _ _ Ht id) as He. rewrite Hb, Hc in He.
  destruct (entry st id) as [[[x|] []] [y|]]; cbn in He; try done.
  all: destruct He as [? He]; try done; by destruct He.
Qed.

(** An identifier at or above the next one of its index is used nowhere below. *)
Lemma fresh_below b c st ix id :
  tracks b c st -> db_wf c -> next_ids c !! ix = Some id -> objects b !! id = None.
Proof.
  intros Ht Hc Hn. destruct (objects b !! id) eqn:E; [|done]. exfalso.
  destruct (wf_fresh _ (tr_wf _ _ _ Ht) id) as (n & Hn' & Hlt); [by eauto|].
  destruct (wf_next _ Hc ix id Hn) as [_ Hix]. rewrite Hix in Hn'.
  pose proof (tr_mono _ _ _ Ht ix n id Hn' Hn). lia.
Qed.

Lemma create_wf c ix ctor id c' :
  db_wf c -> has_room c ix -> index_create conflict c ix ctor = Ok (id, c') -> db_wf c'.
Proof.
  intros Hc Hroom (Hn & Ho & ->)%index_create_Ok.
  destruct (wf_next _ Hc ix id Hn) as [Hid Hix].
  destruct (succ_same_index id Hid (Hroom id Hn)) as (Hs & Hsr & Hsi).
  split; cbn.
  - intros jx n [[<- <-]|[? Hj]]%lookup_insert_Some; [by rewrite Hsi|].
    by apply (wf_next _ Hc).
  - intros k Hk. destruct (decide (k = id)) as [->|Hne].
    + exists (succ id). rewrite Hix, lookup_insert_eq. split; [done|lia].
    + rewrite lookup_insert_ne in Hk by done.
      destruct (wf_fresh _ Hc k Hk) as (n & Hnk & Hlt).
      destruct (decide (index_of_id k = ix)) as [E|Hix'].
      * exists (succ id). rewrite E, lookup_insert_eq. rewrite E in Hnk. simplify_eq.
        split; [done|lia].
      * exists n. by rewrite lookup_insert_ne.
Qed.

Lemma entry_record_create st id k :
  entry (record_create st id) k =
  if decide (k = id) then (old_values st !! k, true, removed st !! k) else entry st k.
Proof.
  unfold entry, record_create. cbn. case_decide.
  - by rewrite bool_decide_true by set_solver.
  - f_equal. f_equal. apply bool_decide_ext. set_solver.
Qed.

Lemma tracks_create b c st ix ctor id c' :
  tracks b c st -> db_wf c -> has_room c ix ->
  index_create conflict c ix ctor = Ok (id, c') -> tracks b c' (record_create st id).
Proof.
  intros Ht Hc Hroom Hcr. pose proof Hcr as (Hn & Ho & ->)%index_create_Ok.
  destruct (wf_next _ Hc ix id Hn) as [Hid Hix].
  destruct (succ_same_index id Hid (Hroom id Hn)) as (Hs & _).
  pose proof (fresh_below b c st ix id Ht Hc Hn) as Hb.
  split; cbn; [| | | |by apply Ht].
  - intros k. rewrite entry_record_create. case_decide as Hk.
    + subst k. pose proof (entry_fresh b c st id Ht Hb Ho) as He.
      injection He as -> _ ->. rewrite lookup_insert_eq. cbn. eauto.
    + rewrite lookup_insert_ne by done. apply Ht.
  - intros jx. rewrite Hix. pose proof (tr_next _ _ _ Ht jx) as Hj.
    destruct (decide (jx = ix)) as [->|Hne].
    + destruct (old_index_next_ids st !! ix) eqn:E.
      * rewrite E. rewrite lookup_insert_eq. destruct Hj. eauto.
      * rewrite !lookup_insert_eq. rewrite Hj. eauto.
    + rewrite (lookup_insert_ne (next_ids c)) by done.
      destruct (old_index_next_ids st !! ix); [done|]. by rewrite lookup_insert_ne.
  - intros jx n m Hnb. destruct (decide (jx = ix)) as [->|Hne].
    + rewrite lookup_insert_eq. intros [= <-].
      pose proof (tr_mono _ _ _ Ht ix n id Hnb Hn). lia.
    + rewrite lookup_insert_ne by done. by apply Ht.
  - intros k [->%elem_of_singleton|Hk]%elem_of_union; [|by apply Ht].
    rewrite Hix. by eapply tracks_index.
Qed.

Definition modify_entry (o : obj) (e : entry_t obj) : entry_t obj :=
  match e with (None, false, r) => (Some o, false, r) | _ => e end.
Definition remove_entry (o : obj) (e : entry_t obj) : entry_t obj :=
  match e with
  | (ov, true, r) => (ov, false, r)
  | (Some x, false, _) => (None, false, Some x)
  | (None, false, Some y) => (None, false, Some y)
  | (None, false, None) => (None, false, Some o)
  end.

Lemma entry_record_modify st id o k :
  entry (record_modify st id o) k =
  if decide (k = id) then modify_entry o (entry st k) else entry st k.
Proof.
  unfold record_modify, entry, modify_entry.
  destruct (decide (k = id)) as [->|Hk].
  - case_decide; [by rewrite bool_decide_true; destruct (old_values st !! id)|].
    rewrite (bool_decide_false (id ∈ new_ids st)) by done.
    destruct (old_values st !! id) eqn:E; cbn.
    + by rewrite E, bool_decide_false.
    + by rewrite lookup_insert_eq, bool_decide_false.
  - case_decide; [done|]. destruct (old_values st !! id); [done|]. cbn.
    by rewrite lookup_insert_ne.
Qed.

Lemma entry_record_remove st id o k :
  entry (record_remove st id o) k =
  if decide (k = id) then remove_entry o (entry st k) else entry st k.
Proof.
  unfold record_remove, entry, remove_entry. destruct (decide (k = id)) as [->|Hk].
  - case_decide as Hn; cbn.
    + rewrite (bool_decide_true (id ∈ new_ids st)), bool_decide_false by set_solver.
      by destruct (old_values st !! id).
    + rewrite (bool_decide_false (id ∈ new_ids st)) by done.
      destruct (old_values st !! id) eqn:E; cbn.
      * by rewrite lookup_delete_eq, lookup_insert_eq, bool_decide_false.
      * destruct (removed st !! id) eqn:E'; cbn.
        -- by rewrite E, E', bool_decide_false.
        -- by rewrite E, lookup_insert_eq, bool_decide_false.
  - case_decide as Hn; cbn.
    + f_equal. f_equal. apply bool_decide_ext. set_solver.
    + destruct (old_values st !! id); cbn.
      * by rewrite lookup_delete_ne, lookup_insert_ne.
      * destruct (removed st !! id); cbn; [done|]. by rewrite lookup_insert_ne.
Qed.

(** A change of one object that keeps the identifiers. *)
Lemma tracks_update b c c' st st' id :
  tracks b c st -> next_ids c' = next_ids c ->
  old_index_next_ids st' = old_index_next_ids st -> new_ids st' ⊆ new_ids st ->
  (forall k, k <> id -> objects c' !! k = objects c !! k /\ entry st' k = entry st k) ->
  tracks_entry (objects b !! id) (objects c' !! id) (entry st' id) ->
  tracks b c' st'.
Proof.
  intros Ht Hn Ho Hnew Hk Hid. split; rewrite ?Hn, ?Ho; [|apply Ht..| |apply Ht].
  - intros k. destruct (decide (k = id)) as [->|Hne]; [done|].
    destruct (Hk k Hne) as [-> ->]. apply Ht.
  - intros k Hin%Hnew. by apply Ht.
Qed.

Lemma record_modify_next st id o :
  old_index_next_ids (record_modify st id o) = old_index_next_ids st
  /\ new_ids (record_modify st id o) = new_ids st.
Proof. unfold record_modify. case_decide; [done|]. by destruct (old_values st !! id). Qed.

Lemma record_remove_next st id o :
  old_index_next_ids (record_remove st id o) = old_index_next_ids st
  /\ new_ids (record_remove st id o) ⊆ new_ids st.
Proof.
  unfold record_remove. case_decide; [cbn; set_solver|].
  destruct (old_values st !! id); [done|]. by destruct (removed st !! id).
Qed.

Lemma tracks_modify b c st id f o c' :
  tracks b c st -> objects c !! id = Some o -> index_modify conflict c id f = Ok c' ->
  tracks b c' (record_modify st id o).
Proof.
  intros Ht Ho (o' & Ho' & ->)%index_modify_Ok. simplify_eq.
  destruct (record_modify_next st id o) as [Hn1 Hn2].
  apply (tracks_update b c _ st _ id); [done..|by rewrite Hn2| |].
  - intros k Hk. rewrite entry_record_modify, decide_False by done. cbn.
    by rewrite lookup_insert_ne.
  - pose proof (tr_entry _ _ _ Ht id) as He. rewrite entry_record_modify, decide_True by done.
    cbn. rewrite lookup_insert_eq. rewrite Ho in He.
    destruct (entry st id) as [[[x|] []] [y|]]; cbn in *; naive_solver.
Qed.

Lemma tracks_remove b c st id o c' :
  tracks b c st -> objects c !! id = Some o -> index_remove c id = Ok c' ->
  tracks b c' (record_remove st id o).
Proof.
  intros Ht Ho [_ ->]%index_remove_Ok.
  destruct (record_remove_next st id o) as [Hn1 Hn2].
  apply (tracks_update b c _ st _ id); [done..| |].
  - intros k Hk. rewrite entry_record_remove, decide_False by done. cbn.
    by rewrite lookup_delete_ne.
  - pose proof (tr_entry _ _ _ Ht id) as He. rewrite entry_record_remove, decide_True by done.
    cbn. rewrite lookup_delete_eq. rewrite Ho in He.
    destruct (entry st id) as [[[x|] []] [y|]]; cbn in *; naive_solver.
Qed.

Lemma modify_wf c id f c' : db_wf c -> index_modify conflict c id f = Ok c' -> db_wf c'.
Proof.
  intros Hc (o & Ho & ->)%index_modify_Ok. split; cbn; [apply Hc|].
  intros k Hk. apply (wf_fresh _ Hc). destruct (decide (k = id)) as [->|]; [by eauto|].
  by rewrite lookup_insert_ne in Hk.
Qed.

Lemma remove_wf c id c' : db_wf c -> index_remove c id = Ok c' -> db_wf c'.
Proof.
  intros Hc [_ ->]%index_remove_Ok. split; cbn; [apply Hc|].
  intros k Hk. apply (wf_fresh _ Hc). destruct (decide (k = id)) as [->|].
  - by rewrite lookup_delete_eq in Hk; destruct Hk.
  - by rewrite lookup_delete_ne in Hk.
Qed.

(** *** [merge] *)
Definition merge_removed_entry (o : obj) (e : entry_t obj) : entry_t obj :=
  match e with
  | (ov, true, r) => (ov, false, r)
  | (Some x, false, _) => (None, false, Some x)
  | (None, false, _) => (None, false, Some o)
  end.

Lemma entry_merge_removed st it k :
  entry (merge_removed st it) k =
  if decide (k = it.1) then merge_removed_entry it.2 (entry st k) else entry st k.
Proof.
  destruct it as [id o]. unfold merge_removed, entry, merge_removed_entry. cbn [fst snd].
  destruct (decide (k = id)) as [->|Hk].
  - case_decide as Hn; cbn.
    + rewrite (bool_decide_true (id ∈ new_ids st)), bool_decide_false by set_solver.
      by destruct (old_values st !! id).
    + rewrite (bool_decide_false (id ∈ new_ids st)) by done.
      destruct (old_values st !! id) eqn:E; cbn.
      * by rewrite lookup_delete_eq, lookup_insert_eq, bool_decide_false.
      * by rewrite E, lookup_insert_eq, bool_decide_false.
  - case_decide as Hn; cbn.
    + f_equal. f_equal. apply bool_decide_ext. set_solver.
    + destruct (old_values st !! id); cbn.
      * by rewrite lookup_delete_ne, lookup_insert_ne.
      * by rewrite lookup_insert_ne.
Qed.

Lemma entry_merge_old st it k :
  entry (merge_old st it) k =
  if decide (k = it.1) then modify_entry it.2 (entry st k) else entry st k.
Proof. apply (entry_record_modify st it.1 it.2 k). Qed.

Lemma entry_merge_new st id k :
  entry (merge_new st id) k =
  if decide (k = id) then ((entry st k).1.1, true, (entry st k).2) else entry st k.
Proof. apply (entry_record_create st id k). Qed.

(** A loop whose body touches the entry of its key only, on distinct keys. *)
Lemma fold_entry (f : undo_state obj -> Z * obj -> undo_state obj)
    (g : obj -> entry_t obj -> entry_t obj) l st k :
  (forall s it k, entry (f s it) k = if decide (k = it.1) then g it.2 (entry s k) else entry s k) ->
  NoDup l.*1 ->
  entry (foldl f st l) k =
  match (list_to_map l : gmap Z obj) !! k with Some v => g v (entry st k) | None => entry st k end.
Proof.
  intros Hf. revert st. induction l as [|[id o] l IH]; intros st Hnd; cbn; [by rewrite lookup_empty|].
  apply NoDup_cons in Hnd as [Hid Hnd]. rewrite IH by done. rewrite Hf. cbn.
  destruct (decide (k = id)) as [->|Hne].
  - rewrite lookup_insert_eq. by rewrite not_elem_of_list_to_map_1.
  - by rewrite lookup_insert_ne.
Qed.

Lemma fold_new l st k :
  entry (foldl merge_new st l) k =
  if decide (k ∈ l) then ((entry st k).1.1, true, (entry st k).2) else entry st k.
Proof.
  revert st. induction l as [|id l IH]; intros st; [done|]. cbn [foldl].
  rewrite IH, entry_merge_new.
  destruct (decide (k ∈ l)), (decide (k ∈ id :: l)), (decide (k = id)); set_solver.
Qed.

Lemma fold_preserves {A B} (f : undo_state obj -> A -> undo_state obj) (P : undo_state obj -> B) l st :
  (forall s x, P (f s x) = P s) -> P (foldl f st l) = P st.
Proof. intros Hf. revert st. induction l; intros st; cbn; [done|]. by rewrite IHl. Qed.

Lemma fold_next l st ix :
  NoDup l.*1 ->
  old_index_next_ids (foldl merge_next st l) !! ix =
  match old_index_next_ids st !! ix with
  | Some n => Some n
  | None => (list_to_map l : gmap Z Z) !! ix
  end.
Proof.
  revert st. induction l as [|[i n] l IH]; intros st Hnd; cbn.
  - rewrite lookup_empty. by destruct (old_index_next_ids st !! ix).
  - apply NoDup_cons in Hnd as [Hi Hnd]. rewrite IH by done. unfold merge_next. cbn.
    destruct (decide (ix = i)) as [->|Hne].
    + rewrite lookup_insert_eq. destruct (old_index_next_ids st !! i) eqn:E; cbn.
      * by rewrite E.
      * by rewrite lookup_insert_eq.
    + rewrite (lookup_insert_ne (list_to_map l)) by done.
      destruct (old_index_next_ids st !! i); cbn; [done|]. by rewrite lookup_insert_ne.
Qed.

Lemma hashed_map_keys {V} (m : gmap Z V) : NoDup (hashed (map_to_list m)).*1.
Proof. rewrite (hashed_perm (map_to_list m)). apply NoDup_fst_map_to_list. Qed.

Lemma hashed_list_to_map {V} (m : gmap Z V) : list_to_map (hashed (map_to_list m)) = m.
Proof. symmetry. apply list_to_map_flip. by rewrite hashed_perm. Qed.

(** The composition of two entries: the table in the comment of [merge()]. *)
Definition merge_entry (e1 e2 : entry_t obj) : entry_t obj :=
  let '(ov, nw, rm) := e2 in
  let e := match ov with Some o => modify_entry o e1 | None => e1 end in
  let e := if nw then (e.1.1, true, e.2) else e in
  match rm with Some o => merge_removed_entry o e | None => e end.

Lemma entry_merge_states (s1 s2 : undo_state obj) k :
  entry (merge_states s1 s2) k = merge_entry (entry s1 k) (entry s2 k).
Proof.
  unfold merge_states.
  rewrite (fold_entry merge_removed merge_removed_entry);
    [|apply entry_merge_removed|apply hashed_map_keys].
  rewrite hashed_list_to_map.
  assert (E : forall l st, entry (foldl merge_next st l) k = entry st k).
  { intros l st. apply (fold_preserves merge_next (fun s => entry s k)). intros s it. unfold merge_next.
    by destruct (old_index_next_ids s !! it.1). }
  rewrite E, fold_new, (fold_entry merge_old modify_entry);
    [|apply entry_merge_old|apply hashed_map_keys].
  rewrite hashed_list_to_map.
  change (entry s2 k) with (old_values s2 !! k, bool_decide (k ∈ new_ids s2), removed s2 !! k).
  cbn [merge_entry].
  destruct (old_values s2 !! k), (removed s2 !! k);
    destruct (decide (k ∈ hashed (elements (new_ids s2)))) as [Hk|Hk];
    rewrite hashed_perm, elem_of_elements in Hk;
    rewrite ?(bool_decide_true (k ∈ new_ids s2)), ?(bool_decide_false (k ∈ new_ids s2)) by done;
    done.
Qed.

Lemma next_merge_states (s1 s2 : undo_state obj) ix :
  old_index_next_ids (merge_states s1 s2) !! ix =
  match old_index_next_ids s1 !! ix with
  | Some n => Some n
  | None => old_index_next_ids s2 !! ix
  end.
Proof.
  unfold merge_states.
  rewrite (fold_preserves merge_removed (fun s : undo_state obj => old_index_next_ids s)).
  2: { intros s it. unfold merge_removed. case_decide; [done|]. by destruct (old_values s !! it.1). }
  rewrite fold_next by apply hashed_map_keys. rewrite hashed_list_to_map.
  rewrite (fold_preserves merge_new (fun s : undo_state obj => old_index_next_ids s)) by done.
  rewrite (fold_preserves merge_old (fun s : undo_state obj => old_index_next_ids s)); [done|].
  intros s it. apply (record_modify_next s it.1 it.2).
Qed.

(** The table is right: composing two legal entries describes the composed change. *)
Lemma merge_entry_ok (a b c : option obj) e1 e2 :
  tracks_entry a b e1 -> tracks_entry b c e2 ->
  (e2.1.2 = true -> a = None) -> tracks_entry a c (merge_entry e1 e2).
Proof.
  destruct e1 as [[[x|] []] [y|]]; cbn; try done;
  destruct e2 as [[[x'|] []] [y'|]]; cbn; try done; intros; destruct_and?; simplify_eq;
    repeat match goal with H : is_Some _ |- _ => destruct H end; simplify_eq; eauto.
  all: try (match goal with H : true = true -> _ |- _ => specialize (H eq_refl) end);
    simplify_eq; eauto.
Qed.

Lemma tracks_merge a b c s1 s2 :
  tracks a b s1 -> tracks b c s2 -> tracks a c (merge_states s1 s2).
Proof.
  intros H1 H2.
  assert (Hfresh : forall id, id ∈ new_ids s2 -> exists n, next_ids a !! index_of_id id = Some n /\ n <= id).
  { intros id Hid. destruct (tr_fresh _ _ _ H2 id Hid) as (n & Hn & Hle).
    destruct (tracks_index a b s1 _ _ H1 Hn) as (n' & Hn' & Hle'). exists n'. split; [done|lia]. }
  split; [| | | |apply H1].
  - intros k. rewrite entry_merge_states.
    apply (merge_entry_ok _ (objects b !! k)); [apply H1|apply H2|].
    unfold entry. cbn. intros Hk%bool_decide_eq_true.
    destruct (objects a !! k) eqn:E; [|done]. exfalso.
    destruct (Hfresh k Hk) as (n & Hn & Hle).
    destruct (wf_fresh _ (tr_wf _ _ _ H1) k) as (n' & Hn' & Hlt); [by eauto|].
    simplify_eq. lia.
  - intros ix. rewrite next_merge_states.
    pose proof (tr_next _ _ _ H1 ix) as E1. pose proof (tr_next _ _ _ H2 ix) as E2.
    destruct (old_index_next_ids s1 !! ix), (old_index_next_ids s2 !! ix);
      destruct_and?; split_and?; try congruence.
  - intros ix n m Hn Hm. destruct (tracks_index b c s2 _ _ H2 Hm) as (n' & Hn' & Hle).
    pose proof (tr_mono _ _ _ H1 ix n n' Hn Hn'). lia.
  - intros id Hid.
    assert (Hor : id ∈ new_ids s1 \/ id ∈ new_ids s2).
    { pose proof (entry_merge_states s1 s2 id) as He. unfold entry at 1 in He.
      rewrite (bool_decide_true (id ∈ new_ids (merge_states s1 s2))) in He by done.
      unfold entry in He.
      destruct (decide (id ∈ new_ids s1)); [by left|].
      destruct (decide (id ∈ new_ids s2)); [by right|].
      rewrite !(bool_decide_false (id ∈ new_ids _)) in He by done.
      destruct (old_values s1 !! id), (old_values s2 !! id), (removed s1 !! id), (removed s2 !! id);
        cbn in He; congruence. }
    destruct Hor as [Hid1|Hid2]; [by apply H1|by apply Hfresh].
Qed.

(** *** [restore]: with recording disabled, the loops rewrite the database *)
Definition same_next u u' d' : Prop := u' = set_db u d' /\ next_ids d' = next_ids (_db u).

Lemma lift_db_Ok {A} (f : object_database obj -> result (A * object_database obj)) u a u' :
  lift_db f u = Ok (a, u') -> exists d', f (_db u) = Ok (a, d') /\ u' = set_db u d'.
Proof. unfold lift_db. destruct (f (_db u)) as [[b d]|]; [|done]. intros [= <- <-]. eauto. Qed.

Lemma lift_db__Ok f u v u' :
  lift_db_ f u = Ok (v, u') -> exists d', f (_db u) = Ok d' /\ u' = set_db u d'.
Proof.
  unfold lift_db_. intros Hr. apply lift_db_Ok in Hr as (d' & Hf & ->). exists d'.
  by destruct (f (_db u)); simplify_eq.
Qed.

Lemma on_back_disabled f u v u' : _disabled u = true -> on_back f u = Ok (v, u') -> u' = u.
Proof. unfold on_back. intros Hd Hr. inv_ok. by rewrite Hd. Qed.

Lemma db_get_Ok u id o u' : db_get id u = Ok (o, u') -> objects (_db u) !! id = Some o /\ u' = u.
Proof. unfold db_get, get_object. intros Hr. by inv_ok. Qed.

Lemma db_modify_disabled u id m v u' :
  _disabled u = true -> db_modify conflict id m u = Ok (v, u') ->
  exists o, objects (_db u) !! id = Some o
    /\ u' = set_db u (set_objects (_db u) (<[id := m o]> (objects (_db u)))).
Proof.
  unfold db_modify. intros Hd Hr. inv_ok. apply db_get_Ok in Hrun as [Ho ->].
  apply on_back_disabled in Hrun0 as ->; [|done].
  apply lift_db__Ok in Hr as (d' & (o & ? & ->)%index_modify_Ok & ->). simplify_eq. eauto.
Qed.

Lemma db_remove_disabled u id v u' :
  _disabled u = true -> db_remove id u = Ok (v, u') ->
  u' = set_db u (set_objects (_db u) (delete id (objects (_db u)))).
Proof.
  unfold db_remove. intros Hd Hr. inv_ok. apply db_get_Ok in Hrun as [Ho ->].
  apply on_back_disabled in Hrun0 as ->; [|done].
  by apply lift_db__Ok in Hr as (d' & [_ ->]%index_remove_Ok & ->).
Qed.

Lemma db_insert_Ok u id o v u' :
  db_insert conflict id o u = Ok (v, u') ->
  u' = set_db u (set_objects (_db u) (<[id := o]> (objects (_db u)))).
Proof. unfold db_insert. intros Hr. by apply lift_db__Ok in Hr as (d' & [_ ->]%index_insert_Ok & ->). Qed.

Lemma db_set_next_id_Ok u ix n v u' :
  db_set_next_id ix n u = Ok (v, u') ->
  u' = set_db u (set_next_ids (_db u) (<[ix := n]> (next_ids (_db u)))).
Proof. unfold db_set_next_id. intros Hr. by apply lift_db__Ok in Hr as (d' & [_ ->]%set_next_id_Ok & ->). Qed.

(** A loop over distinct keys whose body sets the object at its key. *)
Lemma loop_objects {A} (key : A -> Z) (val : A -> option obj) (body : A -> M udb unit) l u v u' :
  (forall x u1 v1 u2, _disabled u1 = true -> body x u1 = Ok (v1, u2) ->
     exists d', same_next u1 u2 d' /\ objects d' !! key x = val x
       /\ forall k, k <> key x -> objects d' !! k = objects (_db u1) !! k) ->
  NoDup (key <$> l) -> _disabled u = true -> for_each l body u = Ok (v, u') ->
  exists d', same_next u u' d'
    /\ (forall x, x ∈ l -> objects d' !! key x = val x)
    /\ (forall k, k ∉ key <$> l -> objects d' !! k = objects (_db u) !! k).
Proof.
  intros Hbody. revert u. induction l as [|x l IH]; cbn; intros u Hnd Hd Hr; inv_ok.
  - exists (_db u'). split; [by destruct u'|]. split; [by intros ? ?%elem_of_nil|done].
  - apply NoDup_cons in Hnd as [Hx Hnd].
    match goal with H : body x u = _ |- _ => destruct (Hbody _ _ _ _ Hd H) as (d1 & [-> Hn1] & Hv & Ho) end.
    match goal with H : for_each l body _ = _ |- _ => apply IH in H as (d2 & [-> Hn2] & Hin & Hout) end;
      [|done|done].
    exists d2. split; [split; [done|cbn in *; congruence]|]. split.
    + intros y [->|Hy]%elem_of_cons; [|by apply Hin]. by rewrite Hout.
    + intros k [Hk1 Hk2]%not_elem_of_cons. rewrite Hout by done. cbn. by apply Ho.
Qed.

Lemma loop_next l u v u' :
  NoDup l.*1 ->
  for_each l (fun item => db_set_next_id item.1 item.2) u = Ok (v, u') ->
  exists d', u' = set_db u d' /\ objects d' = objects (_db u)
    /\ forall ix, next_ids d' !! ix = match (list_to_map l : gmap Z Z) !! ix with
                                    | Some n => Some n
                                    | None => next_ids (_db u) !! ix
                                    end.
Proof.
  revert u. induction l as [|[i n] l IH]; cbn; intros u Hnd Hr; inv_ok.
  - exists (_db u'). split; [by destruct u'|]. split; [done|].
    intros ix. by rewrite lookup_empty.
  - apply NoDup_cons in Hnd as [Hi Hnd].
    match goal with H : db_set_next_id _ _ _ = _ |- _ => apply db_set_next_id_Ok in H as -> end.
    match goal with H : for_each l _ _ = _ |- _ => apply IH in H as (d' & -> & Ho & Hn) end; [|done].
    exists d'. split; [done|]. split; [done|]. intros ix. rewrite Hn. cbn.
    destruct (decide (ix = i)) as [->|Hne].
    + rewrite !lookup_insert_eq. by rewrite not_elem_of_list_to_map_1.
    + by rewrite !lookup_insert_ne.
Qed.

Lemma elem_hashed_map {V} (m : gmap Z V) x : x ∈ hashed (map_to_list m) <-> m !! x.1 = Some x.2.
Proof. rewrite hashed_perm. destruct x as [k v]. apply elem_of_map_to_list. Qed.

Lemma not_key_hashed {V} (m : gmap Z V) k : k ∉ (hashed (map_to_list m)).*1 <-> m !! k = None.
Proof.
  rewrite list_elem_of_fmap. split.
  - intros Hk. destruct (m !! k) as [x|] eqn:E; [|done]. exfalso. apply Hk.
    exists (k, x). split; [done|]. by apply elem_hashed_map.
  - intros Hk ([k' x] & -> & Hx%elem_hashed_map). cbn in *. congruence.
Qed.

(** The two loops that set objects, over the entries of a map. *)
Lemma loop_map (m : gmap Z obj) (body : Z * obj -> M udb unit) u v u' :
  (forall x u1 v1 u2, _disabled u1 = true -> body x u1 = Ok (v1, u2) ->
     u2 = set_db u1 (set_objects (_db u1) (<[x.1 := x.2]> (objects (_db u1))))) ->
  _disabled u = true -> for_each (hashed (map_to_list m)) body u = Ok (v, u') ->
  exists d', same_next u u' d'
    /\ forall k, objects d' !! k = match m !! k with Some o => Some o | None => objects (_db u) !! k end.
Proof.
  intros Hbody Hd Hr.
  destruct (loop_objects fst (fun x => Some x.2) body (hashed (map_to_list m)) u v u') as (d' & Hs & Hin & Hout);
    [|apply hashed_map_keys|done..|].
  - intros x u1 v1 u2 Hd1 ->%Hbody; [|done]. eexists. split; [done|]. cbn.
    split; [by rewrite lookup_insert_eq|]. intros k Hk. by rewrite lookup_insert_ne.
  - exists d'. split; [done|]. intros k. destruct (m !! k) as [o|] eqn:E.
    + apply (Hin (k, o)). by apply elem_hashed_map.
    + apply Hout. by apply not_key_hashed.
Qed.

Lemma restore_correct b u st v u' :
  tracks b (_db u) st -> _disabled u = true -> restore conflict st u = Ok (v, u') -> u' = set_db u b.
Proof.
  unfold restore. intros Ht Hd Hr. inv_ok.
  apply loop_map in Hrun as (d1 & [-> Hn1] & Ho1); [|..|done].
  2: { intros x u1 v1 u2 Hd1 Hx. by apply db_modify_disabled in Hx as (o & _ & ->). }
  apply (loop_objects id (fun _ => None)) in Hrun0 as (d2 & [-> Hn2] & Hi2 & Ho2); [|..|done].
  2: { intros x u1 v1 u2 Hd1 ->%db_remove_disabled; [|done]. eexists. split; [done|]. cbn.
       split; [by rewrite lookup_delete_eq|]. intros k Hk. by rewrite lookup_delete_ne. }
  2: { rewrite list_fmap_id, hashed_perm. apply NoDup_elements. }
  apply loop_next in Hrun1 as (d3 & -> & Ho3 & Hn3); [|apply hashed_map_keys].
  apply loop_map in Hr as (d4 & [-> Hn4] & Ho4); [|..|done].
  2: { intros x u1 v1 u2 _ Hx. by apply db_insert_Ok in Hx as ->. }
  cbn in *. enough (d4 = b) as -> by done.
  assert (Hobj : objects d4 = objects b).
  { apply map_eq. intros k. rewrite Ho4, Ho3.
    pose proof (tr_entry _ _ _ Ht k) as He. unfold entry in He.
    assert (Hnew : k ∈ id <$> hashed (elements (new_ids st)) <-> k ∈ new_ids st)
      by by rewrite list_fmap_id, hashed_perm, elem_of_elements.
    destruct (removed st !! k) as [y|]; destruct (old_values st !! k) as [x|] eqn:Eo;
      destruct (decide (k ∈ new_ids st)) as [Hk|Hk];
      rewrite ?(bool_decide_true (k ∈ new_ids st)), ?(bool_decide_false (k ∈ new_ids st)) in He by done;
      cbn in He; try done; destruct_and?; try congruence.
    - rewrite Ho2 by by rewrite Hnew. rewrite Ho1, Eo. congruence.
    - pose proof (Hi2 k) as Hx. unfold id in Hx. rewrite Hx; [congruence|].
      by rewrite hashed_perm, elem_of_elements.
    - rewrite Ho2 by by rewrite Hnew. rewrite Ho1, Eo. congruence. }
  assert (Hnext : next_ids d4 = next_ids b).
  { apply map_eq. intros ix. rewrite Hn4, Hn3, hashed_list_to_map, Hn2. cbn. rewrite Hn1.
    pose proof (tr_next _ _ _ Ht ix) as E. destruct (old_index_next_ids st !! ix).
    - by destruct E as [-> _].
    - done. }
  destruct d4, b. cbn in *. by subst.
Qed.

(** *** When no unique key but the identifier exists, [restore] cannot throw *)
Lemma loop_total {A} (Inv : list A -> udb -> Prop) (body : A -> M udb unit) (l : list A) u :
  (forall x l u, Inv (x :: l) u -> exists u', body x u = Ok (tt, u') /\ Inv l u') ->
  Inv l u -> exists u', for_each l body u = Ok (tt, u') /\ Inv [] u'.
Proof.
  intros Hb. revert u. induction l as [|x l IH]; intros u Hi; [by exists u|].
  destruct (Hb x l u Hi) as (u1 & H1 & Hi1). destruct (IH u1 Hi1) as (u2 & H2 & Hi2).
  exists u2. split; [|done]. cbn. unfold mbind, M_bind. by rewrite H1.
Qed.

Context (no_conflict : forall o1 o2 : obj, conflict o1 o2 = false).

Lemma key_taken_none m id o : key_taken conflict m id o = false.
Proof.
  unfold key_taken. induction (map_to_list m) as [|x l IH]; cbn; [done|].
  by rewrite no_conflict, andb_false_r.
Qed.

Lemma on_back_run f u : _disabled u = true -> on_back f u = Ok (tt, u).
Proof. unfold on_back, update. by intros ->. Qed.

Lemma db_modify_total u id m :
  _disabled u = true -> is_Some (objects (_db u) !! id) ->
  exists o, objects (_db u) !! id = Some o /\
  db_modify conflict id m u =
    Ok (tt, set_db u (set_objects (_db u) (<[id := m o]> (objects (_db u))))).
Proof.
  intros Hd [o Ho]. exists o. split; [done|].
  unfold db_modify, db_get, get_object, find_object, mbind, M_bind. rewrite Ho. cbn.
  rewrite Hd. unfold lift_db_, lift_db, index_modify, get_object, find_object.
  rewrite Ho. cbn. by rewrite key_taken_none.
Qed.

Lemma db_remove_total u id :
  _disabled u = true -> is_Some (objects (_db u) !! id) ->
  db_remove id u = Ok (tt, set_db u (set_objects (_db u) (delete id (objects (_db u))))).
Proof.
  intros Hd [o Ho]. unfold db_remove, db_get, get_object, find_object, mbind, M_bind. rewrite Ho. cbn.
  rewrite Hd. unfold lift_db_, lift_db, index_remove, get_object, find_object.
  by rewrite Ho.
Qed.

Lemma db_insert_total u id o :
  objects (_db u) !! id = None -> is_Some (next_ids (_db u) !! index_of_id id) ->
  db_insert conflict id o u = Ok (tt, set_db u (set_objects (_db u) (<[id := o]> (objects (_db u))))).
Proof.
  intros Ho [n Hn]. unfold db_insert, lift_db_, lift_db, index_insert, get_next_id. rewrite Hn, Ho. cbn.
  by rewrite key_taken_none.
Qed.

Lemma modify_loop_total (l : list (Z * obj)) u :
  _disabled u = true -> Forall (fun it => is_Some (objects (_db u) !! it.1)) l ->
  exists u', for_each l (fun it => db_modify conflict it.1 (fun _ => it.2)) u = Ok (tt, u').
Proof.
  intros Hd Hl.
  destruct (loop_total (fun l u => _disabled u = true
    /\ Forall (fun it : Z * obj => is_Some (objects (_db u) !! it.1)) l)
    (fun it => db_modify conflict it.1 (fun _ => it.2)) l u) as (u' & ? & _); [|done|by eauto].
  intros x l' u1 [Hd1 [Hx Hl']%Forall_cons].
  destruct (db_modify_total u1 x.1 (fun _ => x.2) Hd1 Hx) as (o & Ho & ->).
  eexists. split; [done|]. split; [done|]. cbn. eapply Forall_impl; [exact Hl'|]. cbn.
  intros it Hit. destruct (decide (it.1 = x.1)) as [->|]; [rewrite lookup_insert_eq; eauto|].
  by rewrite lookup_insert_ne.
Qed.

Lemma remove_loop_total (l : list Z) u :
  _disabled u = true -> NoDup l -> Forall (fun k => is_Some (objects (_db u) !! k)) l ->
  exists u', for_each l db_remove u = Ok (tt, u').
Proof.
  intros Hd Hnd Hl.
  destruct (loop_total (fun l u => _disabled u = true /\ NoDup l
    /\ Forall (fun k => is_Some (objects (_db u) !! k)) l) db_remove l u)
    as (u' & ? & _); [|done|by eauto].
  intros x l' u1 (Hd1 & [Hx Hnd']%NoDup_cons & [Hs Hl']%Forall_cons).
  rewrite db_remove_total by done. eexists. split; [done|]. split_and!; [done..|]. cbn.
  rewrite Forall_forall in Hl' |- *. intros k Hk. rewrite lookup_delete_ne; [by apply Hl'|].
  intros ->. done.
Qed.

Lemma next_loop_total (l : list (Z * Z)) u :
  Forall (fun it => is_Some (next_ids (_db u) !! it.1)) l ->
  exists u', for_each l (fun it => db_set_next_id it.1 it.2) u = Ok (tt, u').
Proof.
  intros Hl.
  destruct (loop_total (fun l u => Forall (fun it : Z * Z => is_Some (next_ids (_db u) !! it.1)) l)
    (fun it => db_set_next_id it.1 it.2) l u) as (u' & ? & _); [|done|by eauto].
  intros x l' u1 [[n Hx] Hl']%Forall_cons. eexists. split.
  { unfold db_set_next_id, lift_db_, lift_db, set_next_id, get_next_id. by rewrite Hx. }
  cbn. eapply Forall_impl; [exact Hl'|]. cbn. intros it Hit.
  destruct (decide (it.1 = x.1)) as [->|]; [rewrite lookup_insert_eq; eauto|].
  by rewrite lookup_insert_ne.
Qed.

Lemma insert_loop_total (l : list (Z * obj)) u :
  NoDup l.*1 ->
  Forall (fun it => objects (_db u) !! it.1 = None
                    /\ is_Some (next_ids (_db u) !! index_of_id it.1)) l ->
  exists u', for_each l (fun it => db_insert conflict it.1 it.2) u = Ok (tt, u').
Proof.
  intros Hnd Hl.
  destruct (loop_total (fun l u => NoDup l.*1 /\ Forall (fun it : Z * obj =>
      objects (_db u) !! it.1 = None /\ is_Some (next_ids (_db u) !! index_of_id it.1)) l)
    (fun it => db_insert conflict it.1 it.2) l u) as (u' & ? & _); [|done|by eauto].
  intros x l' u1 [[Hx Hnd']%NoDup_cons [[Ho Hn] Hl']%Forall_cons].
  rewrite db_insert_total by done. eexists. split; [done|]. split; [done|]. cbn.
  rewrite Forall_forall in Hl' |- *. intros it Hit. rewrite lookup_insert_ne; [by apply Hl'|].
  intros E. apply Hx. rewrite E. by apply list_elem_of_fmap_2.
Qed.

Lemma restore_total b u st :
  tracks b (_db u) st -> _disabled u = true -> restore conflict st u = Ok (tt, set_db u b).
Proof.
  intros Ht Hd.
  assert (Hex : exists u', restore conflict st u = Ok (tt, u')).
  2: { destruct Hex as [u' Hu]. by rewrite Hu, (restore_correct b u st tt u' Ht Hd Hu). }
  assert (He : forall k, tracks_entry (objects b !! k) (objects (_db u) !! k) (entry st k)) by apply Ht.
  unfold entry, tracks_entry in He. unfold restore, mbind, M_bind.
  destruct (modify_loop_total (hashed (map_to_list (old_values st))) u Hd) as [u1 E1].
  { apply Forall_forall. intros it Hit%elem_hashed_map. specialize (He it.1). rewrite Hit in He.
    destruct (bool_decide _), (removed st !! it.1); naive_solver. }
  rewrite E1. apply loop_map in E1 as (d1 & [-> Hn1] & Ho1); [|..|done].
  2: { intros x v1 w1 v2 Hd1 Hx. by apply db_modify_disabled in Hx as (o & _ & ->). }
  destruct (remove_loop_total (hashed (elements (new_ids st))) (set_db u d1)) as [u2 E2]; [done|..].
  { rewrite hashed_perm. apply NoDup_elements. }
  { apply Forall_forall. intros k Hk. rewrite hashed_perm, elem_of_elements in Hk. cbn.
    specialize (He k). rewrite bool_decide_true in He by done. rewrite Ho1.
    destruct (old_values st !! k), (removed st !! k); naive_solver. }
  rewrite E2. apply (loop_objects id (fun _ => None)) in E2 as (d2 & [-> Hn2] & _ & Ho2); [|..|done].
  2: { intros x v1 w1 v2 Hd1 ->%db_remove_disabled; [|done]. eexists. split; [done|]. cbn.
       split; [by rewrite lookup_delete_eq|]. intros k Hk. by rewrite lookup_delete_ne. }
  2: { rewrite list_fmap_id, hashed_perm. apply NoDup_elements. }
  cbn in Hn1, Hn2, Ho2.
  destruct (next_loop_total (hashed (map_to_list (old_index_next_ids st))) (set_db (set_db u d1) d2))
    as [u3 E3].
  { apply Forall_forall. intros it Hit%elem_hashed_map. cbn. rewrite Hn2, Hn1.
    pose proof (tr_next _ _ _ Ht it.1) as Hx. rewrite Hit in Hx. by destruct Hx. }
  rewrite E3. apply loop_next in E3 as (d3 & -> & Ho3 & Hn3); [|apply hashed_map_keys].
  apply insert_loop_total; [apply hashed_map_keys|].
  apply Forall_forall. intros it Hit%elem_hashed_map. cbn. cbn in Ho3.
  pose proof (He it.1) as Hx. rewrite Hit in Hx.
  destruct (old_values st !! it.1) eqn:Eo, (bool_decide (it.1 ∈ new_ids st)) eqn:Eb; try done.
  destruct Hx as [Hb Hc]. split.
  - rewrite Ho3, Ho2, Ho1, Eo; [done|]. rewrite list_fmap_id, hashed_perm, elem_of_elements.
    by apply bool_decide_eq_false in Eb.
  - rewrite Hn3. case_match; [eauto|]. cbn. rewrite Hn2, Hn1.
    destruct (wf_fresh _ (tr_wf _ _ _ Ht) it.1) as (n & Hn & _); [by eauto|].
    pose proof (tr_next _ _ _ Ht (index_of_id it.1)) as Hy.
    destruct (old_index_next_ids st !! _); [by destruct Hy|]. rewrite <- Hy. eauto.
Qed.
End Facts.

(** ** The refinement *)
Record refines {obj} (u : undo_database obj) (s : spec obj) : Prop := {
  rf_current : current s = _db u;
  rf_chain : chain (_db u) (_stack u) (snapshots s);
  rf_active : active s = _active_sessions u;
  rf_off : off s = _disabled u;
  rf_limit : limit s = _max_size u;
  rf_wf : db_wf (_db u);
}.

(** When an operation may be used: a change is recorded, or there is nothing
    to record it in, and an index that creates has an instance left. *)
Definition recording {obj} (u : undo_database obj) : Prop :=
  _disabled u = false \/ _stack u = [].
Definition admissible {obj} (o : op obj) (u : undo_database obj) : Prop :=
  match o with
  | OpCreate ix _ => recording u /\ has_room (_db u) ix
  | OpModify _ _ | OpRemove _ => recording u
  | _ => True
  end.

Definition is_change {obj} (o : op obj) : bool :=
  match o with OpCreate _ _ | OpModify _ _ | OpRemove _ => true | _ => false end.

Section Refinement.
Context {obj : Type} (conflict : obj -> obj -> bool) `{IndexLaws}.
Implicit Types (u : undo_database obj) (s : spec obj) (d : object_database obj).

Lemma run_M_Ok {S A} (m : M S A) (x y : S) : run_M m x = Ok y -> exists a, m x = Ok (a, y).
Proof. unfold run_M. destruct (m x) as [[a y']|[e y']]; [|done]. intros [= ->]. eauto. Qed.

Lemma pop_front_while_take n max (l : list (undo_state obj)) :
  (length l <= n)%nat -> pop_front_while n max l = take max l.
Proof.
  revert l. induction n as [|n IH]; intros l Hl.
  - rewrite take_ge; [done|lia].
  - change (pop_front_while (S n) max l) with
      (if (max <? length l)%nat then pop_front_while n max (take (length l - 1) l) else l).
    destruct (Nat.ltb_spec max (length l)); [|by rewrite take_ge by lia].
    rewrite IH by (rewrite length_take; lia). rewrite take_take. f_equal. lia.
Qed.

Lemma chain_take c stk (bs : list (object_database obj)) n :
  chain c stk bs -> chain c (take n stk) (take n bs).
Proof. intros Hc. revert n. induction Hc; intros [|n]; cbn; constructor; auto. Qed.

Lemma chain_length c stk (bs : list (object_database obj)) : chain c stk bs -> length bs = length stk.
Proof. induction 1; cbn; congruence. Qed.

(** Recording a change keeps the relation. *)
Lemma refines_change u s d f v u' :
  refines u s -> recording u -> db_wf d ->
  (forall b st, tracks b (_db u) st -> tracks b d (f st)) ->
  on_back f u = Ok (v, u') -> refines (set_db u' d) (spec_change s d).
Proof.
  intros [Hcu Hch Ha Ho Hl Hwf] Hrec Hd Ht Hr. unfold on_back in Hr. inv_ok.
  unfold spec_change. rewrite Ho. destruct (_disabled u) eqn:E; cbn.
  - destruct Hrec as [?|Hs]; [congruence|]. split; cbn; try done; try congruence.
    rewrite Hs in Hch |- *. inversion Hch; subst. constructor.
  - destruct (_stack u) as [|st stk] eqn:Es; inversion Hch; subst; split; cbn; try done; try congruence.
    + constructor; [|constructor]. rewrite Hcu. apply Ht. by apply tracks_refl.
    + constructor; [by apply Ht|done].
Qed.

Lemma on_back_db f u v u' : on_back f u = Ok (v, u') -> _db u' = _db u.
Proof.
  unfold on_back. intros Hr. inv_ok. destruct (_disabled u); [done|]. by destruct (_stack u).
Qed.

Lemma on_back_set_db f u d v u' :
  on_back f (set_db u d) = Ok (v, u') -> exists u1, on_back f u = Ok (v, u1) /\ u' = set_db u1 d.
Proof.
  unfold on_back, update. intros [= <- <-]. eexists. split; [done|]. cbn.
  destruct (_disabled u); [done|]. by destruct (_stack u).
Qed.

Lemma set_db_set_db u d d' : set_db (set_db u d) d' = set_db u d'.
Proof. done. Qed.

Lemma refines_restore u s b bs st stk v u' :
  refines u s -> snapshots s = b :: bs -> _stack u = st :: stk ->
  restore conflict st (set_disabled u true) = Ok (v, u') ->
  u' = set_db (set_disabled u true) b /\ chain b stk bs /\ db_wf b.
Proof.
  intros [Hcu Hch Ha Ho Hl Hwf] Hs Hst Hr. rewrite Hs, Hst in Hch. inversion Hch; subst.
  split; [|by split; [|eapply tr_wf]]. by eapply restore_correct.
Qed.

Lemma create_refines u s ix ctor u' :
  refines u s -> recording u -> has_room (_db u) ix ->
  step conflict (OpCreate ix ctor) u = Ok u' ->
  exists s', spec_step conflict (OpCreate ix ctor) s = Ok s' /\ refines u' s'.
Proof.
  intros Hr Hrec Hroom (id & Hs)%run_M_Ok. unfold db_create in Hs. inv_ok.
  apply lift_db_Ok in Hrun as (d & Hc & ->). apply on_back_set_db in Hrun0 as (u1 & Hb & ->).
  exists (spec_change s d). split.
  - cbn. by rewrite (rf_current _ _ Hr), Hc.
  - eapply refines_change; [done|done| | |exact Hb].
    + eapply create_wf; [apply Hr|done|exact Hc].
    + intros b st Ht. exact (tracks_create _ b _ st ix ctor id d Ht (rf_wf _ _ Hr) Hroom Hc).
Qed.

Lemma modify_refines u s id m u' :
  refines u s -> recording u -> step conflict (OpModify id m) u = Ok u' ->
  exists s', spec_step conflict (OpModify id m) s = Ok s' /\ refines u' s'.
Proof.
  intros Hr Hrec (v & Hs)%run_M_Ok. unfold db_modify in Hs. inv_ok.
  apply db_get_Ok in Hrun as [Ho ->]. pose proof (on_back_db _ _ _ _ Hrun0) as Ed.
  apply lift_db__Ok in Hs as (d & Hm & ->). rewrite Ed in Hm.
  exists (spec_change s d). split.
  - cbn. by rewrite (rf_current _ _ Hr), Hm.
  - eapply refines_change; [done|done| | |exact Hrun0].
    + eapply modify_wf; [apply Hr|exact Hm].
    + intros b st Ht. by eapply tracks_modify.
Qed.

Lemma remove_refines u s id u' :
  refines u s -> recording u -> step conflict (OpRemove id) u = Ok u' ->
  exists s', spec_step conflict (OpRemove id) s = Ok s' /\ refines u' s'.
Proof.
  intros Hr Hrec (v & Hs)%run_M_Ok. unfold db_remove in Hs. inv_ok.
  apply db_get_Ok in Hrun as [Ho ->]. pose proof (on_back_db _ _ _ _ Hrun0) as Ed.
  apply lift_db__Ok in Hs as (d & Hm & ->). rewrite Ed in Hm.
  exists (spec_change s d). split.
  - cbn. by rewrite (rf_current _ _ Hr), Hm.
  - eapply refines_change; [done|done| | |exact Hrun0].
    + eapply remove_wf; [apply Hr|exact Hm].
    + intros b st Ht. by eapply tracks_remove.
Qed.

Lemma start_refines u s force u' :
  refines u s -> step conflict (OpStart force) u = Ok u' ->
  exists s', spec_step conflict (OpStart force) s = Ok s' /\ refines u' s'.
Proof.
  intros Hr (v & Hs)%run_M_Ok. destruct Hr as [Hcu Hch Ha Ho Hl Hwf].
  unfold start_undo_session in Hs. inv_ok. cbn [spec_step]. rewrite Ho.
  destruct (_disabled u && negb force) eqn:E; inv_ok; [eexists; split; [done|by split]|].
  eexists. split; [done|]. split; cbn; [by rewrite Hcu; destruct force| |by rewrite Ha; destruct force| |by destruct force|].
  - rewrite Hcu. destruct force; cbn; (constructor; [by apply tracks_refl|]);
      rewrite pop_front_while_take, Hl by done; by apply chain_take.
  - destruct force; cbn; [done|]. by destruct (_disabled u).
  - by destruct force.
Qed.

Lemma undo_refines u s u' :
  refines u s -> step conflict OpUndo u = Ok u' ->
  exists s', spec_step conflict OpUndo s = Ok s' /\ refines u' s'.
Proof.
  intros Hr (v & Hs)%run_M_Ok. unfold undo, back, disable, pop_back, enable, decr_active in Hs. inv_ok.
  cbn in Hrun3. destruct (_stack u) as [|st stk] eqn:Es; [done|]. simplify_eq.
  destruct (snapshots s) as [|b bs] eqn:Eb.
  { pose proof (rf_chain _ _ Hr) as Hch. rewrite Eb, Es in Hch. inversion Hch. }
  destruct (refines_restore u s b bs _ _ _ _ Hr Eb Es Hrun4) as (-> & Hch & Hwf).
  cbn [spec_step]. destruct Hr as [Hcu _ Ha Ho Hl _]. rewrite Ho, Ha, Eb.
  match goal with H1 : negb _ = true, H2 : (0 <? _) = true |- _ => rewrite H1, H2 end.
  eexists. split; [done|]. split; cbn; try done. by rewrite Es.
Qed.

Lemma pop_commit_refines u s u' :
  refines u s -> step conflict OpPopCommit u = Ok u' ->
  exists s', spec_step conflict OpPopCommit s = Ok s' /\ refines u' s'.
Proof.
  intros Hr (v & Hs)%run_M_Ok. unfold pop_commit, back, disable, pop_back, enable in Hs. inv_ok.
  cbn in Hrun3. destruct (_stack u) as [|st stk] eqn:Es; [done|]. simplify_eq.
  destruct (snapshots s) as [|b bs] eqn:Eb.
  { pose proof (rf_chain _ _ Hr) as Hch. rewrite Eb, Es in Hch. inversion Hch. }
  destruct (refines_restore u s b bs _ _ _ _ Hr Eb Es Hrun4) as (-> & Hch & Hwf).
  cbn [spec_step]. destruct Hr as [Hcu _ Ha Ho Hl _]. rewrite Ha, Eb.
  match goal with H2 : (_ =? 0) = true |- _ => rewrite H2 end.
  eexists. split; [done|]. split; cbn; try done. by rewrite Es.
Qed.

Lemma merge_refines u s u' :
  refines u s -> step conflict OpMerge u = Ok u' ->
  exists s', spec_step conflict OpMerge s = Ok s' /\ refines u' s'.
Proof.
  intros Hr (v & Hs)%run_M_Ok. pose proof (chain_length _ _ _ (rf_chain _ _ Hr)) as Hlen.
  destruct Hr as [Hcu Hch Ha Ho Hl Hwf].
  unfold merge in Hs. inv_ok. cbn [spec_step]. rewrite Ha.
  match goal with H : (0 <? _) = true |- _ => rewrite H end. rewrite Hlen.
  destruct (_ && _) eqn:E.
  - unfold pop_back, decr_active in Hs. inv_ok. eexists. split; [done|].
    apply andb_true_iff in E as [_ E%Nat.eqb_eq].
    destruct (_stack u) as [|st [|]] eqn:Es; try done.
    split; cbn; try done; try congruence. constructor.
  - destruct (_stack u) as [|st [|prev stk]]; try done.
    unfold decr_active in Hs. inv_ok. inversion Hch as [|? ? ? b1 bs1 Ht1 Hch1]; subst.
    inversion Hch1 as [|? ? ? b2 bs2 Ht2 Hch2]; subst.
    eexists. split; [done|]. split; cbn; try done; try congruence.
    constructor; [|done]. by eapply tracks_merge.
Qed.

Lemma commit_refines u s u' :
  refines u s -> step conflict OpCommit u = Ok u' ->
  exists s', spec_step conflict OpCommit s = Ok s' /\ refines u' s'.
Proof.
  intros [Hcu Hch Ha Ho Hl Hwf] (v & Hs)%run_M_Ok. unfold commit, decr_active in Hs. inv_ok.
  cbn [spec_step]. rewrite Ha. match goal with H : (0 <? _) = true |- _ => rewrite H end.
  eexists. split; [done|]. by split; cbn; rewrite ?Ha.
Qed.

Lemma step_refines u s o u' :
  refines u s -> admissible o u -> step conflict o u = Ok u' ->
  exists s', spec_step conflict o s = Ok s' /\ refines u' s'.
Proof.
  destruct o; cbn [admissible]; intros Hr Ha Hs.
  - destruct Ha. by eapply create_refines.
  - by eapply modify_refines.
  - by eapply remove_refines.
  - by eapply start_refines.
  - by eapply undo_refines.
  - by eapply merge_refines.
  - by eapply commit_refines.
  - by eapply pop_commit_refines.
Qed.

(** Every operation of the sequence is admissible where it is applied. *)
Fixpoint admissible_run (l : list (op obj)) u : Prop :=
  match l with
  | [] => True
  | o :: l' => admissible o u /\ forall u1, step conflict o u = Ok u1 -> admissible_run l' u1
  end.

Lemma run_app l1 l2 u : run conflict (l1 ++ l2) u = (u1 ← run conflict l1 u; run conflict l2 u1).
Proof.
  revert u. induction l1 as [|o l1 IH]; intros u; cbn; [done|].
  destruct (step conflict o u); cbn; [apply IH|done].
Qed.

Lemma run_refines u s l u' :
  refines u s -> admissible_run l u -> run conflict l u = Ok u' ->
  exists s', spec_run conflict l s = Ok s' /\ refines u' s'.
Proof.
  revert u s. induction l as [|o l IH]; cbn; intros u s Hr Ha Hrun; inv_ok; [by exists s|].
  destruct Ha as [Ha Hal].
  destruct (step_refines u s o _ Hr Ha Hrun0) as (s1 & Hs1 & Hr1).
  rewrite Hs1. cbn. eapply IH; [exact Hr1|by apply Hal|exact Hrun].
Qed.

(** Changes act on the current database only, once there is a snapshot. *)
Lemma spec_changes l s b bs s' :
  Forall (fun o => is_change o = true) l -> snapshots s = b :: bs -> spec_run conflict l s = Ok s' ->
  snapshots s' = b :: bs /\ active s' = active s /\ off s' = off s /\ limit s' = limit s.
Proof.
  revert s. induction l as [|o l IH]; cbn; intros s Hl Hs Hr; inv_ok; [done|].
  apply Forall_cons in Hl as [Ho Hl].
  assert (snapshots a = b :: bs /\ active a = active s /\ off a = off s /\ limit a = limit s)
    as (Hs1 & E1 & E2 & E3).
  { destruct o; try done; cbn in Hrun; inv_ok; unfold spec_change; cbn; rewrite Hs;
      by destruct (off s). }
  destruct (IH a Hl Hs1 Hr) as (? & -> & -> & ->). done.
Qed.

Lemma spec_run_app l1 l2 s :
  spec_run conflict (l1 ++ l2) s = (s1 ← spec_run conflict l1 s; spec_run conflict l2 s1).
Proof.
  revert s. induction l1 as [|o l1 IH]; intros s; cbn; [done|].
  destruct (spec_step conflict o s); cbn; [apply IH|done].
Qed.
End Refinement.

Section Completeness.
#[local] Arguments restore : simpl never.
Context {obj : Type} (conflict : obj -> obj -> bool) `{IndexLaws}.
Context (no_conflict : forall o1 o2 : obj, conflict o1 o2 = false).

Lemma restore_top (u : undo_database obj) s b bs :
  refines u s -> snapshots s = b :: bs ->
  exists st stk, _stack u = st :: stk /\
    restore conflict st (set_disabled u true) = Ok (tt, set_db (set_disabled u true) b).
Proof.
  intros Hr Hs. pose proof (rf_chain _ _ Hr) as Hch. rewrite Hs in Hch.
  inversion Hch as [|? st stk ? ? Ht Hch']; subst. exists st, stk. split; [done|].
  by apply restore_total.
Qed.

Lemma step_total (u : undo_database obj) s o s' :
  refines u s -> spec_step conflict o s = Ok s' -> is_ok (step conflict o u) = true.
Proof.
  intros Hr Hs. pose proof Hr as [Hcu Hch Ha Ho Hl Hwf].
  pose proof (chain_length _ _ _ Hch) as Hlen.
  destruct o as [ix ctor|id m|id|force| | | |]; cbn in Hs |- *;
    rewrite ?Hcu, ?Ha, ?Ho in Hs; unfold run_M.
  - inv_ok. unfold db_create, lift_db, mbind, M_bind. rewrite Hrun. by destruct a.
  - inv_ok. pose proof Hrun as (o & Hob & _)%index_modify_Ok.
    unfold db_modify, db_get, get_object, find_object, mbind, M_bind. rewrite Hob. cbn.
    unfold lift_db_, lift_db. rewrite (on_back_db (fun st => record_modify st id o) u tt _ eq_refl).
    by rewrite Hrun.
  - inv_ok. pose proof Hrun as [[o Hob] _]%index_remove_Ok.
    unfold db_remove, db_get, get_object, find_object, mbind, M_bind. rewrite Hob. cbn.
    unfold lift_db_, lift_db. rewrite (on_back_db (fun st => record_remove st id o) u tt _ eq_refl).
    by rewrite Hrun.
  - unfold start_undo_session, mbind, M_bind, get_state.
    destruct (_disabled u && negb force); reflexivity.
  - destruct (negb (_disabled u)) eqn:E1, (0 <? _active_sessions u) eqn:E2; try done.
    destruct (snapshots s) as [|b bs] eqn:Es; [done|].
    destruct (restore_top u s b bs Hr Es) as (st & stk & Est & Hre).
    unfold undo, disable, back. run_cbn. rewrite E1. run_cbn. rewrite E2. run_cbn. rewrite Est. run_cbn.
    by rewrite Hre.
  - destruct (0 <? _active_sessions u) eqn:E2; [|done]. rewrite Hlen in Hs.
    unfold merge. run_cbn. rewrite E2. run_cbn. destruct (_ && _); [done|].
    destruct (snapshots s) as [|? [|]], (_stack u) as [|? [|]]; done.
  - destruct (0 <? _active_sessions u) eqn:E2; [|done]. unfold commit. run_cbn. by rewrite E2.
  - destruct (_active_sessions u =? 0) eqn:E2; [|done].
    destruct (snapshots s) as [|b bs] eqn:Es; [done|].
    destruct (restore_top u s b bs Hr Es) as (st & stk & Est & Hre).
    unfold pop_commit, disable, back. run_cbn. rewrite E2. run_cbn.
    rewrite Est. run_cbn. rewrite Est, Hre. done.
Qed.
End Completeness.

(** ** Properties *)

(** C6: the undo database implements a stack of snapshots of the object
    database: whatever admissible sequence of creations, modifications,
    removals, session starts, undos, merges, commits and pops succeeds, the
    specification (which saves, restores and drops whole databases) accepts it
    too, with the same current database, snapshots that the recorded states
    lead back to, and the same flags. *)
Theorem undo_database_refines_snapshots {obj : Type} (conflict : obj -> obj -> bool) `{IndexLaws}
    (u : undo_database obj) (s : spec obj) (l : list (op obj)) (u' : undo_database obj) :
  refines u s -> admissible_run conflict l u -> run conflict l u = Ok u' ->
  exists s', spec_run conflict l s = Ok s' /\ refines u' s'.
Proof. intros. by eapply run_refines. Qed.

(** Undoing a session restores the object database exactly, next
    identifiers included, after any creations, modifications and removals. *)
Theorem undo_restores_database {obj : Type} (conflict : obj -> obj -> bool) `{IndexLaws}
    (u : undo_database obj) (s : spec obj) (changes : list (op obj)) (u' : undo_database obj) :
  refines u s -> Forall (fun o => is_change o = true) changes ->
  admissible_run conflict (OpStart true :: changes ++ [OpUndo]) u ->
  run conflict (OpStart true :: changes ++ [OpUndo]) u = Ok u' ->
  _db u' = _db u.
Proof.
  intros Hr Hch Ha Hrun.
  destruct (run_refines conflict u s _ u' Hr Ha Hrun) as (s' & Hs & [<- _ _ _ _ _]).
  rewrite <- (rf_current _ _ Hr). cbn in Hs. rewrite andb_false_r in Hs. cbn in Hs.
  rewrite spec_run_app in Hs. inv_ok.
  apply spec_changes with (b := current s) (bs := take (limit s) (snapshots s)) in Hrun0
    as (Hsn & Hac & Hof & _); [|done|done].
  cbn in Hs. rewrite Hsn, Hof in Hs. cbn in Hs. destruct (0 <? active a); [|done]. cbn in Hs.
  by simplify_eq.
Qed.

(** A merged session is undone together with the session it was merged
    into: starting two nested sessions, changing the database in both, merging
    the inner one and undoing the outer one restores the database. *)
Theorem merge_then_undo_restores {obj : Type} (conflict : obj -> obj -> bool) `{IndexLaws}
    (u : undo_database obj) (s : spec obj) (ch1 ch2 : list (op obj)) (u' : undo_database obj) :
  refines u s -> (0 < _max_size u)%nat -> 0 <= _active_sessions u < 2 ^ 32 - 2 ->
  Forall (fun o => is_change o = true) ch1 -> Forall (fun o => is_change o = true) ch2 ->
  let l := OpStart true :: ch1 ++ OpStart true :: ch2 ++ [OpMerge; OpUndo] in
  admissible_run conflict l u -> run conflict l u = Ok u' ->
  _db u' = _db u.
Proof.
  intros Hr Hmax Hact Hc1 Hc2 l Ha Hrun.
  destruct (run_refines conflict u s _ u' Hr Ha Hrun) as (s' & Hs & [<- _ _ _ _ _]).
  rewrite <- (rf_current _ _ Hr). rewrite <- (rf_limit _ _ Hr) in Hmax.
  rewrite <- (rf_active _ _ Hr) in Hact. unfold l in Hs. cbn in Hs.
  rewrite andb_false_r in Hs. cbn in Hs. rewrite wrap_id in Hs by lia.
  rewrite spec_run_app in Hs. inv_ok.
  apply spec_changes with (b := current s) (bs := take (limit s) (snapshots s)) in Hrun0
    as (Hsn & Hac & Hof & Hli); [|done|done].
  cbn in Hs. rewrite andb_false_r in Hs. cbn in Hs. rewrite spec_run_app in Hs. inv_ok.
  apply spec_changes with (b := current a) (bs := take (limit a) (snapshots a)) in Hrun0
    as (Hsn' & Hac' & Hof' & _); [|done|done].
  cbn in Hs, Hac, Hac', Hli, Hof, Hof'. rewrite Hsn in Hsn'. rewrite Hli in Hsn'.
  destruct (limit s) as [|n]; [lia|]. cbn in Hsn'.
  rewrite Hac in Hac'. rewrite wrap_id in Hac' by lia.
  rewrite Hac', Hsn', Hof' in Hs. cbn in Hs.
  rewrite (proj2 (Z.ltb_lt 0 _)), (proj2 (Z.eqb_neq _ 1)) in Hs by lia. cbn in Hs.
  rewrite (proj2 (Z.ltb_lt 0 _)) in Hs by lia. cbn in Hs. by simplify_eq.
Qed.

(** When the identifier is the only unique key (a [sparse_index]), the undo
    database never throws where the specification proceeds: in particular undo
    and pop_commit always succeed when there is a session to undo. *)
Theorem undo_database_total {obj : Type} (conflict : obj -> obj -> bool) `{IndexLaws}
    (u : undo_database obj) (s : spec obj) (o : op obj) (s' : spec obj) :
  (forall o1 o2, conflict o1 o2 = false) ->
  refines u s -> admissible o u -> spec_step conflict o s = Ok s' ->
  exists u', step conflict o u = Ok u' /\ refines u' s'.
Proof.
  intros Hno Hr Ha Hs. pose proof (step_total conflict Hno u s o s' Hr Hs) as Hok.
  destruct (step conflict o u) as [u'|] eqn:E; [|done]. exists u'. split; [done|].
  destruct (step_refines conflict u s o u' Hr Ha E) as (s1 & Hs1 & Hr1). congruence.
Qed.

(** C40: with further unique keys, undo restores the old values one object at a
    time and can meet a key that is still taken.  Whatever the database and its
    keys: when every object that the session changed had a key that now belongs to
    another object (two objects have exchanged theirs, or several have passed
    theirs around), undo throws, whichever old value the hash table yields
    first; so no session of that shape can be undone. *)
Theorem undo_of_exchanged_keys_throws {obj : Type} (conflict : obj -> obj -> bool) `{IndexLaws}
    (u : undo_database obj) (st : undo_state obj) (rest : list (undo_state obj)) :
  _stack u = st :: rest ->
  old_values st <> ∅ ->
  (forall id x, old_values st !! id = Some x -> key_taken conflict (objects (_db u)) id x = true) ->
  is_ok (step conflict OpUndo u) = false.
Proof.
  intros Hst Hne Htaken. cbn [step]. unfold run_M, undo, disable, back. run_cbn.
  destruct (_disabled u); run_cbn; [done|]. destruct (0 <? _active_sessions u); run_cbn; [|done].
  rewrite Hst. run_cbn. unfold restore.
  destruct (hashed (map_to_list (old_values st))) as [|[id x] l] eqn:El.
  { apply (f_equal length) in El. rewrite hashed_perm, length_map_to_list in El.
    by apply map_size_empty_inv in El. }
  assert (Hx : (id, x) ∈ hashed (map_to_list (old_values st))) by (rewrite El; left).
  rewrite hashed_perm in Hx. apply elem_of_map_to_list, Htaken in Hx.
  cbn [for_each fst snd]. unfold db_modify, db_get, get_object, find_object, lift_db_, lift_db, index_modify.
  run_cbn. cbn. destruct (objects (_db u) !! id) as [o|] eqn:Eo; run_cbn; [|done].
  unfold get_object, find_object. cbn. rewrite Eo. run_cbn. by rewrite Hx.
Qed.

(** ** Witnesses *)
Section Witnesses.
Import Ref.

Definition w_db : object_database Z :=
  Build_object_database {[ 1 := 10; 2 := 20 ]} {[ 0 := 3 ]}.
Definition w_udb : undo_database Z := Build_undo_database w_db [] 0 false 256.
Definition w_spec : spec Z := Build_spec w_db [] 0 false 256.
Definition no_keys (a b : Z) : bool := false.

Lemma w_wf : db_wf w_db.
Proof.
  split.
  - intros ix n Hn. apply (lookup_singleton_Some 0 ix 3 n) in Hn as [<- <-].
    vm_compute. intuition congruence.
  - intros id [o Ho].
    apply (lookup_insert_Some _ 1 id 10 o) in Ho as [[<- _]|[_ Ho]];
      [|apply (lookup_singleton_Some 2 id 20 o) in Ho as [<- _]];
      exists 3; split; vm_compute; intuition congruence.
Defined.

Lemma w_refines : refines w_udb w_spec.
Proof. split; try done; [constructor | apply w_wf]. Defined.

(** Discharge one step of [admissible_run] by evaluation. *)
Ltac admit_step :=
  split;
  [ cbn [admissible]; try exact I; try (left; reflexivity); try (right; reflexivity);
    try (split; [(left; reflexivity) || (right; reflexivity)
                |let n := fresh in let Hn := fresh in
                 intros n Hn; vm_compute in Hn; injection Hn as <-; vm_compute; reflexivity])
  | let u := fresh "u" in let Hu := fresh in
    intros u Hu; vm_compute in Hu; injection Hu as <- ].

Definition w_changes : list (op Z) := [OpCreate 0 (fun id => id * 7); OpModify 1 (Z.add 5); OpRemove 2].
Definition w_ops : list (op Z) := OpStart true :: w_changes ++ [OpUndo].
Definition w_nested : list (op Z) :=
  OpStart true :: w_changes ++ OpStart true :: [OpModify 1 (Z.add 1); OpRemove 3] ++ [OpMerge; OpUndo].

Lemma w_changes_changes : Forall (fun o => is_change o = true) w_changes.
Proof. repeat constructor. Defined.

Lemma undo_database_refines_snapshots_witness :
  exists u' s', run no_keys w_ops w_udb = Ok u' /\ spec_run no_keys w_ops w_spec = Ok s' /\ refines u' s'.
Proof.
  eexists. edestruct (undo_database_refines_snapshots no_keys w_udb w_spec w_ops) as (s' & Hs & Hr).
  - apply w_refines.
  - repeat admit_step. exact I.
  - vm_compute. reflexivity.
  - exists s'. split; [vm_compute; reflexivity|]. split; [exact Hs|exact Hr].
Defined.

Lemma undo_restores_database_witness :
  exists u', run no_keys w_ops w_udb = Ok u' /\ _db u' = w_db.
Proof.
  eexists. split; [vm_compute; reflexivity|].
  apply (undo_restores_database no_keys w_udb w_spec w_changes).
  - apply w_refines.
  - apply w_changes_changes.
  - repeat admit_step. exact I.
  - vm_compute. reflexivity.
Defined.

Lemma merge_then_undo_restores_witness :
  exists u', run no_keys w_nested w_udb = Ok u' /\ _db u' = w_db.
Proof.
  eexists. split; [vm_compute; reflexivity|].
  apply (merge_then_undo_restores no_keys w_udb w_spec w_changes [OpModify 1 (Z.add 1); OpRemove 3]).
  - apply w_refines.
  - cbn. lia.
  - cbn. lia.
  - apply w_changes_changes.
  - repeat constructor.
  - repeat admit_step. exact I.
  - vm_compute. reflexivity.
Defined.

Lemma undo_database_total_witness :
  exists s', spec_step no_keys (OpRemove 2) w_spec = Ok s'
    /\ exists u', step no_keys (OpRemove 2) w_udb = Ok u' /\ refines u' s'.
Proof.
  eexists. split; [vm_compute; reflexivity|].
  apply (undo_database_total no_keys w_udb w_spec (OpRemove 2)).
  - reflexivity.
  - apply w_refines.
  - right. reflexivity.
  - vm_compute. reflexivity.
Defined.

(** Two objects of one index, whose content is a unique key, exchange their
    keys by way of a third. *)
Definition two_keys : undo_database Z :=
  Build_undo_database
    (Build_object_database {[ 1 := 10; 2 := 20 ]} {[ 0 := 3 ]}) [] 0 false 256.
Definition exchange_keys : list (op Z) :=
  [OpStart false; OpModify 1 (fun _ => 30); OpModify 2 (fun _ => 10); OpModify 1 (fun _ => 20)].
Definition exchanged : undo_database Z :=
  Build_undo_database (Build_object_database {[ 1 := 20; 2 := 10 ]} {[ 0 := 3 ]})
    [Build_undo_state {[ 1 := 10; 2 := 20 ]} ∅ ∅ ∅] 1 false 256.
Lemma exchanged_by_session : run Z.eqb exchange_keys two_keys = Ok exchanged.
Proof. vm_compute. reflexivity. Qed.
Lemma exchanged_taken id x :
  ({[ 1 := 10; 2 := 20 ]} : gmap Z Z) !! id = Some x -> key_taken Z.eqb {[ 1 := 20; 2 := 10 ]} id x = true.
Proof. intros [[<- <-]|[_ [<- <-]%lookup_singleton_Some]]%lookup_insert_Some; vm_compute; done. Qed.
Lemma undo_of_exchanged_keys_throws_witness :
  run Z.eqb exchange_keys two_keys = Ok exchanged
  /\ is_ok (step Z.eqb OpUndo exchanged) = false.
Proof.
  split; [exact exchanged_by_session|].
  refine (undo_of_exchanged_keys_throws Z.eqb exchanged _ [] eq_refl _ exchanged_taken). vm_compute. done.
Defined.

End Witnesses.
End UndoDb.
