(* ===== verification/Asset.v ===== *)
(** * Assets and prices ([protocol/asset.hpp], [protocol/asset.cpp])

    An [asset] is an amount with the identifier of its asset; a [price] is a
    ratio of two assets.  Amounts are [safe<int64_t>]; comparisons and products
    of prices go through 128-bit integers, the margin-call prices through
    rationals of 128-bit integers. *)
From Stdlib Require Import ZArith Lia String.
From stdpp Require Import base gmap list.
From S2P Require Import Prelude External.

Module Asset.

Definition GRAPHENE_MAX_SHARE_SUPPLY : Z := 1000000000000000.
Definition GRAPHENE_COLLATERAL_RATIO_DENOM : Z := 1000.
Definition GRAPHENE_MIN_COLLATERAL_RATIO : Z := 1001.
Definition GRAPHENE_MAX_COLLATERAL_RATIO : Z := 32000.

Definition asset_id_type : Type := Z.
(** [asset_id_type()]: the core asset. *)
Definition core_asset : Z := 0.

Record asset : Type := mk_asset { amount : Z; asset_id : Z }.
#[export] Instance asset_eq_dec : EqDecision asset.
Proof. solve_decision. Defined.

Record price : Type := mk_price { base : asset; quote : asset }.
#[export] Instance price_eq_dec : EqDecision price.
Proof. solve_decision. Defined.

Record price_feed : Type := mk_feed {
  settlement_price : price;
  core_exchange_rate : price;
  maintenance_collateral_ratio : Z;
  maximum_short_squeeze_ratio : Z;
}.

(** The default price [price()]. *)
Definition null_price : price := mk_price (mk_asset 0 core_asset) (mk_asset 0 core_asset).

Section Ops.
Context `{SafeOps, U128Ops, RationalOps}.

(** ** [struct asset] *)
Definition same_asset (a b : asset) : result unit :=
  fc_assert (asset_id a =? asset_id b) "asset_id == o.asset_id".
Definition asset_add (a b : asset) : result asset :=
  _ ← same_asset a b; n ← safe_add (amount a) (amount b); Ok (mk_asset n (asset_id a)).
Definition asset_sub (a b : asset) : result asset :=
  _ ← same_asset a b; n ← safe_sub (amount a) (amount b); Ok (mk_asset n (asset_id a)).
Definition asset_neg (a : asset) : result asset :=
  n ← safe_neg (amount a); Ok (mk_asset n (asset_id a)).
Definition asset_eqb (a b : asset) : bool :=
  (asset_id a =? asset_id b) && (amount a =? amount b).
Definition asset_lt (a b : asset) : result bool :=
  _ ← same_asset a b; Ok (amount a <? amount b).
Definition asset_le (a b : asset) : result bool :=
  if asset_eqb a b then Ok true else asset_lt a b.
Definition asset_gt (a b : asset) : result bool := r ← asset_le a b; Ok (negb r).
Definition asset_ge (a b : asset) : result bool := r ← asset_lt a b; Ok (negb r).

(** [scaled_precision_lut]: powers of ten in an [int64_t]. *)
Definition scaled_precision (precision : Z) : result Z :=
  _ ← fc_assert (precision <? 19) "precision < 19"; Ok (10 ^ precision).

(** ** [struct price] *)
Definition price_cross (a b : price) : Z * Z :=
  (u128_mul (u128 (amount (quote b))) (u128 (amount (base a))),
   u128_mul (u128 (amount (quote a))) (u128 (amount (base b)))).
Definition price_eqb (a b : price) : bool :=
  (asset_id (base a) =? asset_id (base b)) && (asset_id (quote a) =? asset_id (quote b))
  && ((price_cross a b).1 =? (price_cross a b).2).
Definition price_lt (a b : price) : bool :=
  if asset_id (base a) <? asset_id (base b) then true
  else if asset_id (base b) <? asset_id (base a) then false
  else if asset_id (quote a) <? asset_id (quote b) then true
  else if asset_id (quote b) <? asset_id (quote a) then false
  else (price_cross a b).1 <? (price_cross a b).2.
Definition price_le (a b : price) : bool := price_eqb a b || price_lt a b.
Definition price_ne (a b : price) : bool := negb (price_eqb a b).
Definition price_gt (a b : price) : bool := negb (price_le a b).
Definition price_ge (a b : price) : bool := negb (price_lt a b).

(** [asset * price]. *)
Definition mul_div (a num den : Z) : result Z :=
  _ ← fc_assert (0 <? den) "amount.value > 0";
  r ← u128_div (u128_mul (u128 a) (u128 num)) (u128 den);
  _ ← fc_assert (r <=? GRAPHENE_MAX_SHARE_SUPPLY) "result <= GRAPHENE_MAX_SHARE_SUPPLY";
  Ok r.
Definition asset_mul (a : asset) (b : price) : result asset :=
  if asset_id a =? asset_id (base b) then
    r ← mul_div (amount a) (amount (quote b)) (amount (base b));
    Ok (mk_asset r (asset_id (quote b)))
  else if asset_id a =? asset_id (quote b) then
    r ← mul_div (amount a) (amount (base b)) (amount (quote b));
    Ok (mk_asset r (asset_id (base b)))
  else Throw "invalid asset * price".

(** [asset / asset]. *)
Definition price_div (b q : asset) : result price :=
  _ ← fc_assert (negb (asset_id b =? asset_id q)) "base.asset_id != quote.asset_id";
  Ok (mk_price b q).
(** [~price]. *)
Definition price_inv (p : price) : price := mk_price (quote p) (base p).
Definition price_max (b q : Z) : result price :=
  price_div (mk_asset GRAPHENE_MAX_SHARE_SUPPLY b) (mk_asset 1 q).
Definition price_min (b q : Z) : result price :=
  price_div (mk_asset 1 b) (mk_asset GRAPHENE_MAX_SHARE_SUPPLY q).
Definition unit_price (a : Z) : price := mk_price (mk_asset 1 a) (mk_asset 1 a).
Definition is_null (p : price) : bool := price_eqb p null_price.
Definition price_validate (p : price) : result unit :=
  _ ← fc_assert (0 <? amount (base p)) "base.amount > share_type(0)";
  _ ← fc_assert (0 <? amount (quote p)) "quote.amount > share_type(0)";
  fc_assert (negb (asset_id (base p) =? asset_id (quote p))) "base.asset_id != quote.asset_id".

(** The loop that brings a ratio into the range of [GRAPHENE_MAX_SHARE_SUPPLY]
    by halving both terms; 128 rounds are more than it can make. *)
Fixpoint shrink (fuel : nat) (half : Z -> Z) (cp : Z * Z) : result (Z * Z) :=
  if (GRAPHENE_MAX_SHARE_SUPPLY <? cp.1) || (GRAPHENE_MAX_SHARE_SUPPLY <? cp.2) then
    match fuel with
    | O => Throw "out of fuel"
    | S fuel' => cp' ← rational (half cp.1) (half cp.2); shrink fuel' half cp'
    end
  else Ok cp.
Definition shrink_fuel : nat := 128.

Definition call_price (debt collateral : asset) (collateral_ratio : Z) : result price :=
  swan ← rational (amount debt) (amount collateral);
  ratio ← rational collateral_ratio GRAPHENE_COLLATERAL_RATIO_DENOM;
  cp ← shrink shrink_fuel (fun x => Z.shiftr x 1 + 1) (rational_mul swan ratio);
  p ← price_div (mk_asset cp.1 (asset_id debt)) (mk_asset cp.2 (asset_id collateral));
  Ok (price_inv p).

(** ** [struct price_feed] *)
Definition max_short_squeeze_price (f : price_feed) : result price :=
  let sp := settlement_price f in
  s ← rational (amount (base sp)) (amount (quote sp));
  ratio ← rational GRAPHENE_COLLATERAL_RATIO_DENOM (maximum_short_squeeze_ratio f);
  cp ← shrink shrink_fuel (fun x => Z.shiftr x 1 + Z.land x 1) (rational_mul s ratio);
  price_div (mk_asset cp.1 (asset_id (base sp))) (mk_asset cp.2 (asset_id (quote sp))).

Definition feed_validate (f : price_feed) : result unit :=
  _ ← (if is_null (settlement_price f) then Ok tt else price_validate (settlement_price f));
  _ ← fc_assert (GRAPHENE_MIN_COLLATERAL_RATIO <=? maximum_short_squeeze_ratio f) "max squeeze >= MIN";
  _ ← fc_assert (maximum_short_squeeze_ratio f <=? GRAPHENE_MAX_COLLATERAL_RATIO) "max squeeze <= MAX";
  _ ← fc_assert (GRAPHENE_MIN_COLLATERAL_RATIO <=? maintenance_collateral_ratio f) "maintenance >= MIN";
  _ ← fc_assert (maintenance_collateral_ratio f <=? GRAPHENE_MAX_COLLATERAL_RATIO) "maintenance <= MAX";
  _ ← max_short_squeeze_price f;
  Ok tt.

Definition is_for (f : price_feed) (id : Z) : bool :=
  if negb (is_null (settlement_price f)) then asset_id (base (settlement_price f)) =? id
  else if negb (is_null (core_exchange_rate f)) then asset_id (base (core_exchange_rate f)) =? id
  else true.
End Ops.

(** ** Invariants of the data *)
Definition share (z : Z) : Prop := 0 <= z <= GRAPHENE_MAX_SHARE_SUPPLY.
Definition pos_int64 (z : Z) : Prop := 0 < z < 2 ^ 63.
(** What [price::validate] accepts, on [int64_t] amounts. *)
Record valid_price (p : price) : Prop := {
  vp_base : pos_int64 (amount (base p));
  vp_quote : pos_int64 (amount (quote p));
  vp_ids : asset_id (base p) <> asset_id (quote p);
}.

Section Facts.
Context `{SafeLaws, U128Laws, RationalLaws}.

(** ** Assets *)
Lemma same_asset_Ok a b u : same_asset a b = Ok u -> asset_id a = asset_id b.
Proof. unfold same_asset. intros E; inv_ok. by apply Z.eqb_eq. Qed.

Lemma asset_add_Ok a b c :
  asset_add a b = Ok c -> asset_id a = asset_id b /\ c = mk_asset (amount a + amount b) (asset_id a).
Proof.
  unfold asset_add. intros E; inv_ok. apply same_asset_Ok in Hrun.
  by apply safe_add_spec in Hrun0 as [-> _].
Qed.

Lemma asset_sub_Ok a b c :
  asset_sub a b = Ok c -> asset_id a = asset_id b /\ c = mk_asset (amount a - amount b) (asset_id a).
Proof.
  unfold asset_sub. intros E; inv_ok. apply same_asset_Ok in Hrun.
  by apply safe_sub_spec in Hrun0 as [-> _].
Qed.

Lemma asset_neg_Ok a c : asset_neg a = Ok c -> c = mk_asset (- amount a) (asset_id a).
Proof. unfold asset_neg. intros E; inv_ok. by apply safe_neg_spec in Hrun as [-> _]. Qed.

Lemma asset_eqb_eq a b : asset_eqb a b = true <-> a = b.
Proof.
  destruct a, b. unfold asset_eqb. cbn. rewrite andb_true_iff, !Z.eqb_eq. naive_solver.
Qed.

(** The comparisons agree with the amounts, on assets of the same kind. *)
Lemma asset_cmp a b r :
  (asset_lt a b = Ok r -> asset_id a = asset_id b /\ r = (amount a <? amount b))
  /\ (asset_le a b = Ok r -> asset_id a = asset_id b /\ r = (amount a <=? amount b))
  /\ (asset_gt a b = Ok r -> asset_id a = asset_id b /\ r = (amount b <? amount a))
  /\ (asset_ge a b = Ok r -> asset_id a = asset_id b /\ r = (amount b <=? amount a)).
Proof.
  assert (Hlt : forall r, asset_lt a b = Ok r -> asset_id a = asset_id b /\ r = (amount a <? amount b)).
  { unfold asset_lt. intros r' E; inv_ok. apply same_asset_Ok in Hrun. by subst. }
  assert (Hle : forall r, asset_le a b = Ok r -> asset_id a = asset_id b /\ r = (amount a <=? amount b)).
  { unfold asset_le. intros r' E. destruct (asset_eqb a b) eqn:Eq.
    - apply asset_eqb_eq in Eq as ->. inv_ok. split; [done|]. symmetry. apply Z.leb_refl.
    - apply Hlt in E as [Hid ->]. split; [done|].
      assert (amount a <> amount b).
      { intros Ha. destruct a, b; cbn in *; subst. rewrite (proj2 (asset_eqb_eq _ _) eq_refl) in Eq. done. }
      destruct (Z.ltb_spec (amount a) (amount b)), (Z.leb_spec (amount a) (amount b)); done || lia. }
  split_and!; [by apply Hlt|by apply Hle|..].
  - unfold asset_gt. intros E; inv_ok. apply Hle in Hrun as [? ->]. subst. by rewrite <- Z.ltb_antisym.
  - unfold asset_ge. intros E; inv_ok. apply Hlt in Hrun as [? ->]. subst. by rewrite <- Z.leb_antisym.
Qed.

Lemma asset_lt_Ok a b r : asset_lt a b = Ok r -> asset_id a = asset_id b /\ r = (amount a <? amount b).
Proof. apply asset_cmp. Qed.
Lemma asset_le_Ok a b r : asset_le a b = Ok r -> asset_id a = asset_id b /\ r = (amount a <=? amount b).
Proof. apply asset_cmp. Qed.
Lemma asset_gt_Ok a b r : asset_gt a b = Ok r -> asset_id a = asset_id b /\ r = (amount b <? amount a).
Proof. apply asset_cmp. Qed.
Lemma asset_ge_Ok a b r : asset_ge a b = Ok r -> asset_id a = asset_id b /\ r = (amount b <=? amount a).
Proof. apply asset_cmp. Qed.

(** ** Prices *)
Lemma price_cross_value a b :
  valid_price a -> valid_price b ->
  price_cross a b = (amount (quote b) * amount (base a), amount (quote a) * amount (base b)).
Proof.
  intros [[] [] _] [[] [] _]. unfold price_cross.
  rewrite !u128_id, !u128_mul_spec by nia. done.
Qed.

(** The order key of a price: its pair of assets, then its ratio. *)
Lemma price_lt_spec a b :
  valid_price a -> valid_price b ->
  price_lt a b = true <->
    asset_id (base a) < asset_id (base b) \/ asset_id (base a) = asset_id (base b) /\
    (asset_id (quote a) < asset_id (quote b) \/ asset_id (quote a) = asset_id (quote b) /\
     amount (base a) * amount (quote b) < amount (base b) * amount (quote a)).
Proof.
  intros Ha Hb. unfold price_lt. rewrite price_cross_value by done. cbn.
  repeat match goal with |- context [?x <? ?y] => destruct (Z.ltb_spec x y) end;
    split; intros; try done; nia.
Qed.

Lemma price_eqb_spec a b :
  valid_price a -> valid_price b ->
  price_eqb a b = true <->
    asset_id (base a) = asset_id (base b) /\ asset_id (quote a) = asset_id (quote b) /\
    amount (base a) * amount (quote b) = amount (base b) * amount (quote a).
Proof.
  intros Ha Hb. unfold price_eqb. rewrite price_cross_value by done. cbn.
  rewrite !andb_true_iff, !Z.eqb_eq. split; intros; destruct_and?; split_and?; nia.
Qed.

(** ** [asset * price] *)
Lemma mul_div_Ok a num den r :
  0 <= a < 2 ^ 63 -> pos_int64 num -> pos_int64 den ->
  mul_div a num den = Ok r <-> r = a * num / den /\ r <= GRAPHENE_MAX_SHARE_SUPPLY.
Proof.
  intros Ha Hn Hd. unfold pos_int64 in *. unfold mul_div.
  rewrite !u128_id, u128_mul_spec, u128_div_spec by nia. cbn.
  rewrite (proj2 (Z.ltb_lt 0 den)) by lia. cbn.
  destruct (Z.leb_spec (a * num / den) GRAPHENE_MAX_SHARE_SUPPLY); cbn.
  - split; [by intros [= <-]|by intros [-> _]].
  - split; [done|]. intros [-> ?]. lia.
Qed.

(** The amounts of the price that [asset * price] multiplies and divides by. *)
Definition mul_num (a : asset) (p : price) : Z :=
  if asset_id a =? asset_id (base p) then amount (quote p) else amount (base p).
Definition mul_den (a : asset) (p : price) : Z :=
  if asset_id a =? asset_id (base p) then amount (base p) else amount (quote p).
Definition mul_id (a : asset) (p : price) : Z :=
  if asset_id a =? asset_id (base p) then asset_id (quote p) else asset_id (base p).

Lemma asset_mul_Ok a p c :
  0 <= amount a < 2 ^ 63 -> valid_price p ->
  asset_mul a p = Ok c <->
    (asset_id a = asset_id (base p) \/ asset_id a = asset_id (quote p))
    /\ c = mk_asset (amount a * mul_num a p / mul_den a p) (mul_id a p)
    /\ amount c <= GRAPHENE_MAX_SHARE_SUPPLY.
Proof.
  intros Ha [Hb Hq Hids]. unfold asset_mul, mul_num, mul_den, mul_id.
  destruct (Z.eqb_spec (asset_id a) (asset_id (base p))) as [E|E].
  - split.
    + intros Hm; inv_ok. apply mul_div_Ok in Hrun as [-> Hr]; [|done..]. subst. auto.
    + intros (_ & -> & Hr). cbn in Hr.
      rewrite (proj2 (mul_div_Ok _ _ _ _ Ha Hq Hb) (conj eq_refl Hr)). done.
  - destruct (Z.eqb_spec (asset_id a) (asset_id (quote p))) as [E'|E'].
    + split.
      * intros Hm; inv_ok. apply mul_div_Ok in Hrun as [-> Hr]; [|done..]. subst. auto.
      * intros (_ & -> & Hr). cbn in Hr.
        rewrite (proj2 (mul_div_Ok _ _ _ _ Ha Hb Hq) (conj eq_refl Hr)). done.
    + split; [done|]. intros ([|] & _); done.
Qed.

(** ** The halving loop *)
Lemma lowest_terms_le p q n d :
  lowest_terms p q -> p * d = n * q -> 0 < n -> 0 < d -> 0 < p /\ p <= n /\ q <= d.
Proof.
  intros [Hq Hg] E Hn Hd.
  assert (Hp : 0 < p) by nia.
  assert (Hdiv : (q | d)).
  { apply (Z.gauss q p d); [|by rewrite Z.gcd_comm]. exists n. lia. }
  destruct Hdiv as [k ->]. assert (0 < k) by nia. assert (n = k * p) by nia. nia.
Qed.

(** Terms that are too large become about half as large in each round. *)
Definition in_terms (b : Z) (cp : Z * Z) : Prop := 0 < cp.1 <= b /\ 0 < cp.2 <= b.

Lemma shrink_total half n cp :
  (forall x, 0 < x -> 0 < half x <= x / 2 + 1) ->
  (n <= 78)%nat -> in_terms (2 ^ (49 + Z.of_nat n) + 2) cp ->
  exists cp', shrink n half cp = Ok cp' /\ in_terms GRAPHENE_MAX_SHARE_SUPPLY cp'.
Proof.
  intros Hhalf. revert cp. induction n as [|n IH]; intros [p q] Hn [Hp Hq]; cbn in Hp, Hq.
  - exists (p, q). cbn. unfold in_terms, GRAPHENE_MAX_SHARE_SUPPLY.
    rewrite !(proj2 (Z.ltb_ge _ _)) by lia. cbn. split; [done|]. lia.
  - cbn [shrink fst snd]. destruct (_ || _) eqn:E.
    + set (b := 2 ^ (49 + Z.of_nat n)).
      assert (Hb : 2 ^ (49 + Z.of_nat (S n)) = 2 * b)
        by (unfold b; rewrite <- Z.pow_succ_r by lia; f_equal; lia).
      assert (Hb2 : b <= 2 ^ 126) by (unfold b; apply Z.pow_le_mono_r; lia).
      rewrite Hb in Hp, Hq. change (2 ^ 126) with 85070591730234615865843651857942052864 in Hb2.
      pose proof (Hhalf p ltac:(lia)). pose proof (Hhalf q ltac:(lia)).
      assert (p / 2 <= b + 1) by (apply Z.div_le_upper_bound; lia).
      assert (q / 2 <= b + 1) by (apply Z.div_le_upper_bound; lia).
      destruct (rational_spec (half p) (half q)) as (p' & q' & -> & E' & Hl); [lia..|].
      destruct (lowest_terms_le _ _ _ _ Hl E') as (? & ? & ?); [lia..|].
      apply IH; [lia|]. destruct Hl as [? _]. fold b. unfold in_terms. cbn. lia.
    + exists (p, q). split; [done|]. apply orb_false_iff in E as [E1%Z.ltb_ge E2%Z.ltb_ge].
      unfold in_terms. cbn in *. lia.
Qed.

Lemma shrink_more_fuel half n k cp cp' :
  shrink n half cp = Ok cp' -> shrink (n + k) half cp = Ok cp'.
Proof.
  revert cp. induction n as [|n IH]; intros cp; cbn; [|].
  - destruct (_ || _) eqn:E; [done|]. intros [= <-]. destruct k; cbn; by rewrite E.
  - destruct (_ || _); [|done]. destruct (rational _ _); cbn; [apply IH|done].
Qed.

Lemma shrink_ok half cp :
  (forall x, 0 < x -> 0 < half x <= x / 2 + 1) -> in_terms (2 ^ 126) cp ->
  exists cp', shrink shrink_fuel half cp = Ok cp' /\ in_terms GRAPHENE_MAX_SHARE_SUPPLY cp'.
Proof.
  intros Hh [Ht1 Ht2]. destruct (shrink_total half 78 cp Hh) as (cp' & Hs & Hin); [lia| |].
  { unfold in_terms. change (49 + Z.of_nat 78) with 127. lia. }
  exists cp'. split; [|done]. by apply (shrink_more_fuel half 78 50).
Qed.

(** A product of two ratios of small terms, in lowest terms. *)
Lemma ratio_product n1 d1 n2 d2 :
  0 < n1 < 2 ^ 63 -> 0 < d1 < 2 ^ 63 -> 0 < n2 < 2 ^ 63 -> 0 < d2 < 2 ^ 63 ->
  exists r1 r2 p q, rational n1 d1 = Ok r1 /\ rational n2 d2 = Ok r2
    /\ rational_mul r1 r2 = (p, q) /\ p * (d1 * d2) = (n1 * n2) * q /\ lowest_terms p q /\ in_terms (2 ^ 126) (p, q).
Proof.
  intros Hn1 Hd1 Hn2 Hd2.
  destruct (rational_spec n1 d1) as (p1 & q1 & -> & E1 & L1); [lia..|].
  destruct (rational_spec n2 d2) as (p2 & q2 & -> & E2 & L2); [lia..|].
  destruct (lowest_terms_le _ _ _ _ L1 E1) as (? & ? & ?); [lia..|].
  destruct (lowest_terms_le _ _ _ _ L2 E2) as (? & ? & ?); [lia..|].
  pose proof L1 as [? _]. pose proof L2 as [? _].
  assert (0 < p1 * p2 <= 2 ^ 126) by nia. assert (0 < q1 * q2 <= 2 ^ 126) by nia.
  destruct (rational_mul_spec p1 q1 p2 q2) as (p & q & Em & E & L); [done|done|lia|lia|].
  destruct (lowest_terms_le _ _ _ _ L E) as (? & ? & ?); [lia..|]. pose proof L as [? _].
  exists (p1, q1), (p2, q2), p, q. split_and!; [done..| |done|unfold in_terms; cbn; lia].
  apply (Z.mul_reg_r _ _ (q1 * q2)); [lia|].
  transitivity ((p * (q1 * q2)) * (d1 * d2)); [ring|]. rewrite E.
  transitivity ((p1 * d1) * (p2 * d2) * q); [ring|]. rewrite E1, E2. ring.
Qed.

Lemma half_up1 x : 0 < x -> 0 < Z.shiftr x 1 + 1 <= x / 2 + 1.
Proof. rewrite Z.shiftr_div_pow2 by lia. change (2 ^ 1) with 2. intros. div_lia. Qed.

Lemma half_up x : 0 < x -> 0 < Z.shiftr x 1 + Z.land x 1 <= x / 2 + 1.
Proof.
  assert (E : Z.land x 1 = x mod 2) by exact (Z.land_ones x 1 ltac:(lia)).
  rewrite E, Z.shiftr_div_pow2 by lia. change (2 ^ 1) with 2. intros. div_lia.
Qed.
End Facts.

(** Ratios compare transitively by cross multiplication. *)
Lemma cross_lt_trans a1 a2 b1 b2 c1 c2 :
  0 < a2 -> 0 < b2 -> 0 < c2 -> a1 * b2 < b1 * a2 -> b1 * c2 < c1 * b2 -> a1 * c2 < c1 * a2.
Proof.
  intros Ha Hb Hc H1 H2. apply (Z.mul_lt_mono_pos_r b2); [done|].
  assert (a1 * b2 * c2 < b1 * a2 * c2) by (apply Z.mul_lt_mono_pos_r; done).
  assert (b1 * c2 * a2 < c1 * b2 * a2) by (apply Z.mul_lt_mono_pos_r; done). lia.
Qed.

Lemma cross_eq_lt a1 a2 b1 b2 c1 c2 :
  0 < a2 -> 0 < b2 -> 0 < c2 -> a1 * b2 = b1 * a2 -> b1 * c2 < c1 * b2 -> a1 * c2 < c1 * a2.
Proof.
  intros Ha Hb Hc H1 H2. apply (Z.mul_lt_mono_pos_r b2); [done|].
  assert (a1 * b2 * c2 = b1 * a2 * c2) by congruence.
  assert (b1 * c2 * a2 < c1 * b2 * a2) by (apply Z.mul_lt_mono_pos_r; done). lia.
Qed.

Lemma cross_eq_trans a1 a2 b1 b2 c1 c2 :
  0 < b2 -> a1 * b2 = b1 * a2 -> b1 * c2 = c1 * b2 -> a1 * c2 = c1 * a2.
Proof.
  intros Hb H1 H2. apply (Z.mul_reg_r _ _ b2); [lia|].
  assert (a1 * b2 * c2 = b1 * a2 * c2) by congruence.
  assert (b1 * c2 * a2 = c1 * b2 * a2) by congruence. lia.
Qed.

(** ** Properties *)

(** The margin-call price, before what it states. *)
Lemma call_price_value `{RationalLaws} (debt collateral : asset) (ratio : Z) :
  pos_int64 (amount debt) -> pos_int64 (amount collateral) -> 0 < ratio < 2 ^ 16 ->
  asset_id debt <> asset_id collateral ->
  exists n d, call_price debt collateral ratio
      = Ok (mk_price (mk_asset d (asset_id collateral)) (mk_asset n (asset_id debt)))
    /\ 0 < n <= GRAPHENE_MAX_SHARE_SUPPLY /\ 0 < d <= GRAPHENE_MAX_SHARE_SUPPLY.
Proof.
  intros Hd Hc Hr Hids. unfold pos_int64 in *.
  destruct (ratio_product (amount debt) (amount collateral) ratio GRAPHENE_COLLATERAL_RATIO_DENOM)
    as (r1 & r2 & p & q & E1 & E2 & Em & _ & _ & Hin); [unfold GRAPHENE_COLLATERAL_RATIO_DENOM; lia..|].
  destruct (shrink_ok _ _ half_up1 Hin) as ([n d] & Es & [Hn Hd']). cbn in Hn, Hd'.
  unfold call_price. rewrite E1, E2. cbn [mbind result_bind]. rewrite Em, Es. cbn. unfold price_div. cbn.
  rewrite (proj2 (Z.eqb_neq _ _)) by done. cbn. eauto.
Qed.

Lemma call_price_valid `{RationalLaws} (debt collateral : asset) (ratio : Z) (p : price) :
  pos_int64 (amount debt) -> pos_int64 (amount collateral) -> 0 < ratio < 2 ^ 16 ->
  asset_id debt <> asset_id collateral -> call_price debt collateral ratio = Ok p ->
  valid_price p /\ asset_id (base p) = asset_id collateral /\ asset_id (quote p) = asset_id debt.
Proof.
  intros Hd Hc Hr Hids E. destruct (call_price_value debt collateral ratio) as (n & d & E' & Hn & Hd'); [done..|].
  rewrite E' in E. injection E as <-. unfold GRAPHENE_MAX_SHARE_SUPPLY in *. cbn.
  split; [|done]. split; cbn; unfold pos_int64; lia || congruence.
Qed.

(** C39: on prices that [price::validate] accepts, [<] is a strict weak order of
    the pair of assets and then of the ratio, [==] is its equivalence, and
    exactly one of [<], [==], [>] holds; so the price indexes are well ordered
    although prices are not kept in lowest terms. *)
Theorem price_order `{U128Laws} (a b c : price) :
  valid_price a -> valid_price b -> valid_price c ->
  price_lt a a = false
  /\ (price_lt a b = true -> price_lt b c = true -> price_lt a c = true)
  /\ (price_eqb a b = true -> price_eqb b c = true -> price_eqb a c = true)
  /\ (price_eqb a b = true -> price_lt b c = true -> price_lt a c = true)
  /\ (price_lt a b = true \/ price_eqb a b = true \/ price_gt a b = true)
  /\ (price_lt a b = true -> price_eqb a b = false /\ price_lt b a = false /\ price_gt a b = false).
Proof.
  intros Ha Hb Hc. pose proof Ha as [[] [] _]. pose proof Hb as [[] [] _]. pose proof Hc as [[] [] _].
  unfold price_gt, price_le.
  split_and!.
  - apply not_true_is_false. rewrite price_lt_spec by done. lia.
  - rewrite !price_lt_spec by done. intros L1 L2.
    destruct (Z.lt_trichotomy (asset_id (base a)) (asset_id (base c))) as [|[|]]; [lia| |lia].
    destruct (Z.lt_trichotomy (asset_id (quote a)) (asset_id (quote c))) as [|[|]]; [lia| |lia].
    right. split; [done|]. right. split; [done|].
    apply (cross_lt_trans _ _ (amount (base b)) (amount (quote b))); lia.
  - rewrite !price_eqb_spec by done. intros (? & ? & ?) (? & ? & ?). split_and!; [lia..|].
    apply (cross_eq_trans _ _ (amount (base b)) (amount (quote b))); lia.
  - rewrite !price_lt_spec, price_eqb_spec by done. intros (? & ? & ?) L2.
    destruct L2 as [|[? [|[? ?]]]]; [lia|lia|]. right. split; [lia|]. right. split; [lia|].
    apply (cross_eq_lt _ _ (amount (base b)) (amount (quote b))); lia.
  - destruct (price_lt a b) eqn:E1; [by left|]. destruct (price_eqb a b) eqn:E2; [by right; left|].
    by right; right.
  - intros Hlt. rewrite Hlt, orb_true_r. split_and!; [| |done]; apply not_true_is_false.
    + rewrite price_eqb_spec by done. apply price_lt_spec in Hlt; [|done..]. lia.
    + rewrite price_lt_spec by done. apply price_lt_spec in Hlt; [|done..]. lia.
Qed.

(** Converting an amount at a valid price rounds down and never creates
    value: the result times the amount it is priced in is at most the input
    times the amount it is priced by (and short by less than one unit),
    converting back gives at most the input, and the conversion throws exactly
    when the result would exceed the maximal share supply or the asset is not
    one of the two of the price. *)
Theorem conversion_rounds_down `{U128Laws} (a : asset) (p : price) :
  0 <= amount a < 2 ^ 63 -> valid_price p ->
  (forall c, asset_mul a p = Ok c ->
     asset_id c <> asset_id a /\ 0 <= amount c <= GRAPHENE_MAX_SHARE_SUPPLY
     /\ amount c * mul_den a p <= amount a * mul_num a p < (amount c + 1) * mul_den a p
     /\ (forall d, asset_mul c p = Ok d -> asset_id d = asset_id a /\ amount d <= amount a))
  /\ (is_ok (asset_mul a p) = false <->
     (asset_id a <> asset_id (base p) /\ asset_id a <> asset_id (quote p))
     \/ GRAPHENE_MAX_SHARE_SUPPLY < amount a * mul_num a p / mul_den a p).
Proof.
  intros Ha Hp. pose proof Hp as [[] [] Hids].
  assert (Hnum : 0 < mul_num a p) by (unfold mul_num; case_match; lia).
  assert (Hden : 0 < mul_den a p) by (unfold mul_den; case_match; lia).
  split.
  - intros c (Hid & Hc & Hmax)%asset_mul_Ok; [|done..].
    assert (Hc0 : 0 <= amount c) by (rewrite Hc; cbn; apply Z.div_pos; nia).
    assert (Ec : amount c = amount a * mul_num a p / mul_den a p) by (by rewrite Hc).
    pose proof (Z.mul_div_le (amount a * mul_num a p) (mul_den a p) Hden).
    pose proof (Z.mul_succ_div_gt (amount a * mul_num a p) (mul_den a p) Hden).
    assert (Hcid : asset_id c = mul_id a p) by (by rewrite Hc).
    split_and!; [unfold mul_id in Hcid; case_match eqn:E; lia|done|done|lia|lia|].
    intros d (_ & -> & _)%asset_mul_Ok; [|unfold GRAPHENE_MAX_SHARE_SUPPLY in *; lia|done]. cbn.
    assert (Hn' : mul_num c p = mul_den a p /\ mul_den c p = mul_num a p /\ mul_id c p = asset_id a).
    { unfold mul_num, mul_den, mul_id in *.
      destruct (Z.eqb_spec (asset_id a) (asset_id (base p))) as [E|E]; rewrite Hcid.
      - by rewrite (proj2 (Z.eqb_neq _ _)) by lia.
      - rewrite Z.eqb_refl. split_and!; [done..|lia]. }
    destruct Hn' as (-> & -> & ->). split; [done|].
    apply Z.div_le_upper_bound; [lia|]. lia.
  - split.
    + intros Hf. destruct (decide (asset_id a = asset_id (base p) \/ asset_id a = asset_id (quote p)))
        as [Hid|Hid]; [|left; lia].
      destruct (Z.le_gt_cases (amount a * mul_num a p / mul_den a p) GRAPHENE_MAX_SHARE_SUPPLY) as [Hle|]; [|lia].
      by rewrite (proj2 (asset_mul_Ok a p _ Ha Hp) (conj Hid (conj eq_refl Hle))) in Hf.
    + intros Hf. destruct (asset_mul a p) as [c|] eqn:E; [|done].
      apply asset_mul_Ok in E as (Hid & -> & Hle); [|done..]. cbn in Hle. lia.
Qed.

(** [price::call_price] always returns (its loop ends) and the price it
    returns is valid and within the share supply on both sides, for every
    positive debt, collateral and ratio and distinct assets. *)
Theorem call_price_total `{RationalLaws} (debt collateral : asset) (ratio : Z) :
  pos_int64 (amount debt) -> pos_int64 (amount collateral) -> 0 < ratio < 2 ^ 16 ->
  asset_id debt <> asset_id collateral ->
  exists p, call_price debt collateral ratio = Ok p /\ price_validate p = Ok tt
    /\ asset_id (base p) = asset_id collateral /\ asset_id (quote p) = asset_id debt
    /\ amount (base p) <= GRAPHENE_MAX_SHARE_SUPPLY /\ amount (quote p) <= GRAPHENE_MAX_SHARE_SUPPLY.
Proof.
  intros Hd Hc Hr Hids. destruct (call_price_value debt collateral ratio) as (n & d & -> & Hn & Hd'); [done..|].
  eexists. split; [done|]. unfold price_validate. cbn.
  rewrite !(proj2 (Z.ltb_lt _ _)), (proj2 (Z.eqb_neq _ _)) by lia. cbn. split_and!; done || lia.
Qed.

(** The call price is the maintenance ratio times the debt over the
    collateral, exactly, when that fraction needs no halving. *)
Theorem call_price_exact `{RationalLaws} (debt collateral : asset) (ratio : Z) (p : price) :
  pos_int64 (amount debt) -> pos_int64 (amount collateral) -> 0 < ratio < 2 ^ 16 ->
  amount debt * ratio <= GRAPHENE_MAX_SHARE_SUPPLY ->
  amount collateral * GRAPHENE_COLLATERAL_RATIO_DENOM <= GRAPHENE_MAX_SHARE_SUPPLY ->
  call_price debt collateral ratio = Ok p ->
  amount (quote p) * (amount collateral * GRAPHENE_COLLATERAL_RATIO_DENOM)
    = amount debt * ratio * amount (base p).
Proof.
  intros Hd Hc Hr Hs1 Hs2 Hp. unfold pos_int64 in *.
  destruct (ratio_product (amount debt) (amount collateral) ratio GRAPHENE_COLLATERAL_RATIO_DENOM)
    as (r1 & r2 & n & d & E1 & E2 & Em & Ex & Hl & _); [unfold GRAPHENE_COLLATERAL_RATIO_DENOM; lia..|].
  destruct (lowest_terms_le n d _ _ Hl Ex) as (Hn & Hle1 & Hle2); [unfold GRAPHENE_COLLATERAL_RATIO_DENOM; nia..|].
  unfold call_price in Hp. rewrite E1, E2 in Hp. cbn [mbind result_bind] in Hp. rewrite Em in Hp.
  unfold shrink_fuel in Hp. cbn [shrink fst snd] in Hp.
  rewrite !(proj2 (Z.ltb_ge GRAPHENE_MAX_SHARE_SUPPLY _)) in Hp by lia. cbn in Hp. inv_ok.
  unfold price_div in Hrun. inv_ok. cbn. lia.
Qed.

(** The margin-call limit [max_short_squeeze_price] of a feed with a valid
    settlement price and a squeeze ratio in range exists, is valid and keeps
    the assets of the settlement price; and no feed with a null settlement
    price passes [price_feed::validate]. *)
Theorem feed_squeeze_price `{U128Laws, RationalLaws} (f : price_feed) :
  (valid_price (settlement_price f) ->
   GRAPHENE_MIN_COLLATERAL_RATIO <= maximum_short_squeeze_ratio f <= GRAPHENE_MAX_COLLATERAL_RATIO ->
   exists p, max_short_squeeze_price f = Ok p /\ price_validate p = Ok tt
     /\ asset_id (base p) = asset_id (base (settlement_price f))
     /\ asset_id (quote p) = asset_id (quote (settlement_price f)))
  /\ (settlement_price f = null_price -> is_ok (feed_validate f) = false).
Proof.
  split.
  - intros [Hb Hq Hids] Hr. unfold pos_int64, GRAPHENE_MIN_COLLATERAL_RATIO, GRAPHENE_MAX_COLLATERAL_RATIO in *.
    destruct (ratio_product (amount (base (settlement_price f))) (amount (quote (settlement_price f)))
      GRAPHENE_COLLATERAL_RATIO_DENOM (maximum_short_squeeze_ratio f))
      as (r1 & r2 & p & q & E1 & E2 & Em & _ & _ & Hin); [unfold GRAPHENE_COLLATERAL_RATIO_DENOM; lia..|].
    destruct (shrink_ok _ _ half_up Hin) as ([n d] & Es & [Hn Hd]). cbn in Hn, Hd.
    unfold max_short_squeeze_price. rewrite E1, E2. cbn [mbind result_bind]. rewrite Em, Es. cbn.
    unfold price_div, price_validate. cbn. rewrite (proj2 (Z.eqb_neq _ _)) by done. cbn.
    eexists. split; [done|]. cbn.
    rewrite !(proj2 (Z.ltb_lt _ _)), (proj2 (Z.eqb_neq _ _)) by (done || lia). done.
  - intros Hn. destruct (feed_validate f) as [u|] eqn:E; [|done]. exfalso.
    unfold feed_validate, max_short_squeeze_price in E. rewrite Hn in E. inv_ok.
    pose proof (rational_zero 0) as Hz. cbn in *.
    by match goal with Hr : rational 0 0 = Ok _ |- _ => rewrite Hr in Hz end.
Qed.

(** ** Witnesses *)
Section Witnesses.
Import Ref.
Definition w_price (b q : Z) : price := mk_price (mk_asset b 1) (mk_asset q 0).

Lemma w_valid b q : pos_int64 b -> pos_int64 q -> valid_price (w_price b q).
Proof. by split. Defined.

Lemma price_order_witness :
  price_lt (w_price 1 3) (w_price 1 2) = true /\ price_lt (w_price 1 3) (w_price 2 3) = true.
Proof.
  destruct (price_order (w_price 1 3) (w_price 1 2) (w_price 2 3)) as (_ & Htr & _).
  - apply w_valid; split; reflexivity.
  - apply w_valid; split; reflexivity.
  - apply w_valid; split; reflexivity.
  - split; [vm_compute; reflexivity|]. apply Htr; vm_compute; reflexivity.
Defined.

Lemma conversion_rounds_down_witness :
  asset_mul (mk_asset 10 1) (w_price 3 2) = Ok (mk_asset 6 0)
  /\ asset_mul (mk_asset 6 0) (w_price 3 2) = Ok (mk_asset 9 1) /\ 9 <= 10.
Proof.
  destruct (conversion_rounds_down (mk_asset 10 1) (w_price 3 2)) as [Hc _].
  - cbn. lia.
  - apply w_valid; split; reflexivity.
  - split; [vm_compute; reflexivity|]. split; [vm_compute; reflexivity|].
    destruct (Hc (mk_asset 6 0)) as (_ & _ & _ & Hd); [vm_compute; reflexivity|].
    apply (Hd (mk_asset 9 1)). vm_compute. reflexivity.
Defined.

Lemma call_price_total_witness :
  exists p, call_price (mk_asset 1000 1) (mk_asset 4000 0) 1750 = Ok p /\ price_validate p = Ok tt.
Proof.
  destruct (call_price_total (mk_asset 1000 1) (mk_asset 4000 0) 1750) as (p & Hp & Hv & _).
  - split; reflexivity.
  - split; reflexivity.
  - split; reflexivity.
  - discriminate.
  - exists p. split; [exact Hp|exact Hv].
Defined.

Lemma call_price_exact_witness :
  exists p, call_price (mk_asset 1000 1) (mk_asset 4000 0) 1750 = Ok p
    /\ amount (quote p) * (4000 * 1000) = 1000 * 1750 * amount (base p).
Proof.
  eexists. split; [vm_compute; reflexivity|].
  apply (call_price_exact (mk_asset 1000 1) (mk_asset 4000 0) 1750).
  - split; reflexivity.
  - split; reflexivity.
  - split; reflexivity.
  - discriminate.
  - discriminate.
  - vm_compute. reflexivity.
Defined.

Lemma feed_squeeze_price_witness :
  exists p, max_short_squeeze_price (mk_feed (w_price 5 7) null_price 1750 1500) = Ok p
    /\ price_validate p = Ok tt.
Proof.
  destruct (feed_squeeze_price (mk_feed (w_price 5 7) null_price 1750 1500)) as [Hf _].
  destruct Hf as (p & Hp & Hv & _).
  - apply w_valid; split; reflexivity.
  - split; discriminate.
  - exists p. split; [exact Hp|exact Hv].
Defined.
End Witnesses.
End Asset.
