(* ===== verification/Vesting.v ===== *)
(** * Vesting balances ([vesting_balance_object.hpp], [vesting_balance_object.cpp])

    A vesting balance holds an asset under one of two policies: linear vesting
    with a cliff, or coin-days-destroyed ([cdd]) vesting, which accrues
    coin-seconds up to a cap and spends them on withdrawal.  Times are seconds
    ([time_point_sec]); coin-seconds are 128-bit.  The [assert]s of the file
    are not part of the release code: that they hold is a theorem here. *)
From Stdlib Require Import ZArith Lia String.
From stdpp Require Import base list.
From S2P Require Import Prelude External Asset.

Module Vesting.
Import Asset.

Record vesting_policy_context : Type := mk_ctx {
  ctx_balance : asset;
  now : Z;
  ctx_amount : asset;
}.

Record linear_vesting_policy : Type := mk_linear {
  begin_timestamp : Z;
  vesting_cliff_seconds : Z;
  vesting_duration_seconds : Z;
  begin_balance : Z;
}.

Record cdd_vesting_policy : Type := mk_cdd {
  vesting_seconds : Z;
  coin_seconds_earned : Z;
  start_claim : Z;
  coin_seconds_earned_last_update : Z;
}.

Inductive vesting_policy : Type :=
| linear_policy (p : linear_vesting_policy)
| cdd_policy (p : cdd_vesting_policy).

Record vesting_balance_object : Type := mk_vbo {
  vb_owner : Z;
  vb_balance : asset;
  vb_policy : vesting_policy;
}.

Section Policies.
Context `{SafeOps, U128Ops}.

(** An [int64_t] product outside [fc::safe]: overflow has no defined result. *)
Definition int64_mul (a b : Z) : result Z :=
  if bool_decide (in_int64 (a * b)) then Ok (a * b) else Throw "undefined: int64 overflow".

Definition sum_below_max_shares (a b : asset) : result bool :=
  if (amount a <=? GRAPHENE_MAX_SHARE_SUPPLY) && (amount b <=? GRAPHENE_MAX_SHARE_SUPPLY) then
    s ← safe_add (amount a) (amount b); Ok (s <=? GRAPHENE_MAX_SHARE_SUPPLY)
  else Ok false.

(** ** [linear_vesting_policy] *)
Definition linear_total_vested (p : linear_vesting_policy) (elapsed : Z) : result Z :=
  if elapsed <? vesting_duration_seconds p
  then u128_ratio (begin_balance p) elapsed (vesting_duration_seconds p)
  else Ok (begin_balance p).
Definition linear_get_allowed_withdraw (p : linear_vesting_policy) (ctx : vesting_policy_context)
  : result asset :=
  allowed ←
    (if begin_timestamp p <? now ctx then
       let elapsed := now ctx - begin_timestamp p in
       if vesting_cliff_seconds p <=? elapsed then
         total_vested ← linear_total_vested p elapsed;
         withdrawn_already ← safe_sub (begin_balance p) (amount (ctx_balance ctx));
         safe_sub total_vested withdrawn_already
       else Ok 0
     else Ok 0);
  Ok (mk_asset allowed (asset_id (ctx_balance ctx))).
Definition linear_is_deposit_allowed (ctx : vesting_policy_context) : result bool :=
  if asset_id (ctx_amount ctx) =? asset_id (ctx_balance ctx)
  then sum_below_max_shares (ctx_amount ctx) (ctx_balance ctx) else Ok false.
Definition linear_is_withdraw_allowed (p : linear_vesting_policy) (ctx : vesting_policy_context)
  : result bool :=
  if asset_id (ctx_amount ctx) =? asset_id (ctx_balance ctx)
  then allowed ← linear_get_allowed_withdraw p ctx; asset_le (ctx_amount ctx) allowed
  else Ok false.

(** ** [cdd_vesting_policy] *)
Definition period (p : cdd_vesting_policy) : Z := Z.max (vesting_seconds p) 1.
Definition compute_coin_seconds_earned (p : cdd_vesting_policy) (ctx : vesting_policy_context) : Z :=
  let delta_seconds := now ctx - coin_seconds_earned_last_update p in
  let delta_coin_seconds := u128_mul (u128 (amount (ctx_balance ctx))) delta_seconds in
  let coin_seconds_earned_cap := u128_mul (u128 (amount (ctx_balance ctx))) (period p) in
  Z.min (u128_add (coin_seconds_earned p) delta_coin_seconds) coin_seconds_earned_cap.
Definition set_coin_seconds (p : cdd_vesting_policy) (cs at_time : Z) : cdd_vesting_policy :=
  mk_cdd (vesting_seconds p) cs (start_claim p) at_time.
Definition update_coin_seconds_earned (p : cdd_vesting_policy) (ctx : vesting_policy_context)
  : cdd_vesting_policy :=
  set_coin_seconds p (compute_coin_seconds_earned p ctx) (now ctx).
Definition cdd_get_allowed_withdraw (p : cdd_vesting_policy) (ctx : vesting_policy_context)
  : result asset :=
  if now ctx <=? start_claim p then Ok (mk_asset 0 (asset_id (ctx_balance ctx)))
  else
    withdraw_available ← u128_div (compute_coin_seconds_earned p ctx) (period p);
    n ← to_uint64 withdraw_available;
    Ok (mk_asset n (asset_id (ctx_balance ctx))).
Definition cdd_on_deposit (p : cdd_vesting_policy) (ctx : vesting_policy_context)
  : cdd_vesting_policy :=
  update_coin_seconds_earned p ctx.
Definition cdd_on_deposit_vested (p : cdd_vesting_policy) (ctx : vesting_policy_context)
  : result cdd_vesting_policy :=
  let p' := cdd_on_deposit p ctx in
  earned ← int64_mul (amount (ctx_amount ctx)) (period p');
  Ok (set_coin_seconds p' (u128_add (coin_seconds_earned p') (u128 earned))
        (coin_seconds_earned_last_update p')).
Definition cdd_on_withdraw (p : cdd_vesting_policy) (ctx : vesting_policy_context)
  : cdd_vesting_policy :=
  let p' := update_coin_seconds_earned p ctx in
  let coin_seconds_needed := u128_mul (u128 (amount (ctx_amount ctx))) (period p') in
  set_coin_seconds p' (u128_sub (coin_seconds_earned p') coin_seconds_needed)
    (coin_seconds_earned_last_update p').
Definition cdd_is_deposit_allowed (ctx : vesting_policy_context) : result bool :=
  if asset_id (ctx_amount ctx) =? asset_id (ctx_balance ctx)
  then sum_below_max_shares (ctx_amount ctx) (ctx_balance ctx) else Ok false.
Definition cdd_is_withdraw_allowed (p : cdd_vesting_policy) (ctx : vesting_policy_context)
  : result bool :=
  allowed ← cdd_get_allowed_withdraw p ctx; asset_le (ctx_amount ctx) allowed.

(** ** The visitors: dispatch on the policy of the balance *)
Definition on_deposit (p : vesting_policy) (ctx : vesting_policy_context) : vesting_policy :=
  match p with
  | linear_policy q => linear_policy q
  | cdd_policy q => cdd_policy (cdd_on_deposit q ctx)
  end.
Definition on_deposit_vested (p : vesting_policy) (ctx : vesting_policy_context)
  : result vesting_policy :=
  match p with
  | linear_policy _ => Throw "May not deposit vested into a linear vesting balance."
  | cdd_policy q => q' ← cdd_on_deposit_vested q ctx; Ok (cdd_policy q')
  end.
Definition on_withdraw (p : vesting_policy) (ctx : vesting_policy_context) : vesting_policy :=
  match p with
  | linear_policy q => linear_policy q
  | cdd_policy q => cdd_policy (cdd_on_withdraw q ctx)
  end.
Definition policy_allowed_withdraw (p : vesting_policy) (ctx : vesting_policy_context)
  : result asset :=
  match p with
  | linear_policy q => linear_get_allowed_withdraw q ctx
  | cdd_policy q => cdd_get_allowed_withdraw q ctx
  end.

(** ** [vesting_balance_object] *)
Definition is_deposit_allowed (b : vesting_balance_object) (t : Z) (a : asset) : result bool :=
  match vb_policy b with
  | linear_policy _ => linear_is_deposit_allowed (mk_ctx (vb_balance b) t a)
  | cdd_policy _ => cdd_is_deposit_allowed (mk_ctx (vb_balance b) t a)
  end.
Definition is_deposit_vested_allowed (b : vesting_balance_object) (t : Z) (a : asset) : result bool :=
  match vb_policy b with
  | linear_policy _ => Ok false
  | cdd_policy _ => cdd_is_deposit_allowed (mk_ctx (vb_balance b) t a)
  end.
Definition is_withdraw_allowed (b : vesting_balance_object) (t : Z) (a : asset) : result bool :=
  match vb_policy b with
  | linear_policy q => linear_is_withdraw_allowed q (mk_ctx (vb_balance b) t a)
  | cdd_policy q => cdd_is_withdraw_allowed q (mk_ctx (vb_balance b) t a)
  end.
Definition deposit (b : vesting_balance_object) (t : Z) (a : asset) : result vesting_balance_object :=
  let p := on_deposit (vb_policy b) (mk_ctx (vb_balance b) t a) in
  bal ← asset_add (vb_balance b) a; Ok (mk_vbo (vb_owner b) bal p).
Definition deposit_vested (b : vesting_balance_object) (t : Z) (a : asset)
  : result vesting_balance_object :=
  p ← on_deposit_vested (vb_policy b) (mk_ctx (vb_balance b) t a);
  bal ← asset_add (vb_balance b) a; Ok (mk_vbo (vb_owner b) bal p).
Definition withdraw (b : vesting_balance_object) (t : Z) (a : asset) : result vesting_balance_object :=
  let p := on_withdraw (vb_policy b) (mk_ctx (vb_balance b) t a) in
  bal ← asset_sub (vb_balance b) a; Ok (mk_vbo (vb_owner b) bal p).
Definition get_allowed_withdraw (b : vesting_balance_object) (t : Z) : result asset :=
  policy_allowed_withdraw (vb_policy b) (mk_ctx (vb_balance b) t (mk_asset 0 core_asset)).
End Policies.

(** ** Well-formed balances at a time *)
Definition uint32 (z : Z) : Prop := 0 <= z < 2 ^ 32.

(** The linear schedule as a function of time. *)
Definition vested (p : linear_vesting_policy) (t : Z) : Z :=
  if (begin_timestamp p <? t) && (vesting_cliff_seconds p <=? t - begin_timestamp p) then
    if t - begin_timestamp p <? vesting_duration_seconds p
    then begin_balance p * (t - begin_timestamp p) / vesting_duration_seconds p
    else begin_balance p
  else 0.

Definition policy_wf (p : vesting_policy) (bal t : Z) : Prop :=
  match p with
  | linear_policy q =>
      uint32 (begin_timestamp q) /\ uint32 (vesting_cliff_seconds q)
      /\ uint32 (vesting_duration_seconds q) /\ share (begin_balance q)
      /\ bal <= begin_balance q /\ begin_balance q - bal <= vested q t
  | cdd_policy q =>
      uint32 (vesting_seconds q) /\ uint32 (coin_seconds_earned_last_update q)
      /\ coin_seconds_earned_last_update q <= t
      /\ 0 <= coin_seconds_earned q <= bal * period q
  end.
Record vbo_wf (b : vesting_balance_object) (t : Z) : Prop := {
  vw_share : share (amount (vb_balance b));
  vw_time : uint32 t;
  vw_policy : policy_wf (vb_policy b) (amount (vb_balance b)) t;
}.

(** The coin-seconds of a [cdd] policy at a time. *)
Definition earned (q : cdd_vesting_policy) (bal t : Z) : Z :=
  Z.min (coin_seconds_earned q + bal * (t - coin_seconds_earned_last_update q)) (bal * period q).
(** What a balance lets its owner withdraw at a time. *)
Definition available (b : vesting_balance_object) (t : Z) : Z :=
  let bal := amount (vb_balance b) in
  match vb_policy b with
  | linear_policy q => vested q t - (begin_balance q - bal)
  | cdd_policy q => if t <=? start_claim q then 0 else earned q bal t / period q
  end.

Section Facts.
Context `{SafeLaws, U128Laws}.
Implicit Types (b : vesting_balance_object) (a : asset) (t : Z).

Lemma period_pos q : uint32 (vesting_seconds q) -> 0 < period q < 2 ^ 32.
Proof. unfold period, uint32. lia. Qed.

Lemma vested_range q t : share (begin_balance q) -> 0 <= vested q t <= begin_balance q.
Proof.
  unfold vested, share. intros Hb.
  destruct (Z.ltb_spec (begin_timestamp q) t); cbn [andb]; [|lia].
  case_match; [|lia]. destruct (Z.ltb_spec (t - begin_timestamp q) (vesting_duration_seconds q)); [|lia].
  apply ratio_le; lia.
Qed.

Lemma vested_mono q t t' :
  share (begin_balance q) -> t <= t' -> vested q t <= vested q t'.
Proof.
  intros Hb Ht. pose proof (vested_range q t Hb). pose proof (vested_range q t' Hb).
  unfold share in Hb. unfold vested in *.
  repeat match goal with
  | |- context [?x <? ?y] => destruct (Z.ltb_spec x y)
  | |- context [?x <=? ?y] => destruct (Z.leb_spec x y)
  end; cbn [andb] in *; try lia.
  apply Z.div_le_mono; nia.
Qed.

(** [policy_wf] is stable under the passing of time. *)
Lemma vbo_wf_later b t t' : vbo_wf b t -> t <= t' -> uint32 t' -> vbo_wf b t'.
Proof.
  intros [Hs _ Hp] Ht Hu. split; [done..|]. destruct (vb_policy b) as [q|q]; cbn in *.
  - destruct Hp as (? & ? & ? & Hb & ? & ?). pose proof (vested_mono q t t' Hb Ht).
    split_and!; try done; lia.
  - destruct Hp as (? & ? & ? & ?). split_and!; try done; lia.
Qed.

Lemma sub_share x y c : 0 <= x < 2 ^ 62 -> 0 <= y < 2 ^ 62 -> safe_sub x y = Ok c <-> c = x - y.
Proof.
  intros. rewrite safe_sub_spec. unfold in_int64, int64_min, int64_max.
  split; [by intros [-> _]|intros ->; split; [done|lia]].
Qed.

(** ** Coin-seconds *)
Lemma compute_earned q bal id t a :
  share bal -> uint32 t -> policy_wf (cdd_policy q) bal t ->
  compute_coin_seconds_earned q (mk_ctx (mk_asset bal id) t a) = earned q bal t.
Proof.
  intros Hb Ht (Hv & Hl & Hlt & Hc). pose proof (period_pos q Hv) as Hp.
  unfold share, GRAPHENE_MAX_SHARE_SUPPLY, uint32 in *.
  unfold compute_coin_seconds_earned, earned. cbn.
  rewrite u128_id, !u128_mul_spec, u128_add_spec by nia. done.
Qed.

Lemma earned_range q bal t :
  0 <= bal -> policy_wf (cdd_policy q) bal t -> 0 <= earned q bal t <= bal * period q.
Proof. intros Hb (Hv & Hl & Hlt & Hc). unfold earned. nia. Qed.

Lemma available_range b t : vbo_wf b t -> 0 <= available b t <= amount (vb_balance b).
Proof.
  intros [[Hb0 Hb1] Ht Hp]. unfold available. destruct (vb_policy b) as [q|q].
  - destruct Hp as (? & ? & ? & Hb & ? & ?). pose proof (vested_range q t Hb). lia.
  - pose proof (earned_range q _ t Hb0 Hp) as He. destruct Hp as (Hv & _).
    pose proof (period_pos q Hv). case_match; [lia|].
    split; [apply Z.div_pos; lia|]. apply Z.div_le_upper_bound; lia.
Qed.

Lemma linear_total q e :
  share (begin_balance q) -> uint32 (vesting_duration_seconds q) -> 0 <= e < 2 ^ 33 ->
  linear_total_vested q e =
    Ok (if e <? vesting_duration_seconds q
        then begin_balance q * e / vesting_duration_seconds q else begin_balance q).
Proof.
  unfold linear_total_vested, share, GRAPHENE_MAX_SHARE_SUPPLY, uint32. intros Hb Hd He.
  destruct (Z.ltb_spec e (vesting_duration_seconds q)); [|done].
  pose proof (ratio_le (begin_balance q) e (vesting_duration_seconds q)).
  apply u128_ratio_spec; lia.
Qed.

(** The code computes [available]. *)
Lemma allowed_withdraw_available b t a :
  vbo_wf b t ->
  policy_allowed_withdraw (vb_policy b) (mk_ctx (vb_balance b) t a)
  = Ok (mk_asset (available b t) (asset_id (vb_balance b))).
Proof.
  intros Hw. pose proof (available_range b t Hw) as Hr. destruct Hw as [Hb Ht Hp].
  destruct b as [ow [bal id] pol]. cbn in *. unfold available in *. cbn in *.
  destruct pol as [q|q]; cbn [policy_allowed_withdraw].
  - destruct Hp as (Hbt & Hcl & Hdu & Hbb & Hle & Hwd).
    pose proof (vested_range q t Hbb) as Hv.
    unfold linear_get_allowed_withdraw, vested in *. cbn in *.
    destruct (Z.ltb_spec (begin_timestamp q) t); cbn [andb] in *.
    2: { cbn. do 2 f_equal. lia. }
    destruct (Z.leb_spec (vesting_cliff_seconds q) (t - begin_timestamp q)).
    2: { cbn. do 2 f_equal. lia. }
    unfold share, GRAPHENE_MAX_SHARE_SUPPLY, uint32 in *.
    rewrite linear_total by (unfold share, GRAPHENE_MAX_SHARE_SUPPLY, uint32; lia). cbn.
    set (tv := if t - begin_timestamp q <? vesting_duration_seconds q
               then begin_balance q * (t - begin_timestamp q) / vesting_duration_seconds q
               else begin_balance q) in *. clearbody tv.
    rewrite (proj2 (sub_share (begin_balance q) bal (begin_balance q - bal)
                      ltac:(lia) ltac:(lia)) eq_refl). cbn.
    rewrite (proj2 (sub_share tv (begin_balance q - bal) (tv - (begin_balance q - bal))
                      ltac:(lia) ltac:(lia)) eq_refl). done.
  - pose proof (earned_range q bal t (proj1 Hb) Hp) as He.
    unfold cdd_get_allowed_withdraw. cbn. destruct (Z.leb_spec t (start_claim q)); [done|].
    rewrite compute_earned by done. destruct Hp as (Hv & _).
    pose proof (period_pos q Hv). unfold share, GRAPHENE_MAX_SHARE_SUPPLY, uint32 in *.
    rewrite u128_div_spec by nia. cbn. rewrite to_uint64_spec by lia. done.
Qed.

Lemma is_withdraw_allowed_iff b t a :
  vbo_wf b t -> is_withdraw_allowed b t a = Ok true ->
  asset_id a = asset_id (vb_balance b) /\ amount a <= available b t.
Proof.
  intros Hw Ha. pose proof (allowed_withdraw_available b t a Hw) as Hal.
  unfold is_withdraw_allowed, linear_is_withdraw_allowed, cdd_is_withdraw_allowed in Ha.
  destruct (vb_policy b) as [q|q]; cbn in Ha, Hal.
  - destruct (Z.eqb_spec (asset_id a) (asset_id (vb_balance b))); [|discriminate].
    rewrite Hal in Ha. cbn in Ha. apply asset_le_Ok in Ha as [Hid Hle]; cbn in Hid, Hle; lia.
  - rewrite Hal in Ha. cbn in Ha. apply asset_le_Ok in Ha as [Hid Hle]; cbn in Hid, Hle; lia.
Qed.

Lemma get_allowed_available b t :
  vbo_wf b t -> get_allowed_withdraw b t = Ok (mk_asset (available b t) (asset_id (vb_balance b))).
Proof. apply allowed_withdraw_available. Qed.

(** The coin-seconds at a later time do not depend on updates in between. *)
Lemma earned_path q bal t1 t2 :
  0 <= bal -> coin_seconds_earned_last_update q <= t1 <= t2 ->
  earned (set_coin_seconds q (earned q bal t1) t1) bal t2 = earned q bal t2.
Proof. intros Hb Ht. unfold earned, period. cbn. nia. Qed.

Lemma asset_sub_share (a b c : asset) :
  0 <= amount a < 2 ^ 62 -> 0 <= amount b < 2 ^ 62 -> asset_id a = asset_id b ->
  asset_sub a b = Ok c <-> c = mk_asset (amount a - amount b) (asset_id a).
Proof.
  intros Ha Hb Hid. unfold asset_sub, same_asset. rewrite Hid, Z.eqb_refl. cbn.
  rewrite (proj2 (sub_share _ _ _ Ha Hb) eq_refl). cbn. split; [by intros [= <-]|by intros ->].
Qed.
Lemma asset_add_share (a b c : asset) :
  0 <= amount a < 2 ^ 61 -> 0 <= amount b < 2 ^ 61 -> asset_id a = asset_id b ->
  asset_add a b = Ok c <-> c = mk_asset (amount a + amount b) (asset_id a).
Proof.
  intros Ha Hb Hid. unfold asset_add, same_asset. rewrite Hid, Z.eqb_refl. cbn.
  rewrite (proj2 (safe_add_spec (amount a) (amount b) (amount a + amount b))).
  2: { split; [done|]. unfold in_int64, int64_min, int64_max. lia. }
  cbn. split; [by intros [= <-]|by intros ->].
Qed.

(** The coin-seconds after a withdrawal. *)
Lemma cdd_withdraw_earned q bal id t a :
  share bal -> uint32 t -> policy_wf (cdd_policy q) bal t ->
  0 <= amount a -> amount a * period q <= earned q bal t ->
  cdd_on_withdraw q (mk_ctx (mk_asset bal id) t a)
  = set_coin_seconds q (earned q bal t - amount a * period q) t.
Proof.
  intros Hb Ht Hp Ha Hle. pose proof (earned_range q bal t (proj1 Hb) Hp) as He.
  unfold cdd_on_withdraw, update_coin_seconds_earned. rewrite compute_earned by done.
  destruct Hp as (Hv & _). pose proof (period_pos q Hv).
  unfold share, GRAPHENE_MAX_SHARE_SUPPLY, uint32, period in *. cbn.
  rewrite u128_id, u128_mul_spec, u128_sub_spec by nia. done.
Qed.
End Facts.

(** ** Properties *)

(** C34: a withdrawal that is allowed succeeds, takes exactly the amount from the
    balance (which stays non-negative), leaves the balance well formed at the
    current time, and lowers what may still be withdrawn by exactly that
    amount, under either policy; so no sequence of withdrawals takes more than
    the policy has released. *)
Theorem withdraw_safe `{SafeLaws, U128Laws} (b : vesting_balance_object) (t t' : Z) (a : asset) :
  vbo_wf b t -> t <= t' -> uint32 t' -> 0 <= amount a ->
  is_withdraw_allowed b t' a = Ok true ->
  exists b' x,
    withdraw b t' a = Ok b' /\ vbo_wf b' t'
    /\ amount (vb_balance b') = amount (vb_balance b) - amount a
    /\ get_allowed_withdraw b t' = Ok (mk_asset x (asset_id (vb_balance b)))
    /\ get_allowed_withdraw b' t' = Ok (mk_asset (x - amount a) (asset_id (vb_balance b)))
    /\ 0 <= amount a <= x /\ x <= amount (vb_balance b).
Proof.
  intros Hw0 Ht Hu Ha Hal. assert (Hw := vbo_wf_later b t t' Hw0 Ht Hu).
  destruct (is_withdraw_allowed_iff b t' a Hw Hal) as [Hid Hle].
  pose proof (available_range b t' Hw) as Hr.
  assert (Hg := get_allowed_available b t' Hw).
  destruct Hw as [Hs _ Hp]. unfold share, GRAPHENE_MAX_SHARE_SUPPLY in Hs.
  set (p' := on_withdraw (vb_policy b) (mk_ctx (vb_balance b) t' a)).
  set (b' := mk_vbo (vb_owner b) (mk_asset (amount (vb_balance b) - amount a) (asset_id (vb_balance b))) p').
  assert (Hrun : withdraw b t' a = Ok b').
  { unfold withdraw. fold p'.
    rewrite (proj2 (asset_sub_share (vb_balance b) a _ ltac:(lia) ltac:(lia) (eq_sym Hid)) eq_refl).
    done. }
  assert (Hav : vbo_wf b' t' /\ available b' t' = available b t' - amount a).
  { subst b' p'. destruct b as [ow [bal id] pol]. cbn in *. unfold available in *.
    destruct pol as [q|q]; cbn in *.
    - destruct Hp as (? & ? & ? & ? & ? & ?). split; [|lia].
      split; cbn; [unfold share, GRAPHENE_MAX_SHARE_SUPPLY; lia|done|split_and!; try done; lia].
    - pose proof Hp as (Hv & _). pose proof (period_pos q Hv).
      destruct (Z.leb_spec t' (start_claim q)) as [Hst|Hst].
      + assert (amount a = 0) as Ha0 by lia.
        assert (He := earned_range q bal t' ltac:(lia) Hp).
        rewrite (cdd_withdraw_earned q bal id t' a) by (done || nia). cbn.
        split; [|lia].
        split; cbn; [unfold share, GRAPHENE_MAX_SHARE_SUPPLY; lia|done|].
        unfold period in *; cbn. split_and!; try done; unfold uint32 in *; try lia; nia.
      + assert (He := earned_range q bal t' ltac:(lia) Hp).
        assert (Hle' : amount a * period q <= earned q bal t').
        { pose proof (Z.mul_div_le (earned q bal t') (period q)). nia. }
        rewrite (cdd_withdraw_earned q bal id t' a) by (done || nia). cbn.
        assert (Hpe : forall c m, period (set_coin_seconds q c m) = period q) by done.
        split.
        * split; cbn; [unfold share, GRAPHENE_MAX_SHARE_SUPPLY; lia|done|].
          rewrite !Hpe. split_and!; try done; try lia; nia.
        * unfold earned at 1. rewrite !Hpe. cbn.
          replace (Z.min _ _) with (earned q bal t' + (- amount a) * period q) by nia.
          rewrite Z.div_add by lia. lia. }
  destruct Hav as [Hw' Hav].
  exists b', (available b t'). split_and!; try done; try lia.
  rewrite (get_allowed_available b' t' Hw'), Hav. done.
Qed.

(** Under the coin-days policy what may be withdrawn grows with the balance
    held: nothing up to [start_claim], then the coin-seconds over the vesting
    period, all of it one period after the last update; a deposit unlocks
    nothing, a vested deposit exactly its amount, and updates at intermediate
    times change nothing. *)
Theorem cdd_maturity `{SafeLaws, U128Laws} (ow : Z) (bal : asset) (q : cdd_vesting_policy)
    (t t' : Z) (a : asset) (b := mk_vbo ow bal (cdd_policy q)) :
  vbo_wf b t -> t <= t' -> uint32 t' ->
  0 <= amount a -> amount bal + amount a <= GRAPHENE_MAX_SHARE_SUPPLY -> asset_id a = asset_id bal ->
  get_allowed_withdraw b t' = Ok (mk_asset (if t' <=? start_claim q then 0
      else Z.min (coin_seconds_earned q + amount bal * (t' - coin_seconds_earned_last_update q))
                 (amount bal * period q) / period q) (asset_id bal))
  /\ (coin_seconds_earned_last_update q + period q <= t' -> start_claim q < t' ->
        get_allowed_withdraw b t' = Ok bal)
  /\ (exists b', deposit b t' a = Ok b' /\ vbo_wf b' t'
        /\ get_allowed_withdraw b' t' = get_allowed_withdraw b t')
  /\ (forall b' x, deposit_vested b t' a = Ok b' -> start_claim q < t' ->
        get_allowed_withdraw b t' = Ok x ->
        vbo_wf b' t' /\ get_allowed_withdraw b' t' = asset_add x a)
  /\ (is_ok (deposit_vested b t' a) = false <-> 2 ^ 63 <= amount a * period q).
Proof.
  intros Hw0 Ht Hu Ha Hsum Hid. assert (Hw := vbo_wf_later b t t' Hw0 Ht Hu).
  assert (Hg := get_allowed_available b t' Hw). subst b. destruct bal as [bal id].
  cbn [amount asset_id] in *. destruct Hw as [Hs _ Hp]. cbn in Hs, Hp. pose proof Hp as (Hv & Hl & Hlt & Hc).
  pose proof (period_pos q Hv) as Hper.
  assert (He := earned_range q bal t' (proj1 Hs) Hp).
  assert (Hpe : forall c m, period (set_coin_seconds q c m) = period q) by done.
  unfold share in Hs. pose proof Hs as [Hs0 Hs1]. unfold GRAPHENE_MAX_SHARE_SUPPLY in Hs1, Hsum.
  assert (Hadd := proj2 (asset_add_share (mk_asset bal id) a _ ltac:(cbn; lia) ltac:(cbn; lia)
                          (eq_sym Hid)) eq_refl).
  assert (Hcomp : compute_coin_seconds_earned q (mk_ctx (mk_asset bal id) t' a) = earned q bal t')
    by (by apply compute_earned).
  set (q1 := set_coin_seconds q (earned q bal t') t').
  assert (Hw1 : forall c, earned q bal t' <= c <= (bal + amount a) * period q ->
            vbo_wf (mk_vbo ow (mk_asset (bal + amount a) id) (cdd_policy (set_coin_seconds q c t'))) t').
  { intros c Hcc. split; cbn; [unfold share, GRAPHENE_MAX_SHARE_SUPPLY; lia|done|].
    rewrite Hpe. split_and!; try done; lia. }
  assert (Hav : forall c, earned q bal t' <= c <= (bal + amount a) * period q ->
      get_allowed_withdraw (mk_vbo ow (mk_asset (bal + amount a) id)
                              (cdd_policy (set_coin_seconds q c t'))) t'
      = Ok (mk_asset (if t' <=? start_claim q then 0 else c / period q) id)).
  { intros c Hcc. rewrite get_allowed_available by (by apply Hw1). unfold available. cbn.
    unfold earned at 1. rewrite !Hpe. cbn. replace (Z.min _ _) with c by lia. done. }
  split_and!.
  - exact Hg.
  - intros Hm Hst. rewrite Hg. unfold available. cbn.
    rewrite (proj2 (Z.leb_gt _ _) Hst). do 2 f_equal.
    unfold earned. rewrite Z.min_r by nia. apply Z.div_mul. lia.
  - eexists. split; [|split].
    + unfold deposit. cbn [vb_balance vb_policy vb_owner on_deposit].
      rewrite Hadd. unfold cdd_on_deposit, update_coin_seconds_earned. rewrite Hcomp. reflexivity.
    + apply (Hw1 (earned q bal t')). nia.
    + etransitivity; [apply Hav; nia|]. rewrite Hg. done.
  - intros b' x Hd Hst Hx. rewrite Hg in Hx. injection Hx as <-.
    unfold deposit_vested in Hd. cbn [vb_balance vb_policy vb_owner on_deposit_vested] in Hd.
    rewrite Hadd in Hd. unfold cdd_on_deposit_vested, cdd_on_deposit, update_coin_seconds_earned in Hd.
    rewrite Hcomp in Hd. fold q1 in Hd. unfold int64_mul in Hd. rewrite Hpe in Hd.
    case_bool_decide as Hi; [|discriminate]. cbn in Hd.
    rewrite u128_id in Hd by nia. rewrite u128_add_spec in Hd by nia. injection Hd as <-.
    change (mk_cdd _ _ _ _) with (set_coin_seconds q (earned q bal t' + amount a * period q) t').
    split; [apply Hw1; nia|].
    etransitivity; [apply Hav; nia|]. unfold available. cbn. rewrite !(proj2 (Z.leb_gt _ _) Hst).
    rewrite Z.div_add by lia. symmetry. apply asset_add_share; cbn; [|lia|done|done].
    split; [apply Z.div_pos; lia|]. apply Z.div_lt_upper_bound; nia.
  - unfold deposit_vested. cbn [vb_balance vb_policy vb_owner on_deposit_vested].
    unfold cdd_on_deposit_vested, cdd_on_deposit, update_coin_seconds_earned, int64_mul.
    rewrite Hpe. cbn [ctx_amount]. case_bool_decide as Hi; cbn [mbind result_bind]; rewrite ?Hadd; cbn [mbind result_bind is_ok];
      unfold in_int64, int64_min, int64_max in Hi; split; intros; try done; nia.
Qed.

(** A linear balance releases its begin balance in proportion to the time
    elapsed, nothing before the cliff and everything from the end of the
    duration on; what may be withdrawn is what has vested less what was
    withdrawn, and only grows with time.  The code also accepts deposits, which
    can be withdrawn at once. *)
Theorem linear_schedule `{SafeLaws, U128Laws} (ow : Z) (bal : asset) (q : linear_vesting_policy)
    (t t1 t2 : Z) (a : asset) (b := mk_vbo ow bal (linear_policy q)) :
  vbo_wf b t -> t <= t1 <= t2 -> uint32 t2 ->
  (exists x1 x2, get_allowed_withdraw b t1 = Ok (mk_asset x1 (asset_id bal))
     /\ get_allowed_withdraw b t2 = Ok (mk_asset x2 (asset_id bal)) /\ 0 <= x1 <= x2 /\ x2 <= amount bal
     /\ x2 + (begin_balance q - amount bal) = vested q t2)
  /\ (t1 < begin_timestamp q + vesting_cliff_seconds q ->
        get_allowed_withdraw b t1 = Ok (mk_asset 0 (asset_id bal)))
  /\ (begin_timestamp q + Z.max (vesting_cliff_seconds q) (vesting_duration_seconds q) <= t1 ->
        begin_timestamp q < t1 -> get_allowed_withdraw b t1 = Ok bal)
  /\ is_ok (deposit_vested b t1 a) = false
  /\ (0 <= amount a -> amount bal + amount a <= begin_balance q -> asset_id a = asset_id bal ->
        begin_balance q - (amount bal + amount a) <= vested q t1 ->
      exists b' x, deposit b t1 a = Ok b' /\ get_allowed_withdraw b t1 = Ok x
        /\ is_deposit_allowed b t1 a = Ok true /\ get_allowed_withdraw b' t1 = asset_add x a).
Proof.
  intros Hw0 [Ht1 Ht2] Hu2. assert (Hu1 : uint32 t1) by (destruct Hw0; unfold uint32 in *; lia).
  assert (Hw1 := vbo_wf_later b t t1 Hw0 Ht1 Hu1). assert (Hw2 := vbo_wf_later b t1 t2 Hw1 Ht2 Hu2).
  pose proof (available_range b t1 Hw1) as Hr1. pose proof (available_range b t2 Hw2) as Hr2.
  assert (Hg1 := get_allowed_available b t1 Hw1). assert (Hg2 := get_allowed_available b t2 Hw2).
  subst b. destruct bal as [bal id]. unfold available in *.
  cbn [vb_policy vb_balance amount asset_id] in *.
  destruct Hw1 as [Hs _ Hp]. destruct Hp as (Hb & Hcl & Hdu & Hbb & Hle & Hwd).
  cbn [vb_balance amount] in *.
  pose proof (vested_mono q t1 t2 Hbb Ht2) as Hm. unfold share, GRAPHENE_MAX_SHARE_SUPPLY, uint32 in *.
  split_and!.
  - eexists _, _. split_and!; [exact Hg1|exact Hg2|lia..].
  - intros Hlt. rewrite Hg1. do 2 f_equal. unfold vested in *.
    rewrite (proj2 (Z.leb_gt (vesting_cliff_seconds q) (t1 - begin_timestamp q))), andb_false_r in * by lia.
    lia.
  - intros Hge Hlt. rewrite Hg1. do 2 f_equal. unfold vested.
    rewrite (proj2 (Z.ltb_lt _ _) Hlt), (proj2 (Z.leb_le (vesting_cliff_seconds q) _)),
      (proj2 (Z.ltb_ge (t1 - begin_timestamp q) _)) by lia. cbn. lia.
  - done.
  - intros Ha Hsum Hid Hwd'.
    assert (Hadd := proj2 (asset_add_share (mk_asset bal id) a _ ltac:(cbn; lia) ltac:(cbn; lia)
                            (eq_sym Hid)) eq_refl).
    assert (Hw' : vbo_wf (mk_vbo ow (mk_asset (bal + amount a) id) (linear_policy q)) t1).
    { split; cbn; [unfold share, GRAPHENE_MAX_SHARE_SUPPLY; lia|done|split_and!; done || lia]. }
    eexists _, _. split_and!.
    + unfold deposit. cbn [vb_balance]. rewrite Hadd. reflexivity.
    + exact Hg1.
    + unfold is_deposit_allowed, linear_is_deposit_allowed, sum_below_max_shares.
      cbn [vb_policy vb_balance ctx_amount ctx_balance amount asset_id]. rewrite Hid, Z.eqb_refl.
      rewrite !(proj2 (Z.leb_le _ GRAPHENE_MAX_SHARE_SUPPLY)) by (unfold GRAPHENE_MAX_SHARE_SUPPLY; lia).
      cbn [andb]. rewrite (proj2 (safe_add_spec _ _ (amount a + bal))).
      2: { split; [done|]. unfold in_int64, int64_min, int64_max. lia. }
      cbn. f_equal. apply Z.leb_le. unfold GRAPHENE_MAX_SHARE_SUPPLY. lia.
    + etransitivity; [apply (get_allowed_available _ t1 Hw')|]. unfold available. cbn [vb_policy vb_balance amount asset_id].
      symmetry. etransitivity; [apply asset_add_share; cbn; [lia|lia|done|reflexivity]|]. cbn. do 2 f_equal. lia.
Qed.

Section Witnesses.
Import Ref.
Definition w_linear : linear_vesting_policy := mk_linear 100 20 1000 5000.
Lemma linear_schedule_witness :
  get_allowed_withdraw (mk_vbo 7 (mk_asset 4600 0) (linear_policy w_linear)) 1100
  = Ok (mk_asset 4600 0).
Proof.
  destruct (linear_schedule 7 (mk_asset 4600 0) w_linear 200 1100 1200 (mk_asset 0 0))
    as (_ & _ & Hend & _).
  - split; vm_compute; intuition discriminate.
  - lia.
  - vm_compute. split; [discriminate|reflexivity].
  - apply Hend; vm_compute; [discriminate|reflexivity].
Defined.

Definition w_cdd : vesting_balance_object :=
  mk_vbo 7 (mk_asset 1000 0) (cdd_policy (mk_cdd 100 20000 0 50)).
Lemma w_cdd_wf : vbo_wf w_cdd 60.
Proof. split; vm_compute; intuition discriminate. Qed.

Lemma withdraw_safe_witness :
  exists b' x,
    withdraw w_cdd 80 (mk_asset 300 0) = Ok b' /\ vbo_wf b' 80
    /\ amount (vb_balance b') = 1000 - 300
    /\ get_allowed_withdraw w_cdd 80 = Ok (mk_asset x 0)
    /\ get_allowed_withdraw b' 80 = Ok (mk_asset (x - 300) 0)
    /\ 0 <= 300 <= x /\ x <= 1000.
Proof.
  apply (withdraw_safe w_cdd 60 80 (mk_asset 300 0) w_cdd_wf).
  - lia.
  - vm_compute. split; [discriminate|reflexivity].
  - vm_compute. discriminate.
  - vm_compute. reflexivity.
Defined.

Lemma cdd_maturity_witness :
  get_allowed_withdraw w_cdd 150 = Ok (mk_asset 1000 0)
  /\ is_ok (deposit_vested w_cdd 150 (mk_asset 5 0)) = true.
Proof.
  destruct (cdd_maturity 7 (mk_asset 1000 0) (mk_cdd 100 20000 0 50) 60 150 (mk_asset 5 0) w_cdd_wf)
    as (_ & Hm & _ & _ & _).
  - lia.
  - vm_compute. split; [discriminate|reflexivity].
  - vm_compute. discriminate.
  - vm_compute. discriminate.
  - reflexivity.
  - split; [|vm_compute; reflexivity]. apply Hm; vm_compute; [discriminate|reflexivity].
Defined.
End Witnesses.
End Vesting.
