(* ===== verification/Authority.v ===== *)
(** * Authorities and signatures ([authority.hpp], [transaction.cpp])

    [sign_state] decides whether the keys that signed a transaction, and the
    accounts that approved it, satisfy a weighted authority whose members may be
    accounts with authorities of their own, down to a maximal depth.  It is
    compared with [satisfied], the same question as a sum of weights without
    the memory of [sign_state].  A public key is the number its bytes denote;
    recovering keys from signatures and deriving addresses from keys belong to
    the elliptic curve library and are parameters. *)
From Stdlib Require Import ZArith Lia String.
From stdpp Require Import base gmap sets list strings.
From S2P Require Import Prelude External.

Module Authority.

(** ** [struct authority]; a [flat_map] is its entries in order of their keys. *)
Record authority : Type := mk_authority {
  weight_threshold : Z;
  account_auths : list (Z * Z);
  key_auths : list (Z * Z);
  address_auths : list (Z * Z);
}.
Definition weights (l : list (Z * Z)) : Z := foldr (fun x w => x.2 + w) 0 l.
Definition is_impossible (a : authority) : bool :=
  weights (account_auths a) + weights (key_auths a) + weights (address_auths a) <? weight_threshold a.
Definition num_auths (a : authority) : Z :=
  Z.of_nat (length (account_auths a) + length (key_auths a) + length (address_auths a)).
Definition null_authority : authority := mk_authority 1 [(3, 1)] [] [].

(** Addresses of a key: [address( pts_address( key, compressed, version ) )]
    and [address( key )]. *)
Class AddressOps : Type := {
  pts_address : Z -> bool -> Z -> Z;
  address : Z -> Z;
}.

Definition GRAPHENE_COMMITTEE_ID : Z := 0.
Definition GRAPHENE_TEMP_ACCOUNT : Z := 4.
Definition end_dereferenced : string := "undefined: end iterator dereferenced".

(** ** [struct sign_state] *)
Record sign_state : Type := mk_sign_state {
  available_keys : gset Z;
  provided_signatures : gmap Z bool;
  approved_by : gset Z;
  available_address_sigs : option (gmap Z Z);
  provided_address_sigs : option (gmap Z Z);
}.
Definition set_provided (m : gmap Z bool) (s : sign_state) : sign_state :=
  mk_sign_state (available_keys s) m (approved_by s) (available_address_sigs s) (provided_address_sigs s).
Definition set_approved (m : gset Z) (s : sign_state) : sign_state :=
  mk_sign_state (available_keys s) (provided_signatures s) m (available_address_sigs s) (provided_address_sigs s).
Definition mark_used (k : Z) (s : sign_state) : sign_state :=
  set_provided (<[k := true]> (provided_signatures s)) s.

Section SignState.
Context `{IndexOps, AddressOps}.
(** [get_active]: it may throw, and may return a null pointer. *)
Variable get_active : Z -> result (option authority).

(** The traversal of a [flat_set]. *)
Definition in_order (l : gset Z) : list Z := ordered Z.ltb (elements l).

(** The constructor. *)
Definition new_sign_state (sigs keys : gset Z) : sign_state :=
  mk_sign_state keys (set_to_map (fun k => (k, false)) sigs) {[GRAPHENE_TEMP_ACCOUNT]} None None.

Definition signed_by_key (k : Z) : M sign_state bool :=
  s ← get_state;
  match provided_signatures s !! k with
  | Some _ => _ ← update (mark_used k); mret true
  | None => if bool_decide (k ∈ available_keys s) then _ ← update (mark_used k); mret true else mret false
  end.

Definition addresses_of (k : Z) : list Z :=
  [pts_address k false 56; pts_address k true 56; pts_address k false 0; pts_address k true 0; address k].
Definition address_sigs (keys : list Z) : gmap Z Z :=
  fold_left (fun m k => fold_left (fun m a => <[a := k]> m) (addresses_of k) m) keys ∅.
Definition cache_addresses (s : sign_state) : sign_state :=
  match available_address_sigs s with
  | Some _ => s
  | None =>
      mk_sign_state (available_keys s) (provided_signatures s) (approved_by s)
        (Some (address_sigs (in_order (available_keys s))))
        (Some (address_sigs (in_order (dom (provided_signatures s)))))
  end.
Definition signed_by_address (a : Z) : M sign_state bool :=
  _ ← update cache_addresses;
  s ← get_state;
  match default ∅ (provided_address_sigs s) !! a with
  | Some k => _ ← update (mark_used k); mret true
  | None =>
      match default ∅ (available_address_sigs s) !! a with
      | Some k =>
          if bool_decide (k ∈ available_keys s) then _ ← update (mark_used k); mret true else mret false
      | None => throw end_dereferenced
      end
  end.

(** The loops over the keys and the addresses: the weight so far, or [None]
    when the threshold was reached and [true] returned. *)
Fixpoint add_signed (signed : Z -> M sign_state bool) (threshold : Z) (l : list (Z * Z)) (w : Z)
  : M sign_state (option Z) :=
  match l with
  | [] => mret (Some w)
  | (k, x) :: l' =>
      b ← signed k;
      if (b : bool) then
        let w' := wrap 32 (w + x) in
        if threshold <=? w' then mret None else add_signed signed threshold l' w'
      else add_signed signed threshold l' w
  end.
(** The loop over the accounts; [check] is the recursive call, [None] at the
    maximal depth. *)
Fixpoint add_approved (check : option (option authority -> M sign_state bool)) (threshold : Z)
    (l : list (Z * Z)) (w : Z) : M sign_state (option Z) :=
  match l with
  | [] => mret (Some w)
  | (a, x) :: l' =>
      let w' := wrap 32 (w + x) in
      let reached := if threshold <=? w' then mret None else add_approved check threshold l' w' in
      s ← get_state;
      if bool_decide (a ∈ approved_by s) then reached
      else match check with
           | None => add_approved check threshold l' w
           | Some check_authority =>
               au ← lift (get_active a);
               b ← check_authority au;
               if (b : bool) then
                 _ ← update (fun s => set_approved ({[a]} ∪ approved_by s) s); reached
               else add_approved check threshold l' w
           end
  end.
(** [check_authority( au, depth )], [left] being [max_recursion - depth]. *)
Fixpoint check_authority (left : nat) (au : option authority) : M sign_state bool :=
  match au with
  | None => mret false
  | Some auth =>
      let t := weight_threshold auth in
      r ← add_signed signed_by_key t (key_auths auth) 0;
      match r with
      | None => mret true
      | Some w =>
          r ← add_signed signed_by_address t (address_auths auth) w;
          match r with
          | None => mret true
          | Some w =>
              let check := match left with O => None | S l => Some (check_authority l) end in
              r ← add_approved check t (account_auths auth) w;
              match r with None => mret true | Some w => mret (t <=? w) end
          end
      end
  end.
Definition check_account (max_recursion : nat) (id : Z) : M sign_state bool :=
  s ← get_state;
  if bool_decide (id ∈ approved_by s) then mret true
  else au ← lift (get_active id); check_authority max_recursion au.
Definition remove_unused_signatures : M sign_state bool :=
  s ← get_state;
  let used := filter (fun kb => kb.2 = true) (provided_signatures s) in
  _ ← update (set_provided used);
  mret (negb (bool_decide (used = provided_signatures s))).

(** ** [verify_authority], from the authorities the operations require *)
Variable get_owner : Z -> result (option authority).
Definition check_other (max : nat) (auth : authority) : M sign_state unit :=
  b ← check_authority max (Some auth); require b "Missing Authority".
Definition check_active (max : nat) (id : Z) : M sign_state unit :=
  b ← check_account max id;
  if (b : bool) then mret tt
  else au ← lift (get_owner id); b ← check_authority max au; require b "Missing Active Authority".
Definition check_owner (owner_approvals : gset Z) (max : nat) (id : Z) : M sign_state unit :=
  if bool_decide (id ∈ owner_approvals) then mret tt
  else au ← lift (get_owner id); b ← check_authority max au; require b "Missing Owner Authority".
Definition verify_required (required_active required_owner : gset Z) (other : list authority)
    (sigs : gset Z) (max : nat) (allow_committee : bool) (active_approvals owner_approvals : gset Z)
  : result unit :=
  _ ← (if allow_committee then Ok tt
       else fc_assert (negb (bool_decide (GRAPHENE_COMMITTEE_ID ∈ required_active)))
              "Committee account may only propose transactions");
  let s := new_sign_state sigs ∅ in
  let s := set_approved (approved_by s ∪ active_approvals ∪ owner_approvals) s in
  let run : M sign_state unit :=
    _ ← for_each other (check_other max);
    _ ← for_each (in_order required_active) (check_active max);
    _ ← for_each (in_order required_owner) (check_owner owner_approvals max);
    unused ← remove_unused_signatures;
    require (negb unused) "Unnecessary signature(s) detected" in
  match run s with Ok _ => Ok tt | Throw (e, _) => Throw e end.
End SignState.

(** ** The specification *)
(** The weight of the entries whose key satisfies [p]. *)
Definition weight_by (p : Z -> bool) (l : list (Z * Z)) : Z :=
  foldr (fun x w => (if p x.1 then x.2 else 0) + w) 0 l.

Section Satisfied.
Context `{AddressOps}.
Variable get_active : Z -> result (option authority).
(** The keys that signed, and the accounts that approved otherwise. *)
Variables keys approvals : gset Z.

Definition signs (k : Z) : bool := bool_decide (k ∈ keys).
Definition signs_address (a : Z) : bool :=
  existsb (fun k => bool_decide (a ∈ addresses_of k)) (elements keys).
(** [satisfied d au]: the weights that count reach the threshold, following
    accounts at most [d] deep. *)
Fixpoint satisfied (d : nat) (au : authority) : bool :=
  let approves (a : Z) : bool :=
    bool_decide (a ∈ approvals)
    || match d with
       | O => false
       | S d' => match get_active a with Ok (Some b) => satisfied d' b | _ => false end
       end in
  weight_threshold au <=? weight_by signs (key_auths au) + weight_by signs_address (address_auths au)
                          + weight_by approves (account_auths au).
Definition approves (d : nat) (a : Z) : bool :=
  bool_decide (a ∈ approvals)
  || match d with
     | O => false
     | S d' => match get_active a with Ok (Some b) => satisfied d' b | _ => false end
     end.
Lemma satisfied_unfold d au :
  satisfied d au = (weight_threshold au <=? weight_by signs (key_auths au)
                      + weight_by signs_address (address_auths au) + weight_by (approves d) (account_auths au)).
Proof. by destruct d. Qed.

(** The weights are unsigned and their sum does not wrap around. *)
Definition weights_ok (l : list (Z * Z)) : Prop := Forall (fun x => 0 <= x.2) l.
Definition auth_ok (au : authority) : Prop :=
  weights_ok (key_auths au) /\ weights_ok (address_auths au) /\ weights_ok (account_auths au)
  /\ weights (account_auths au) + weights (key_auths au) + weights (address_auths au) < 2 ^ 32.
Definition auths_ok (get : Z -> result (option authority)) : Prop :=
  forall id au, get id = Ok (Some au) -> auth_ok au.
End Satisfied.

Lemma weight_by_cons p k x l : weight_by p ((k, x) :: l) = (if p k then x else 0) + weight_by p l.
Proof. done. Qed.
Lemma weights_cons k x l : weights ((k, x) :: l) = x + weights l.
Proof. done. Qed.
Lemma weight_by_bounds p l : weights_ok l -> 0 <= weight_by p l <= weights l.
Proof.
  induction 1 as [|[k x] l Hx Hl IH]; [done|]. rewrite weight_by_cons, weights_cons. cbn in Hx.
  destruct (p k); lia.
Qed.
Lemma weight_by_mono (p q : Z -> bool) l :
  weights_ok l -> (forall a, p a = true -> q a = true) -> weight_by p l <= weight_by q l.
Proof.
  intros Hl Hpq. induction Hl as [|[k x] l Hx Hl IH]; [done|]. rewrite !weight_by_cons. cbn in Hx.
  destruct (p k) eqn:E; [rewrite (Hpq _ E); lia|]. destruct (q k); lia.
Qed.

Section Facts.
Context `{IndexLaws, AddressOps}.
Variable get_active : Z -> result (option authority).
Hypothesis get_active_ok : auths_ok get_active.
Variables keys avail base : gset Z.
Notation satisfied := (satisfied get_active keys base).
Notation approves := (approves get_active keys base).
Notation signs := (signs keys).
Notation signs_address := (signs_address keys).
Notation check_authority := (check_authority get_active).

(** Depth only adds approvals. *)
Lemma satisfied_mono d au : auth_ok au -> satisfied d au = true -> satisfied (S d) au = true.
Proof.
  revert au. induction d as [|d IH]; intros au (Hk & Ha & Hc & _);
    rewrite !satisfied_unfold, !Z.leb_le; intros Hs;
    (eapply Z.le_trans; [exact Hs|]); apply Z.add_le_mono_l, weight_by_mono; try done;
    intros a; unfold Authority.approves; rewrite !orb_true_iff; (intros [?|Hd]; [by left|right]); [done|].
  destruct (get_active a) as [[b|]|] eqn:E; try done. apply IH; [by eapply get_active_ok|done].
Qed.
Lemma satisfied_le d d' au : auth_ok au -> (d <= d')%nat -> satisfied d au = true -> satisfied d' au = true.
Proof. intros Hok. induction 1; [done|]. intros Hs. apply satisfied_mono; auto. Qed.
Lemma approves_le d d' a : (d <= d')%nat -> approves d a = true -> approves d' a = true.
Proof.
  unfold Authority.approves. rewrite !orb_true_iff. intros Hle [?|Hd]; [by left|right].
  destruct d as [|d]; [done|]. destruct d' as [|d']; [lia|].
  destruct (get_active a) as [[b|]|] eqn:E; try done.
  eapply satisfied_le; [by eapply get_active_ok| |exact Hd]. lia.
Qed.

Lemma in_order_elem l k : k ∈ in_order l <-> k ∈ l.
Proof. unfold in_order. rewrite ordered_perm. apply elem_of_elements. Qed.
Lemma signs_address_spec a : signs_address a = true <-> exists k, k ∈ keys /\ a ∈ addresses_of k.
Proof.
  unfold Authority.signs_address. rewrite existsb_exists. split; intros (k & Hk & Ha); exists k.
  - split; [by apply elem_of_elements, list_elem_of_In|by apply bool_decide_eq_true in Ha].
  - split; [by apply list_elem_of_In, elem_of_elements|by apply bool_decide_eq_true].
Qed.

(** The maps from addresses to keys. *)
Lemma address_sigs_spec l a :
  (forall k, address_sigs l !! a = Some k -> k ∈ l /\ a ∈ addresses_of k) /\
  (forall k, k ∈ l -> a ∈ addresses_of k -> is_Some (address_sigs l !! a)).
Proof.
  assert (Hin : forall k (ads : list Z) (m : gmap Z Z),
    (a ∈ ads -> fold_left (fun m a => <[a := k]> m) ads m !! a = Some k)
    /\ (a ∉ ads -> fold_left (fun m a => <[a := k]> m) ads m !! a = m !! a)).
  { intros k ads. induction ads as [|b ads IH]; intros m; cbn; [split; [by intros ?%not_elem_of_nil|done]|].
    destruct (IH (<[b := k]> m)) as [I1 I2]. split.
    - intros [->|Hi]%elem_of_cons; [|auto]. destruct (decide (b ∈ ads)); [auto|]. rewrite I2 by done. apply lookup_insert_eq.
    - intros [Hne Hi]%not_elem_of_cons. rewrite I2 by done. by apply lookup_insert_ne. }
  unfold address_sigs.
  enough (Hg : forall m : gmap Z Z,
    (forall k, fold_left (fun m k => fold_left (fun m a => <[a := k]> m) (addresses_of k) m) l m !! a = Some k ->
       (k ∈ l /\ a ∈ addresses_of k) \/ m !! a = Some k)
    /\ ((is_Some (m !! a) \/ exists k, k ∈ l /\ a ∈ addresses_of k) ->
        is_Some (fold_left (fun m k => fold_left (fun m a => <[a := k]> m) (addresses_of k) m) l m !! a))).
  { destruct (Hg ∅) as [G1 G2]. split.
    - intros k Hk. destruct (G1 k Hk) as [?|Hm]; [done|]. by rewrite lookup_empty in Hm.
    - intros k Hk Ha. apply G2. right. by exists k. }
  induction l as [|k0 l IH]; intros m; cbn [fold_left].
  - split; [by right|]. intros [?|(k & ?%not_elem_of_nil & _)]; done.
  - destruct (IH (fold_left (fun m a => <[a := k0]> m) (addresses_of k0) m)) as [I1 I2].
    destruct (Hin k0 (addresses_of k0) m) as [N1 N2]. split.
    + intros k Hk. destruct (I1 k Hk) as [[? ?]|Hm]; [left; split; [by right|done]|].
      destruct (decide (a ∈ addresses_of k0)) as [Hd|Hd].
      * rewrite N1 in Hm by done. injection Hm as <-. left. split; [by left|done].
      * rewrite N2 in Hm by done. by right.
    + intros Hc. apply I2. destruct (decide (a ∈ addresses_of k0)) as [Hd|Hd].
      * left. rewrite N1 by done. eauto.
      * rewrite N2 by done. destruct Hc as [?|(k & [->|Hk]%elem_of_cons & Ha)]; [by left|done|].
        right. by exists k.
Qed.

(** ** What [sign_state] keeps *)
Definition cache_ok (from : gset Z) (m : gmap Z Z) : Prop :=
  forall a k, m !! a = Some k -> k ∈ from /\ a ∈ addresses_of k.
Record sign_ok (s : sign_state) : Prop := {
  ok_avail : available_keys s = avail;
  ok_keys : forall k, k ∈ keys <-> k ∈ dom (provided_signatures s) \/ k ∈ avail;
  ok_approved : forall a, (a ∈ base -> a ∈ approved_by s) /\ (a ∈ approved_by s -> exists d, approves d a = true);
  ok_cache : match available_address_sigs s with
             | None => True
             | Some m => cache_ok avail m /\ exists m', provided_address_sigs s = Some m' /\ cache_ok keys m' /\
                 forall a k, k ∈ keys -> a ∈ addresses_of k -> is_Some (m !! a) \/ is_Some (m' !! a)
             end;
}.
Lemma mark_used_ok s k : k ∈ keys -> sign_ok s -> sign_ok (mark_used k s).
Proof.
  intros Hk [K1 K2 K3 K4]. split; cbn; try done. intros k'. rewrite K2, dom_insert, elem_of_union, elem_of_singleton.
  split; [tauto|]. intros [[->|?]|?]; [|tauto..]. by apply K2.
Qed.
Lemma signed_by_key_spec s k b s' :
  sign_ok s -> signed_by_key k s = Ok (b, s') -> sign_ok s' /\ b = signs k.
Proof.
  intros Hs E. unfold signed_by_key in E. run_ok1. run_ok1. pose proof Hs as [K1 K2 K3 K4].
  unfold Authority.signs. destruct (provided_signatures s !! k) eqn:Ek.
  - repeat run_ok1. assert (k ∈ keys) by (apply K2; left; by apply elem_of_dom). subst.
    split; [by apply mark_used_ok|]. by rewrite bool_decide_eq_true_2.
  - rewrite K1 in E. apply not_elem_of_dom in Ek. case_bool_decide; repeat run_ok1; subst.
    + assert (k ∈ keys) by (apply K2; by right).
      split; [by apply mark_used_ok|]. by rewrite bool_decide_eq_true_2.
    + split; [done|]. rewrite bool_decide_eq_false_2; [done|]. rewrite K2. tauto.
Qed.
Lemma cache_addresses_ok s : sign_ok s -> sign_ok (cache_addresses s).
Proof.
  intros Hs. unfold cache_addresses. destruct (available_address_sigs s) eqn:Ec; [done|].
  pose proof Hs as [K1 K2 K3 K4]. split; cbn; try done. rewrite K1.
  assert (Hin : forall l k, k ∈ in_order l <-> k ∈ l) by apply in_order_elem.
  split; [|eexists; split; [done|split]].
  - intros a k Hk. apply (address_sigs_spec _ a) in Hk as [? ?]. split; [by apply Hin|done].
  - intros a k Hk. apply (address_sigs_spec _ a) in Hk as [Hk ?]. split; [|done]. apply K2. left. by apply Hin.
  - intros a k [Hd|Ha]%K2 Hk; [right|left]; eapply (address_sigs_spec _ a); try exact Hk; by apply Hin.
Qed.
(** A lookup of an address answers, or has no defined result. *)
Lemma signed_by_address_spec s a b s' :
  sign_ok s -> signed_by_address a s = Ok (b, s') -> sign_ok s' /\ b = true /\ signs_address a = true.
Proof.
  intros Hs%cache_addresses_ok E. unfold signed_by_address in E. do 4 run_ok1. subst.
  assert (Hc : is_Some (available_address_sigs (cache_addresses s))).
  { unfold cache_addresses. by destruct (available_address_sigs s) eqn:Ec; cbn; rewrite ?Ec. }
  set (t := cache_addresses s) in *. pose proof Hs as [K1 K2 K3 K4]. destruct Hc as [m Em]. rewrite Em in *.
  destruct K4 as (Hm & m' & Em' & Hm' & _). rewrite Em' in E. cbn in E.
  assert (Ht : forall k, k ∈ keys -> a ∈ addresses_of k -> signs_address a = true).
  { intros k Hk Ha. apply signs_address_spec. by exists k. }
  destruct (m' !! a) as [k|] eqn:Ek; [|destruct (m !! a) as [k|] eqn:Ek'].
  - repeat run_ok1. subst. destruct (Hm' _ _ Ek). split_and!; [by apply mark_used_ok|done|by eapply Ht].
  - rewrite K1 in E. destruct (Hm _ _ Ek'). case_bool_decide; [|done]. repeat run_ok1. subst.
    assert (k ∈ keys) by (apply K2; by right). split_and!; [by apply mark_used_ok|done|by eapply Ht].
  - by run_ok1.
Qed.

(** The loops add the weights that count. *)
Lemma add_signed_spec signed p t l w s r s' :
  (forall s k b s', sign_ok s -> signed k s = Ok (b, s') -> sign_ok s' /\ b = p k) ->
  weights_ok l -> 0 <= w -> w + weights l < 2 ^ 32 -> sign_ok s -> add_signed signed t l w s = Ok (r, s') ->
  sign_ok s' /\ match r with None => t <= w + weight_by p l | Some w' => w' = w + weight_by p l end.
Proof.
  intros Hsg Hl. revert w s. induction Hl as [|[k x] l Hx Hl IH]; intros w s Hw Hb Hs; cbn [add_signed]; intros E.
  - run_ok1. subst. split; [done|]. cbn. lia.
  - rewrite weights_cons in Hb. rewrite weight_by_cons. cbn in Hx. run_ok1.
    apply Hsg in Hrun as [Hs1 ->]; [|done]. pose proof (weight_by_bounds p l Hl). destruct (p k).
    + rewrite wrap_id in E by lia. destruct (Z.leb_spec t (w + x)).
      * run_ok1. subst. split; [done|]. lia.
      * apply IH in E as [? E]; [|lia..|done]. split; [done|]. destruct r; lia.
    + apply IH in E as [? E]; [|lia..|done]. split; [done|]. destruct r; lia.
Qed.

Definition sound (r : option Z) (t w : Z) (l : list (Z * Z)) : Prop :=
  exists d, match r with None => t <= w + weight_by (approves d) l | Some w' => w' <= w + weight_by (approves d) l end.
Definition complete (left : nat) (r : option Z) (w : Z) (l : list (Z * Z)) : Prop :=
  match r with None => True | Some w' => w + weight_by (approves left) l <= w' end.
Definition checks (left : nat) (check : option authority -> M sign_state bool) : Prop :=
  forall s au b s', sign_ok s -> (forall a, au = Some a -> auth_ok a) -> check au s = Ok (b, s') ->
    sign_ok s' /\ (b = true -> exists a d, au = Some a /\ satisfied d a = true)
    /\ (forall a, au = Some a -> satisfied left a = true -> b = true).
Lemma approve_ok s a : (exists d, approves d a = true) -> sign_ok s -> sign_ok (set_approved ({[a]} ∪ approved_by s) s).
Proof.
  intros Ha [K1 K2 K3 K4]. split; cbn; try done. intros a'. split; [set_solver|].
  intros [->%elem_of_singleton|?]%elem_of_union; [done|by apply K3].
Qed.
Lemma add_approved_spec left check t l w s r s' :
  (match check with None => left = O | Some c => exists n, left = S n /\ checks n c end) ->
  weights_ok l -> 0 <= w -> w + weights l < 2 ^ 32 -> sign_ok s ->
  add_approved get_active check t l w s = Ok (r, s') ->
  sign_ok s' /\ sound r t w l /\ complete left r w l.
Proof.
  intros Hck Hl. revert w s. induction Hl as [|[a x] l Hx Hl IH]; intros w s Hw Hb Hs; cbn [add_approved]; intros E.
  - run_ok1. subst. split_and!; [done|exists O; cbn; lia|cbn; lia].
  - rewrite weights_cons in Hb. cbn in Hx. run_ok1. run_ok1.
    (* the two ways on *)
    assert (Hskip : forall s1, sign_ok s1 -> add_approved get_active check t l w s1 = Ok (r, s') ->
      (approves left a = false) -> sign_ok s' /\ sound r t w ((a, x) :: l) /\ complete left r w ((a, x) :: l)).
    { intros s1 Hs1 E1 Hn. apply IH in E1 as (K1 & [d Hd] & K3); [|lia..|done]. split_and!; [done| |].
      - exists d. rewrite weight_by_cons. destruct r, (approves d a); lia.
      - unfold complete in *. rewrite weight_by_cons, Hn. destruct r; lia. }
    assert (Hreach : forall s1, sign_ok s1 -> (exists d, approves d a = true) ->
      (if t <=? wrap 32 (w + x) then mret None else add_approved get_active check t l (wrap 32 (w + x))) s1 = Ok (r, s') ->
      sign_ok s' /\ sound r t w ((a, x) :: l) /\ complete left r w ((a, x) :: l)).
    { intros s1 Hs1 [da Hda] E1. pose proof (weight_by_bounds (approves left) l Hl).
      rewrite wrap_id in E1 by lia. destruct (Z.leb_spec t (w + x)).
      - run_ok1. subst. split_and!; [done| |done]. exists da. rewrite weight_by_cons, Hda.
        pose proof (weight_by_bounds (approves da) l Hl). lia.
      - apply IH in E1 as (K1 & [d Hd] & K3); [|lia..|done]. split_and!; [done| |].
        + exists (Nat.max da d). rewrite weight_by_cons, (approves_le _ _ _ (Nat.le_max_l da d) Hda).
          pose proof (weight_by_mono (approves d) (approves (Nat.max da d)) l Hl
                        (fun a => approves_le _ _ a (Nat.le_max_r da d))). destruct r; lia.
        + unfold complete in *. rewrite weight_by_cons. destruct r; [|done]. destruct (approves left a); lia. }
    case_bool_decide as Ha; [apply (Hreach s); [done| |exact E]; by apply (ok_approved _ Hs)|].
    assert (Hna : a ∉ base) by (intros Hi; by apply Ha, (ok_approved _ Hs)).
    destruct check as [c|].
    + destruct Hck as (n & -> & Hc). do 2 run_ok1. run_ok1.
      match goal with Hr : c ?au ?t = Ok _, Hv : get_active a = Ok ?au |- _ =>
        apply Hc in Hr as (Hs1 & Hb1 & Hb2); [|done|intros b ->; by eapply get_active_ok] end.
      destruct a1.
      * run_ok1. run_ok1. subst. destruct (Hb1 eq_refl) as (b & d & -> & Hd).
        assert (Hap : approves (S d) a = true).
        { unfold Authority.approves. rewrite orb_true_iff. right. by rewrite Hval. }
        apply (Hreach _ (approve_ok _ _ (ex_intro _ _ Hap) Hs1)); [by exists (S d)|exact E].
      * apply (Hskip _ Hs1 E). unfold Authority.approves. rewrite bool_decide_eq_false_2 by done. cbn.
        rewrite Hval. destruct a0 as [b|]; [|done]. apply not_true_is_false. intros Hsat.
        by specialize (Hb2 _ eq_refl Hsat).
    + subst left. apply (Hskip _ Hs E). unfold Authority.approves. by rewrite bool_decide_eq_false_2.
Qed.

(** The decision of [sign_state] is right: it accepts only what is satisfied at
    some depth, and everything satisfied within the maximal depth. *)
Lemma check_authority_spec left : checks left (check_authority left).
Proof.
  induction left as [left IH] using (well_founded_induction lt_wf). intros s au b s' Hs Hau E.
  destruct au as [au|]; [|destruct left; cbn in E; run_ok1; subst; split_and!; naive_solver].
  destruct (Hau _ eq_refl) as (Hk & Ha & Hc & Hlt).
  pose proof (weight_by_bounds signs _ Hk). pose proof (weight_by_bounds signs_address _ Ha).
  pose proof (weight_by_bounds (fun _ => false) _ Hc).
  assert (Hsat : forall d, satisfied d au = (weight_threshold au <=? weight_by signs (key_auths au)
    + weight_by signs_address (address_auths au) + weight_by (approves d) (account_auths au)))
    by (intros d; apply satisfied_unfold).
  assert (Hbody : exists check, (match check with None => left = O | Some c => exists n, left = S n /\ checks n c end)
    /\ (r ← add_signed signed_by_key (weight_threshold au) (key_auths au) 0;
        match r with
        | None => mret true
        | Some w =>
            r ← add_signed signed_by_address (weight_threshold au) (address_auths au) w;
            match r with
            | None => mret true
            | Some w =>
                r ← add_approved get_active check (weight_threshold au) (account_auths au) w;
                match r with None => mret true | Some w => mret (weight_threshold au <=? w) end
            end
        end) s = Ok (b, s')).
  { destruct left as [|n]; [exists None|exists (Some (check_authority n))]; (split; [|exact E]); [done|].
    exists n. split; [done|]. apply IH. lia. }
  clear E. destruct Hbody as (check & Hck & E). run_ok1.
  apply (add_signed_spec _ signs) in Hrun as [Hs1 Hr1]; [|apply signed_by_key_spec|done|lia..|done].
  assert (Hdone : forall t, sign_ok t -> weight_threshold au <= weight_by signs (key_auths au)
      + weight_by signs_address (address_auths au) ->
    sign_ok t /\ (true = true -> exists a d, Some au = Some a /\ satisfied d a = true)
    /\ (forall a, Some au = Some a -> satisfied left a = true -> true = true)).
  { intros t Ht Hle. split_and!; [done| |done]. intros _. exists au, O. split; [done|]. rewrite Hsat, Z.leb_le.
    pose proof (weight_by_bounds (approves 0) _ Hc). lia. }
  destruct a as [w|]; [|run_ok1; subst; apply Hdone; [done|lia]]. subst w. run_ok1.
  apply (add_signed_spec _ signs_address) in Hrun as [Hs2 Hr2]; [| |done|lia..|done];
    [|intros t k b' t' Ht Ek; apply signed_by_address_spec in Ek as (? & -> & ->); done].
  destruct a as [w|]; [|run_ok1; subst; apply Hdone; [done|lia]]. subst w. run_ok1.
  apply (add_approved_spec left) in Hrun as (Hs3 & [d Hd] & Hcmp); [|done|done|lia..|done].
  destruct a as [w|]; run_ok1; subst.
  - split_and!; [done| |].
    + intros Hle%Z.leb_le. exists au, d. split; [done|]. rewrite Hsat, Z.leb_le. lia.
    + intros a [= <-]. rewrite Hsat, !Z.leb_le. unfold complete in Hcmp. lia.
  - split_and!; [done| |done]. intros _. exists au, d. split; [done|]. rewrite Hsat, Z.leb_le. lia.
Qed.

(** Without addresses, and with every account found that can be reached from
    the ones asked for, nothing throws. *)
Variable known : gset Z.
Definition plain (au : option authority) : Prop :=
  forall a, au = Some a -> address_auths a = [] /\ Forall (fun x => x.1 ∈ known) (account_auths a).
Hypothesis get_active_plain : forall id, id ∈ known -> exists au, get_active id = Ok au /\ plain au.
Lemma signed_by_key_runs k s : exists b s', signed_by_key k s = Ok (b, s').
Proof. unfold signed_by_key. run_cbn. repeat case_match; eauto. Qed.
Lemma add_signed_runs t l w s : exists r s', add_signed signed_by_key t l w s = Ok (r, s').
Proof.
  revert w s. induction l as [|[k x] l IH]; intros w s; cbn [add_signed]; [by do 2 eexists|].
  destruct (signed_by_key_runs k s) as (b & s1 & E). unfold mbind, M_bind. rewrite E.
  destruct b; [|apply IH]. case_match; [by do 2 eexists|apply IH].
Qed.
Lemma add_approved_runs check t l w s :
  (match check with None => True | Some c => forall au s, plain au -> exists b s', c au s = Ok (b, s') end) ->
  Forall (fun x => x.1 ∈ known) l ->
  exists r s', add_approved get_active check t l w s = Ok (r, s').
Proof.
  intros Hc Hl. revert w s. induction Hl as [|[a x] l Ha Hl IH]; intros w s; cbn [add_approved]; [by do 2 eexists|].
  assert (Hreach : forall s, exists r s',
    (if t <=? wrap 32 (w + x) then mret None else add_approved get_active check t l (wrap 32 (w + x))) s = Ok (r, s')).
  { intros t1. destruct (t <=? wrap 32 (w + x)); [by exists None, t1|apply IH]. }
  unfold mbind, M_bind, get_state. case_bool_decide; [apply Hreach|]. destruct check as [c|]; [|apply IH].
  destruct (get_active_plain a Ha) as (au & -> & Hp). cbn. destruct (Hc au s Hp) as (b & s1 & ->).
  destruct b; [|apply IH]. cbn. apply Hreach.
Qed.
Lemma check_authority_runs left au s : plain au -> exists b s', check_authority left au s = Ok (b, s').
Proof.
  revert au s. induction left as [left IH] using (well_founded_induction lt_wf). intros au s Hp.
  destruct au as [au|]; [|destruct left; by do 2 eexists].
  assert (Hbody : exists check,
    (match check with None => True | Some c => forall au s, plain au -> exists b s', c au s = Ok (b, s') end)
    /\ check_authority left (Some au) = (r ← add_signed signed_by_key (weight_threshold au) (key_auths au) 0;
        match r with
        | None => mret true
        | Some w =>
            r ← add_signed signed_by_address (weight_threshold au) (address_auths au) w;
            match r with
            | None => mret true
            | Some w =>
                r ← add_approved get_active check (weight_threshold au) (account_auths au) w;
                match r with None => mret true | Some w => mret (weight_threshold au <=? w) end
            end
        end)).
  { destruct left as [|n]; [exists None|exists (Some (check_authority n))]; (split; [|done]); [done|].
    intros b t Hb. apply IH; [lia|done]. }
  destruct Hbody as (check & Hck & ->). destruct (Hp _ eq_refl) as [Hno Hin]. rewrite Hno. cbn [add_signed]. unfold mbind, M_bind.
  destruct (add_signed_runs (weight_threshold au) (key_auths au) 0 s) as (r & s1 & ->).
  destruct r as [w|]; [|by do 2 eexists]. cbn.
  destruct (add_approved_runs check (weight_threshold au) (account_auths au) w s1 Hck Hin) as (r & s2 & ->).
  destruct r; by do 2 eexists.
Qed.
End Facts.

(** ** [verify_authority] *)
Lemma for_each_inv {S A} (P : S -> Prop) (Q : A -> Prop) (f : A -> M S unit) l s u s' :
  (forall x s v s', x ∈ l -> P s -> f x s = Ok (v, s') -> P s' /\ Q x) ->
  P s -> for_each l f s = Ok (u, s') -> P s' /\ (forall x, x ∈ l -> Q x).
Proof.
  revert s. induction l as [|x l IH]; intros s Hf Hs; cbn; intros E.
  - run_ok1. subst. split; [done|]. by intros x ?%not_elem_of_nil.
  - run_ok1. apply Hf in Hrun as [Hs1 Hx]; [|by left|done].
    apply IH in E as [? Hl]; [|intros; eapply Hf; [by right|done..]|done]. split; [done|].
    by intros y [->|Hy]%elem_of_cons; auto.
Qed.
Lemma for_each_runs {S A} (P : S -> Prop) (f : A -> M S unit) l s :
  (forall x s, x ∈ l -> P s -> exists s', f x s = Ok (tt, s') /\ P s') ->
  P s -> exists s', for_each l f s = Ok (tt, s') /\ P s'.
Proof.
  revert s. induction l as [|x l IH]; intros s Hf Hs; cbn; [by exists s|].
  destruct (Hf x s) as (s1 & E & Hs1); [by left|done|]. unfold mbind, M_bind. rewrite E.
  apply IH; [|done]. intros; apply Hf; [by right|done].
Qed.

Section Verify.
Context `{IndexLaws, AddressOps}.
Variables get_active get_owner : Z -> result (option authority).
Hypothesis active_ok : auths_ok get_active.
Hypothesis owner_ok : auths_ok get_owner.
Variables (sigs active_approvals owner_approvals : gset Z).
(** The accounts that approve without a signature. *)
Definition approvers : gset Z := {[GRAPHENE_TEMP_ACCOUNT]} ∪ active_approvals ∪ owner_approvals.
Definition satisfied_at (d : nat) (au : authority) : Prop := satisfied get_active sigs approvers d au = true.
Definition owner_satisfied_at (d : nat) (id : Z) : Prop :=
  exists au, get_owner id = Ok (Some au) /\ satisfied_at d au.
(** Its active authority, counting itself as an approver, or its owner authority. *)
Definition active_satisfied_at (d : nat) (id : Z) : Prop :=
  approves get_active sigs approvers (S d) id = true \/ owner_satisfied_at d id.

Definition verify_ok : sign_state -> Prop := sign_ok get_active sigs ∅ approvers.
Lemma initial_ok :
  verify_ok (set_approved (approved_by (new_sign_state sigs ∅) ∪ active_approvals ∪ owner_approvals)
               (new_sign_state sigs ∅)).
Proof.
  split; cbn; try done.
  - intros k. rewrite elem_of_dom. split.
    + intros Hk. left. exists false. apply lookup_set_to_map; [done|]. by exists k.
    + intros [[b Hk]|?]; [|set_solver]. apply lookup_set_to_map in Hk as (k' & Hk & [= -> _]); done.
  - intros a. split; [done|]. intros Ha. exists O. unfold approves. rewrite orb_true_iff. left.
    by apply bool_decide_eq_true.
Qed.
Lemma check_owner_authority s id au max b s' :
  verify_ok s -> get_owner id = Ok au -> check_authority get_active max au s = Ok (b, s') ->
  verify_ok s' /\ (b = true -> exists d, owner_satisfied_at d id)
  /\ (owner_satisfied_at max id -> b = true).
Proof.
  intros Hs Eg E. destruct (check_authority_spec get_active active_ok sigs ∅ approvers max s au b s')
    as (Hs' & H2 & H3); [done|intros a ->; by eapply owner_ok|done|]. split_and!; [done| |].
  - intros (a & d & -> & Hd)%H2. exists d, a. done.
  - intros (a & Eg' & Hd). rewrite Eg in Eg'. injection Eg' as ->. by eapply H3.
Qed.
Lemma check_account_spec s id max b s' :
  verify_ok s -> check_account get_active max id s = Ok (b, s') ->
  verify_ok s' /\ (b = true -> exists d, approves get_active sigs approvers (S d) id = true)
  /\ (approves get_active sigs approvers (S max) id = true -> b = true).
Proof.
  intros Hs E. unfold check_account in E. run_ok1. run_ok1. case_bool_decide as Ha.
  - run_ok1. subst. split_and!; [done| |done]. intros _.
    apply (ok_approved _ _ _ _ _ Hs) in Ha as [d Hd]. exists d.
    eapply approves_le; [exact active_ok| |exact Hd]; lia.
  - run_ok1. run_ok1. destruct (check_authority_spec get_active active_ok sigs ∅ approvers max s a b s')
      as (Hs' & H2 & H3); [done|intros au ->; by eapply active_ok|done|]. split_and!; [done| |].
    + intros (au & d & -> & Hd)%H2. exists d. unfold approves. rewrite orb_true_iff. right. by rewrite Hval.
    + unfold approves. rewrite orb_true_iff, bool_decide_eq_true, Hval. intros [Hb|Hd].
      * by apply (ok_approved _ _ _ _ _ Hs) in Hb.
      * destruct a as [au|]; [|done]. by eapply H3.
Qed.

Lemma check_other_Ok max au s u s' :
  auth_ok au -> verify_ok s -> check_other get_active max au s = Ok (u, s') ->
  verify_ok s' /\ exists d, satisfied_at d au.
Proof.
  intros Hau Hs E. unfold check_other in E. run_ok1. run_ok1.
  match goal with Hc : check_authority _ _ _ s = Ok (?b, ?t) |- _ =>
    destruct (check_authority_spec get_active active_ok sigs ∅ approvers max s (Some au) b t)
      as (Hs' & Hb & _); [done|by intros ? [= <-]|done|] end. subst a. split; [done|].
  destruct (Hb eq_refl) as (? & d & [= <-] & Hd). by exists d.
Qed.
Lemma check_active_Ok max id s u s' :
  verify_ok s -> check_active get_active get_owner max id s = Ok (u, s') ->
  verify_ok s' /\ exists d, active_satisfied_at d id.
Proof.
  intros Hs E. unfold check_active in E. run_ok1. apply check_account_spec in Hrun as (Hs1 & Hb & _); [|done].
  destruct a.
  - run_ok1. subst. split; [done|]. destruct (Hb eq_refl) as [d Hd]. exists d. by left.
  - do 4 run_ok1. match goal with Hc : check_authority _ _ _ _ = Ok _, Hv : get_owner _ = _ |- _ =>
      destruct (check_owner_authority _ _ _ _ _ _ Hs1 Hv Hc) as (? & Hb' & _) end.
    split; [done|]. destruct (Hb' Hreq) as [d Hd]. exists d. by right.
Qed.
Lemma check_owner_Ok max id s u s' :
  verify_ok s -> check_owner get_active get_owner owner_approvals max id s = Ok (u, s') ->
  verify_ok s' /\ (id ∈ owner_approvals \/ exists d, owner_satisfied_at d id).
Proof.
  intros Hs E. unfold check_owner in E. case_bool_decide; [run_ok1; subst; split; [done|by left]|].
  do 4 run_ok1. match goal with Hc : check_authority _ _ _ _ = Ok _, Hv : get_owner _ = _ |- _ =>
    destruct (check_owner_authority _ _ _ _ _ _ Hs Hv Hc) as (? & Hb' & _) end.
  split; [done|right; auto].
Qed.

Lemma verify_required_sound required_active required_owner other max allow_committee :
  Forall auth_ok other ->
  verify_required get_active get_owner required_active required_owner other sigs max allow_committee
    active_approvals owner_approvals = Ok tt ->
  (allow_committee = true \/ GRAPHENE_COMMITTEE_ID ∉ required_active)
  /\ (forall au, au ∈ other -> exists d, satisfied_at d au)
  /\ (forall id, id ∈ required_active -> exists d, active_satisfied_at d id)
  /\ (forall id, id ∈ required_owner -> id ∈ owner_approvals \/ exists d, owner_satisfied_at d id).
Proof.
  intros Hother E. unfold verify_required in E. run_ok1.
  split; [destruct allow_committee; [by left|right]; run_ok1; by rewrite negb_true_iff, bool_decide_eq_false in Hrun|].
  match type of E with match ?r ?s with _ => _ end = _ =>
    destruct (r s) as [[u s']|[? ?]] eqn:Er; [|done]; pose proof initial_ok as Hi; set (s0 := s) in * end.
  clear E Hrun. rewrite Forall_forall in Hother.
  apply M_bind_Ok in Er as (? & s1 & Eo & Er). apply M_bind_Ok in Er as (? & s2 & Ea & Er).
  apply M_bind_Ok in Er as (? & s3 & Eow & Er).
  apply (for_each_inv verify_ok (fun au => exists d, satisfied_at d au)) in Eo as [Hs1 H2]; [| |done];
    [|intros; eapply check_other_Ok; eauto].
  apply (for_each_inv verify_ok (fun id => exists d, active_satisfied_at d id)) in Ea as [Hs2 H3]; [| |done];
    [|intros; by eapply check_active_Ok].
  apply (for_each_inv verify_ok (fun id => id ∈ owner_approvals \/ exists d, owner_satisfied_at d id)) in Eow
    as [Hs3 H4]; [| |done]; [|intros; by eapply check_owner_Ok].
  split_and!; [done| |]; intros id Hid; [apply H3|apply H4]; by apply in_order_elem.
Qed.

(** Every known account is found, and its authority has no addresses and names
    known accounts only. *)
Definition found_plain (known : gset Z) (get : Z -> result (option authority)) : Prop :=
  forall id, id ∈ known -> exists au, get id = Ok au /\ plain known au.
Definition unnecessary : string := "Unnecessary signature(s) detected".
(** C38: whoever has the required authorities is let through.  Let some accounts be
    in the database, none with an address in an authority, and none with another
    account in an authority than these; let the accounts required be among them,
    and the accounts named by the other authorities required.  When then every
    required authority is satisfied within the depth the check explores (and the
    committee is not required, or allowed), the check passes, or the transaction
    carries a signature it did not need. *)
Theorem verify_required_complete known required_active required_owner other max allow_committee :
  found_plain known get_active -> found_plain known get_owner ->
  required_active ∪ required_owner ⊆ known -> Forall (fun au => auth_ok au /\ plain known (Some au)) other ->
  (allow_committee = true \/ GRAPHENE_COMMITTEE_ID ∉ required_active) ->
  (forall au, au ∈ other -> satisfied_at max au) ->
  (forall id, id ∈ required_active -> active_satisfied_at max id) ->
  (forall id, id ∈ required_owner -> id ∈ owner_approvals \/ owner_satisfied_at max id) ->
  verify_required get_active get_owner required_active required_owner other sigs max allow_committee
    active_approvals owner_approvals ∈ [Ok tt; Throw unnecessary].
Proof.
  intros Hpa Hpo Hkn Hother Hc H2 H3 H4. unfold verify_required.
  assert ((if allow_committee then Ok tt
           else fc_assert (negb (bool_decide (GRAPHENE_COMMITTEE_ID ∈ required_active)))
                  "Committee account may only propose transactions") = Ok tt) as ->.
  { destruct allow_committee; [done|]. destruct Hc; [done|]. by rewrite bool_decide_eq_false_2. }
  cbn [mbind result_bind].
  match goal with |- match ?r ?s with _ => _ end ∈ _ => pose proof initial_ok as Hi; set (s0 := s) in * end.
  unfold mbind, M_bind. rewrite Forall_forall in Hother.
  destruct (for_each_runs verify_ok (check_other get_active max) other s0) as (s1 & -> & Hs1); [|done|].
  { intros au s Hin Hs. unfold check_other. destruct (Hother _ Hin) as [Hok Hpl].
    destruct (check_authority_runs get_active known Hpa max (Some au) s) as (b & s' & E); [done|].
    run_cbn. rewrite E.
    destruct (check_authority_spec get_active active_ok sigs ∅ approvers max s (Some au) b s')
      as (Hs' & _ & Hb); [done|by intros a [= <-]|done|].
    rewrite (Hb au eq_refl); [by exists s'|]. by apply H2. }
  destruct (for_each_runs verify_ok (check_active get_active get_owner max) (in_order required_active) s1)
    as (s2 & -> & Hs2); [|done|].
  { intros id s Hin%in_order_elem Hs. unfold check_active.
    destruct (Hpa id) as (au & Ea & Hpl); [set_solver|]. destruct (Hpo id) as (ao & Eo & Hplo); [set_solver|].
    assert (exists b s', check_account get_active max id s = Ok (b, s')) as (b & s' & E).
    { unfold check_account. run_cbn. case_bool_decide; [by do 2 eexists|]. rewrite Ea. by apply (check_authority_runs get_active known Hpa). }
    run_cbn. rewrite E. apply check_account_spec in E as (Hs' & _ & Hb); [|done].
    destruct b; [by exists s'|]. rewrite Eo.
    destruct (check_authority_runs get_active known Hpa max ao s') as (b & s'' & E); [done|]. rewrite E.
    destruct (check_owner_authority _ _ _ _ _ _ Hs' Eo E) as (Hs'' & _ & Hb').
    destruct (H3 id Hin) as [Ha|Ho]; [by specialize (Hb Ha)|]. rewrite (Hb' Ho). by exists s''. }
  destruct (for_each_runs verify_ok (check_owner get_active get_owner owner_approvals max) (in_order required_owner) s2)
    as (s3 & -> & Hs3); [|done|].
  { intros id s Hin%in_order_elem Hs. unfold check_owner. case_bool_decide as Hid; [by exists s|].
    destruct (Hpo id) as (ao & Eo & Hplo); [set_solver|]. run_cbn. rewrite Eo.
    destruct (check_authority_runs get_active known Hpa max ao s) as (b & s'' & E); [done|]. rewrite E.
    destruct (check_owner_authority _ _ _ _ _ _ Hs Eo E) as (Hs'' & _ & Hb').
    destruct (H4 id Hin) as [Ha|Ho]; [done|]. rewrite (Hb' Ho). by exists s''. }
  unfold remove_unused_signatures. run_cbn. case_bool_decide; cbn; set_solver.
Qed.
End Verify.

(** ** A concrete check: account 8 acts through account 7, which two of three
    keys satisfy.  No other accounts are there. *)
Import Ref.
Definition sample_actives : gmap Z authority :=
  {[7 := mk_authority 2 [] [(101, 1); (102, 1); (103, 1)] []; 8 := mk_authority 1 [(7, 1)] [] []]}.
Definition sample_owners : gmap Z authority :=
  {[7 := mk_authority 1 [] [(207, 1)] []; 8 := mk_authority 1 [] [(208, 1)] []]}.
Definition authority_in (m : gmap Z authority) (id : Z) : result (option authority) :=
  a ← of_option (m !! id) "Unable to find Object"; Ok (Some a).
#[local] Instance sample_addresses : AddressOps :=
  { pts_address k c v := 1000 * k + 10 * v + (if c then 1 else 0); address k := 1000 * k + 999 }.
Definition sample_ok (known : gset Z) (m : gmap Z authority) : Prop :=
  map_Forall (fun _ a => auth_ok a /\ plain known (Some a)) m.
Lemma sample_found m : sample_ok (dom m) m -> auths_ok (authority_in m) /\ found_plain (dom m) (authority_in m).
Proof.
  intros Hm. unfold authority_in. split.
  - intros i au E. destruct (m !! i) eqn:Ei; [|done]. injection E as <-. exact (proj1 (Hm _ _ Ei)).
  - intros i [a Ea]%elem_of_dom. exists (Some a). rewrite Ea. split; [done|exact (proj2 (Hm _ _ Ea))].
Qed.
Lemma two_ok (known : gset Z) (m n : authority) :
  auth_ok m -> plain known (Some m) -> auth_ok n -> plain known (Some n) -> sample_ok known {[7 := m; 8 := n]}.
Proof. intros ???? id a [[_ <-]|[_ [_ <-]%lookup_singleton_Some]]%lookup_insert_Some; by split. Qed.
Lemma samples_ok : sample_ok (dom sample_actives) sample_actives /\ sample_ok (dom sample_owners) sample_owners.
Proof.
  assert (Hp : forall known a, address_auths a = [] -> Forall (fun x => x.1 ∈ known) (account_auths a) -> plain known (Some a))
    by (intros known a ?? ? [= <-]; done).
  split; apply two_ok; unfold auth_ok, weights_ok; try by_decide; (apply Hp; [reflexivity|by_decide]).
Qed.
Lemma verify_required_complete_witness :
  verify_required (authority_in sample_actives) (authority_in sample_owners) {[8]} ∅ [] {[101; 103]} 2 false ∅ ∅
    ∈ [Ok tt; Throw unnecessary].
Proof.
  destruct (sample_found _ (proj1 samples_ok)) as [Ha Hfa]. destruct (sample_found _ (proj2 samples_ok)) as [Ho Hfo].
  refine (verify_required_complete _ _ Ha Ho {[101; 103]} ∅ ∅ (dom sample_actives) {[8]} ∅ [] 2 false Hfa Hfo _ _ _ _ _ _).
  - set_solver.
  - constructor.
  - right. by_decide.
  - by intros au ?%not_elem_of_nil.
  - intros id ->%elem_of_singleton. left. vm_compute. reflexivity.
  - by intros id ?%not_elem_of_empty.
Defined.
End Authority.
