(* ===== verification/Float.v ===== *)
(** * Floating point ([float], [double] and what the code does with them)

    Binary64 and binary32 numbers with rounding to nearest, as the specification
    floats of the Standard Library: arithmetic, comparison, the conversions from
    and to integers and the extraction of a decimal from a stream.  A conversion
    to an integer type that cannot hold the value has no defined result.
    [pow] of the mathematical library is a parameter. *)
From Stdlib Require Import ZArith Lia String Ascii SpecFloat.
From stdpp Require Import base list strings sorting.
From S2P Require Import Prelude External.

Module Float.

Definition double : Type := spec_float.
Definition float32 : Type := spec_float.
#[export] Instance spec_float_eq_dec : EqDecision spec_float.
Proof. solve_decision. Defined.

(** ** [double] *)
Definition dadd : double -> double -> double := SFadd 53 1024.
Definition dsub : double -> double -> double := SFsub 53 1024.
Definition dmul : double -> double -> double := SFmul 53 1024.
Definition ddiv : double -> double -> double := SFdiv 53 1024.
Definition double_of_Z (n : Z) : double := binary_normalize 53 1024 n 0 false.
(** [a < b], [a <= b] and [a == b]; none holds of a NaN. *)
Definition dlt : double -> double -> bool := SFltb.
Definition dle : double -> double -> bool := SFleb.
Definition deq : double -> double -> bool := SFeqb.
Definition dzero : double := S754_zero false.

(** The decimal [n / 10 ^ k], correctly rounded: the division of the reference
    takes mantissas of any size. *)
Definition decimal (n : Z) (k : nat) : double :=
  let d := S754_finite false (Z.to_pos (10 ^ Z.of_nat k)) 0 in
  match n with
  | Z0 => S754_zero false
  | Zpos m => SFdiv 53 1024 (S754_finite false m 0) d
  | Zneg m => SFdiv 53 1024 (S754_finite true m 0) d
  end.
(** [stream >> r] on the texts of amounts: a sign, digits and a fraction. *)
Fixpoint read_fraction (s : string) (acc : Z) (k : nat) : Z * nat :=
  match s with
  | EmptyString => (acc, k)
  | String c s' => match digit c with Some d => read_fraction s' (10 * acc + d) (S k) | None => (acc, k) end
  end.
Fixpoint read_digits (s : string) (acc : Z) : Z * nat :=
  match s with
  | EmptyString => (acc, O)
  | String c s' =>
      match digit c with
      | Some d => read_digits s' (10 * acc + d)
      | None => if Ascii.eqb c "." then read_fraction s' acc O else (acc, O)
      end
  end.
Definition read_double (s : string) : double :=
  match s with
  | String c s' =>
      if Ascii.eqb c "-" then
        let (n, k) := read_digits s' 0 in if n =? 0 then S754_zero true else decimal (- n) k
      else let (n, k) := read_digits s 0 in decimal n k
  | EmptyString => dzero
  end.

(** The conversion to [int64_t]: towards zero. *)
Definition undefined_conversion : string := "undefined: conversion out of the range of the integer type".
Definition int64_of (d : double) : result Z :=
  match d with
  | S754_zero _ => Ok 0
  | S754_finite s m e =>
      let n := Z.shiftl (Zpos m) e in
      let z := if s then - n else n in
      if bool_decide (in_int64 z) then Ok z else Throw undefined_conversion
  | _ => Throw undefined_conversion
  end.

(** ** [float] *)
(** The conversions between the two formats. *)
Definition float_of (d : double) : float32 :=
  match d with
  | S754_finite s m e => binary_normalize 24 128 (if s then Zneg m else Zpos m) e s
  | _ => d
  end.
Definition double_of (f : float32) : double :=
  match f with
  | S754_finite s m e => binary_normalize 53 1024 (if s then Zneg m else Zpos m) e s
  | _ => f
  end.
Definition fadd : float32 -> float32 -> float32 := SFadd 24 128.
Definition fle : float32 -> float32 -> bool := SFleb.

(** ** The mathematical library *)
Class MathOps : Type := pow : double -> double -> double.

Lemma int64_of_Ok d n : int64_of d = Ok n -> in_int64 n.
Proof.
  unfold int64_of. destruct d as [s|s| |s m e]; try discriminate; [by intros [= <-]|].
  case_bool_decide; [by intros [= <-]|done].
Qed.

(** [std::sort] of numbers that compare. *)
Definition below (x y : double) : Prop := dle x y = true.
Fixpoint insert_double (x : double) (l : list double) : list double :=
  match l with [] => [x] | y :: l' => if dle x y then x :: l else y :: insert_double x l' end.
Definition std_sort : list double -> list double := foldr insert_double [].

(** Numbers above zero. *)
Definition above_zero (x : double) : Prop := dlt dzero x = true.
Lemma above_zero_inv x : above_zero x -> x = S754_infinity false \/ exists m e, x = S754_finite false m e.
Proof. unfold above_zero, dlt, SFltb. destruct x as [|[]| |[]]; cbn; try done; eauto. Qed.
(** Two of them compare by exponent and then by mantissa. *)
Lemma below_alt x y : above_zero x -> above_zero y ->
  below x y <->
  match x, y with
  | _, S754_infinity _ => True
  | S754_finite _ m e, S754_finite _ n f => e < f \/ (e = f /\ (m <= n)%positive)
  | _, _ => False
  end.
Proof.
  intros [->|(m & e & ->)]%above_zero_inv [->|(n & f & ->)]%above_zero_inv; unfold below, dle, SFleb; cbn; try done.
  destruct (Z.compare_spec e f) as [->|Hlt|Hgt]; [|by (split; [left|])|split; [done|lia]].
  change (Pos.compare_cont Eq m n) with (Pos.compare m n).
  destruct (Pos.compare_spec m n) as [->|Hlt|Hgt]; split; try done; try lia.
Qed.
Lemma below_total x y : above_zero x -> above_zero y -> below x y \/ below y x.
Proof.
  intros Hx Hy. rewrite !below_alt by done.
  destruct (above_zero_inv x Hx) as [->|(m & e & ->)], (above_zero_inv y Hy) as [->|(n & f & ->)]; lia || auto.
Qed.
Lemma below_trans x y z : above_zero x -> above_zero y -> above_zero z -> below x y -> below y z -> below x z.
Proof.
  intros Hx Hy Hz. rewrite !below_alt by done.
  destruct (above_zero_inv x Hx) as [->|(m & e & ->)], (above_zero_inv y Hy) as [->|(n & f & ->)],
    (above_zero_inv z Hz) as [->|(k & g & ->)]; lia || auto.
Qed.
Lemma insert_double_perm x l : insert_double x l ≡ₚ x :: l.
Proof. induction l as [|y l IH]; cbn; [done|]. destruct (dle x y); [done|]. rewrite IH. apply perm_swap. Qed.
Lemma std_sort_perm l : std_sort l ≡ₚ l.
Proof. induction l as [|x l IH]; cbn; [done|]. by rewrite insert_double_perm, IH. Qed.
Lemma std_sort_sorted l : Forall above_zero l -> StronglySorted below (std_sort l).
Proof.
  induction 1 as [|x l Hx Hl IH]; cbn; [constructor|].
  assert (Hs : Forall above_zero (std_sort l)) by (by rewrite std_sort_perm). clear Hl. revert Hs IH. generalize (std_sort l).
  induction l0 as [|y l0 IH]; cbn; intros Hs Hst; [by repeat constructor|].
  apply Forall_cons in Hs as [Hy Hs]. apply StronglySorted_inv in Hst as [Hst Hf]. rewrite Forall_forall in Hs, Hf.
  destruct (dle x y) eqn:E.
  - constructor; [constructor; [done|by rewrite Forall_forall]|]. constructor; [done|]. rewrite Forall_forall.
    intros z Hz. eapply (below_trans x y z); auto.
  - constructor; [apply IH; [by rewrite Forall_forall|done]|]. rewrite Forall_forall. intros z. rewrite insert_double_perm.
    intros [->|Hz]%elem_of_cons; [|auto]. destruct (below_total x y) as [Hb|Hb]; try done. unfold below in Hb. congruence.
Qed.
End Float.
