(* ===== verification/Protocol.v ===== *)
(** * Operations and transactions ([protocol/*.hpp])

    The operations with a modelled evaluator, as the records the transactions
    carry, their tagged union and the transaction.  A proposal carries
    operations of any kind in turn. *)
From Stdlib Require Import ZArith Lia String.
From stdpp Require Import base gmap sets list strings.
From S2P Require Import Prelude Asset Vesting Authority Float.

Module Protocol.
Import Asset Vesting Authority Float.

(** ** Options of an asset ([protocol/asset_ops.hpp]) *)
Record asset_options : Type := mk_asset_options {
  max_supply : Z;
  market_fee_percent : Z;
  max_market_fee : Z;
  issuer_permissions : Z;
  flags : Z;
  options_core_exchange_rate : price;
  whitelist_authorities : gset Z;
  blacklist_authorities : gset Z;
  whitelist_markets : gset Z;
  blacklist_markets : gset Z;
}.
Record bitasset_options : Type := mk_bitasset_options {
  feed_lifetime_sec : Z;
  minimum_feeds : Z;
  force_settlement_delay_sec : Z;
  force_settlement_offset_percent : Z;
  maximum_force_settlement_volume : Z;
  short_backing_asset : Z;
}.

(** ** Fees and parameters of the chain ([protocol/fee_schedule.hpp],
    [protocol/chain_parameters.hpp]) *)
(** [fee_parameters]: of the fields of [fee_parameters_type], an operation uses
    its own ([flat_fee] is [fee] or [basic_fee]); the schedule holds them by the
    tag of the operation. *)
Record fee_parameters : Type := mk_fee_parameters {
  flat_fee : Z;
  price_per_kbyte : Z;
  symbol3 : Z;
  symbol4 : Z;
  long_symbol : Z;
  premium_fee : Z;
  membership_annual_fee : Z;
  membership_lifetime_fee : Z;
}.
Record fee_schedule : Type := mk_fee_schedule {
  fee_table : gmap Z fee_parameters;
  scale : Z;
}.

(** The extensions of the parameters. *)
Record credit_options : Type := mk_credit_options {
  seconds_per_day : Z;
  max_credit_expiration_days : Z;
  min_witnesses_for_exchange_rate : Z;
  exchange_rate_set_max_interval : Z;
  exchange_rate_set_min_interval : Z;
}.
Record credit_referrer_bonus_options : Type := mk_bonus_options {
  karma_account_bonus : float32;
  creditor_referrer_bonus : float32;
  borrower_referrer_bonus : float32;
  fail_creditor_referrer_bonus : float32;
  fail_borrower_referrer_bonus : float32;
  special_account_name : string;
}.
Inductive parameter_extension : Type :=
| credit_extension (o : credit_options)
| bonus_extension (o : credit_referrer_bonus_options).
Record chain_parameters : Type := mk_parameters {
  block_interval : Z;
  maintenance_interval : Z;
  maintenance_skip_slots : Z;
  reserve_percent_of_fee : Z;
  cashback_vesting_period_seconds : Z;
  cashback_vesting_threshold : Z;
  witness_pay_per_block : Z;
  witness_pay_vesting_seconds : Z;
  maximum_asset_whitelist_authorities : Z;
  maximum_asset_feed_publishers : Z;
  maximum_time_until_expiration : Z;
  max_authority_depth : Z;
  current_fees : fee_schedule;
  maximum_block_size : Z;
  maximum_proposal_lifetime : Z;
  committee_proposal_review_period : Z;
  maximum_transaction_size : Z;
  maximum_witness_count : Z;
  maximum_committee_count : Z;
  maximum_authority_membership : Z;
  network_percent_of_fee : Z;
  lifetime_referrer_percent_of_fee : Z;
  count_non_member_votes : bool;
  allow_non_member_whitelists : bool;
  worker_budget_per_day : Z;
  max_predicate_opcode : Z;
  fee_liquidation_threshold : Z;
  accounts_per_fee_scale : Z;
  account_fee_scale_bitshifts : Z;
  extensions : list parameter_extension;
}.
(** [get_credit_options], [get_bonus_options]: the first of its kind, or the initial values. *)
Definition default_credit_options : credit_options := mk_credit_options 86400 7 7 3600 75.
Definition default_bonus_options : credit_referrer_bonus_options :=
  mk_bonus_options (float_of (decimal 5 1)) (float_of (decimal 1 1)) (float_of (decimal 1 1)) (float_of dzero) (float_of dzero)
    "ooo-karma-rus".
Fixpoint get_credit_options (l : list parameter_extension) : credit_options :=
  match l with
  | [] => default_credit_options
  | credit_extension o :: _ => o
  | _ :: l' => get_credit_options l'
  end.
Fixpoint get_bonus_options (l : list parameter_extension) : credit_referrer_bonus_options :=
  match l with
  | [] => default_bonus_options
  | bonus_extension o :: _ => o
  | _ :: l' => get_bonus_options l'
  end.
(** [set_credit_options], [set_bonus_options]: the extensions are ordered by their kind. *)
Fixpoint replace_credit_options (o : credit_options) (l : list parameter_extension) : option (list parameter_extension) :=
  match l with
  | [] => None
  | credit_extension _ :: l' => Some (credit_extension o :: l')
  | e :: l' => l'' ← replace_credit_options o l'; Some (e :: l'')
  end.
Definition set_credit_options (o : credit_options) (l : list parameter_extension) : list parameter_extension :=
  match replace_credit_options o l with Some l' => l' | None => credit_extension o :: l end.
Fixpoint replace_bonus_options (o : credit_referrer_bonus_options) (l : list parameter_extension)
  : option (list parameter_extension) :=
  match l with
  | [] => None
  | bonus_extension _ :: l' => Some (bonus_extension o :: l')
  | e :: l' => l'' ← replace_bonus_options o l'; Some (e :: l'')
  end.
Definition set_bonus_options (o : credit_referrer_bonus_options) (l : list parameter_extension) : list parameter_extension :=
  match replace_bonus_options o l with Some l' => l' | None => l ++ [bonus_extension o] end.

(** ** What an account says of itself ([protocol/account.hpp],
    [protocol/special_authority.hpp], [protocol/buyback.hpp]) *)
(** The votes of a [flat_set] are ordered by their instance, which no two share. *)
Record account_options : Type := mk_account_options {
  memo_key : Z;
  voting_account : Z;
  num_witness : Z;
  num_committee : Z;
  account_votes : list Z;        (* the field votes *)
}.
Inductive special_authority : Type :=
| no_special_authority
| top_holders_special_authority (asset num_top_holders : Z).
Record buyback_account_options : Type := mk_buyback_options {
  asset_to_buy : Z;
  asset_to_buy_issuer : Z;
  markets : gset Z;
}.
(** The texts of an account, and in an update those that change. *)
Record personal_info (text : Type) : Type := mk_personal {
  login : text; email : text; firstName : text; lastName : text; facebook : text; mobile : text; taxResidence : text;
}.
Record bank_account (text : Type) : Type := mk_bank {
  bankName : text; bankSwift : text; bankAccount : text; bankBenificiary : text;
}.
Record additional_info (text : Type) : Type := mk_additional {
  about : text; companyName : text; companyActivity : text; companyVat : text; companyWebsite : text;
  companyYoutube : text; companyPdf : text;
}.
Arguments mk_personal {text}.
Arguments mk_bank {text}.
Arguments mk_additional {text}.
Arguments login {text}. Arguments email {text}. Arguments firstName {text}. Arguments lastName {text}.
Arguments facebook {text}. Arguments mobile {text}. Arguments taxResidence {text}.
Arguments bankName {text}. Arguments bankSwift {text}. Arguments bankAccount {text}. Arguments bankBenificiary {text}.
Arguments about {text}. Arguments companyName {text}. Arguments companyActivity {text}. Arguments companyVat {text}.
Arguments companyWebsite {text}. Arguments companyYoutube {text}. Arguments companyPdf {text}.

(** ** Operations ([protocol/market.hpp]) *)
Record limit_order_create_operation : Type := mk_limit_create {
  lc_fee : asset;
  lc_seller : Z;
  amount_to_sell : asset;
  min_to_receive : asset;
  lc_expiration : Z;
  fill_or_kill : bool;
}.
Record limit_order_cancel_operation : Type := mk_limit_cancel {
  cancel_fee : asset;
  order : Z;
  fee_paying : Z;
}.
Record call_order_update_operation : Type := mk_call_update {
  cu_fee : asset;
  funding_account : Z;
  delta_collateral : asset;
  delta_debt : asset;
}.
Record bid_collateral_operation : Type := mk_bid_collateral {
  bc_fee : asset;
  bc_bidder : Z;
  additional_collateral : asset;
  debt_covered : asset;
}.

(** ** Transfers, vesting balances and permissions *)
Record transfer_operation : Type := mk_transfer {
  tr_fee : asset;
  from : Z;
  to : Z;
  tr_amount : asset;
}.
Record override_transfer_operation : Type := mk_override {
  ov_fee : asset;
  ov_issuer : Z;
  ov_from : Z;
  ov_to : Z;
  ov_amount : asset;
}.
Inductive vesting_policy_initializer : Type :=
| linear_vesting_policy_initializer (begin_timestamp vesting_cliff_seconds vesting_duration_seconds : Z)
| cdd_vesting_policy_initializer (start_claim vesting_seconds : Z).
Record vesting_balance_create_operation : Type := mk_vesting_create {
  vc_fee : asset;
  creator : Z;
  vc_owner : Z;
  vc_amount : asset;
  vc_policy : vesting_policy_initializer;
}.
Record vesting_balance_withdraw_operation : Type := mk_vesting_withdraw {
  vw_fee : asset;
  vesting_balance : Z;
  vw_owner : Z;
  vw_amount : asset;
}.
Record withdraw_permission_create_operation : Type := mk_permit_create {
  pc_fee : asset;
  pc_from : Z;
  pc_authorized : Z;
  pc_limit : asset;
  pc_period_sec : Z;
  pc_periods : Z;
  pc_start : Z;
}.
Record withdraw_permission_update_operation : Type := mk_permit_update {
  pu_fee : asset;
  pu_from : Z;
  pu_authorized : Z;
  permission_to_update : Z;
  pu_limit : asset;
  pu_period_sec : Z;
  pu_start : Z;
  pu_periods : Z;
}.
Record withdraw_permission_claim_operation : Type := mk_permit_claim {
  cl_fee : asset;
  withdraw_permission : Z;
  cl_from : Z;
  cl_to : Z;
  amount_to_withdraw : asset;
}.
Record withdraw_permission_delete_operation : Type := mk_permit_delete {
  pd_fee : asset;
  pd_from : Z;
  pd_authorized : Z;
  withdrawal_permission : Z;
}.

(** ** Assets ([protocol/asset_ops.hpp]) *)
Record asset_create_operation : Type := mk_asset_create {
  ac_fee : asset;
  ac_issuer : Z;
  ac_symbol : string;
  ac_precision : Z;
  common_options : asset_options;
  ac_bitasset_opts : option bitasset_options;
  ac_prediction_market : bool;
}.
Record asset_issue_operation : Type := mk_asset_issue {
  ai_fee : asset;
  ai_issuer : Z;
  asset_to_issue : asset;
  issue_to_account : Z;
}.
Record asset_reserve_operation : Type := mk_asset_reserve {
  ar_fee : asset;
  payer : Z;
  amount_to_reserve : asset;
}.
Record asset_fund_fee_pool_operation : Type := mk_fund_fee_pool {
  fp_fee : asset;
  from_account : Z;
  fp_asset : Z;
  fp_amount : Z;
}.
Record asset_claim_fees_operation : Type := mk_claim_fees {
  cf_fee : asset;
  cf_issuer : Z;
  amount_to_claim : asset;
}.
Record asset_update_operation : Type := mk_asset_update {
  au_fee : asset;
  au_issuer : Z;
  asset_to_update : Z;
  new_issuer : option Z;
  new_options : asset_options;
}.
Record asset_update_bitasset_operation : Type := mk_update_bitasset {
  ub_fee : asset;
  ub_issuer : Z;
  ub_asset : Z;
  ub_options : bitasset_options;
}.
Record asset_update_feed_producers_operation : Type := mk_update_producers {
  uf_fee : asset;
  uf_issuer : Z;
  uf_asset : Z;
  new_feed_producers : gset Z;
}.
Record asset_publish_feed_operation : Type := mk_publish_feed {
  pf_fee : asset;
  publisher : Z;
  pf_asset : Z;
  feed : price_feed;
}.
Record asset_global_settle_operation : Type := mk_global_settle {
  gs_fee : asset;
  gs_issuer : Z;
  asset_to_settle : Z;
  settle_price : price;
}.
Record asset_settle_operation : Type := mk_asset_settle {
  as_fee : asset;
  as_account : Z;
  as_amount : asset;
}.

(** ** Credits ([protocol/credit.hpp]) *)
Record credit_request_operation : Type := mk_credit_request {
  cr_fee : asset;
  cr_borrower : Z;
  cr_loan_asset : asset;
  cr_loan_period : Z;
  cr_loan_persent : Z;
  cr_loan_memo : string;
  cr_deposit_asset : asset;
}.
Record credit_approve_operation : Type := mk_credit_approve {
  ca_fee : asset;
  ca_creditor : Z;
  ca_credit_memo : string;
  ca_credit_request_uuid : string;
}.
Record credit_request_cancel_operation : Type := mk_credit_cancel {
  cc_fee : asset;
  cc_borrower : Z;
  cc_credit_request_uuid : string;
}.
Record comment_credit_request_operation : Type := mk_comment_credit {
  cm_fee : asset;
  cm_creditor : Z;
  cm_credit_memo : string;
  cm_credit_request_uuid : string;
}.
Record settle_credit_operation : Type := mk_settle_credit {
  sc_fee : asset;
  sc_borrower : Z;
  sc_credit_request_uuid : string;
}.

(** ** Exchange rates ([protocol/exchange_rate.hpp]) *)
Record exchange_rate_set_operation : Type := mk_exchange_rate_set {
  er_fee : asset;
  er_witness : Z;                        (* the account of the witness *)
  er_exchange_rate : list (string * double);    (* a [std::map]: by ascending symbol *)
}.

(** ** Accounts ([protocol/account.hpp]) *)
Record account_create_operation : Type := mk_account_create {
  na_fee : asset;
  na_registrar : Z;
  na_referrer : Z;
  na_referrer_percent : Z;
  na_name : string;
  na_owner : authority;
  na_active : authority;
  na_options : account_options;
  na_null_ext : bool;
  na_owner_special_authority : option special_authority;
  na_active_special_authority : option special_authority;
  na_buyback_options : option buyback_account_options;
  na_credit_referrer : option Z;
}.
Record account_update_operation : Type := mk_account_update {
  nu_fee : asset;
  nu_account : Z;
  nu_owner : option authority;
  nu_active : option authority;
  nu_new_options : option account_options;
  nu_null_ext : bool;
  nu_owner_special_authority : option special_authority;
  nu_active_special_authority : option special_authority;
  nu_personal : personal_info (option string);
  nu_bank : bank_account (option string);
  nu_additional : additional_info (option string);
}.
Record account_whitelist_operation : Type := mk_account_whitelist {
  nw_fee : asset;
  authorizing_account : Z;
  account_to_list : Z;
  new_listing : Z;
}.
Record account_upgrade_operation : Type := mk_account_upgrade {
  ng_fee : asset;
  account_to_upgrade : Z;
  upgrade_to_lifetime_member : bool;
}.

(** ** Witnesses, committee members and workers ([protocol/witness.hpp],
    [protocol/committee_member.hpp], [protocol/worker.hpp]) *)
Record witness_create_operation : Type := mk_witness_create {
  wc_fee : asset;
  wc_witness_account : Z;
  wc_url : string;
  block_signing_key : Z;
}.
Record witness_update_operation : Type := mk_witness_update {
  wu_fee : asset;
  wu_witness : Z;
  wu_witness_account : Z;
  wu_new_url : option string;
  new_signing_key : option Z;
}.
Record committee_member_create_operation : Type := mk_member_create {
  mc_fee : asset;
  mc_committee_member_account : Z;
  mc_url : string;
}.
Record committee_member_update_operation : Type := mk_member_update {
  mu_fee : asset;
  mu_committee_member : Z;
  mu_committee_member_account : Z;
  mu_new_url : option string;
}.
Record committee_member_update_global_parameters_operation : Type := mk_update_parameters {
  gp_fee : asset;
  new_parameters : chain_parameters;
}.
Inductive worker_initializer : Type :=
| refund_worker_initializer
| vesting_balance_worker_initializer (pay_vesting_period_days : Z)
| burn_worker_initializer.
Record worker_create_operation : Type := mk_worker_create {
  wk_fee : asset;
  wk_owner : Z;
  wk_work_begin_date : Z;
  wk_work_end_date : Z;
  wk_daily_pay : Z;
  wk_name : string;
  wk_url : string;
  initializer : worker_initializer;
}.

(** ** Custom operations and balances of the genesis ([protocol/custom.hpp],
    [protocol/balance.hpp]) *)
Record custom_operation : Type := mk_custom {
  ct_fee : asset;
  ct_payer : Z;
  ct_required_auths : gset Z;
  ct_id : Z;
  ct_data : string;
}.
Record balance_claim_operation : Type := mk_balance_claim {
  gb_fee : asset;
  deposit_to_account : Z;
  balance_to_claim : Z;
  balance_owner_key : Z;
  total_claimed : asset;
}.

(** ** Proposals ([protocol/proposal.hpp]), over the type of operations *)
Record proposal_create_of (operation : Type) : Type := mk_proposal_create {
  pr_fee : asset;
  pr_fee_paying_account : Z;
  proposed_ops : list operation;
  pr_expiration_time : Z;
  review_period_seconds : option Z;
}.
Arguments mk_proposal_create {operation}.
Arguments pr_fee {operation}.
Arguments pr_fee_paying_account {operation}.
Arguments proposed_ops {operation}.
Arguments pr_expiration_time {operation}.
Arguments review_period_seconds {operation}.
Record proposal_update_operation : Type := mk_proposal_update {
  pp_fee_paying_account : Z;
  pp_fee : asset;
  pp_proposal : Z;
  active_approvals_to_add : gset Z;
  active_approvals_to_remove : gset Z;
  owner_approvals_to_add : gset Z;
  owner_approvals_to_remove : gset Z;
  key_approvals_to_add : gset Z;
  key_approvals_to_remove : gset Z;
}.
Record proposal_delete_operation : Type := mk_proposal_delete {
  px_fee_paying_account : Z;
  using_owner_authority : bool;
  px_fee : asset;
  px_proposal : Z;
}.

(** ** [operation] ([protocol/operations.hpp]) *)
Inductive operation : Type :=
| op_transfer (o : transfer_operation)
| op_limit_order_create (o : limit_order_create_operation)
| op_limit_order_cancel (o : limit_order_cancel_operation)
| op_call_order_update (o : call_order_update_operation)
| op_asset_create (o : asset_create_operation)
| op_asset_update (o : asset_update_operation)
| op_asset_update_bitasset (o : asset_update_bitasset_operation)
| op_asset_update_feed_producers (o : asset_update_feed_producers_operation)
| op_asset_issue (o : asset_issue_operation)
| op_asset_reserve (o : asset_reserve_operation)
| op_asset_fund_fee_pool (o : asset_fund_fee_pool_operation)
| op_asset_settle (o : asset_settle_operation)
| op_asset_global_settle (o : asset_global_settle_operation)
| op_asset_publish_feed (o : asset_publish_feed_operation)
| op_withdraw_permission_create (o : withdraw_permission_create_operation)
| op_withdraw_permission_update (o : withdraw_permission_update_operation)
| op_withdraw_permission_claim (o : withdraw_permission_claim_operation)
| op_withdraw_permission_delete (o : withdraw_permission_delete_operation)
| op_vesting_balance_create (o : vesting_balance_create_operation)
| op_vesting_balance_withdraw (o : vesting_balance_withdraw_operation)
| op_override_transfer (o : override_transfer_operation)
| op_asset_claim_fees (o : asset_claim_fees_operation)
| op_bid_collateral (o : bid_collateral_operation)
| op_credit_request (o : credit_request_operation)
| op_credit_approve (o : credit_approve_operation)
| op_credit_request_cancel (o : credit_request_cancel_operation)
| op_comment_credit_request (o : comment_credit_request_operation)
| op_settle_credit (o : settle_credit_operation)
| op_exchange_rate_set (o : exchange_rate_set_operation)
| op_account_create (o : account_create_operation)
| op_account_update (o : account_update_operation)
| op_account_whitelist (o : account_whitelist_operation)
| op_account_upgrade (o : account_upgrade_operation)
| op_witness_create (o : witness_create_operation)
| op_witness_update (o : witness_update_operation)
| op_committee_member_create (o : committee_member_create_operation)
| op_committee_member_update (o : committee_member_update_operation)
| op_committee_member_update_global_parameters (o : committee_member_update_global_parameters_operation)
| op_worker_create (o : worker_create_operation)
| op_custom (o : custom_operation)
| op_balance_claim (o : balance_claim_operation)
| op_proposal_create (o : proposal_create_of operation)
| op_proposal_update (o : proposal_update_operation)
| op_proposal_delete (o : proposal_delete_operation).
Notation proposal_create_operation := (proposal_create_of operation).

(** [operation::which()]: the position in the [static_variant]. *)
Definition which (op : operation) : Z :=
  match op with
  | op_transfer _ => 0
  | op_limit_order_create _ => 1
  | op_limit_order_cancel _ => 2
  | op_call_order_update _ => 3
  | op_asset_create _ => 10
  | op_asset_update _ => 11
  | op_asset_update_bitasset _ => 12
  | op_asset_update_feed_producers _ => 13
  | op_asset_issue _ => 14
  | op_asset_reserve _ => 15
  | op_asset_fund_fee_pool _ => 16
  | op_asset_settle _ => 17
  | op_asset_global_settle _ => 18
  | op_asset_publish_feed _ => 19
  | op_withdraw_permission_create _ => 25
  | op_withdraw_permission_update _ => 26
  | op_withdraw_permission_claim _ => 27
  | op_withdraw_permission_delete _ => 28
  | op_vesting_balance_create _ => 32
  | op_vesting_balance_withdraw _ => 33
  | op_override_transfer _ => 38
  | op_asset_claim_fees _ => 43
  | op_bid_collateral _ => 45
  | op_credit_request _ => 47
  | op_credit_approve _ => 48
  | op_credit_request_cancel _ => 49
  | op_comment_credit_request _ => 50
  | op_settle_credit _ => 51
  | op_exchange_rate_set _ => 52
  | op_account_create _ => 5
  | op_account_update _ => 6
  | op_account_whitelist _ => 7
  | op_account_upgrade _ => 8
  | op_witness_create _ => 20
  | op_witness_update _ => 21
  | op_committee_member_create _ => 29
  | op_committee_member_update _ => 30
  | op_committee_member_update_global_parameters _ => 31
  | op_worker_create _ => 34
  | op_custom _ => 35
  | op_balance_claim _ => 37
  | op_proposal_create _ => 22
  | op_proposal_update _ => 23
  | op_proposal_delete _ => 24
  end.

(** ** Transactions ([protocol/transaction.hpp]) *)
Record signed_transaction : Type := mk_signed_transaction {
  ref_block_num : Z;
  ref_block_prefix : Z;
  expires : Z;                 (* the field expiration *)
  operations : list operation;
  signatures : list Z;
}.
End Protocol.
