(* ===== verification/Chain.v ===== *)
(** * The state of the chain ([database.hpp] and the object headers)

    The objects the modelled operations read and write, one record per class,
    and the [database] that holds them: one finite map per object type, keyed
    by instance number, with the next instance number of each type.  A C++
    reference to an object is its identifier here, dereferenced where the code
    dereferences it, so that a reference sees later modifications; using one
    whose object was removed has no defined result and is the exception
    [dangling].  A balance object is identified by its owner and asset, as by
    its unique index.  Fields no modelled operation uses are left out. *)
From Stdlib Require Import ZArith Lia String.
From stdpp Require Import base gmap sets list strings.
From S2P Require Import Prelude External Asset Vesting Authority Float Protocol.

Module Chain.
Import Asset Vesting Authority Float.
Export Protocol.

(** ** Objects *)

Record asset_object : Type := mk_asset_object {
  symbol : string;
  precision : Z;
  issuer : Z;
  options : asset_options;
  dynamic_asset_data_id : Z;
  bitasset_data_id : option Z;
  buyback_account : option Z;
}.

Record asset_dynamic_data_object : Type := mk_dynamic_data {
  current_supply : Z;
  confidential_supply : Z;
  accumulated_fees : Z;
  fee_pool : Z;
}.

Record asset_bitasset_data_object : Type := mk_bitasset_data {
  bitasset_opts : bitasset_options;
  feeds : gmap Z (Z * price_feed);
  current_feed : price_feed;
  current_feed_publication_time : Z;
  is_prediction_market : bool;
  force_settled_volume : Z;
  swan_price : price;             (* the field settlement_price *)
  settlement_fund : Z;
}.

Record account_object : Type := mk_account {
  membership_expiration_date : Z;
  registrar : Z;
  referrer : Z;
  lifetime_referrer : Z;
  network_fee_percentage : Z;
  lifetime_referrer_fee_percentage : Z;
  referrer_rewards_percentage : Z;
  statistics : Z;
  whitelisting_accounts : gset Z;
  blacklisting_accounts : gset Z;
  cashback_vb : option Z;
  allowed_assets : option (gset Z);
  owner_authority : authority;       (* the field owner *)
  active_authority : authority;      (* the field active *)
  account_name : string;             (* the field name *)
  karma : float32;
  credit_referrer : Z;
  credit_referrer_expiration_date : Z;
  account_opts : account_options;    (* the field options *)
  owner_special_authority : special_authority;
  active_special_authority : special_authority;
  top_n_control_flags : Z;
  whitelisted_accounts : gset Z;
  blacklisted_accounts : gset Z;
  pi : personal_info string;
  ba : bank_account string;
  ai : additional_info string;
}.

Record account_statistics_object : Type := mk_statistics {
  total_core_in_orders : Z;
  lifetime_fees_paid : Z;
  pending_fees : Z;
  pending_vested_fees : Z;
}.

Record karma_history_entry : Type := mk_karma_entry {
  karma_date : Z;
  karma_amount : float32;
  karma_info : string;
}.
Record account_history_of_karma_object : Type := mk_karma_history {
  karma_account : Z;
  karma_history : list karma_history_entry;
}.

Record limit_order_object : Type := mk_limit_order {
  expiration : Z;
  seller : Z;
  for_sale : Z;
  sell_price : price;
  deferred_fee : Z;
}.

Record call_order_object : Type := mk_call_order {
  borrower : Z;
  collateral : Z;
  debt : Z;
  order_call_price : price;       (* the field call_price *)
}.

Record force_settlement_object : Type := mk_settlement {
  settlement_owner : Z;
  settlement_balance : asset;
  settlement_date : Z;
}.

Record collateral_bid_object : Type := mk_bid {
  bidder : Z;
  inv_swan_price : price;
}.

Record witness_object : Type := mk_witness {
  witness_account : Z;
  last_aslot : Z;
  signing_key : Z;
  pay_vb : option Z;
  total_missed : Z;
  last_confirmed_block_num : Z;
  witness_vote_id : Z;            (* the field vote_id *)
  witness_votes : Z;              (* the field total_votes *)
  witness_url : string;           (* the field url *)
}.

Record withdraw_permission_object : Type := mk_permit {
  withdraw_from_account : Z;
  authorized_account : Z;
  withdrawal_limit : asset;
  withdrawal_period_sec : Z;
  period_start_time : Z;
  permit_expiration : Z;
  claimed_this_period : Z;
}.

(** A credit; the texts of its history are left out. *)
Inductive e_credit_object_status : Type :=
| empty_status | wating_for_acceptance | in_progress | cancalled | complete_normal | complete_ubnormal | fetch_all.
#[export] Instance credit_status_eq_dec : EqDecision e_credit_object_status.
Proof. solve_decision. Defined.
Record borrower_info : Type := mk_borrower {
  credit_borrower : Z;
  loan_memo : string;
  loan_asset : asset;
  loan_persent : double;
  loan_period : Z;
  deposit_asset : asset;
  collateral_free : bool;
}.
Record creditor_info : Type := mk_creditor {
  creditor_account : Z;
  credit_memo : string;
  monthly_payment : double;
}.
Record credit_object : Type := mk_credit {
  object_uuid : string;
  status : e_credit_object_status;
  borrower_of : borrower_info;          (* the field borrower *)
  request_creation_time : Z;
  creditor_of : creditor_info;          (* the field creditor *)
  request_approvation_time : Z;
  settle_month_elapsed : Z;
  expired_time_start : Z;
  comments : gmap string Z;
}.

Record exchange_rate_object : Type := mk_exchange_rate {
  current_exchange_rate : gmap string (gmap Z double);
  current_exchange_rate_interval : gmap string (Z * Z);
  last_exchange_rate : gmap string double;
}.

(** A proposal; of the proposed transaction, its operations. *)
Record proposal_object : Type := mk_proposal {
  expiration_time : Z;
  review_period_time : option Z;
  proposed_transaction : list operation;
  required_active_approvals : gset Z;
  available_active_approvals : gset Z;
  required_owner_approvals : gset Z;
  available_owner_approvals : gset Z;
  available_key_approvals : gset Z;
}.

(** [block_id_type], a [ripemd160] hash whose first word carries the number of
    the block; its words of 32 bits are [_hash[0]], [_hash[1]] and the rest. *)
Record block_id_type : Type := mk_block_id {
  hash_0 : Z;
  hash_1 : Z;
  hash_rest : Z;
}.
#[export] Instance block_id_eq_dec : EqDecision block_id_type.
Proof. solve_decision. Defined.
#[export] Instance block_id_countable : Countable block_id_type.
Proof.
  refine (inj_countable' (fun i => (hash_0 i, hash_1 i, hash_rest i)) (fun x => mk_block_id x.1.1 x.1.2 x.2) _).
  by intros [].
Defined.
Definition null_block_id : block_id_type := mk_block_id 0 0 0.

(** The deduplication record of a transaction: its identifier and expiration. *)
Record transaction_object : Type := mk_transaction_object {
  trx_id : Z;
  trx_expiration : Z;
}.
Record witness_schedule_object : Type := mk_schedule {
  current_shuffled_witnesses : list Z;
}.

Record global_property_object : Type := mk_gpo {
  parameters : chain_parameters;
  active_witnesses : list Z;
  pending_parameters : option chain_parameters;
  next_available_vote_id : Z;
  active_committee_members : list Z;
}.
(** [chain_property_object]: what the genesis fixes. *)
Record immutable_chain_parameters : Type := mk_immutable {
  min_committee_member_count : Z;
  min_witness_count : Z;
}.
Record dynamic_global_property_object : Type := mk_dgp {
  head_block_number : Z;
  head_block_id : block_id_type;
  time : Z;
  current_witness : Z;
  next_maintenance_time : Z;
  witness_budget : Z;
  recently_missed_count : Z;
  current_aslot : Z;
  recent_slots_filled : Z;
  dynamic_flags : Z;
  last_irreversible_block_num : Z;
  last_budget_time : Z;
  accounts_registered_this_interval : Z;
}.

(** ** Elections and budgets ([committee_member_object.hpp],
    [worker_object.hpp], [budget_record_object.hpp], [fba_object.hpp],
    [buyback_object.hpp], [special_authority_object.hpp]) *)
Record committee_member_object : Type := mk_committee_member {
  committee_member_account : Z;
  committee_vote_id : Z;          (* the field vote_id *)
  committee_votes : Z;            (* the field total_votes *)
  committee_url : string;         (* the field url *)
}.
Inductive worker_type : Type :=
| refund_worker_type (total_burned : Z)
| vesting_balance_worker_type (balance : Z)
| burn_worker_type (total_burned : Z).
Record worker_object : Type := mk_worker {
  worker_account : Z;
  work_begin_date : Z;
  work_end_date : Z;
  daily_pay : Z;
  worker : worker_type;
  worker_name : string;           (* the field name *)
  worker_url : string;            (* the field url *)
  vote_for : Z;
  vote_against : Z;
  total_votes_for : Z;
  total_votes_against : Z;
}.
Record budget_record : Type := mk_budget_record {
  time_since_last_budget : Z;
  from_initial_reserve : Z;
  from_accumulated_fees : Z;
  from_unused_witness_budget : Z;
  requested_witness_budget : Z;
  total_budget : Z;
  budget_for_witnesses : Z;       (* the field witness_budget *)
  worker_budget : Z;
  leftover_worker_funds : Z;
  supply_delta : Z;
}.
Record budget_record_object : Type := mk_budget_record_object {
  budget_time : Z;                (* the field time *)
  record_of : budget_record;      (* the field record *)
}.
Record fba_accumulator_object : Type := mk_fba_accumulator {
  accumulated_fba_fees : Z;
  designated_asset : option Z;
}.
Record buyback_object : Type := mk_buyback { bought_asset : Z (* the field asset_to_buy *) }.
Record special_authority_object : Type := mk_special_authority { special_account : Z (* the field account *) }.
(** A balance of the genesis, of an address. *)
Record balance_object : Type := mk_balance_object {
  balance_owner : Z;              (* the field owner *)
  balance_amount : asset;         (* the field balance *)
  balance_policy : option linear_vesting_policy;
  last_claim_date : Z;
}.

(** Virtual operations, pushed to the history of the block by the market. *)
Inductive order_ref : Type :=
| limit_order_ref (id : Z)
| call_order_ref (id : Z)
| settlement_ref (id : Z).
Inductive virtual_operation : Type :=
| applied_operation (which : Z)     (* an operation of a transaction, by its tag *)
| fill_order_operation (order_id : order_ref) (account_id : Z) (pays receives fee : asset)
    (fill_price : price) (is_maker : bool)
| limit_order_cancel_vop (order account : Z)
| asset_settle_cancel_vop (settlement account : Z) (amount : asset)
| bid_collateral_vop (bidder : Z) (additional_collateral debt_covered : asset)
| execute_bid_operation (bidder : Z) (debt collateral : asset)
| fba_distribute_operation (account_id fba_id amount : Z).

Record database : Type := mk_database {
  gpo : global_property_object;
  dgp : dynamic_global_property_object;
  accounts : gmap Z account_object;
  account_statistics : gmap Z account_statistics_object;
  account_balances : gmap (Z * Z) Z;
  assets : gmap Z asset_object;
  asset_dynamic_data : gmap Z asset_dynamic_data_object;
  bitasset_data : gmap Z asset_bitasset_data_object;
  limit_orders : gmap Z limit_order_object;
  call_orders : gmap Z call_order_object;
  force_settlements : gmap Z force_settlement_object;
  collateral_bids : gmap Z collateral_bid_object;
  vesting_balances : gmap Z vesting_balance_object;
  witnesses : gmap Z witness_object;
  withdraw_permissions : gmap Z withdraw_permission_object;
  witness_schedule : witness_schedule_object;
  transactions : gmap Z transaction_object;
  block_summaries : gmap Z block_id_type;
  account_histories_of_karma : gmap Z account_history_of_karma_object;
  credits : gmap Z credit_object;
  exchange_rates : gmap Z exchange_rate_object;
  proposals : gmap Z proposal_object;
  committee_members : gmap Z committee_member_object;
  workers : gmap Z worker_object;
  budget_records : gmap Z budget_record_object;
  fba_accumulators : gmap Z fba_accumulator_object;
  buybacks : gmap Z buyback_object;
  special_authorities : gmap Z special_authority_object;
  genesis_balances : gmap Z balance_object;
  chain_properties : immutable_chain_parameters;
  next_instances : gmap Z Z;
  applied_ops : list virtual_operation;
}.

Definition set_gpo (x : global_property_object) (s : database) : database :=
  mk_database x (dgp s) (accounts s) (account_statistics s) (account_balances s)
    (assets s) (asset_dynamic_data s) (bitasset_data s) (limit_orders s)
    (call_orders s) (force_settlements s) (collateral_bids s)
    (vesting_balances s) (witnesses s) (withdraw_permissions s)
    (witness_schedule s) (transactions s) (block_summaries s)
    (account_histories_of_karma s) (credits s) (exchange_rates s) (proposals s)
    (committee_members s) (workers s) (budget_records s) (fba_accumulators s)
    (buybacks s) (special_authorities s) (genesis_balances s)
    (chain_properties s) (next_instances s) (applied_ops s).
Definition set_dgp (x : dynamic_global_property_object) (s : database) : database :=
  mk_database (gpo s) x (accounts s) (account_statistics s) (account_balances s)
    (assets s) (asset_dynamic_data s) (bitasset_data s) (limit_orders s)
    (call_orders s) (force_settlements s) (collateral_bids s)
    (vesting_balances s) (witnesses s) (withdraw_permissions s)
    (witness_schedule s) (transactions s) (block_summaries s)
    (account_histories_of_karma s) (credits s) (exchange_rates s) (proposals s)
    (committee_members s) (workers s) (budget_records s) (fba_accumulators s)
    (buybacks s) (special_authorities s) (genesis_balances s)
    (chain_properties s) (next_instances s) (applied_ops s).
Definition set_accounts (x : gmap Z account_object) (s : database) : database :=
  mk_database (gpo s) (dgp s) x (account_statistics s) (account_balances s) (assets s)
    (asset_dynamic_data s) (bitasset_data s) (limit_orders s) (call_orders s)
    (force_settlements s) (collateral_bids s) (vesting_balances s)
    (witnesses s) (withdraw_permissions s) (witness_schedule s)
    (transactions s) (block_summaries s) (account_histories_of_karma s)
    (credits s) (exchange_rates s) (proposals s) (committee_members s)
    (workers s) (budget_records s) (fba_accumulators s) (buybacks s)
    (special_authorities s) (genesis_balances s) (chain_properties s)
    (next_instances s) (applied_ops s).
Definition set_account_statistics (x : gmap Z account_statistics_object) (s : database) : database :=
  mk_database (gpo s) (dgp s) (accounts s) x (account_balances s) (assets s)
    (asset_dynamic_data s) (bitasset_data s) (limit_orders s) (call_orders s)
    (force_settlements s) (collateral_bids s) (vesting_balances s)
    (witnesses s) (withdraw_permissions s) (witness_schedule s)
    (transactions s) (block_summaries s) (account_histories_of_karma s)
    (credits s) (exchange_rates s) (proposals s) (committee_members s)
    (workers s) (budget_records s) (fba_accumulators s) (buybacks s)
    (special_authorities s) (genesis_balances s) (chain_properties s)
    (next_instances s) (applied_ops s).
Definition set_account_balances (x : gmap (Z * Z) Z) (s : database) : database :=
  mk_database (gpo s) (dgp s) (accounts s) (account_statistics s) x (assets s)
    (asset_dynamic_data s) (bitasset_data s) (limit_orders s) (call_orders s)
    (force_settlements s) (collateral_bids s) (vesting_balances s)
    (witnesses s) (withdraw_permissions s) (witness_schedule s)
    (transactions s) (block_summaries s) (account_histories_of_karma s)
    (credits s) (exchange_rates s) (proposals s) (committee_members s)
    (workers s) (budget_records s) (fba_accumulators s) (buybacks s)
    (special_authorities s) (genesis_balances s) (chain_properties s)
    (next_instances s) (applied_ops s).
Definition set_assets (x : gmap Z asset_object) (s : database) : database :=
  mk_database (gpo s) (dgp s) (accounts s) (account_statistics s) (account_balances s) x
    (asset_dynamic_data s) (bitasset_data s) (limit_orders s) (call_orders s)
    (force_settlements s) (collateral_bids s) (vesting_balances s)
    (witnesses s) (withdraw_permissions s) (witness_schedule s)
    (transactions s) (block_summaries s) (account_histories_of_karma s)
    (credits s) (exchange_rates s) (proposals s) (committee_members s)
    (workers s) (budget_records s) (fba_accumulators s) (buybacks s)
    (special_authorities s) (genesis_balances s) (chain_properties s)
    (next_instances s) (applied_ops s).
Definition set_asset_dynamic_data (x : gmap Z asset_dynamic_data_object) (s : database) : database :=
  mk_database (gpo s) (dgp s) (accounts s) (account_statistics s) (account_balances s)
    (assets s) x (bitasset_data s) (limit_orders s) (call_orders s)
    (force_settlements s) (collateral_bids s) (vesting_balances s)
    (witnesses s) (withdraw_permissions s) (witness_schedule s)
    (transactions s) (block_summaries s) (account_histories_of_karma s)
    (credits s) (exchange_rates s) (proposals s) (committee_members s)
    (workers s) (budget_records s) (fba_accumulators s) (buybacks s)
    (special_authorities s) (genesis_balances s) (chain_properties s)
    (next_instances s) (applied_ops s).
Definition set_bitasset_data (x : gmap Z asset_bitasset_data_object) (s : database) : database :=
  mk_database (gpo s) (dgp s) (accounts s) (account_statistics s) (account_balances s)
    (assets s) (asset_dynamic_data s) x (limit_orders s) (call_orders s)
    (force_settlements s) (collateral_bids s) (vesting_balances s)
    (witnesses s) (withdraw_permissions s) (witness_schedule s)
    (transactions s) (block_summaries s) (account_histories_of_karma s)
    (credits s) (exchange_rates s) (proposals s) (committee_members s)
    (workers s) (budget_records s) (fba_accumulators s) (buybacks s)
    (special_authorities s) (genesis_balances s) (chain_properties s)
    (next_instances s) (applied_ops s).
Definition set_limit_orders (x : gmap Z limit_order_object) (s : database) : database :=
  mk_database (gpo s) (dgp s) (accounts s) (account_statistics s) (account_balances s)
    (assets s) (asset_dynamic_data s) (bitasset_data s) x (call_orders s)
    (force_settlements s) (collateral_bids s) (vesting_balances s)
    (witnesses s) (withdraw_permissions s) (witness_schedule s)
    (transactions s) (block_summaries s) (account_histories_of_karma s)
    (credits s) (exchange_rates s) (proposals s) (committee_members s)
    (workers s) (budget_records s) (fba_accumulators s) (buybacks s)
    (special_authorities s) (genesis_balances s) (chain_properties s)
    (next_instances s) (applied_ops s).
Definition set_call_orders (x : gmap Z call_order_object) (s : database) : database :=
  mk_database (gpo s) (dgp s) (accounts s) (account_statistics s) (account_balances s)
    (assets s) (asset_dynamic_data s) (bitasset_data s) (limit_orders s) x
    (force_settlements s) (collateral_bids s) (vesting_balances s)
    (witnesses s) (withdraw_permissions s) (witness_schedule s)
    (transactions s) (block_summaries s) (account_histories_of_karma s)
    (credits s) (exchange_rates s) (proposals s) (committee_members s)
    (workers s) (budget_records s) (fba_accumulators s) (buybacks s)
    (special_authorities s) (genesis_balances s) (chain_properties s)
    (next_instances s) (applied_ops s).
Definition set_force_settlements (x : gmap Z force_settlement_object) (s : database) : database :=
  mk_database (gpo s) (dgp s) (accounts s) (account_statistics s) (account_balances s)
    (assets s) (asset_dynamic_data s) (bitasset_data s) (limit_orders s)
    (call_orders s) x (collateral_bids s) (vesting_balances s) (witnesses s)
    (withdraw_permissions s) (witness_schedule s) (transactions s)
    (block_summaries s) (account_histories_of_karma s) (credits s)
    (exchange_rates s) (proposals s) (committee_members s) (workers s)
    (budget_records s) (fba_accumulators s) (buybacks s)
    (special_authorities s) (genesis_balances s) (chain_properties s)
    (next_instances s) (applied_ops s).
Definition set_collateral_bids (x : gmap Z collateral_bid_object) (s : database) : database :=
  mk_database (gpo s) (dgp s) (accounts s) (account_statistics s) (account_balances s)
    (assets s) (asset_dynamic_data s) (bitasset_data s) (limit_orders s)
    (call_orders s) (force_settlements s) x (vesting_balances s) (witnesses s)
    (withdraw_permissions s) (witness_schedule s) (transactions s)
    (block_summaries s) (account_histories_of_karma s) (credits s)
    (exchange_rates s) (proposals s) (committee_members s) (workers s)
    (budget_records s) (fba_accumulators s) (buybacks s)
    (special_authorities s) (genesis_balances s) (chain_properties s)
    (next_instances s) (applied_ops s).
Definition set_vesting_balances (x : gmap Z vesting_balance_object) (s : database) : database :=
  mk_database (gpo s) (dgp s) (accounts s) (account_statistics s) (account_balances s)
    (assets s) (asset_dynamic_data s) (bitasset_data s) (limit_orders s)
    (call_orders s) (force_settlements s) (collateral_bids s) x (witnesses s)
    (withdraw_permissions s) (witness_schedule s) (transactions s)
    (block_summaries s) (account_histories_of_karma s) (credits s)
    (exchange_rates s) (proposals s) (committee_members s) (workers s)
    (budget_records s) (fba_accumulators s) (buybacks s)
    (special_authorities s) (genesis_balances s) (chain_properties s)
    (next_instances s) (applied_ops s).
Definition set_witnesses (x : gmap Z witness_object) (s : database) : database :=
  mk_database (gpo s) (dgp s) (accounts s) (account_statistics s) (account_balances s)
    (assets s) (asset_dynamic_data s) (bitasset_data s) (limit_orders s)
    (call_orders s) (force_settlements s) (collateral_bids s)
    (vesting_balances s) x (withdraw_permissions s) (witness_schedule s)
    (transactions s) (block_summaries s) (account_histories_of_karma s)
    (credits s) (exchange_rates s) (proposals s) (committee_members s)
    (workers s) (budget_records s) (fba_accumulators s) (buybacks s)
    (special_authorities s) (genesis_balances s) (chain_properties s)
    (next_instances s) (applied_ops s).
Definition set_withdraw_permissions (x : gmap Z withdraw_permission_object) (s : database) : database :=
  mk_database (gpo s) (dgp s) (accounts s) (account_statistics s) (account_balances s)
    (assets s) (asset_dynamic_data s) (bitasset_data s) (limit_orders s)
    (call_orders s) (force_settlements s) (collateral_bids s)
    (vesting_balances s) (witnesses s) x (witness_schedule s) (transactions s)
    (block_summaries s) (account_histories_of_karma s) (credits s)
    (exchange_rates s) (proposals s) (committee_members s) (workers s)
    (budget_records s) (fba_accumulators s) (buybacks s)
    (special_authorities s) (genesis_balances s) (chain_properties s)
    (next_instances s) (applied_ops s).
Definition set_witness_schedule (x : witness_schedule_object) (s : database) : database :=
  mk_database (gpo s) (dgp s) (accounts s) (account_statistics s) (account_balances s)
    (assets s) (asset_dynamic_data s) (bitasset_data s) (limit_orders s)
    (call_orders s) (force_settlements s) (collateral_bids s)
    (vesting_balances s) (witnesses s) (withdraw_permissions s) x
    (transactions s) (block_summaries s) (account_histories_of_karma s)
    (credits s) (exchange_rates s) (proposals s) (committee_members s)
    (workers s) (budget_records s) (fba_accumulators s) (buybacks s)
    (special_authorities s) (genesis_balances s) (chain_properties s)
    (next_instances s) (applied_ops s).
Definition set_transactions (x : gmap Z transaction_object) (s : database) : database :=
  mk_database (gpo s) (dgp s) (accounts s) (account_statistics s) (account_balances s)
    (assets s) (asset_dynamic_data s) (bitasset_data s) (limit_orders s)
    (call_orders s) (force_settlements s) (collateral_bids s)
    (vesting_balances s) (witnesses s) (withdraw_permissions s)
    (witness_schedule s) x (block_summaries s) (account_histories_of_karma s)
    (credits s) (exchange_rates s) (proposals s) (committee_members s)
    (workers s) (budget_records s) (fba_accumulators s) (buybacks s)
    (special_authorities s) (genesis_balances s) (chain_properties s)
    (next_instances s) (applied_ops s).
Definition set_block_summaries (x : gmap Z block_id_type) (s : database) : database :=
  mk_database (gpo s) (dgp s) (accounts s) (account_statistics s) (account_balances s)
    (assets s) (asset_dynamic_data s) (bitasset_data s) (limit_orders s)
    (call_orders s) (force_settlements s) (collateral_bids s)
    (vesting_balances s) (witnesses s) (withdraw_permissions s)
    (witness_schedule s) (transactions s) x (account_histories_of_karma s)
    (credits s) (exchange_rates s) (proposals s) (committee_members s)
    (workers s) (budget_records s) (fba_accumulators s) (buybacks s)
    (special_authorities s) (genesis_balances s) (chain_properties s)
    (next_instances s) (applied_ops s).
Definition set_account_histories_of_karma (x : gmap Z account_history_of_karma_object) (s : database) : database :=
  mk_database (gpo s) (dgp s) (accounts s) (account_statistics s) (account_balances s)
    (assets s) (asset_dynamic_data s) (bitasset_data s) (limit_orders s)
    (call_orders s) (force_settlements s) (collateral_bids s)
    (vesting_balances s) (witnesses s) (withdraw_permissions s)
    (witness_schedule s) (transactions s) (block_summaries s) x (credits s)
    (exchange_rates s) (proposals s) (committee_members s) (workers s)
    (budget_records s) (fba_accumulators s) (buybacks s)
    (special_authorities s) (genesis_balances s) (chain_properties s)
    (next_instances s) (applied_ops s).
Definition set_credits (x : gmap Z credit_object) (s : database) : database :=
  mk_database (gpo s) (dgp s) (accounts s) (account_statistics s) (account_balances s)
    (assets s) (asset_dynamic_data s) (bitasset_data s) (limit_orders s)
    (call_orders s) (force_settlements s) (collateral_bids s)
    (vesting_balances s) (witnesses s) (withdraw_permissions s)
    (witness_schedule s) (transactions s) (block_summaries s)
    (account_histories_of_karma s) x (exchange_rates s) (proposals s)
    (committee_members s) (workers s) (budget_records s) (fba_accumulators s)
    (buybacks s) (special_authorities s) (genesis_balances s)
    (chain_properties s) (next_instances s) (applied_ops s).
Definition set_exchange_rates (x : gmap Z exchange_rate_object) (s : database) : database :=
  mk_database (gpo s) (dgp s) (accounts s) (account_statistics s) (account_balances s)
    (assets s) (asset_dynamic_data s) (bitasset_data s) (limit_orders s)
    (call_orders s) (force_settlements s) (collateral_bids s)
    (vesting_balances s) (witnesses s) (withdraw_permissions s)
    (witness_schedule s) (transactions s) (block_summaries s)
    (account_histories_of_karma s) (credits s) x (proposals s)
    (committee_members s) (workers s) (budget_records s) (fba_accumulators s)
    (buybacks s) (special_authorities s) (genesis_balances s)
    (chain_properties s) (next_instances s) (applied_ops s).
Definition set_proposals (x : gmap Z proposal_object) (s : database) : database :=
  mk_database (gpo s) (dgp s) (accounts s) (account_statistics s) (account_balances s)
    (assets s) (asset_dynamic_data s) (bitasset_data s) (limit_orders s)
    (call_orders s) (force_settlements s) (collateral_bids s)
    (vesting_balances s) (witnesses s) (withdraw_permissions s)
    (witness_schedule s) (transactions s) (block_summaries s)
    (account_histories_of_karma s) (credits s) (exchange_rates s) x
    (committee_members s) (workers s) (budget_records s) (fba_accumulators s)
    (buybacks s) (special_authorities s) (genesis_balances s)
    (chain_properties s) (next_instances s) (applied_ops s).
Definition set_committee_members (x : gmap Z committee_member_object) (s : database) : database :=
  mk_database (gpo s) (dgp s) (accounts s) (account_statistics s) (account_balances s)
    (assets s) (asset_dynamic_data s) (bitasset_data s) (limit_orders s)
    (call_orders s) (force_settlements s) (collateral_bids s)
    (vesting_balances s) (witnesses s) (withdraw_permissions s)
    (witness_schedule s) (transactions s) (block_summaries s)
    (account_histories_of_karma s) (credits s) (exchange_rates s) (proposals s)
    x (workers s) (budget_records s) (fba_accumulators s) (buybacks s)
    (special_authorities s) (genesis_balances s) (chain_properties s)
    (next_instances s) (applied_ops s).
Definition set_workers (x : gmap Z worker_object) (s : database) : database :=
  mk_database (gpo s) (dgp s) (accounts s) (account_statistics s) (account_balances s)
    (assets s) (asset_dynamic_data s) (bitasset_data s) (limit_orders s)
    (call_orders s) (force_settlements s) (collateral_bids s)
    (vesting_balances s) (witnesses s) (withdraw_permissions s)
    (witness_schedule s) (transactions s) (block_summaries s)
    (account_histories_of_karma s) (credits s) (exchange_rates s) (proposals s)
    (committee_members s) x (budget_records s) (fba_accumulators s)
    (buybacks s) (special_authorities s) (genesis_balances s)
    (chain_properties s) (next_instances s) (applied_ops s).
Definition set_budget_records (x : gmap Z budget_record_object) (s : database) : database :=
  mk_database (gpo s) (dgp s) (accounts s) (account_statistics s) (account_balances s)
    (assets s) (asset_dynamic_data s) (bitasset_data s) (limit_orders s)
    (call_orders s) (force_settlements s) (collateral_bids s)
    (vesting_balances s) (witnesses s) (withdraw_permissions s)
    (witness_schedule s) (transactions s) (block_summaries s)
    (account_histories_of_karma s) (credits s) (exchange_rates s) (proposals s)
    (committee_members s) (workers s) x (fba_accumulators s) (buybacks s)
    (special_authorities s) (genesis_balances s) (chain_properties s)
    (next_instances s) (applied_ops s).
Definition set_fba_accumulators (x : gmap Z fba_accumulator_object) (s : database) : database :=
  mk_database (gpo s) (dgp s) (accounts s) (account_statistics s) (account_balances s)
    (assets s) (asset_dynamic_data s) (bitasset_data s) (limit_orders s)
    (call_orders s) (force_settlements s) (collateral_bids s)
    (vesting_balances s) (witnesses s) (withdraw_permissions s)
    (witness_schedule s) (transactions s) (block_summaries s)
    (account_histories_of_karma s) (credits s) (exchange_rates s) (proposals s)
    (committee_members s) (workers s) (budget_records s) x (buybacks s)
    (special_authorities s) (genesis_balances s) (chain_properties s)
    (next_instances s) (applied_ops s).
Definition set_buybacks (x : gmap Z buyback_object) (s : database) : database :=
  mk_database (gpo s) (dgp s) (accounts s) (account_statistics s) (account_balances s)
    (assets s) (asset_dynamic_data s) (bitasset_data s) (limit_orders s)
    (call_orders s) (force_settlements s) (collateral_bids s)
    (vesting_balances s) (witnesses s) (withdraw_permissions s)
    (witness_schedule s) (transactions s) (block_summaries s)
    (account_histories_of_karma s) (credits s) (exchange_rates s) (proposals s)
    (committee_members s) (workers s) (budget_records s) (fba_accumulators s) x
    (special_authorities s) (genesis_balances s) (chain_properties s)
    (next_instances s) (applied_ops s).
Definition set_special_authorities (x : gmap Z special_authority_object) (s : database) : database :=
  mk_database (gpo s) (dgp s) (accounts s) (account_statistics s) (account_balances s)
    (assets s) (asset_dynamic_data s) (bitasset_data s) (limit_orders s)
    (call_orders s) (force_settlements s) (collateral_bids s)
    (vesting_balances s) (witnesses s) (withdraw_permissions s)
    (witness_schedule s) (transactions s) (block_summaries s)
    (account_histories_of_karma s) (credits s) (exchange_rates s) (proposals s)
    (committee_members s) (workers s) (budget_records s) (fba_accumulators s)
    (buybacks s) x (genesis_balances s) (chain_properties s) (next_instances s)
    (applied_ops s).
Definition set_genesis_balances (x : gmap Z balance_object) (s : database) : database :=
  mk_database (gpo s) (dgp s) (accounts s) (account_statistics s) (account_balances s)
    (assets s) (asset_dynamic_data s) (bitasset_data s) (limit_orders s)
    (call_orders s) (force_settlements s) (collateral_bids s)
    (vesting_balances s) (witnesses s) (withdraw_permissions s)
    (witness_schedule s) (transactions s) (block_summaries s)
    (account_histories_of_karma s) (credits s) (exchange_rates s) (proposals s)
    (committee_members s) (workers s) (budget_records s) (fba_accumulators s)
    (buybacks s) (special_authorities s) x (chain_properties s)
    (next_instances s) (applied_ops s).
Definition set_chain_properties (x : immutable_chain_parameters) (s : database) : database :=
  mk_database (gpo s) (dgp s) (accounts s) (account_statistics s) (account_balances s)
    (assets s) (asset_dynamic_data s) (bitasset_data s) (limit_orders s)
    (call_orders s) (force_settlements s) (collateral_bids s)
    (vesting_balances s) (witnesses s) (withdraw_permissions s)
    (witness_schedule s) (transactions s) (block_summaries s)
    (account_histories_of_karma s) (credits s) (exchange_rates s) (proposals s)
    (committee_members s) (workers s) (budget_records s) (fba_accumulators s)
    (buybacks s) (special_authorities s) (genesis_balances s) x
    (next_instances s) (applied_ops s).
Definition set_next_instances (x : gmap Z Z) (s : database) : database :=
  mk_database (gpo s) (dgp s) (accounts s) (account_statistics s) (account_balances s)
    (assets s) (asset_dynamic_data s) (bitasset_data s) (limit_orders s)
    (call_orders s) (force_settlements s) (collateral_bids s)
    (vesting_balances s) (witnesses s) (withdraw_permissions s)
    (witness_schedule s) (transactions s) (block_summaries s)
    (account_histories_of_karma s) (credits s) (exchange_rates s) (proposals s)
    (committee_members s) (workers s) (budget_records s) (fba_accumulators s)
    (buybacks s) (special_authorities s) (genesis_balances s)
    (chain_properties s) x (applied_ops s).
Definition set_applied_ops (x : list virtual_operation) (s : database) : database :=
  mk_database (gpo s) (dgp s) (accounts s) (account_statistics s) (account_balances s)
    (assets s) (asset_dynamic_data s) (bitasset_data s) (limit_orders s)
    (call_orders s) (force_settlements s) (collateral_bids s)
    (vesting_balances s) (witnesses s) (withdraw_permissions s)
    (witness_schedule s) (transactions s) (block_summaries s)
    (account_histories_of_karma s) (credits s) (exchange_rates s) (proposals s)
    (committee_members s) (workers s) (budget_records s) (fba_accumulators s)
    (buybacks s) (special_authorities s) (genesis_balances s)
    (chain_properties s) (next_instances s) x.

(** ** Writing fields *)
Definition with_membership_expiration_date (x : Z) (a : account_object) : account_object :=
  mk_account x (registrar a) (referrer a) (lifetime_referrer a) (network_fee_percentage a)
    (lifetime_referrer_fee_percentage a) (referrer_rewards_percentage a) (statistics a)
    (whitelisting_accounts a) (blacklisting_accounts a) (cashback_vb a) (allowed_assets a)
    (owner_authority a) (active_authority a) (account_name a) (karma a) (credit_referrer a)
    (credit_referrer_expiration_date a) (account_opts a) (owner_special_authority a)
    (active_special_authority a) (top_n_control_flags a) (whitelisted_accounts a) (blacklisted_accounts a)
    (pi a) (ba a) (ai a).
Definition with_registrar (x : Z) (a : account_object) : account_object :=
  mk_account (membership_expiration_date a) x (referrer a) (lifetime_referrer a) (network_fee_percentage a)
    (lifetime_referrer_fee_percentage a) (referrer_rewards_percentage a) (statistics a)
    (whitelisting_accounts a) (blacklisting_accounts a) (cashback_vb a) (allowed_assets a)
    (owner_authority a) (active_authority a) (account_name a) (karma a) (credit_referrer a)
    (credit_referrer_expiration_date a) (account_opts a) (owner_special_authority a)
    (active_special_authority a) (top_n_control_flags a) (whitelisted_accounts a) (blacklisted_accounts a)
    (pi a) (ba a) (ai a).
Definition with_referrer (x : Z) (a : account_object) : account_object :=
  mk_account (membership_expiration_date a) (registrar a) x (lifetime_referrer a) (network_fee_percentage a)
    (lifetime_referrer_fee_percentage a) (referrer_rewards_percentage a) (statistics a)
    (whitelisting_accounts a) (blacklisting_accounts a) (cashback_vb a) (allowed_assets a)
    (owner_authority a) (active_authority a) (account_name a) (karma a) (credit_referrer a)
    (credit_referrer_expiration_date a) (account_opts a) (owner_special_authority a)
    (active_special_authority a) (top_n_control_flags a) (whitelisted_accounts a) (blacklisted_accounts a)
    (pi a) (ba a) (ai a).
Definition with_lifetime_referrer (x : Z) (a : account_object) : account_object :=
  mk_account (membership_expiration_date a) (registrar a) (referrer a) x (network_fee_percentage a)
    (lifetime_referrer_fee_percentage a) (referrer_rewards_percentage a) (statistics a)
    (whitelisting_accounts a) (blacklisting_accounts a) (cashback_vb a) (allowed_assets a)
    (owner_authority a) (active_authority a) (account_name a) (karma a) (credit_referrer a)
    (credit_referrer_expiration_date a) (account_opts a) (owner_special_authority a)
    (active_special_authority a) (top_n_control_flags a) (whitelisted_accounts a) (blacklisted_accounts a)
    (pi a) (ba a) (ai a).
Definition with_lifetime_referrer_fee_percentage (x : Z) (a : account_object) : account_object :=
  mk_account (membership_expiration_date a) (registrar a) (referrer a) (lifetime_referrer a)
    (network_fee_percentage a) x (referrer_rewards_percentage a) (statistics a) (whitelisting_accounts a)
    (blacklisting_accounts a) (cashback_vb a) (allowed_assets a) (owner_authority a) (active_authority a)
    (account_name a) (karma a) (credit_referrer a) (credit_referrer_expiration_date a) (account_opts a)
    (owner_special_authority a) (active_special_authority a) (top_n_control_flags a)
    (whitelisted_accounts a) (blacklisted_accounts a) (pi a) (ba a) (ai a).
Definition with_whitelisting_accounts (x : gset Z) (a : account_object) : account_object :=
  mk_account (membership_expiration_date a) (registrar a) (referrer a) (lifetime_referrer a)
    (network_fee_percentage a) (lifetime_referrer_fee_percentage a) (referrer_rewards_percentage a)
    (statistics a) x (blacklisting_accounts a) (cashback_vb a) (allowed_assets a) (owner_authority a)
    (active_authority a) (account_name a) (karma a) (credit_referrer a) (credit_referrer_expiration_date a)
    (account_opts a) (owner_special_authority a) (active_special_authority a) (top_n_control_flags a)
    (whitelisted_accounts a) (blacklisted_accounts a) (pi a) (ba a) (ai a).
Definition with_blacklisting_accounts (x : gset Z) (a : account_object) : account_object :=
  mk_account (membership_expiration_date a) (registrar a) (referrer a) (lifetime_referrer a)
    (network_fee_percentage a) (lifetime_referrer_fee_percentage a) (referrer_rewards_percentage a)
    (statistics a) (whitelisting_accounts a) x (cashback_vb a) (allowed_assets a) (owner_authority a)
    (active_authority a) (account_name a) (karma a) (credit_referrer a) (credit_referrer_expiration_date a)
    (account_opts a) (owner_special_authority a) (active_special_authority a) (top_n_control_flags a)
    (whitelisted_accounts a) (blacklisted_accounts a) (pi a) (ba a) (ai a).
Definition with_cashback_vb (x : option Z) (a : account_object) : account_object :=
  mk_account (membership_expiration_date a) (registrar a) (referrer a) (lifetime_referrer a)
    (network_fee_percentage a) (lifetime_referrer_fee_percentage a) (referrer_rewards_percentage a)
    (statistics a) (whitelisting_accounts a) (blacklisting_accounts a) x (allowed_assets a)
    (owner_authority a) (active_authority a) (account_name a) (karma a) (credit_referrer a)
    (credit_referrer_expiration_date a) (account_opts a) (owner_special_authority a)
    (active_special_authority a) (top_n_control_flags a) (whitelisted_accounts a) (blacklisted_accounts a)
    (pi a) (ba a) (ai a).
Definition with_owner_authority (x : authority) (a : account_object) : account_object :=
  mk_account (membership_expiration_date a) (registrar a) (referrer a) (lifetime_referrer a)
    (network_fee_percentage a) (lifetime_referrer_fee_percentage a) (referrer_rewards_percentage a)
    (statistics a) (whitelisting_accounts a) (blacklisting_accounts a) (cashback_vb a) (allowed_assets a) x
    (active_authority a) (account_name a) (karma a) (credit_referrer a) (credit_referrer_expiration_date a)
    (account_opts a) (owner_special_authority a) (active_special_authority a) (top_n_control_flags a)
    (whitelisted_accounts a) (blacklisted_accounts a) (pi a) (ba a) (ai a).
Definition with_active_authority (x : authority) (a : account_object) : account_object :=
  mk_account (membership_expiration_date a) (registrar a) (referrer a) (lifetime_referrer a)
    (network_fee_percentage a) (lifetime_referrer_fee_percentage a) (referrer_rewards_percentage a)
    (statistics a) (whitelisting_accounts a) (blacklisting_accounts a) (cashback_vb a) (allowed_assets a)
    (owner_authority a) x (account_name a) (karma a) (credit_referrer a) (credit_referrer_expiration_date a)
    (account_opts a) (owner_special_authority a) (active_special_authority a) (top_n_control_flags a)
    (whitelisted_accounts a) (blacklisted_accounts a) (pi a) (ba a) (ai a).
Definition with_karma (x : float32) (a : account_object) : account_object :=
  mk_account (membership_expiration_date a) (registrar a) (referrer a) (lifetime_referrer a)
    (network_fee_percentage a) (lifetime_referrer_fee_percentage a) (referrer_rewards_percentage a)
    (statistics a) (whitelisting_accounts a) (blacklisting_accounts a) (cashback_vb a) (allowed_assets a)
    (owner_authority a) (active_authority a) (account_name a) x (credit_referrer a)
    (credit_referrer_expiration_date a) (account_opts a) (owner_special_authority a)
    (active_special_authority a) (top_n_control_flags a) (whitelisted_accounts a) (blacklisted_accounts a)
    (pi a) (ba a) (ai a).
Definition with_account_opts (x : account_options) (a : account_object) : account_object :=
  mk_account (membership_expiration_date a) (registrar a) (referrer a) (lifetime_referrer a)
    (network_fee_percentage a) (lifetime_referrer_fee_percentage a) (referrer_rewards_percentage a)
    (statistics a) (whitelisting_accounts a) (blacklisting_accounts a) (cashback_vb a) (allowed_assets a)
    (owner_authority a) (active_authority a) (account_name a) (karma a) (credit_referrer a)
    (credit_referrer_expiration_date a) x (owner_special_authority a) (active_special_authority a)
    (top_n_control_flags a) (whitelisted_accounts a) (blacklisted_accounts a) (pi a) (ba a) (ai a).
Definition with_owner_special_authority (x : special_authority) (a : account_object) : account_object :=
  mk_account (membership_expiration_date a) (registrar a) (referrer a) (lifetime_referrer a)
    (network_fee_percentage a) (lifetime_referrer_fee_percentage a) (referrer_rewards_percentage a)
    (statistics a) (whitelisting_accounts a) (blacklisting_accounts a) (cashback_vb a) (allowed_assets a)
    (owner_authority a) (active_authority a) (account_name a) (karma a) (credit_referrer a)
    (credit_referrer_expiration_date a) (account_opts a) x (active_special_authority a)
    (top_n_control_flags a) (whitelisted_accounts a) (blacklisted_accounts a) (pi a) (ba a) (ai a).
Definition with_active_special_authority (x : special_authority) (a : account_object) : account_object :=
  mk_account (membership_expiration_date a) (registrar a) (referrer a) (lifetime_referrer a)
    (network_fee_percentage a) (lifetime_referrer_fee_percentage a) (referrer_rewards_percentage a)
    (statistics a) (whitelisting_accounts a) (blacklisting_accounts a) (cashback_vb a) (allowed_assets a)
    (owner_authority a) (active_authority a) (account_name a) (karma a) (credit_referrer a)
    (credit_referrer_expiration_date a) (account_opts a) (owner_special_authority a) x
    (top_n_control_flags a) (whitelisted_accounts a) (blacklisted_accounts a) (pi a) (ba a) (ai a).
Definition with_top_n_control_flags (x : Z) (a : account_object) : account_object :=
  mk_account (membership_expiration_date a) (registrar a) (referrer a) (lifetime_referrer a)
    (network_fee_percentage a) (lifetime_referrer_fee_percentage a) (referrer_rewards_percentage a)
    (statistics a) (whitelisting_accounts a) (blacklisting_accounts a) (cashback_vb a) (allowed_assets a)
    (owner_authority a) (active_authority a) (account_name a) (karma a) (credit_referrer a)
    (credit_referrer_expiration_date a) (account_opts a) (owner_special_authority a)
    (active_special_authority a) x (whitelisted_accounts a) (blacklisted_accounts a) (pi a) (ba a) (ai a).
Definition with_whitelisted_accounts (x : gset Z) (a : account_object) : account_object :=
  mk_account (membership_expiration_date a) (registrar a) (referrer a) (lifetime_referrer a)
    (network_fee_percentage a) (lifetime_referrer_fee_percentage a) (referrer_rewards_percentage a)
    (statistics a) (whitelisting_accounts a) (blacklisting_accounts a) (cashback_vb a) (allowed_assets a)
    (owner_authority a) (active_authority a) (account_name a) (karma a) (credit_referrer a)
    (credit_referrer_expiration_date a) (account_opts a) (owner_special_authority a)
    (active_special_authority a) (top_n_control_flags a) x (blacklisted_accounts a) (pi a) (ba a) (ai a).
Definition with_blacklisted_accounts (x : gset Z) (a : account_object) : account_object :=
  mk_account (membership_expiration_date a) (registrar a) (referrer a) (lifetime_referrer a)
    (network_fee_percentage a) (lifetime_referrer_fee_percentage a) (referrer_rewards_percentage a)
    (statistics a) (whitelisting_accounts a) (blacklisting_accounts a) (cashback_vb a) (allowed_assets a)
    (owner_authority a) (active_authority a) (account_name a) (karma a) (credit_referrer a)
    (credit_referrer_expiration_date a) (account_opts a) (owner_special_authority a)
    (active_special_authority a) (top_n_control_flags a) (whitelisted_accounts a) x (pi a) (ba a) (ai a).
Definition with_pi (x : personal_info string) (a : account_object) : account_object :=
  mk_account (membership_expiration_date a) (registrar a) (referrer a) (lifetime_referrer a)
    (network_fee_percentage a) (lifetime_referrer_fee_percentage a) (referrer_rewards_percentage a)
    (statistics a) (whitelisting_accounts a) (blacklisting_accounts a) (cashback_vb a) (allowed_assets a)
    (owner_authority a) (active_authority a) (account_name a) (karma a) (credit_referrer a)
    (credit_referrer_expiration_date a) (account_opts a) (owner_special_authority a)
    (active_special_authority a) (top_n_control_flags a) (whitelisted_accounts a) (blacklisted_accounts a) x
    (ba a) (ai a).
Definition with_ba (x : bank_account string) (a : account_object) : account_object :=
  mk_account (membership_expiration_date a) (registrar a) (referrer a) (lifetime_referrer a)
    (network_fee_percentage a) (lifetime_referrer_fee_percentage a) (referrer_rewards_percentage a)
    (statistics a) (whitelisting_accounts a) (blacklisting_accounts a) (cashback_vb a) (allowed_assets a)
    (owner_authority a) (active_authority a) (account_name a) (karma a) (credit_referrer a)
    (credit_referrer_expiration_date a) (account_opts a) (owner_special_authority a)
    (active_special_authority a) (top_n_control_flags a) (whitelisted_accounts a) (blacklisted_accounts a)
    (pi a) x (ai a).
Definition with_ai (x : additional_info string) (a : account_object) : account_object :=
  mk_account (membership_expiration_date a) (registrar a) (referrer a) (lifetime_referrer a)
    (network_fee_percentage a) (lifetime_referrer_fee_percentage a) (referrer_rewards_percentage a)
    (statistics a) (whitelisting_accounts a) (blacklisting_accounts a) (cashback_vb a) (allowed_assets a)
    (owner_authority a) (active_authority a) (account_name a) (karma a) (credit_referrer a)
    (credit_referrer_expiration_date a) (account_opts a) (owner_special_authority a)
    (active_special_authority a) (top_n_control_flags a) (whitelisted_accounts a) (blacklisted_accounts a)
    (pi a) (ba a) x.
Definition with_parameters (x : chain_parameters) (g : global_property_object) : global_property_object :=
  mk_gpo x (active_witnesses g) (pending_parameters g) (next_available_vote_id g) (active_committee_members g).
Definition with_active_witnesses (x : list Z) (g : global_property_object) : global_property_object :=
  mk_gpo (parameters g) x (pending_parameters g) (next_available_vote_id g) (active_committee_members g).
Definition with_pending_parameters (x : option chain_parameters) (g : global_property_object) : global_property_object :=
  mk_gpo (parameters g) (active_witnesses g) x (next_available_vote_id g) (active_committee_members g).
Definition with_next_available_vote_id (x : Z) (g : global_property_object) : global_property_object :=
  mk_gpo (parameters g) (active_witnesses g) (pending_parameters g) x (active_committee_members g).
Definition with_active_committee_members (x : list Z) (g : global_property_object) : global_property_object :=
  mk_gpo (parameters g) (active_witnesses g) (pending_parameters g) (next_available_vote_id g) x.
Definition with_next_maintenance_time (x : Z) (d : dynamic_global_property_object) : dynamic_global_property_object :=
  mk_dgp (head_block_number d) (head_block_id d) (time d) (current_witness d) x (witness_budget d)
    (recently_missed_count d) (current_aslot d) (recent_slots_filled d) (dynamic_flags d)
    (last_irreversible_block_num d) (last_budget_time d) (accounts_registered_this_interval d).
Definition with_witness_budget (x : Z) (d : dynamic_global_property_object) : dynamic_global_property_object :=
  mk_dgp (head_block_number d) (head_block_id d) (time d) (current_witness d) (next_maintenance_time d) x
    (recently_missed_count d) (current_aslot d) (recent_slots_filled d) (dynamic_flags d)
    (last_irreversible_block_num d) (last_budget_time d) (accounts_registered_this_interval d).
Definition with_last_budget_time (x : Z) (d : dynamic_global_property_object) : dynamic_global_property_object :=
  mk_dgp (head_block_number d) (head_block_id d) (time d) (current_witness d) (next_maintenance_time d)
    (witness_budget d) (recently_missed_count d) (current_aslot d) (recent_slots_filled d) (dynamic_flags d)
    (last_irreversible_block_num d) x (accounts_registered_this_interval d).
Definition with_accounts_registered_this_interval (x : Z) (d : dynamic_global_property_object) : dynamic_global_property_object :=
  mk_dgp (head_block_number d) (head_block_id d) (time d) (current_witness d) (next_maintenance_time d)
    (witness_budget d) (recently_missed_count d) (current_aslot d) (recent_slots_filled d) (dynamic_flags d)
    (last_irreversible_block_num d) (last_budget_time d) x.
Definition with_signing_key (x : Z) (w : witness_object) : witness_object :=
  mk_witness (witness_account w) (last_aslot w) x (pay_vb w) (total_missed w) (last_confirmed_block_num w)
    (witness_vote_id w) (witness_votes w) (witness_url w).
Definition with_pay_vb (x : option Z) (w : witness_object) : witness_object :=
  mk_witness (witness_account w) (last_aslot w) (signing_key w) x (total_missed w) (last_confirmed_block_num w)
    (witness_vote_id w) (witness_votes w) (witness_url w).
Definition with_witness_votes (x : Z) (w : witness_object) : witness_object :=
  mk_witness (witness_account w) (last_aslot w) (signing_key w) (pay_vb w) (total_missed w)
    (last_confirmed_block_num w) (witness_vote_id w) x (witness_url w).
Definition with_witness_url (x : string) (w : witness_object) : witness_object :=
  mk_witness (witness_account w) (last_aslot w) (signing_key w) (pay_vb w) (total_missed w)
    (last_confirmed_block_num w) (witness_vote_id w) (witness_votes w) x.
Definition with_current_fees (x : fee_schedule) (p : chain_parameters) : chain_parameters :=
  mk_parameters (block_interval p) (maintenance_interval p) (maintenance_skip_slots p) (reserve_percent_of_fee p)
    (cashback_vesting_period_seconds p) (cashback_vesting_threshold p) (witness_pay_per_block p)
    (witness_pay_vesting_seconds p) (maximum_asset_whitelist_authorities p)
    (maximum_asset_feed_publishers p) (maximum_time_until_expiration p) (max_authority_depth p) x
    (maximum_block_size p) (maximum_proposal_lifetime p) (committee_proposal_review_period p)
    (maximum_transaction_size p) (maximum_witness_count p) (maximum_committee_count p)
    (maximum_authority_membership p) (network_percent_of_fee p) (lifetime_referrer_percent_of_fee p)
    (count_non_member_votes p) (allow_non_member_whitelists p) (worker_budget_per_day p)
    (max_predicate_opcode p) (fee_liquidation_threshold p) (accounts_per_fee_scale p)
    (account_fee_scale_bitshifts p) (extensions p).
Definition with_extensions (x : list parameter_extension) (p : chain_parameters) : chain_parameters :=
  mk_parameters (block_interval p) (maintenance_interval p) (maintenance_skip_slots p) (reserve_percent_of_fee p)
    (cashback_vesting_period_seconds p) (cashback_vesting_threshold p) (witness_pay_per_block p)
    (witness_pay_vesting_seconds p) (maximum_asset_whitelist_authorities p)
    (maximum_asset_feed_publishers p) (maximum_time_until_expiration p) (max_authority_depth p)
    (current_fees p) (maximum_block_size p) (maximum_proposal_lifetime p)
    (committee_proposal_review_period p) (maximum_transaction_size p) (maximum_witness_count p)
    (maximum_committee_count p) (maximum_authority_membership p) (network_percent_of_fee p)
    (lifetime_referrer_percent_of_fee p) (count_non_member_votes p) (allow_non_member_whitelists p)
    (worker_budget_per_day p) (max_predicate_opcode p) (fee_liquidation_threshold p)
    (accounts_per_fee_scale p) (account_fee_scale_bitshifts p) x.

(** ** Objects of a type ([object_database] as the chain uses it) *)
Class Object (A : Type) : Type := {
  type_id : Z;
  table : database -> gmap Z A;
  set_table : gmap Z A -> database -> database;
}.
(** [object_type] (space 1) and, shifted by 256, [impl_object_type] (space 2). *)
#[export] Instance account_table : Object account_object :=
  { type_id := 2; table := accounts; set_table := set_accounts }.
#[export] Instance asset_table : Object asset_object :=
  { type_id := 3; table := assets; set_table := set_assets }.
#[export] Instance settlement_table : Object force_settlement_object :=
  { type_id := 4; table := force_settlements; set_table := set_force_settlements }.
#[export] Instance witness_table : Object witness_object :=
  { type_id := 6; table := witnesses; set_table := set_witnesses }.
#[export] Instance limit_order_table : Object limit_order_object :=
  { type_id := 7; table := limit_orders; set_table := set_limit_orders }.
#[export] Instance call_order_table : Object call_order_object :=
  { type_id := 8; table := call_orders; set_table := set_call_orders }.
#[export] Instance permit_table : Object withdraw_permission_object :=
  { type_id := 12; table := withdraw_permissions; set_table := set_withdraw_permissions }.
#[export] Instance vesting_table : Object vesting_balance_object :=
  { type_id := 13; table := vesting_balances; set_table := set_vesting_balances }.
#[export] Instance dynamic_data_table : Object asset_dynamic_data_object :=
  { type_id := 259; table := asset_dynamic_data; set_table := set_asset_dynamic_data }.
#[export] Instance bitasset_table : Object asset_bitasset_data_object :=
  { type_id := 260; table := bitasset_data; set_table := set_bitasset_data }.
#[export] Instance transaction_table : Object transaction_object :=
  { type_id := 263; table := transactions; set_table := set_transactions }.
#[export] Instance block_summary_table : Object block_id_type :=
  { type_id := 264; table := block_summaries; set_table := set_block_summaries }.
#[export] Instance statistics_table : Object account_statistics_object :=
  { type_id := 262; table := account_statistics; set_table := set_account_statistics }.
#[export] Instance proposal_table : Object proposal_object :=
  { type_id := 10; table := proposals; set_table := set_proposals }.
#[export] Instance credit_table : Object credit_object :=
  { type_id := 16; table := credits; set_table := set_credits }.
#[export] Instance exchange_rate_table : Object exchange_rate_object :=
  { type_id := 17; table := exchange_rates; set_table := set_exchange_rates }.
#[export] Instance karma_history_table : Object account_history_of_karma_object :=
  { type_id := 18; table := account_histories_of_karma; set_table := set_account_histories_of_karma }.
#[export] Instance committee_member_table : Object committee_member_object :=
  { type_id := 5; table := committee_members; set_table := set_committee_members }.
#[export] Instance worker_table : Object worker_object :=
  { type_id := 14; table := workers; set_table := set_workers }.
#[export] Instance genesis_balance_table : Object balance_object :=
  { type_id := 15; table := genesis_balances; set_table := set_genesis_balances }.
#[export] Instance budget_record_table : Object budget_record_object :=
  { type_id := 269; table := budget_records; set_table := set_budget_records }.
#[export] Instance special_authority_table : Object special_authority_object :=
  { type_id := 270; table := special_authorities; set_table := set_special_authorities }.
#[export] Instance buyback_table : Object buyback_object :=
  { type_id := 271; table := buybacks; set_table := set_buybacks }.
#[export] Instance fba_accumulator_table : Object fba_accumulator_object :=
  { type_id := 272; table := fba_accumulators; set_table := set_fba_accumulators }.
#[export] Instance bid_table : Object collateral_bid_object :=
  { type_id := 273; table := collateral_bids; set_table := set_collateral_bids }.

Definition dangling : string := "undefined: dangling reference".
(** Not exceptions, which a handler would catch, but the end of the defined run. *)
Definition fatal (e : string) : bool := String.eqb e out_of_fuel || String.prefix "undefined" e.
(** [try { m } catch( const fc::exception& ) { h }], where [m] works in an undo
    session or changes nothing: the handler starts from the state before it. *)
Definition try_catch {A} (m h : M database A) : M database A := fun s =>
  match m s with Ok r => Ok r | Throw (e, s') => if fatal e then Throw (e, s') else h s end.

(** [db.find(id)], [id(db)] (throws) and the dereference of a reference. *)
Definition find (A : Type) `{Object A} (id : Z) : M database (option A) :=
  gets (fun s => table s !! id).
Definition get (A : Type) `{Object A} (id : Z) : M database A :=
  o ← find A id; lift (of_option o "Unable to find Object").
Definition deref (A : Type) `{Object A} (id : Z) : M database A :=
  o ← find A id; lift (of_option o dangling).
Definition modify {A} `{Object A} (id : Z) (f : A -> result A) : M database unit :=
  o ← deref A id; o' ← lift (f o);
  update (fun s => set_table (<[id := o']> (table s)) s).
Definition remove (A : Type) `{Object A} (id : Z) : M database unit :=
  _ ← deref A id; update (fun s => set_table (delete id (table s)) s).
(** Further unique keys of a type: [generic_index::create] throws when the
    new object shares one with another object. *)
Class UniqueKey (A : Type) : Type := same_key : A -> A -> bool.
Definition next_instance (ty : Z) (s : database) : Z := default 0 (next_instances s !! ty).
Definition create {A} `{Object A, UniqueKey A} (o : A) : M database Z :=
  s ← get_state;
  let id := next_instance type_id s in
  _ ← require (negb (existsb (fun kx => same_key o kx.2) (map_to_list (table s))))
        "Could not create object! Most likely a uniqueness constraint is violated.";
  _ ← require (bool_decide (table s !! id = None)) "Could not create object!";
  _ ← update (fun s => set_next_instances (<[type_id := id + 1]> (next_instances s))
                         (set_table (<[id := o]> (table s)) s));
  mret id.

(** [hardfork.d]. *)
Definition HARDFORK_23_TIME : Z := 1512747600.
Definition HARDFORK_413_TIME : Z := 1446652800.
Definition HARDFORK_415_TIME : Z := 1446652800.
Definition HARDFORK_419_TIME : Z := 1446652800.
Definition HARDFORK_436_TIME : Z := 1450288800.
Definition HARDFORK_445_TIME : Z := 1450288800.
Definition HARDFORK_480_TIME : Z := 1450378800.
Definition HARDFORK_555_TIME : Z := 1456250400.
Definition HARDFORK_572_TIME : Z := 1456250400.
Definition HARDFORK_615_TIME : Z := 1458752400.
Definition HARDFORK_453_TIME : Z := 1450288800.
Definition HARDFORK_516_TIME : Z := 1456250400.
Definition HARDFORK_533_TIME : Z := 1456250400.
Definition HARDFORK_538_TIME : Z := 1456250400.
Definition HARDFORK_599_TIME : Z := 1459789200.
Definition HARDFORK_607_TIME : Z := 1458752400.
Definition HARDFORK_613_TIME : Z := 1458752400.
Definition HARDFORK_CORE_143_TIME : Z := 1512747600.
Definition HARDFORK_CORE_353_TIME : Z := 1512747600.
Definition HARDFORK_CORE_216_TIME : Z := 1512747600.
Definition HARDFORK_CORE_KARMA_2_TIME : Z := 1524128400.

Definition head_block_time (s : database) : Z := time (dgp s).
Definition push_applied_operation (op : virtual_operation) : M database unit :=
  update (fun s => set_applied_ops (applied_ops s ++ [op]) s).
End Chain.
