(* ===== verification/Balance.v ===== *)
(** * Balances, cashback and fees of accounts ([db_balance.cpp],
    [account_object.cpp])

    Operations on the balance index, deposits into vesting balances and the
    split of an account's fees.  [share_type] arithmetic is checked. *)
From Stdlib Require Import ZArith Lia String.
From stdpp Require Import base gmap sets list strings.
From S2P Require Import Prelude External Asset Vesting Chain.

Module Balance.
Import Asset Vesting Chain.

Definition GRAPHENE_100_PERCENT : Z := 10000.
Definition GRAPHENE_COMMITTEE_ACCOUNT : Z := 0.
Definition GRAPHENE_WITNESS_ACCOUNT : Z := 1.
Definition GRAPHENE_RELAXED_COMMITTEE_ACCOUNT : Z := 2.
Definition GRAPHENE_NULL_ACCOUNT : Z := 3.
Definition GRAPHENE_TEMP_ACCOUNT : Z := 4.

#[export] Instance vesting_unique : UniqueKey vesting_balance_object := fun _ _ => false.

Section Ops.
Context `{SafeOps, U128Ops}.

(** ** [db_balance.cpp] *)
Definition get_balance (owner id : Z) (s : database) : asset :=
  mk_asset (default 0 (account_balances s !! (owner, id))) id.

Definition adjust_balance (account : Z) (delta : asset) : M database unit :=
  if amount delta =? 0 then mret tt
  else
    s ← get_state;
    match account_balances s !! (account, asset_id delta) with
    | None =>
        _ ← require (0 <? amount delta) "Insufficient Balance";
        update (fun s => set_account_balances
                           (<[(account, asset_id delta) := amount delta]> (account_balances s)) s)
    | Some bal =>
        _ ← (if amount delta <? 0 then
               neg ← lift (asset_neg delta);
               enough ← lift (asset_ge (mk_asset bal (asset_id delta)) neg);
               require enough "Insufficient Balance"
             else mret tt);
        bal' ← lift (safe_add bal (amount delta));
        update (fun s => set_account_balances
                           (<[(account, asset_id delta) := bal']> (account_balances s)) s)
    end.

(** The deposit branch of [deposit_lazy_vesting]: the balance is reused when
    its owner and vesting period are the required ones. *)
Definition reusable (vbo : vesting_balance_object) (req_vesting_seconds req_owner : Z) : bool :=
  (vb_owner vbo =? req_owner)
  && match vb_policy vbo with
     | linear_policy _ => false
     | cdd_policy p => vesting_seconds p =? req_vesting_seconds
     end.
Definition deposit_lazy_vesting (ovbid : option Z) (amt req_vesting_seconds req_owner : Z)
    (require_vesting : bool) : M database (option Z) :=
  if amt =? 0 then mret None
  else
    now ← gets head_block_time;
    reuse ← match ovbid with
            | None => mret None
            | Some vbid =>
                vbo ← get vesting_balance_object vbid;
                mret (if reusable vbo req_vesting_seconds req_owner then Some vbid else None)
            end;
    match reuse with
    | Some vbid =>
        _ ← modify vbid (fun vbo =>
              if require_vesting then deposit vbo now (mk_asset amt core_asset)
              else deposit_vested vbo now (mk_asset amt core_asset));
        mret None
    | None =>
        earned ← lift (if require_vesting then Ok 0 else int64_mul amt req_vesting_seconds);
        vbid ← create (mk_vbo req_owner (mk_asset amt core_asset)
                         (cdd_policy (mk_cdd req_vesting_seconds (u128 earned) 0 now)));
        mret (Some vbid)
    end.

(** [asset.dynamic_asset_data_id(db)] and [account.statistics(db)] of objects
    at hand: the looked-up object is named by its identifier. *)
Definition dynamic_of (o : asset_object) : M database Z :=
  _ ← get asset_dynamic_data_object (dynamic_asset_data_id o); mret (dynamic_asset_data_id o).
Definition statistics_of (account : Z) : M database Z :=
  a ← get account_object account;
  _ ← get account_statistics_object (statistics a); mret (statistics a).

Definition add_supply (x : Z) (d : asset_dynamic_data_object) : result asset_dynamic_data_object :=
  n ← safe_add (current_supply d) x;
  Ok (mk_dynamic_data n (confidential_supply d) (accumulated_fees d) (fee_pool d)).
Definition sub_supply (x : Z) (d : asset_dynamic_data_object) : result asset_dynamic_data_object :=
  n ← safe_sub (current_supply d) x;
  Ok (mk_dynamic_data n (confidential_supply d) (accumulated_fees d) (fee_pool d)).
Definition add_accumulated (x : Z) (d : asset_dynamic_data_object) : result asset_dynamic_data_object :=
  n ← safe_add (accumulated_fees d) x;
  Ok (mk_dynamic_data (current_supply d) (confidential_supply d) n (fee_pool d)).

Definition blockchain_account (acct : Z) : bool :=
  (acct =? GRAPHENE_COMMITTEE_ACCOUNT) || (acct =? GRAPHENE_WITNESS_ACCOUNT)
  || (acct =? GRAPHENE_RELAXED_COMMITTEE_ACCOUNT) || (acct =? GRAPHENE_NULL_ACCOUNT)
  || (acct =? GRAPHENE_TEMP_ACCOUNT).
Definition set_cashback_vb (vbid : Z) (a : account_object) : account_object :=
  with_cashback_vb (Some vbid) a.
Definition deposit_cashback (acct amt : Z) (require_vesting : bool) : M database unit :=
  if amt =? 0 then mret tt
  else if blockchain_account acct then
    o ← get asset_object core_asset; dyn ← dynamic_of o; modify dyn (sub_supply amt)
  else
    a ← deref account_object acct;
    period ← gets (fun s => cashback_vesting_period_seconds (parameters (gpo s)));
    new_vbid ← deposit_lazy_vesting (cashback_vb a) amt period acct require_vesting;
    match new_vbid with
    | Some vbid => modify acct (fun a => Ok (set_cashback_vb vbid a))
    | None => mret tt
    end.

Definition set_pay_vb (vbid : Z) (w : witness_object) : witness_object :=
  with_pay_vb (Some vbid) w.
Definition deposit_witness_pay (wit amt : Z) : M database unit :=
  if amt =? 0 then mret tt
  else
    w ← deref witness_object wit;
    period ← gets (fun s => witness_pay_vesting_seconds (parameters (gpo s)));
    new_vbid ← deposit_lazy_vesting (pay_vb w) amt period (witness_account w) true;
    match new_vbid with
    | Some vbid => modify wit (fun w => Ok (set_pay_vb vbid w))
    | None => mret tt
    end.

(** ** [account_object.cpp] *)
Definition cut_fee (a p : Z) : result Z :=
  if (a =? 0) || (p =? 0) then Ok 0
  else if p =? GRAPHENE_100_PERCENT then Ok a
  else u128_ratio a p GRAPHENE_100_PERCENT.

Definition set_pending (fees vested : Z) (st : account_statistics_object) : account_statistics_object :=
  mk_statistics (total_core_in_orders st) (lifetime_fees_paid st) fees vested.
(** [account_statistics_object::pay_fee]. *)
Definition stats_pay_fee (core_fee cashback_vesting_threshold : Z) (st : account_statistics_object)
  : result account_statistics_object :=
  if cashback_vesting_threshold <? core_fee
  then n ← safe_add (pending_fees st) core_fee; Ok (set_pending n (pending_vested_fees st) st)
  else n ← safe_add (pending_vested_fees st) core_fee; Ok (set_pending (pending_fees st) n st).

Definition is_basic_account (a : account_object) (now : Z) : bool := membership_expiration_date a <? now.
Definition set_referrer (r : Z) (a : account_object) : account_object :=
  with_referrer r a.

(** The lambda [pay_out_fees] of [process_fees]; [asset_dynamic_data_id_type()] is instance 0. *)
Definition pay_out_fees (account core_fee_total : Z) (require_vesting : bool) : M database unit :=
  a ← deref account_object account;
  ref ← get account_object (referrer a);
  now ← gets head_block_time;
  _ ← when (is_basic_account ref now) (modify account (fun a => Ok (set_referrer (lifetime_referrer a) a)));
  a ← deref account_object account;
  network_cut ← lift (cut_fee core_fee_total (network_fee_percentage a));
  lifetime_cut ← lift (cut_fee core_fee_total (lifetime_referrer_fee_percentage a));
  rest ← lift (safe_sub core_fee_total network_cut);
  referral ← lift (safe_sub rest lifetime_cut);
  _ ← get asset_dynamic_data_object 0;
  _ ← modify 0 (add_accumulated network_cut);
  referrer_cut ← lift (cut_fee referral (referrer_rewards_percentage a));
  registrar_cut ← lift (safe_sub referral referrer_cut);
  lr ← get account_object (lifetime_referrer a);
  _ ← deposit_cashback (lifetime_referrer a) lifetime_cut require_vesting;
  rf ← get account_object (referrer a);
  _ ← deposit_cashback (referrer a) referrer_cut require_vesting;
  rg ← get account_object (registrar a);
  deposit_cashback (registrar a) registrar_cut require_vesting.

Definition process_fees (stats account : Z) : M database unit :=
  st ← deref account_statistics_object stats;
  when ((0 <? pending_fees st) || (0 <? pending_vested_fees st))
    (_ ← pay_out_fees account (pending_fees st) true;
     st ← deref account_statistics_object stats;
     _ ← pay_out_fees account (pending_vested_fees st) false;
     modify stats (fun s =>
       sum ← safe_add (pending_fees s) (pending_vested_fees s);
       n ← safe_add (lifetime_fees_paid s) sum;
       Ok (mk_statistics (total_core_in_orders s) n 0 0))).
End Ops.
End Balance.
