(* ===== verification/Accounting.v ===== *)
(** * Accounting of the supply

    [surplus a s] is what the state [s] holds of the asset [a] (balances,
    orders, collateral, settlements, bids, vesting balances, balances of the genesis,
    deposits of credits, pending and accumulated fees, fee pools, settlement funds, the
    budget of the witnesses) less the supply recorded
    for [a].  An operation that keeps every surplus neither creates nor
    destroys shares behind the record.  This is the reckoning the test suite
    makes after every scenario ([tests/common/database_fixture.cpp],
    [verify_asset_supplies]).  [chain_wf] is the well-formedness of the objects
    on which the market relies.

    Each table of the state is an instance of [Counted], which gives its
    contribution to the surplus; what the generic operations do to the surplus
    and to [chain_wf] is then proved once. *)
From Stdlib Require Import ZArith Lia String.
From stdpp Require Import base gmap sets list strings.
From S2P Require Import Prelude External Asset Vesting Authority Chain Balance.

Module Accounting.
Import Asset Vesting Authority Chain Balance.

(** ** Contributions *)
Definition if_asset (a id n : Z) : Z := if id =? a then n else 0.
Definition asset_in (a : Z) (x : asset) : Z := if_asset a (asset_id x) (amount x).
Definition dyn_of (m : gmap Z asset_object) (a : Z) : option Z := dynamic_asset_data_id <$> m !! a.

Definition amount_for_sale (o : limit_order_object) : asset :=
  mk_asset (for_sale o) (asset_id (base (sell_price o))).
Definition get_collateral (c : call_order_object) : asset :=
  mk_asset (collateral c) (asset_id (base (order_call_price c))).
Definition debt_type (c : call_order_object) : Z := asset_id (quote (order_call_price c)).
Definition get_debt (c : call_order_object) : asset := mk_asset (debt c) (debt_type c).

Definition w_balance (a : Z) (k : Z * Z) (n : Z) : Z := if_asset a k.2 n.
Definition w_limit (a _ : Z) (o : limit_order_object) : Z :=
  asset_in a (amount_for_sale o) + if_asset a core_asset (deferred_fee o).
Definition w_call (a _ : Z) (c : call_order_object) : Z := asset_in a (get_collateral c).
Definition w_settlement (a _ : Z) (f : force_settlement_object) : Z := asset_in a (settlement_balance f).
Definition w_bid (a _ : Z) (b : collateral_bid_object) : Z := asset_in a (base (inv_swan_price b)).
Definition w_vesting (a _ : Z) (v : vesting_balance_object) : Z := asset_in a (vb_balance v).
Definition w_statistics (a _ : Z) (st : account_statistics_object) : Z :=
  if_asset a core_asset (pending_fees st + pending_vested_fees st).
Definition w_credit (a _ : Z) (c : credit_object) : Z := asset_in a (deposit_asset (borrower_of c)).
Definition w_fba (a _ : Z) (f : fba_accumulator_object) : Z := if_asset a core_asset (accumulated_fba_fees f).
Definition w_genesis (a _ : Z) (b : balance_object) : Z := asset_in a (balance_amount b).
Definition w_bitasset (a _ : Z) (b : asset_bitasset_data_object) : Z :=
  if_asset a (short_backing_asset (bitasset_opts b)) (settlement_fund b).
Definition w_dynamic (m : gmap Z asset_object) (a d : Z) (o : asset_dynamic_data_object) : Z :=
  (if bool_decide (dyn_of m a = Some d)
   then confidential_supply o + accumulated_fees o - current_supply o else 0)
  + if_asset a core_asset (fee_pool o).

Definition surplus (a : Z) (s : database) : Z :=
  sum_map (w_balance a) (account_balances s) + sum_map (w_limit a) (limit_orders s)
  + sum_map (w_call a) (call_orders s) + sum_map (w_settlement a) (force_settlements s)
  + sum_map (w_bid a) (collateral_bids s) + sum_map (w_vesting a) (vesting_balances s)
  + sum_map (w_statistics a) (account_statistics s) + sum_map (w_bitasset a) (bitasset_data s)
  + sum_map (w_dynamic (assets s) a) (asset_dynamic_data s) + sum_map (w_credit a) (credits s)
  + sum_map (w_fba a) (fba_accumulators s) + sum_map (w_genesis a) (genesis_balances s)
  + if_asset a core_asset (witness_budget (dgp s)).

(** ** Well-formed objects *)
Definition price_ok (p : price) : Prop := valid_price p.
Definition limit_ok (o : limit_order_object) : Prop :=
  pos_int64 (for_sale o) /\ valid_price (sell_price o) /\ 0 <= deferred_fee o.
Definition call_ok (c : call_order_object) : Prop :=
  0 <= collateral c < 2 ^ 63 /\ 0 <= debt c < 2 ^ 63 /\ valid_price (order_call_price c).
Definition settlement_ok (f : force_settlement_object) : Prop :=
  0 <= amount (settlement_balance f) < 2 ^ 63.
Definition bid_ok (b : collateral_bid_object) : Prop :=
  0 <= amount (base (inv_swan_price b)) < 2 ^ 63 /\ pos_int64 (amount (quote (inv_swan_price b)))
  /\ asset_id (base (inv_swan_price b)) <> asset_id (quote (inv_swan_price b)).
Definition options_ok (o : asset_object) : Prop :=
  0 <= market_fee_percent (options o) <= GRAPHENE_100_PERCENT
  /\ 0 <= max_market_fee (options o) <= GRAPHENE_MAX_SHARE_SUPPLY
  /\ 0 <= amount (base (options_core_exchange_rate (options o))) < 2 ^ 63
  /\ 0 <= amount (quote (options_core_exchange_rate (options o))) < 2 ^ 63.
Definition null_or_valid (p : price) : Prop := p = null_price \/ valid_price p.
Definition feed_ok (f : price_feed) : Prop :=
  null_or_valid (settlement_price f)
  /\ GRAPHENE_MIN_COLLATERAL_RATIO <= maximum_short_squeeze_ratio f <= GRAPHENE_MAX_COLLATERAL_RATIO
  /\ GRAPHENE_MIN_COLLATERAL_RATIO <= maintenance_collateral_ratio f <= GRAPHENE_MAX_COLLATERAL_RATIO
  /\ 0 <= amount (base (core_exchange_rate f)) < 2 ^ 63 /\ 0 <= amount (quote (core_exchange_rate f)) < 2 ^ 63.
Definition no_swan (b : asset_bitasset_data_object) : Prop :=
  asset_id (base (swan_price b)) = core_asset /\ asset_id (quote (swan_price b)) = core_asset.
(** A settled asset is redeemed for its backing asset. *)
Definition swan_ok (b : asset_bitasset_data_object) : Prop :=
  swan_price b = null_price
  \/ (amount (base (swan_price b)) < 2 ^ 63 /\ 0 <= amount (quote (swan_price b)) < 2 ^ 63
      /\ asset_id (quote (swan_price b)) = short_backing_asset (bitasset_opts b)
      /\ asset_id (base (swan_price b)) <> asset_id (quote (swan_price b))).
Definition bitasset_ok (b : asset_bitasset_data_object) : Prop :=
  feed_ok (current_feed b) /\ 0 <= settlement_fund b < 2 ^ 63
  /\ (no_swan b -> settlement_fund b = 0) /\ swan_ok b.

Definition feeds_ok (b : asset_bitasset_data_object) : Prop :=
  map_Forall (fun _ f => feed_ok f.2) (feeds b).

(** A credit that can still be paid back holds no deposit. *)
Definition open_credit (c : credit_object) : Prop := status c = wating_for_acceptance \/ status c = in_progress.
Definition credit_ok (c : credit_object) : Prop :=
  open_credit c -> collateral_free (borrower_of c) = true /\ amount (deposit_asset (borrower_of c)) = 0.
(** A balance of the genesis is not negative, and its schedule in the range of its types. *)
Definition genesis_ok (b : balance_object) : Prop :=
  0 <= amount (balance_amount b) /\ forall q, balance_policy b = Some q -> 0 <= begin_balance q < 2 ^ 63 /\ 0 <= vesting_duration_seconds q < 2 ^ 32.
Definition dynamic_ok (d : asset_dynamic_data_object) : Prop := current_supply d < 2 ^ 63.
Definition dyn_inj (m : gmap Z asset_object) : Prop :=
  forall a b d, dyn_of m a = Some d -> dyn_of m b = Some d -> a = b.

(** The asset [D] exists and, when it is market issued, is backed by [C]; so that
    positions and bids in [D] hold their collateral in [C]. *)
Definition backed (s : database) (D C : Z) : Prop :=
  is_Some (assets s !! D) /\ forall o b d, assets s !! D = Some o -> bitasset_data_id o = Some b -> bitasset_data s !! b = Some d ->
    short_backing_asset (bitasset_opts d) = C.
Definition call_backed (s : database) (c : call_order_object) : Prop :=
  backed s (debt_type c) (asset_id (base (order_call_price c))).
Definition bid_backed (s : database) (b : collateral_bid_object) : Prop :=
  backed s (asset_id (quote (inv_swan_price b))) (asset_id (base (inv_swan_price b))).
(** No asset is its own backing. *)
Definition not_own (s : database) (x : Z) (o : asset_object) : Prop :=
  forall b d, bitasset_data_id o = Some b -> bitasset_data s !! b = Some d ->
    short_backing_asset (bitasset_opts d) <> x.
(** The record [b] replaces one with the same backing asset, and feeds as good. *)
Definition same_opts (s : database) (id : Z) (b : asset_bitasset_data_object) : Prop :=
  exists d, bitasset_data s !! id = Some d
    /\ short_backing_asset (bitasset_opts b) = short_backing_asset (bitasset_opts d)
    /\ (feeds_ok d -> feeds_ok b).
(** The records an asset refers to exist. *)
Definition has_records (s : database) (o : asset_object) : Prop :=
  is_Some (asset_dynamic_data s !! dynamic_asset_data_id o)
  /\ forall b, bitasset_data_id o = Some b -> is_Some (bitasset_data s !! b).

Record chain_wf (s : database) : Prop := {
  wf_balances : map_Forall (fun _ n => 0 <= n) (account_balances s);
  wf_limits : map_Forall (fun _ => limit_ok) (limit_orders s);
  wf_calls : map_Forall (fun _ => call_ok) (call_orders s);
  wf_settlements : map_Forall (fun _ => settlement_ok) (force_settlements s);
  wf_bids : map_Forall (fun _ => bid_ok) (collateral_bids s);
  wf_bitassets : map_Forall (fun _ => bitasset_ok) (bitasset_data s);
  wf_dynamic : map_Forall (fun _ => dynamic_ok) (asset_dynamic_data s);
  wf_options : map_Forall (fun _ => options_ok) (assets s);
  wf_dyn : dyn_inj (assets s);
  wf_call_backed : map_Forall (fun _ => call_backed s) (call_orders s);
  wf_bid_backed : map_Forall (fun _ => bid_backed s) (collateral_bids s);
  wf_feeds : map_Forall (fun _ => feeds_ok) (bitasset_data s);
  wf_not_own : map_Forall (not_own s) (assets s);
  wf_records : map_Forall (fun _ => has_records s) (assets s);
  wf_credits : map_Forall (fun _ => credit_ok) (credits s);
  wf_core : dyn_of (assets s) core_asset = Some 0;
  wf_genesis : map_Forall (fun _ => genesis_ok) (genesis_balances s);
}.

(** *** Deciding well-formedness *)
#[export] Instance pos_int64_dec z : Decision (pos_int64 z) := ltac:(unfold pos_int64; apply _).
Lemma valid_price_alt p :
  pos_int64 (amount (base p)) /\ pos_int64 (amount (quote p)) /\ asset_id (base p) <> asset_id (quote p)
  <-> valid_price p.
Proof. split; [intros (? & ? & ?); by split|by intros []]. Qed.
#[export] Instance valid_price_dec p : Decision (valid_price p).
Proof. refine (cast_if (decide (pos_int64 (amount (base p)) /\ pos_int64 (amount (quote p))
                   /\ asset_id (base p) <> asset_id (quote p)))); by rewrite <-valid_price_alt. Defined.
#[export] Instance limit_ok_dec o : Decision (limit_ok o) := ltac:(unfold limit_ok; apply _).
#[export] Instance call_ok_dec o : Decision (call_ok o) := ltac:(unfold call_ok; apply _).
#[export] Instance settlement_ok_dec o : Decision (settlement_ok o) := ltac:(unfold settlement_ok; apply _).
#[export] Instance bid_ok_dec o : Decision (bid_ok o) := ltac:(unfold bid_ok; apply _).
#[export] Instance options_ok_dec o : Decision (options_ok o) := ltac:(unfold options_ok; apply _).
#[export] Instance bitasset_ok_dec o : Decision (bitasset_ok o) :=
  ltac:(unfold bitasset_ok, feed_ok, null_or_valid, swan_ok, no_swan; apply _).
#[export] Instance feed_ok_dec f : Decision (feed_ok f) := ltac:(unfold feed_ok, null_or_valid; apply _).
#[export] Instance feeds_ok_dec o : Decision (feeds_ok o) := ltac:(unfold feeds_ok; apply _).
#[export] Instance credit_ok_dec o : Decision (credit_ok o) := ltac:(unfold credit_ok, open_credit; apply _).
#[export] Instance genesis_ok_dec b : Decision (genesis_ok b).
Proof.
  unfold genesis_ok. apply and_dec; [apply _|]. destruct (balance_policy b) as [q|]; [|by left].
  destruct (decide (0 <= begin_balance q < 2 ^ 63 /\ 0 <= vesting_duration_seconds q < 2 ^ 32)) as [Hq|Hq].
  - left. by intros ? [= <-].
  - right. intros Hr. by apply Hq, Hr.
Defined.
#[export] Instance dynamic_ok_dec o : Decision (dynamic_ok o) := ltac:(unfold dynamic_ok; apply _).

Definition all_rows {K A} `{Countable K} (p : K -> A -> bool) (m : gmap K A) : bool :=
  forallb (fun kx => p kx.1 kx.2) (map_to_list m).
Definition dyn_injb (m : gmap Z asset_object) : bool :=
  all_rows (fun a x => all_rows (fun b y =>
    negb (dynamic_asset_data_id x =? dynamic_asset_data_id y) || (a =? b)) m) m.
Definition backedb (s : database) (D C : Z) : bool :=
  match assets s !! D with
  | Some o => match bitasset_data_id o with
              | Some b => match bitasset_data s !! b with
                          | Some d => short_backing_asset (bitasset_opts d) =? C
                          | None => true
                          end
              | None => true
              end
  | None => false
  end.
Definition has_recordsb (s : database) (o : asset_object) : bool :=
  match asset_dynamic_data s !! dynamic_asset_data_id o with Some _ => true | None => false end
  && match bitasset_data_id o with
     | Some b => match bitasset_data s !! b with Some _ => true | None => false end
     | None => true
     end.
Definition not_ownb (s : database) (x : Z) (o : asset_object) : bool :=
  match bitasset_data_id o with
  | Some b => match bitasset_data s !! b with
              | Some d => negb (short_backing_asset (bitasset_opts d) =? x)
              | None => true
              end
  | None => true
  end.
Definition chain_wfb (s : database) : bool :=
  all_rows (fun _ n => 0 <=? n) (account_balances s)
  && all_rows (fun _ o => bool_decide (limit_ok o)) (limit_orders s)
  && all_rows (fun _ o => bool_decide (call_ok o)
                && backedb s (debt_type o) (asset_id (base (order_call_price o)))) (call_orders s)
  && all_rows (fun _ o => bool_decide (settlement_ok o)) (force_settlements s)
  && all_rows (fun _ o => bool_decide (bid_ok o)
                && backedb s (asset_id (quote (inv_swan_price o))) (asset_id (base (inv_swan_price o))))
       (collateral_bids s)
  && all_rows (fun _ o => bool_decide (bitasset_ok o)) (bitasset_data s)
  && all_rows (fun _ o => bool_decide (feeds_ok o)) (bitasset_data s)
  && all_rows (fun _ o => bool_decide (dynamic_ok o)) (asset_dynamic_data s)
  && all_rows (fun _ o => bool_decide (options_ok o)) (assets s)
  && dyn_injb (assets s)
  && all_rows (not_ownb s) (assets s)
  && all_rows (fun _ => has_recordsb s) (assets s)
  && all_rows (fun _ o => bool_decide (credit_ok o)) (credits s)
  && bool_decide (dyn_of (assets s) core_asset = Some 0)
  && all_rows (fun _ b => bool_decide (genesis_ok b)) (genesis_balances s).

Lemma all_rows_Forall {K A} `{Countable K} (p : K -> A -> bool) (P : K -> A -> Prop) m :
  (forall k x, p k x = true -> P k x) -> all_rows p m = true -> map_Forall P m.
Proof.
  unfold all_rows. rewrite forallb_forall. intros Hp Ha k x Hx. apply Hp.
  apply (Ha (k, x)). by apply list_elem_of_In, elem_of_map_to_list.
Qed.
Lemma backedb_backed s D C : backedb s D C = true -> backed s D C.
Proof.
  unfold backedb. intros E. split; [by destruct (assets s !! D)|].
  intros o b d Ho Hb Hd. rewrite Ho, Hb, Hd in E. by apply Z.eqb_eq.
Qed.
Lemma has_recordsb_has s o : has_recordsb s o = true -> has_records s o.
Proof.
  unfold has_recordsb. intros [E1 E2]%andb_true_iff. split; [by destruct (asset_dynamic_data s !! _)|].
  intros b Hb. rewrite Hb in E2. by destruct (bitasset_data s !! b).
Qed.
Lemma dyn_injb_inj m : dyn_injb m = true -> dyn_inj m.
Proof.
  intros Hm a b d. unfold dyn_of. rewrite !fmap_Some. intros (x & Hx & Ex) (y & Hy & Ey).
  eapply (all_rows_Forall _ (fun a x => map_Forall (fun b y =>
    dynamic_asset_data_id x = dynamic_asset_data_id y -> a = b) m)) in Hm.
  - eapply (Hm a x Hx b y Hy). congruence.
  - intros k z. apply all_rows_Forall. intros k' z'. rewrite orb_true_iff, negb_true_iff. lia.
Qed.
Lemma not_ownb_not s x o : not_ownb s x o = true -> not_own s x o.
Proof.
  unfold not_ownb. intros E b d Hb Hd. rewrite Hb, Hd in E. by apply negb_true_iff, Z.eqb_neq in E.
Qed.
Lemma chain_wfb_wf s : chain_wfb s = true -> chain_wf s.
Proof.
  unfold chain_wfb. rewrite !andb_true_iff. intros ((((((((((((((H1 & H2) & H3) & H4) & H5) & H6) & H10) & H7) & H8) & H9) & H11) & H12) & H13) & H14) & H15).
  split; try by apply dyn_injb_inj. all: try exact (proj1 (bool_decide_eq_true _) H14).
  all: match goal with
  | Hx : all_rows _ _ = true |- map_Forall _ _ => eapply all_rows_Forall; [|exact Hx]; intros k x E;
      first [ by apply Z.leb_le | by apply not_ownb_not | by apply has_recordsb_has | exact (proj1 (bool_decide_eq_true _) E)
            | apply andb_true_iff in E as [E1 E2];
              first [exact (proj1 (bool_decide_eq_true _) E1) | exact (backedb_backed _ _ _ E2)] ]
  end.
Qed.

(** Of the operations, none changes the log of transactions and the head of the
    chain, and only those on proposals change the proposals. *)
Definition head_of (s : database) : Z * block_id_type * Z :=
  (head_block_number (dgp s), head_block_id (dgp s), head_block_time s).
Definition keeps (s s' : database) : Prop :=
  transactions s' = transactions s /\ head_of s' = head_of s /\ proposals s' = proposals s.
#[export] Instance keeps_preorder : PreOrder keeps.
Proof. split; [by intros s|]. intros s1 s2 s3 (? & ? & ?) (? & ? & ?). split_and!; congruence. Qed.

Lemma keeps_time s s' : keeps s s' -> head_block_time s' = head_block_time s.
Proof. by intros (_ & [= _ _ ?] & _). Qed.

(** ** Counted tables *)
Class Counted (A : Type) `{Object A} : Type := {
  weight : database -> Z -> Z -> A -> Z;
  row_ok : database -> Z -> A -> Prop;
  counted_surplus : forall a s m,
    surplus a (set_table m s)
    = surplus a s - sum_map (weight s a) (table s) + sum_map (weight s a) m;
  counted_wf : forall s m,
    chain_wf s -> (forall id, is_Some (table s !! id) -> is_Some (m !! id)) ->
    map_Forall (row_ok s) m -> chain_wf (set_table m s);
  counted_ok : forall s, chain_wf s -> map_Forall (row_ok s) (table s);
  counted_assets : forall s m, assets (set_table m s) = assets s;
  counted_keeps : forall s m, keeps s (set_table m s);
}.

Lemma map_Forall_and_both {A} (P Q : Z -> A -> Prop) (m : gmap Z A) :
  map_Forall (fun k x => P k x /\ Q k x) m <-> map_Forall P m /\ map_Forall Q m.
Proof. unfold map_Forall. naive_solver. Qed.

(** A table whose rows may be removed; no row refers to one of them. *)
Class Removable (A : Type) `{Object A} : Prop :=
  removable_wf : forall s id, chain_wf s -> chain_wf (set_table (delete id (table s)) s).

(** A table that keeps the options of the records it replaces keeps what backs what. *)
Lemma backed_same_opts s m D C :
  map_Forall (same_opts s) m -> backed s D C -> backed (set_bitasset_data m s) D C.
Proof.
  intros Hm [He Hb]. split; [done|]. intros o b d Ho Hbd Hd. cbn in *.
  destruct (Hm _ _ Hd) as (d0 & Hd0 & -> & _). by eapply Hb.
Qed.

Lemma not_own_same_opts s m x o :
  map_Forall (same_opts s) m -> not_own s x o -> not_own (set_bitasset_data m s) x o.
Proof.
  intros Hm Ho b d Hb Hd. cbn in *. destruct (Hm _ _ Hd) as (d0 & Hd0 & -> & _). by eapply Ho.
Qed.

Ltac split_rows :=
  lazymatch goal with
  | Hm : map_Forall (fun k x => @?P k x /\ @?Q k x) ?m |- chain_wf _ =>
      apply map_Forall_and_both in Hm as [? Hm]
  | |- map_Forall (fun k x => @?P k x /\ @?Q k x) ?m => apply map_Forall_and_both; split
  | _ => idtac
  end.
Ltac solve_counted :=
  cbn; intros;
  lazymatch goal with
  | |- assets _ = assets _ => reflexivity
  | |- keeps _ _ => split_and!; reflexivity
  | |- surplus _ _ = _ => unfold surplus; cbn; lia
  | Hw : chain_wf _, Hd : forall id, is_Some _ -> _, Hm : map_Forall _ ?m |- chain_wf _ =>
      split_rows; destruct Hw; split; try assumption;
      try (intros ? ? Hx; match goal with W : map_Forall (fun _ => has_records _) _ |- _ =>
             destruct (W _ _ Hx) as [? ?]; split; cbn; auto end);
      try (intros ? ? Hx; apply backed_same_opts; [exact Hm|];
           match goal with W : map_Forall _ _ |- _ => exact (W _ _ Hx) end);
      try (intros ? ? Hx; apply not_own_same_opts; [exact Hm|];
           match goal with W : map_Forall (not_own _) _ |- _ => exact (W _ _ Hx) end);
      try (intros ? ? Hx; destruct (Hm _ _ Hx) as (? & Hdx & _ & Hf); apply Hf;
           match goal with W : map_Forall (fun _ => feeds_ok) _ |- _ => exact (W _ _ Hdx) end)
  | Hw : chain_wf _ |- map_Forall _ _ =>
      split_rows; destruct Hw; try assumption; try done; intros ? ? ?; eexists; done
  end.

#[export] Program Instance limit_counted : Counted limit_order_object :=
  {| weight _ := w_limit; row_ok _ _ := limit_ok |}.
Solve All Obligations with solve_counted.
#[export] Program Instance call_counted : Counted call_order_object :=
  {| weight _ := w_call; row_ok s _ c := call_ok c /\ call_backed s c |}.
Solve All Obligations with solve_counted.
#[export] Program Instance settlement_counted : Counted force_settlement_object :=
  {| weight _ := w_settlement; row_ok _ _ := settlement_ok |}.
Solve All Obligations with solve_counted.
#[export] Program Instance bid_counted : Counted collateral_bid_object :=
  {| weight _ := w_bid; row_ok s _ b := bid_ok b /\ bid_backed s b |}.
Solve All Obligations with solve_counted.
#[export] Program Instance vesting_counted : Counted vesting_balance_object :=
  {| weight _ := w_vesting; row_ok _ _ _ := True |}.
Solve All Obligations with solve_counted.
#[export] Program Instance statistics_counted : Counted account_statistics_object :=
  {| weight _ := w_statistics; row_ok _ _ _ := True |}.
Solve All Obligations with solve_counted.
#[export] Program Instance bitasset_counted : Counted asset_bitasset_data_object :=
  {| weight _ := w_bitasset; row_ok s id b := bitasset_ok b /\ same_opts s id b |}.
Solve All Obligations with solve_counted.
#[export] Program Instance dynamic_counted : Counted asset_dynamic_data_object :=
  {| weight s := w_dynamic (assets s); row_ok _ _ := dynamic_ok |}.
Solve All Obligations with solve_counted.
#[export] Program Instance credit_counted : Counted credit_object :=
  {| weight _ := w_credit; row_ok _ _ := credit_ok |}.
Solve All Obligations with solve_counted.
#[export] Program Instance fba_counted : Counted fba_accumulator_object :=
  {| weight _ := w_fba; row_ok _ _ _ := True |}.
Solve All Obligations with solve_counted.
#[export] Program Instance genesis_counted : Counted balance_object :=
  {| weight _ := w_genesis; row_ok _ _ := genesis_ok |}.
Solve All Obligations with solve_counted.
Ltac solve_removable :=
  intros ? ? Hw; destruct Hw; split; try assumption; by apply map_Forall_delete.
#[export] Instance limit_removable : Removable limit_order_object.
Proof. solve_removable. Qed.
#[export] Instance call_removable : Removable call_order_object.
Proof. solve_removable. Qed.
#[export] Instance settlement_removable : Removable force_settlement_object.
Proof. solve_removable. Qed.
#[export] Instance bid_removable : Removable collateral_bid_object.
Proof. solve_removable. Qed.
#[export] Instance vesting_removable : Removable vesting_balance_object.
Proof. solve_removable. Qed.
#[export] Instance permit_removable : Removable withdraw_permission_object.
Proof. solve_removable. Qed.
#[export] Instance genesis_removable : Removable balance_object.
Proof. solve_removable. Qed.
#[export] Instance special_authority_removable : Removable special_authority_object.
Proof. solve_removable. Qed.
#[export] Instance credit_removable : Removable credit_object.
Proof. solve_removable. Qed.
(** Tables that hold nothing. *)
Lemma sum_map_0 {A} (m : gmap Z A) : sum_map (fun _ _ => 0) m = 0.
Proof. induction m as [|k x m Hk IH] using map_ind; [done|]. by rewrite sum_map_insert_new. Qed.
Ltac solve_empty_counted := cbn; intros; first [solve_counted | rewrite !sum_map_0; unfold surplus; cbn; lia].
#[export] Program Instance account_counted : Counted account_object :=
  {| weight _ _ _ _ := 0; row_ok _ _ _ := True |}.
Solve All Obligations with solve_empty_counted.
#[export] Program Instance permit_counted : Counted withdraw_permission_object :=
  {| weight _ _ _ _ := 0; row_ok _ _ _ := True |}.
Solve All Obligations with solve_empty_counted.
#[export] Program Instance witness_counted : Counted witness_object :=
  {| weight _ _ _ _ := 0; row_ok _ _ _ := True |}.
Solve All Obligations with solve_empty_counted.

#[export] Program Instance exchange_rate_counted : Counted exchange_rate_object :=
  {| weight _ _ _ _ := 0; row_ok _ _ _ := True |}.
Solve All Obligations with solve_empty_counted.
#[export] Program Instance karma_history_counted : Counted account_history_of_karma_object :=
  {| weight _ _ _ _ := 0; row_ok _ _ _ := True |}.
Solve All Obligations with solve_empty_counted.
#[export] Program Instance block_summary_counted : Counted block_id_type :=
  {| weight _ _ _ _ := 0; row_ok _ _ _ := True |}.
Solve All Obligations with solve_empty_counted.

#[export] Program Instance committee_member_counted : Counted committee_member_object :=
  {| weight _ _ _ _ := 0; row_ok _ _ _ := True |}.
Solve All Obligations with solve_empty_counted.
#[export] Program Instance worker_counted : Counted worker_object :=
  {| weight _ _ _ _ := 0; row_ok _ _ _ := True |}.
Solve All Obligations with solve_empty_counted.
#[export] Program Instance budget_record_counted : Counted budget_record_object :=
  {| weight _ _ _ _ := 0; row_ok _ _ _ := True |}.
Solve All Obligations with solve_empty_counted.
#[export] Program Instance special_authority_counted : Counted special_authority_object :=
  {| weight _ _ _ _ := 0; row_ok _ _ _ := True |}.
Solve All Obligations with solve_empty_counted.
#[export] Program Instance buyback_counted : Counted buyback_object :=
  {| weight _ _ _ _ := 0; row_ok _ _ _ := True |}.
Solve All Obligations with solve_empty_counted.

(** ** The generic operations *)
Section Generic.
Context {A : Type} `{Counted A}.
Implicit Types (s : database) (o : A).

Lemma find_Ok id s (r : option A) s' : find A id s = Ok (r, s') -> r = table s !! id /\ s' = s.
Proof. intros [-> ->]%gets_Ok. done. Qed.

Lemma deref_Ok id s (o : A) s' : deref A id s = Ok (o, s') -> table s !! id = Some o /\ s' = s.
Proof. unfold deref. intros E. inv_ok. apply find_Ok in Hrun as [-> ->]. done. Qed.

Lemma get_Ok id s (o : A) s' : get A id s = Ok (o, s') -> table s !! id = Some o /\ s' = s.
Proof. unfold get. intros E. inv_ok. apply find_Ok in Hrun as [-> ->]. done. Qed.

Lemma modify_Ok id (f : A -> result A) s u s' :
  modify id f s = Ok (u, s') ->
  exists o o', table s !! id = Some o /\ f o = Ok o' /\ s' = set_table (<[id := o']> (table s)) s.
Proof.
  unfold modify. intros E. inv_ok. apply deref_Ok in Hrun as [? ->]. eauto.
Qed.

Lemma remove_Ok id s u s' :
  remove A id s = Ok (u, s') ->
  exists o, table s !! id = Some o /\ s' = set_table (delete id (table s)) s.
Proof. unfold remove. intros E. inv_ok. apply deref_Ok in Hrun as [? ->]. eauto. Qed.

Lemma create_Ok `{UniqueKey A} (o : A) s id s' :
  create o s = Ok (id, s') ->
  table s !! id = None
  /\ s' = set_next_instances (<[type_id := id + 1]> (next_instances s))
            (set_table (<[id := o]> (table s)) s).
Proof.
  unfold create. intros E. inv_ok. split; [|done].
  match goal with Hb : bool_decide _ = true |- _ => by apply bool_decide_eq_true in Hb end.
Qed.

Lemma surplus_next a m s : surplus a (set_next_instances m s) = surplus a s.
Proof. done. Qed.
Lemma wf_next m s : chain_wf s -> chain_wf (set_next_instances m s).
Proof. by intros []. Qed.

Lemma surplus_insert a s id o o' :
  table s !! id = Some o ->
  surplus a (set_table (<[id := o']> (table s)) s)
  = surplus a s + weight s a id o' - weight s a id o.
Proof. intros E. rewrite counted_surplus, (sum_map_insert _ _ _ _ _ E). lia. Qed.

Lemma surplus_new a s id o :
  table s !! id = None ->
  surplus a (set_table (<[id := o]> (table s)) s) = surplus a s + weight s a id o.
Proof. intros E. rewrite counted_surplus, (sum_map_insert_new _ _ _ _ E). lia. Qed.

Lemma surplus_delete a s id o :
  table s !! id = Some o ->
  surplus a (set_table (delete id (table s)) s) = surplus a s - weight s a id o.
Proof. intros E. rewrite counted_surplus, (sum_map_delete _ _ _ _ E). lia. Qed.

Lemma wf_insert s id o :
  chain_wf s -> row_ok s id o -> chain_wf (set_table (<[id := o]> (table s)) s).
Proof.
  intros Hw Ho. apply counted_wf; [done| |].
  - intros k Hk. rewrite lookup_insert_is_Some'. by right.
  - apply map_Forall_insert_2; [done|]. by apply counted_ok.
Qed.
Lemma wf_lookup s id o : chain_wf s -> table s !! id = Some o -> row_ok s id o.
Proof. intros Hw. apply counted_ok, Hw. Qed.
End Generic.

(** ** Steps: what a run does to the supply *)
Record step (f : Z -> Z) (s s' : database) : Prop := {
  step_wf : chain_wf s -> chain_wf s';
  step_assets : assets s' = assets s;
  step_surplus : forall a, surplus a s' = surplus a s + f a;
  step_keeps : keeps s s';
}.

Lemma step_refl s : step (fun _ => 0) s s.
Proof. split; [done|done|intros; lia|done]. Qed.
Lemma step_trans f g s1 s2 s3 : step f s1 s2 -> step g s2 s3 -> step (fun a => f a + g a) s1 s3.
Proof.
  intros [W1 A1 S1 K1] [W2 A2 S2 K2]. split; [auto|congruence| |by etrans]. intros a. rewrite S2, S1. lia.
Qed.
Lemma step_ext f g s s' : (forall a, f a = g a) -> step f s s' -> step g s s'.
Proof. intros E [W A S K]. split; [done|done| |done]. intros a. by rewrite S, E. Qed.

(** What a whole operation does: like a step, but it may change the assets. *)
Record conserves (f : Z -> Z) (s s' : database) : Prop := {
  cons_wf : chain_wf s -> chain_wf s';
  cons_surplus : forall a, surplus a s' = surplus a s + f a;
  cons_keeps : keeps s s';
}.
Lemma step_conserves f s s' : step f s s' -> conserves f s s'.
Proof. by intros []. Qed.
Lemma conserves_trans f g s1 s2 s3 :
  conserves f s1 s2 -> conserves g s2 s3 -> conserves (fun a => f a + g a) s1 s3.
Proof. intros [W1 S1 K1] [W2 S2 K2]. split; [auto| |by etrans]. intros a. rewrite S2, S1. lia. Qed.
Lemma conserves_ext f g s s' : (forall a, f a = g a) -> conserves f s s' -> conserves g s s'.
Proof. intros E [W S K]. split; [done| |done]. intros a. by rewrite S, E. Qed.

(** The change of the surplus when an object is written. *)
Lemma step_modify `{Counted A} s id (o o' : A) :
  table s !! id = Some o -> (chain_wf s -> row_ok s id o') ->
  step (fun a => weight s a id o' - weight s a id o) s (set_table (<[id := o']> (table s)) s).
Proof.
  intros Hl Ho. split; [|apply counted_assets| |apply counted_keeps].
  - intros Hw. apply wf_insert; auto.
  - intros a. rewrite (surplus_insert a s id o o' Hl). lia.
Qed.
Lemma step_remove `{Counted A, !Removable A} s id (o : A) :
  table s !! id = Some o ->
  step (fun a => - weight s a id o) s (set_table (delete id (table s)) s).
Proof.
  intros Hl. split; [|apply counted_assets| |apply counted_keeps].
  - intros Hw. by apply removable_wf.
  - intros a. rewrite (surplus_delete a s id o Hl). lia.
Qed.
Lemma step_new `{Counted A} s id (o : A) m :
  table s !! id = None -> (chain_wf s -> row_ok s id o) ->
  step (fun a => weight s a id o) s
    (set_next_instances m (set_table (<[id := o]> (table s)) s)).
Proof.
  intros Hl Ho. split; [|apply counted_assets| |exact (counted_keeps s _)].
  - intros Hw. apply wf_next, wf_insert; auto.
  - intros a. rewrite surplus_next, (surplus_new a s id o Hl). lia.
Qed.

(** The operations as steps. *)
Lemma modify_step `{Counted A} id (f : A -> result A) s u s' :
  modify id f s = Ok (u, s') ->
  exists o o', table s !! id = Some o /\ f o = Ok o' /\ s' = set_table (<[id := o']> (table s)) s
    /\ ((chain_wf s -> row_ok s id o') -> step (fun a => weight s a id o' - weight s a id o) s s').
Proof.
  intros (o & o' & Ho & Hf & ->)%modify_Ok. exists o, o'. split_and!; try done.
  intros. by apply step_modify.
Qed.
Lemma remove_step `{Counted A, !Removable A} id s u s' :
  remove A id s = Ok (u, s') ->
  exists o, table s !! id = Some o /\ s' = set_table (delete id (table s)) s
    /\ step (fun a => - weight s a id o) s s'.
Proof. intros (o & Ho & ->)%remove_Ok. exists o. split_and!; try done. by apply step_remove. Qed.
Lemma create_step `{Counted A, UniqueKey A} (o : A) s id s' :
  create o s = Ok (id, s') ->
  table s !! id = None
  /\ s' = set_next_instances (<[type_id := id + 1]> (next_instances s))
            (set_table (<[id := o]> (table s)) s)
  /\ ((chain_wf s -> row_ok s id o) -> step (fun a => weight s a id o) s s').
Proof. intros [Hl ->]%create_Ok. split_and!; try done. intros. by apply step_new. Qed.

Lemma step_push op s u s' : push_applied_operation op s = Ok (u, s') ->
  s' = set_applied_ops (applied_ops s ++ [op]) s.
Proof. unfold push_applied_operation. intros E. by inv_ok. Qed.
Lemma step_ops l s : step (fun _ => 0) s (set_applied_ops l s).
Proof. split; [by intros []|done| |done]. intros a. unfold surplus. cbn. lia. Qed.
Lemma push_step op s u s' : push_applied_operation op s = Ok (u, s') ->
  s' = set_applied_ops (applied_ops s ++ [op]) s /\ step (fun _ => 0) s s'.
Proof. intros ->%step_push. split; [done|apply step_ops]. Qed.
Lemma when_push_step b op s u s' : when b (push_applied_operation op) s = Ok (u, s') ->
  (exists l, s' = set_applied_ops l s) /\ step (fun _ => 0) s s'.
Proof.
  intros [[_ E]|[_ ->]]%when_Ok.
  - apply push_step in E as [-> Hs]. eauto.
  - split; [|apply step_refl]. exists (applied_ops s). by destruct s.
Qed.
(** Two readings of an object between which its table did not change. *)
Ltac same_object :=
  match goal with |- ?x = ?y => subst; cbn in *; congruence end.

(** ** Balances *)
Section Balances.
Context `{SafeLaws}.

Lemma asset_in_0 a id : asset_in a (mk_asset 0 id) = 0.
Proof. unfold asset_in, if_asset. cbn. by case_match. Qed.

Lemma adjust_balance_Ok account delta s u s' :
  adjust_balance account delta s = Ok (u, s') ->
  exists m, s' = set_account_balances m s
    /\ (forall a, sum_map (w_balance a) m = sum_map (w_balance a) (account_balances s) + asset_in a delta)
    /\ (map_Forall (fun _ n => 0 <= n) (account_balances s) -> map_Forall (fun _ n => 0 <= n) m).
Proof.
  unfold adjust_balance. destruct (Z.eqb_spec (amount delta) 0) as [E0|E0].
  - intros E. inv_ok. exists (account_balances s'). split_and!; [by destruct s'| |done].
    intros a. unfold asset_in, if_asset. rewrite E0. case_match; lia.
  - intros E. inv_ok1. inv_ok1.
    destruct (account_balances s !! (account, asset_id delta)) as [bal|] eqn:Hl.
    + assert (Hb : exists bal', bal' = bal + amount delta
                    /\ s' = set_account_balances (<[(account, asset_id delta) := bal']> (account_balances s)) s
                    /\ (0 <= bal -> 0 <= bal')).
      { destruct (Z.ltb_spec (amount delta) 0) as [Hneg|Hpos]; inv_ok;
          match goal with Hx : safe_add _ _ = Ok _ |- _ => apply safe_add_spec in Hx as [-> _] end;
          eexists; split_and!; try done; [|lia].
        match goal with Hn : asset_neg _ = Ok _ |- _ => apply asset_neg_Ok in Hn as -> end.
        match goal with Hg : asset_ge _ _ = Ok true |- _ => apply asset_ge_Ok in Hg as [_ Hg];
          symmetry in Hg; apply Z.leb_le in Hg; cbn in Hg end. lia. }
      destruct Hb as (bal' & -> & -> & Hpos). eexists. split_and!; [done| |].
      * intros a. rewrite (sum_map_insert _ _ _ _ _ Hl). unfold w_balance, asset_in, if_asset. cbn.
        destruct (asset_id delta =? a); lia.
      * intros Hf. apply map_Forall_insert_2; [|done]. exact (Hpos (Hf _ _ Hl)).
    + inv_ok. match goal with Hp : (0 <? _) = true |- _ => apply Z.ltb_lt in Hp end.
      eexists. split_and!; [done| |].
      * intros x. rewrite (sum_map_insert_new _ _ _ _ Hl). unfold w_balance, asset_in, if_asset. cbn.
        destruct (asset_id delta =? x); lia.
      * intros Hf. apply map_Forall_insert_2; [lia|done].
Qed.

Lemma step_balances f m s :
  (forall a, sum_map (w_balance a) m = sum_map (w_balance a) (account_balances s) + f a) ->
  (map_Forall (fun _ n => 0 <= n) (account_balances s) -> map_Forall (fun _ n => 0 <= n) m) ->
  step f s (set_account_balances m s).
Proof.
  intros Hs Hf. split; [|done| |done].
  - intros []. split; auto.
  - intros a. unfold surplus. cbn. rewrite Hs. lia.
Qed.

Lemma adjust_balance_step account delta s u s' :
  adjust_balance account delta s = Ok (u, s') ->
  (exists m, s' = set_account_balances m s) /\ step (fun a => asset_in a delta) s s'.
Proof.
  intros (m & -> & Hs & Hf)%adjust_balance_Ok. split; [by eexists|]. by apply step_balances.
Qed.

Lemma stats_pay_fee_weight fee th st st' s a i :
  stats_pay_fee fee th st = Ok st' ->
  weight s a i st' = weight s a i st + if_asset a core_asset fee.
Proof.
  unfold stats_pay_fee. case_match; intros E; inv_ok;
    match goal with Hs : safe_add _ _ = Ok _ |- _ => apply safe_add_spec in Hs as [-> _] end;
    cbn; unfold w_statistics, if_asset; cbn; case_match; lia.
Qed.

Lemma dyn_of_eqb s x o a :
  chain_wf s -> assets s !! x = Some o ->
  bool_decide (dyn_of (assets s) a = Some (dynamic_asset_data_id o)) = (x =? a).
Proof.
  intros Hw Hx. assert (Hd : dyn_of (assets s) x = Some (dynamic_asset_data_id o)).
  { unfold dyn_of. by rewrite Hx. }
  destruct (Z.eqb_spec x a) as [<-|Hne]; [by apply bool_decide_eq_true|].
  apply bool_decide_eq_false. intros Ha. apply Hne. by eapply (wf_dyn s Hw).
Qed.

Lemma statistics_of_Ok account s st s' :
  statistics_of account s = Ok (st, s') ->
  s' = s /\ exists a, accounts s !! account = Some a /\ st = statistics a
    /\ is_Some (account_statistics s !! st).
Proof.
  unfold statistics_of. intros E. inv_ok. apply get_Ok in Hrun as [Ha ->].
  apply get_Ok in Hrun0 as [Hst ->]. split; [done|]. eauto.
Qed.
Lemma dynamic_of_Ok o s d s' :
  dynamic_of o s = Ok (d, s') ->
  s' = s /\ d = dynamic_asset_data_id o /\ is_Some (asset_dynamic_data s !! d).
Proof. unfold dynamic_of. intros E. inv_ok. apply get_Ok in Hrun as [Ha ->]. eauto. Qed.
End Balances.

(** ** Proof steps for runs: the operations in the context become their
    equations and their effect on the supply. *)
Ltac op_ok1 :=
  match goal with
  | H : adjust_balance _ _ _ = Ok _ |- _ =>
      let m := fresh "bals" in let E := fresh "Es" in let S := fresh "St" in
      apply adjust_balance_step in H as [[m E] S]
  | H : push_applied_operation _ _ = Ok _ |- _ =>
      let E := fresh "Es" in let S := fresh "St" in apply push_step in H as [E S]
  | H : modify _ _ _ = Ok _ |- _ =>
      let o := fresh "o" in let o' := fresh "o'" in let L := fresh "Lk" in let F := fresh "Fn" in
      let E := fresh "Es" in let S := fresh "St" in apply modify_step in H as (o & o' & L & F & E & S);
      try specialize (S (fun _ => I))
  | H : remove _ _ _ = Ok _ |- _ =>
      let o := fresh "o" in let L := fresh "Lk" in let E := fresh "Es" in let S := fresh "St" in
      apply remove_step in H as (o & L & E & S)
  | H : create _ _ = Ok _ |- _ =>
      let L := fresh "Lk" in let E := fresh "Es" in let S := fresh "St" in
      apply create_step in H as (L & E & S); try specialize (S (fun _ => I))
  | H : when _ (push_applied_operation _) _ = Ok _ |- _ =>
      let l := fresh "ops" in let E := fresh "Es" in let S := fresh "St" in
      apply when_push_step in H as [[l E] S]
  | H : deref _ _ _ = Ok _ |- _ => let L := fresh "Lk" in apply deref_Ok in H as [L ->]
  | H : get _ _ _ = Ok _ |- _ => let L := fresh "Lk" in apply get_Ok in H as [L ->]
  | H : find _ _ _ = Ok _ |- _ => apply find_Ok in H as [-> ->]
  | H : statistics_of _ _ = Ok _ |- _ =>
      let L := fresh "Lk" in apply statistics_of_Ok in H as (-> & ? & L & -> & ?)
  | H : dynamic_of _ _ = Ok _ |- _ => apply dynamic_of_Ok in H as (-> & -> & ?)
  end.
Ltac op_ok := repeat first [run_ok1 | op_ok1].
(** Compose the steps in the context into the step of the whole run. *)
Ltac compose_steps :=
  repeat first [eassumption | eapply step_refl | eapply step_trans; [eassumption|]].
Ltac weigh :=
  unfold weight; cbn;
  unfold w_limit, w_call, w_settlement, w_bid, w_statistics, w_bitasset, w_dynamic, w_vesting,
    asset_in, if_asset, amount_for_sale, get_collateral, get_debt, debt_type in *; cbn;
  repeat match goal with |- context [if ?b then _ else _] => destruct b eqn:? end; try lia.
End Accounting.
