(* ===== verification/Market.v ===== *)
(** * The market ([db_market.cpp], [market_object.hpp], and
    [check_for_blackswan] of [db_update.cpp])

    Limit orders are matched with each other and with margin calls; margin
    positions are closed at a black swan and a settled asset is revived from
    bids.  An iterator of an index is the identifier of its object ([None] is
    [end()]) and is moved along the index's traversal, as the code moves it;
    dereferencing one whose object was removed is [dangling].  The loops take
    fuel from the number of orders, which is enough (the termination theorem). *)
From Stdlib Require Import ZArith Lia String.
From stdpp Require Import base gmap sets list strings.
From S2P Require Import Prelude External Asset Vesting Chain Balance Accounting.

Module Market.
Import Asset Vesting Chain Balance Accounting.

#[export] Instance limit_unique : UniqueKey limit_order_object := fun _ _ => false.
#[export] Instance settlement_unique : UniqueKey force_settlement_object := fun _ _ => false.
(** [by_account] of the call orders and of the bids is unique. *)
#[export] Instance call_unique : UniqueKey call_order_object :=
  fun c d => (borrower c =? borrower d) && (debt_type c =? debt_type d).
Definition bid_debt_type (b : collateral_bid_object) : Z := asset_id (quote (inv_swan_price b)).
#[export] Instance bid_unique : UniqueKey collateral_bid_object :=
  fun b c => (bid_debt_type b =? bid_debt_type c) && (bidder b =? bidder c).

Section Market.
Context `{SafeOps, U128Ops, RationalOps, IndexOps} {EX : Exhausted database}.

(** ** Objects ([asset_object.hpp], [market_object.hpp]) *)
Definition is_market_issued (o : asset_object) : bool :=
  match bitasset_data_id o with Some _ => true | None => false end.
Definition charges_market_fees (o : asset_object) : bool := negb (Z.land (flags (options o)) 1 =? 0).
Definition has_settlement (b : asset_bitasset_data_object) : bool := negb (is_null (swan_price b)).
Definition amount_to_receive (o : limit_order_object) : result asset :=
  asset_mul (amount_for_sale o) (sell_price o).
Definition collateralization (c : call_order_object) : result price :=
  price_div (get_collateral c) (get_debt c).
Definition share_min (x y : asset) : result asset := b ← asset_lt y x; Ok (if (b : bool) then y else x).

(** ** The indexes [by_price] and their iterators *)
Definition iterator : Type := option Z.
Fixpoint first_with {A} (p : A -> bool) (l : list (Z * A)) : iterator :=
  match l with
  | [] => None
  | (id, x) :: l' => if p x then Some id else first_with p l'
  end.
(** [++itr] on a valid iterator. *)
Fixpoint next_in {A} (id : Z) (l : list (Z * A)) : result iterator :=
  match l with
  | [] => Throw dangling
  | (id', _) :: l' =>
      if id =? id' then Ok (match l' with [] => None | (n, _) :: _ => Some n end) else next_in id l'
  end.

(** [composite_key_compare< std::greater<price>, std::less<object_id_type> >]. *)
Definition limit_before (x y : Z * limit_order_object) : bool :=
  if price_gt (sell_price x.2) (sell_price y.2) then true
  else if price_gt (sell_price y.2) (sell_price x.2) then false else x.1 <? y.1.
Definition limit_book (s : database) : list (Z * limit_order_object) :=
  ordered limit_before (map_to_list (limit_orders s)).
Definition limit_lower_bound (p : price) (s : database) : iterator :=
  first_with (fun o => negb (price_gt (sell_price o) p)) (limit_book s).
Definition limit_upper_bound (p : price) (s : database) : iterator :=
  first_with (fun o => price_gt p (sell_price o)) (limit_book s).

Definition call_before (x y : Z * call_order_object) : bool :=
  if price_lt (order_call_price x.2) (order_call_price y.2) then true
  else if price_lt (order_call_price y.2) (order_call_price x.2) then false else x.1 <? y.1.
Definition call_book (s : database) : list (Z * call_order_object) :=
  ordered call_before (map_to_list (call_orders s)).
Definition call_lower_bound (p : price) (s : database) : iterator :=
  first_with (fun o => negb (price_lt (order_call_price o) p)) (call_book s).
Definition call_upper_bound (p : price) (s : database) : iterator :=
  first_with (fun o => price_lt p (order_call_price o)) (call_book s).

Definition bid_before (x y : Z * collateral_bid_object) : bool :=
  if bid_debt_type x.2 <? bid_debt_type y.2 then true
  else if bid_debt_type y.2 <? bid_debt_type x.2 then false
  else if price_gt (inv_swan_price x.2) (inv_swan_price y.2) then true
  else if price_gt (inv_swan_price y.2) (inv_swan_price x.2) then false else x.1 <? y.1.
Definition bid_book (s : database) : list (Z * collateral_bid_object) :=
  ordered bid_before (map_to_list (collateral_bids s)).

Definition next_limit (it : iterator) : M database iterator :=
  match it with
  | None => throw dangling
  | Some id => s ← get_state; lift (next_in id (limit_book s))
  end.
Definition next_call (it : iterator) : M database iterator :=
  match it with
  | None => throw dangling
  | Some id => s ← get_state; lift (next_in id (call_book s))
  end.
Definition next_bid (it : iterator) : M database iterator :=
  match it with
  | None => throw dangling
  | Some id => s ← get_state; lift (next_in id (bid_book s))
  end.
Definition at_itr (A : Type) `{Object A} (it : iterator) : M database (Z * A) :=
  match it with
  | None => throw dangling
  | Some id => o ← deref A id; mret (id, o)
  end.

(** [mia.bitasset_data(db)] and [mia.dynamic_asset_data_id(db)]. *)
Definition bitasset_of (mia : Z) : M database Z :=
  o ← deref asset_object mia;
  bid ← lift (of_option (bitasset_data_id o) "bitasset_data_id");
  _ ← get asset_bitasset_data_object bid; mret bid.

(** ** Statistics and supply *)
Definition add_core_in_orders (x : Z) (st : account_statistics_object)
  : result account_statistics_object :=
  n ← safe_add (total_core_in_orders st) x;
  Ok (mk_statistics n (lifetime_fees_paid st) (pending_fees st) (pending_vested_fees st)).
Definition sub_core_in_orders (x : Z) (st : account_statistics_object)
  : result account_statistics_object :=
  n ← safe_sub (total_core_in_orders st) x;
  Ok (mk_statistics n (lifetime_fees_paid st) (pending_fees st) (pending_vested_fees st)).
Definition set_for_sale (n fee : Z) (o : limit_order_object) : limit_order_object :=
  mk_limit_order (expiration o) (seller o) n (sell_price o) fee.
Definition set_position (c d : Z) (o : call_order_object) : call_order_object :=
  mk_call_order (borrower o) c d (order_call_price o).
Definition set_settlement_balance (b : asset) (f : force_settlement_object) : force_settlement_object :=
  mk_settlement (settlement_owner f) b (settlement_date f).
Definition set_swan (p : price) (fund : Z) (b : asset_bitasset_data_object)
  : asset_bitasset_data_object :=
  mk_bitasset_data (bitasset_opts b) (feeds b) (current_feed b) (current_feed_publication_time b)
    (is_prediction_market b) (force_settled_volume b) p fund.
Definition set_supply (n : Z) (d : asset_dynamic_data_object) : asset_dynamic_data_object :=
  mk_dynamic_data n (confidential_supply d) (accumulated_fees d) (fee_pool d).

(** ** Cancelling *)
Definition cancel_settlement (id : Z) (create_virtual_op : bool) : M database unit :=
  order ← deref force_settlement_object id;
  _ ← adjust_balance (settlement_owner order) (settlement_balance order);
  _ ← when create_virtual_op (push_applied_operation
         (asset_settle_cancel_vop id (settlement_owner order) (settlement_balance order)));
  remove force_settlement_object id.

Definition cancel_order (id : Z) (create_virtual_op : bool) : M database unit :=
  order ← deref limit_order_object id;
  let refunded := amount_for_sale order in
  stats ← statistics_of (seller order);
  _ ← modify stats (fun st =>
        if asset_id refunded =? core_asset then sub_core_in_orders (amount refunded) st else Ok st);
  _ ← adjust_balance (seller order) refunded;
  _ ← adjust_balance (seller order) (mk_asset (deferred_fee order) core_asset);
  _ ← when create_virtual_op (push_applied_operation (limit_order_cancel_vop id (seller order)));
  remove limit_order_object id.

Definition cancel_bid (id : Z) (create_virtual_op : bool) : M database unit :=
  bid ← deref collateral_bid_object id;
  _ ← adjust_balance (bidder bid) (base (inv_swan_price bid));
  _ ← when create_virtual_op (push_applied_operation
         (bid_collateral_vop (bidder bid) (base (inv_swan_price bid)) (mk_asset 0 (bid_debt_type bid))));
  remove collateral_bid_object id.

Definition maybe_cull_small_order (id : Z) : M database bool :=
  order ← deref limit_order_object id;
  r ← lift (amount_to_receive order);
  if amount r =? 0 then _ ← cancel_order id true; mret true else mret false.

(** ** Market fees *)
Definition calculate_market_fee (trade_asset : Z) (trade_amount : asset) : M database asset :=
  o ← deref asset_object trade_asset;
  if negb (charges_market_fees o) then mret (mk_asset 0 trade_asset)
  else if market_fee_percent (options o) =? 0 then mret (mk_asset 0 trade_asset)
  else
    fee ← lift (u128_ratio (amount trade_amount) (market_fee_percent (options o)) GRAPHENE_100_PERCENT);
    mret (mk_asset (if max_market_fee (options o) <? fee then max_market_fee (options o) else fee)
            trade_asset).
Definition pay_market_fees (recv_asset : Z) (receives : asset) : M database asset :=
  issuer_fees ← calculate_market_fee recv_asset receives;
  if 0 <? amount issuer_fees then
    o ← deref asset_object recv_asset;
    dyn ← dynamic_of o;
    _ ← modify dyn (add_accumulated (amount issuer_fees));
    mret issuer_fees
  else mret issuer_fees.

(** ** Filling *)
Definition pay_order (receiver : Z) (receives pays : asset) : M database unit :=
  stats ← statistics_of receiver;
  _ ← modify stats (fun st =>
        if asset_id pays =? core_asset then sub_core_in_orders (amount pays) st else Ok st);
  adjust_balance receiver receives.

Definition fill_limit_order (id : Z) (pays receives : asset) (cull_if_small : bool)
    (fill_price : price) (is_maker : bool) : M database bool :=
  now ← gets head_block_time;
  let cull_if_small := cull_if_small || (now <? HARDFORK_555_TIME) in
  order ← deref limit_order_object id;
  _ ← require (asset_id (amount_for_sale order) =? asset_id pays) "order.amount_for_sale().asset_id == pays.asset_id";
  _ ← require (negb (asset_id pays =? asset_id receives)) "pays.asset_id != receives.asset_id";
  _ ← get account_object (seller order);
  _ ← get asset_object (asset_id receives);
  issuer_fees ← pay_market_fees (asset_id receives) receives;
  net ← lift (asset_sub receives issuer_fees);
  _ ← pay_order (seller order) net pays;
  _ ← push_applied_operation
        (fill_order_operation (limit_order_ref id) (seller order) pays receives issuer_fees fill_price is_maker);
  _ ← when (0 <? deferred_fee order)
        (stats ← statistics_of (seller order);
         threshold ← gets (fun s => cashback_vesting_threshold (parameters (gpo s)));
         modify stats (stats_pay_fee (deferred_fee order) threshold));
  if asset_eqb pays (amount_for_sale order) then
    _ ← remove limit_order_object id; mret true
  else
    _ ← modify id (fun b => n ← safe_sub (for_sale b) (amount pays); Ok (set_for_sale n 0 b));
    if cull_if_small then maybe_cull_small_order id else mret false.

(** The part of [fill_order] of a call order that pays the borrower back. *)
Definition release_collateral (account : Z) (collateral_freed : option asset) (pays : asset)
  : M database unit :=
  when ((match collateral_freed with Some _ => true | None => false end)
        || (asset_id pays =? core_asset))
    (stats ← statistics_of account;
     _ ← match collateral_freed with
         | Some freed => adjust_balance account freed
         | None => mret tt
         end;
     modify stats (fun st : account_statistics_object =>
       st ← match collateral_freed with
            | Some freed => if 0 <? amount freed then sub_core_in_orders (amount freed) st else Ok st
            | None => Ok st
            end;
       if asset_id pays =? core_asset then sub_core_in_orders (amount pays) st else Ok st)).

Definition fill_call_order (id : Z) (pays receives : asset) (fill_price : price) (is_maker : bool)
  : M database bool :=
  order ← deref call_order_object id;
  _ ← require (asset_id (get_debt order) =? asset_id receives) "order.get_debt().asset_id == receives.asset_id";
  _ ← require (asset_id (get_collateral order) =? asset_id pays) "order.get_collateral().asset_id == pays.asset_id";
  enough ← lift (asset_ge (get_collateral order) pays);
  _ ← require enough "order.get_collateral() >= pays";
  d ← lift (safe_sub (debt order) (amount receives));
  c ← lift (safe_sub (collateral order) (amount pays));
  let collateral_freed := if d =? 0 then Some (mk_asset c (asset_id (get_collateral order))) else None in
  _ ← modify id (fun o => Ok (set_position (if d =? 0 then 0 else c) d o));
  mia ← get asset_object (asset_id receives);
  dyn ← dynamic_of mia;
  _ ← modify dyn (sub_supply (amount receives));
  _ ← get account_object (borrower order);
  _ ← release_collateral (borrower order) collateral_freed pays;
  _ ← push_applied_operation
        (fill_order_operation (call_order_ref id) (borrower order) pays receives
           (mk_asset 0 (asset_id pays)) fill_price is_maker);
  match collateral_freed with
  | Some _ => _ ← remove call_order_object id; mret true
  | None => mret false
  end.

Definition fill_settlement (id : Z) (pays receives : asset) (fill_price : price) (is_maker : bool)
  : M database bool :=
  _ ← get asset_object (asset_id receives);
  issuer_fees ← pay_market_fees (asset_id receives) receives;
  settle ← deref force_settlement_object id;
  partial ← lift (asset_lt pays (settlement_balance settle));
  _ ← when partial (modify id (fun s =>
        b ← asset_sub (settlement_balance s) pays; Ok (set_settlement_balance b s)));
  net ← lift (asset_sub receives issuer_fees);
  _ ← adjust_balance (settlement_owner settle) net;
  _ ← push_applied_operation
        (fill_order_operation (settlement_ref id) (settlement_owner settle) pays receives issuer_fees
           fill_price is_maker);
  if (partial : bool) then mret false else _ ← remove force_settlement_object id; mret true.

(** ** Matching *)
(** What each side of a match of two limit orders receives. *)
Definition match_amounts (usd_for_sale core_for_sale : asset) (match_price : price)
  : result (asset * asset) :=
  core_value ← asset_mul core_for_sale match_price;
  b ← asset_le usd_for_sale core_value;
  if (b : bool) then usd_receives ← asset_mul usd_for_sale match_price; Ok (usd_receives, usd_for_sale)
  else core_receives ← asset_mul core_for_sale match_price; Ok (core_for_sale, core_receives).
(** Which orders were filled: [1] the first, [2] the second, [3] both. *)
Definition match_limit (usd core : Z) (match_price : price) : M database Z :=
  u ← deref limit_order_object usd;
  c ← deref limit_order_object core;
  r ← lift (match_amounts (amount_for_sale u) (amount_for_sale c) match_price);
  let '(usd_receives, core_receives) := (r : asset * asset) in
  usd_filled ← fill_limit_order usd core_receives usd_receives false match_price false;
  core_filled ← fill_limit_order core usd_receives core_receives true match_price true;
  mret ((if (usd_filled : bool) then 1 else 0) + (if (core_filled : bool) then 2 else 0)).

(** The exception [black_swan_exception]. *)
Definition black_swan : string := "black_swan_exception".
Definition match_settlement (call settle : Z) (match_price : price) (max_settlement : asset)
  : M database asset :=
  c ← deref call_order_object call;
  f ← deref force_settlement_object settle;
  _ ← require (asset_id (get_debt c) =? asset_id (settlement_balance f)) "call.get_debt().asset_id == settle.balance.asset_id";
  _ ← require ((0 <? debt c) && (0 <? collateral c) && (0 <? amount (settlement_balance f)))
        "call.debt > 0 && call.collateral > 0 && settle.balance.amount > 0";
  settle_for_sale ← lift (share_min (settlement_balance f) max_settlement);
  call_receives ← lift (share_min settle_for_sale (get_debt c));
  call_pays ← lift (asset_mul call_receives match_price);
  covered ← lift (asset_lt call_pays (get_collateral c));
  _ ← require covered black_swan;
  _ ← fill_call_order call call_pays call_receives match_price true;
  _ ← fill_settlement settle call_receives call_pays match_price false;
  mret call_receives.

(** ** Black swans *)
Fixpoint settle_calls (fuel : nat) (settlement_price : price) (call_end call_itr : iterator)
    (collateral_gathered : asset) : M database asset :=
  if bool_decide (call_itr = call_end) then mret collateral_gathered
  else
    match fuel with
    | O => exhausted
    | S fuel' =>
        p ← at_itr call_order_object call_itr;
        let '(id, call) := (p : Z * call_order_object) in
        value ← lift (asset_mul (get_debt call) settlement_price);
        over ← lift (asset_gt value (get_collateral call));
        let pays := if (over : bool) then get_collateral call else value in
        gathered ← lift (asset_add collateral_gathered pays);
        call_itr' ← next_call call_itr;
        filled ← fill_call_order id pays (get_debt call) settlement_price true;
        _ ← require filled "fill_order( order, pays, order.get_debt(), settlement_price, true )";
        settle_calls fuel' settlement_price call_end call_itr' gathered
    end.

Definition globally_settle_asset (mia : Z) (settlement_price : price) : M database unit :=
  bid ← bitasset_of mia;
  bitasset ← deref asset_bitasset_data_object bid;
  _ ← require (negb (has_settlement bitasset)) "black swan already occurred, it should not happen again";
  let backing := short_backing_asset (bitasset_opts bitasset) in
  _ ← get asset_object backing;
  o ← deref asset_object mia;
  dyn ← dynamic_of o;
  mia_dyn ← deref asset_dynamic_data_object dyn;
  let original_mia_supply := current_supply mia_dyn in
  lo ← lift (price_min backing mia);
  hi ← lift (price_max backing mia);
  call_itr ← gets (call_lower_bound lo);
  call_end ← gets (call_upper_bound hi);
  fuel ← gets (fun s => S (size (call_orders s)));
  gathered ← settle_calls fuel settlement_price call_end call_itr (mk_asset 0 backing);
  _ ← modify bid (fun obj =>
        p ← price_div (mk_asset original_mia_supply mia) gathered;
        Ok (set_swan p (amount gathered) obj));
  modify dyn (fun obj => Ok (set_supply original_mia_supply obj)).

(** [std::max] of two prices. *)
Definition std_max (a b : price) : price := if price_lt a b then b else a.
Definition check_for_blackswan (mia : Z) (enable_black_swan : bool) : M database bool :=
  o ← deref asset_object mia;
  if negb (is_market_issued o) then mret false
  else
    bid ← bitasset_of mia;
    bitasset ← deref asset_bitasset_data_object bid;
    if has_settlement bitasset then mret true
    else
      let settle_price := settlement_price (current_feed bitasset) in
      if is_null settle_price then mret false
      else
        let backing := short_backing_asset (bitasset_opts bitasset) in
        highest_possible_bid ← lift (price_max mia backing);
        lowest_possible_bid ← lift (price_min mia backing);
        limit_itr ← gets (limit_lower_bound highest_possible_bid);
        limit_end ← gets (limit_upper_bound lowest_possible_bid);
        call_min ← lift (price_min backing mia);
        call_max ← lift (price_max backing mia);
        call_itr ← gets (call_lower_bound call_min);
        call_end ← gets (call_upper_bound call_max);
        if bool_decide (call_itr = call_end) then mret false
        else
          highest ← (if bool_decide (limit_itr = limit_end) then mret settle_price
                     else l ← at_itr limit_order_object limit_itr;
                          mret (std_max (sell_price (snd l)) settle_price));
          c ← at_itr call_order_object call_itr;
          least_collateral ← lift (collateralization (snd c));
          if price_ge (price_inv least_collateral) highest then
            _ ← require enable_black_swan
                  "Black swan was detected during a margin update which is not allowed to trigger a blackswan";
            _ ← globally_settle_asset mia (price_inv least_collateral);
            mret true
          else mret false.

(** ** Margin calls *)
(** What changes hands in one margin call, and which orders it is to fill. *)
Definition call_amounts (usd_to_buy usd_for_sale : asset) (match_price : price)
  : result (asset * asset * bool * bool) :=
  b ← asset_ge usd_to_buy usd_for_sale;
  if (b : bool) then
    pays ← asset_mul usd_for_sale match_price;
    Ok (pays, usd_for_sale, asset_eqb usd_to_buy usd_for_sale, true)
  else
    pays ← asset_mul usd_to_buy match_price;
    Ok (pays, usd_to_buy, true, false).

(** One round of the loop of [check_call_orders]; [inr] leaves the loop.
    [filled_limit] keeps its value from round to round. *)
Record call_loop : Type := mk_loop {
  loop_limit : iterator;
  loop_call : iterator;
  filled_limit : bool;
  margin_called : bool;
}.
Definition call_round (mia bid : Z) (enable_black_swan for_new_limit_order : bool)
    (limit_end : iterator) (st : call_loop) : M database (call_loop + bool) :=
  if bool_decide (loop_limit st = limit_end) then mret (inr (margin_called st))
  else
    l ← at_itr limit_order_object (loop_limit st);
    let '(limit_id, limit) := (l : Z * limit_order_object) in
    let match_price := sell_price limit in
    let usd_for_sale := amount_for_sale limit in
    _ ← lift (price_validate match_price);
    c ← at_itr call_order_object (loop_call st);
    let '(call_id, call) := (c : Z * call_order_object) in
    bitasset ← deref asset_bitasset_data_object bid;
    let feed_protected :=
      price_gt (settlement_price (current_feed bitasset)) (price_inv (order_call_price call)) in
    now ← gets head_block_time;
    if feed_protected && (HARDFORK_436_TIME <? now) then mret (inr (margin_called st))
    else if price_gt match_price (price_inv (order_call_price call)) then mret (inr (margin_called st))
    else
      let usd_to_buy := get_debt call in
      value ← lift (asset_mul usd_to_buy match_price);
      swan ← lift (asset_gt value (get_collateral call));
      if (swan : bool) then
        _ ← require enable_black_swan "enable_black_swan";
        _ ← globally_settle_asset mia (settlement_price (current_feed bitasset));
        mret (inr true)
      else
        r ← lift (call_amounts usd_to_buy usd_for_sale match_price);
        let '(call_pays, call_receives, filled_call, now_filled) := (r : asset * asset * bool * bool) in
        let filled_limit := filled_limit st || now_filled in
        _ ← require (filled_call || filled_limit) "filled_call || filled_limit";
        call_itr' ← (if filled_call then next_call (loop_call st) else mret (loop_call st));
        _ ← fill_call_order call_id call_pays call_receives match_price for_new_limit_order;
        limit_itr' ← (if filled_limit then next_limit (loop_limit st) else mret (loop_limit st));
        _ ← fill_limit_order limit_id call_receives call_pays true match_price (negb for_new_limit_order);
        mret (inl (mk_loop limit_itr' call_itr' filled_limit true)).
Fixpoint call_rounds (fuel : nat) (mia bid : Z) (enable_black_swan for_new_limit_order : bool)
    (limit_end call_end : iterator) (st : call_loop) : M database bool :=
  swan ← check_for_blackswan mia enable_black_swan;
  if swan || bool_decide (loop_call st = call_end) then mret (margin_called st)
  else
    match fuel with
    | O => exhausted
    | S fuel' =>
        r ← call_round mia bid enable_black_swan for_new_limit_order limit_end st;
        match (r : call_loop + bool) with
        | inr b => mret b
        | inl st' => call_rounds fuel' mia bid enable_black_swan for_new_limit_order limit_end call_end st'
        end
    end.

Definition check_call_orders (mia : Z) (enable_black_swan for_new_limit_order : bool)
  : M database bool :=
  o ← deref asset_object mia;
  if negb (is_market_issued o) then mret false
  else
    swan ← check_for_blackswan mia enable_black_swan;
    if (swan : bool) then mret false
    else
      bid ← bitasset_of mia;
      bitasset ← deref asset_bitasset_data_object bid;
      if is_prediction_market bitasset then mret false
      else if is_null (settlement_price (current_feed bitasset)) then mret false
      else
        let backing := short_backing_asset (bitasset_opts bitasset) in
        max_price ← lift (price_max mia backing);
        min_price ← lift (max_short_squeeze_price (current_feed bitasset));
        limit_itr ← gets (limit_lower_bound max_price);
        limit_end ← gets (limit_upper_bound min_price);
        if bool_decide (limit_itr = limit_end) then mret false
        else
          call_min ← lift (price_min backing mia);
          call_max ← lift (price_max backing mia);
          call_itr ← gets (call_lower_bound call_min);
          call_end ← gets (call_upper_bound call_max);
          fuel ← gets (fun s => S (size (limit_orders s) + size (call_orders s)));
          call_rounds fuel mia bid enable_black_swan for_new_limit_order limit_end call_end
            (mk_loop limit_itr call_itr false false).

(** ** New limit orders *)
Fixpoint match_rounds (fuel : nat) (new_order : Z) (limit_end limit_itr : iterator)
    (finished : bool) : M database unit :=
  if finished || bool_decide (limit_itr = limit_end) then mret tt
  else
    match fuel with
    | O => exhausted
    | S fuel' =>
        old ← at_itr limit_order_object limit_itr;
        limit_itr' ← next_limit limit_itr;
        r ← match_limit new_order (fst old) (sell_price (snd old));
        match_rounds fuel' new_order limit_end limit_itr' (negb (r =? 2))
    end.

Definition apply_order (order_id : Z) (allow_black_swan : bool) : M database bool :=
  o ← deref limit_order_object order_id;
  receives ← lift (amount_to_receive o);
  let sell_asset := asset_id (amount_for_sale o) in
  let receive_asset := asset_id receives in
  _ ← get asset_object sell_asset;
  _ ← get asset_object receive_asset;
  called1 ← check_call_orders sell_asset allow_black_swan true;
  called2 ← check_call_orders receive_asset allow_black_swan true;
  found ← find limit_order_object order_id;
  if (called1 || called2) && bool_decide (found = None) then mret true
  else
    o ← deref limit_order_object order_id;
    let max_price := price_inv (sell_price o) in
    pmax ← lift (price_max (asset_id (base max_price)) (asset_id (quote max_price)));
    limit_itr ← gets (limit_lower_bound pmax);
    limit_end ← gets (limit_upper_bound max_price);
    fuel ← gets (fun s => S (size (limit_orders s)));
    _ ← match_rounds fuel order_id limit_end limit_itr false;
    _ ← check_call_orders sell_asset allow_black_swan false;
    _ ← check_call_orders receive_asset allow_black_swan false;
    updated ← find limit_order_object order_id;
    match (updated : option limit_order_object) with
    | None => mret true
    | Some _ =>
        now ← gets head_block_time;
        if now <=? HARDFORK_555_TIME then mret false else maybe_cull_small_order order_id
    end.

(** ** Reviving a settled asset *)
Definition execute_bid (id debt_covered collateral_from_fund : Z) (feed : price_feed)
  : M database unit :=
  bid ← deref collateral_bid_object id;
  let coll_id := asset_id (base (inv_swan_price bid)) in
  c ← lift (safe_add (amount (base (inv_swan_price bid))) collateral_from_fund);
  p ← lift (call_price (mk_asset debt_covered (bid_debt_type bid)) (mk_asset c coll_id)
              (maintenance_collateral_ratio feed));
  _ ← create (mk_call_order (bidder bid) c debt_covered p);
  _ ← when (coll_id =? core_asset)
        (stats ← statistics_of (bidder bid); modify stats (add_core_in_orders c));
  _ ← push_applied_operation
        (execute_bid_operation (bidder bid) (mk_asset c coll_id) (mk_asset debt_covered (bid_debt_type bid)));
  remove collateral_bid_object id.

Fixpoint cancel_bids (fuel : nat) (mia : Z) (itr : iterator) : M database unit :=
  match itr with
  | None => mret tt
  | Some id =>
      bid ← deref collateral_bid_object id;
      if negb (bid_debt_type bid =? mia) then mret tt
      else
        match fuel with
        | O => exhausted
        | S fuel' =>
            itr' ← next_bid itr;
            _ ← cancel_bid id true;
            cancel_bids fuel' mia itr'
        end
  end.
(** The first bid not before the partial key [(mia, p, bid 0)]. *)
Definition bid_lower_bound (mia : Z) (p : price) (s : database) : iterator :=
  first_with (fun b => negb ((bid_debt_type b <? mia)
                             || ((bid_debt_type b =? mia) && price_gt (inv_swan_price b) p)))
    (bid_book s).
Definition cancel_bids_and_revive_mpa (mia bid : Z) : M database unit :=
  o ← deref asset_object mia;
  bad ← deref asset_bitasset_data_object bid;
  _ ← require (is_market_issued o) "bitasset.is_market_issued()";
  _ ← require (has_settlement bad) "bad.has_settlement()";
  _ ← require (negb (is_prediction_market bad)) "!bad.is_prediction_market";
  p ← lift (price_max (short_backing_asset (bitasset_opts bad)) mia);
  itr ← gets (bid_lower_bound mia p);
  fuel ← gets (fun s => S (size (collateral_bids s)));
  _ ← cancel_bids fuel mia itr;
  modify bid (fun obj => Ok (set_swan null_price 0 obj)).

Definition revive_bitasset (mia : Z) : M database unit :=
  o ← deref asset_object mia;
  _ ← require (is_market_issued o) "bitasset.is_market_issued()";
  bid ← bitasset_of mia;
  bad ← deref asset_bitasset_data_object bid;
  _ ← require (has_settlement bad) "bad.has_settlement()";
  dyn ← dynamic_of o;
  bdd ← deref asset_dynamic_data_object dyn;
  _ ← require (negb (is_prediction_market bad)) "!bad.is_prediction_market";
  _ ← require (negb (is_null (settlement_price (current_feed bad)))) "!bad.current_feed.settlement_price.is_null()";
  _ ← (if 0 <? current_supply bdd then
         p ← lift (price_div (mk_asset 0 (short_backing_asset (bitasset_opts bad)))
                     (mk_asset (current_supply bdd) mia));
         pseudo_bid ← create (mk_bid (issuer o) p);
         execute_bid pseudo_bid (current_supply bdd) (settlement_fund bad) (current_feed bad)
       else require (settlement_fund bad =? 0) "bad.settlement_fund == 0");
  cancel_bids_and_revive_mpa mia bid.
End Market.
End Market.
