(* ===== verification/MarketSupply.v ===== *)
(** * The market keeps every supply *)
From Stdlib Require Import ZArith Lia String.
From stdpp Require Import base gmap sets list strings.
From S2P Require Import Prelude External Asset Vesting Chain Balance Accounting Market.

Module MarketSupply.
Import Asset Vesting Chain Balance Accounting Market.

(** ** Iterators *)
Section Iterators.
Context `{SafeOps, U128Ops, RationalOps, IndexOps}.
Lemma at_itr_Ok `{Object A} it s (x : Z * A) s' :
  at_itr A it s = Ok (x, s') -> s' = s /\ it = Some x.1 /\ table s !! x.1 = Some x.2.
Proof.
  destruct it as [id|]; cbn; intros E; [|discriminate]. run_ok1.
  apply deref_Ok in Hrun as [Hl ->]. by apply M_ret_Ok in E as [<- <-].
Qed.
Lemma next_call_state it s r s' : next_call it s = Ok (r, s') -> s' = s.
Proof. destruct it; cbn; intros E; [|discriminate]. by repeat run_ok1. Qed.
Lemma next_limit_state it s r s' : next_limit it s = Ok (r, s') -> s' = s.
Proof. destruct it; cbn; intros E; [|discriminate]. by repeat run_ok1. Qed.
Lemma next_bid_state it s r s' : next_bid it s = Ok (r, s') -> s' = s.
Proof. destruct it; cbn; intros E; [|discriminate]. by repeat run_ok1. Qed.
End Iterators.

(** Runs with iterators. *)
Ltac itr_ok1 :=
  match goal with
  | H : next_call _ _ = Ok _ |- _ => apply next_call_state in H as ->
  | H : next_limit _ _ = Ok _ |- _ => apply next_limit_state in H as ->
  | H : next_bid _ _ = Ok _ |- _ => apply next_bid_state in H as ->
  | H : at_itr _ _ _ = Ok (?x, _) |- _ =>
      let I := fresh "Hit" in let L := fresh "Hl" in
      apply at_itr_Ok in H as (-> & I & L)
  | x : Z * _ |- _ => destruct x as [? ?]; cbn [fst snd] in *
  end.
Ltac branch E :=
  match type of E with (if ?c then _ else _) _ = _ => destruct c eqn:? end.
Ltac mk_ok := repeat first [run_ok1 | op_ok1 | itr_ok1].

Section Supply.
Context `{SafeLaws, U128Laws, RationalLaws, IndexLaws}.

Lemma core_stats_weight (b : bool) x st st' s a i :
  (if b then sub_core_in_orders x st else Ok st) = Ok st' ->
  weight s a i st' = weight s a i st.
Proof.
  unfold sub_core_in_orders. destruct b; intros E; inv_ok; cbn; unfold w_statistics; cbn; lia.
Qed.

Lemma core_stats_add_weight (b : bool) x st st' s a i :
  (if b then add_core_in_orders x st else Ok st) = Ok st' ->
  weight s a i st' = weight s a i st.
Proof.
  unfold add_core_in_orders. destruct b; intros E; inv_ok; cbn; unfold w_statistics; cbn; lia.
Qed.

Lemma cancel_order_step id b s u s' :
  cancel_order id b s = Ok (u, s') -> step (fun _ => 0) s s'.
Proof.
  unfold cancel_order. intros E. op_ok. assert (o0 = a) as -> by same_object.
  eapply step_ext; [|compose_steps]. intros x'. cbv beta.
  rewrite (core_stats_weight _ _ _ _ _ _ _ Fn). weigh.
Qed.

Lemma cancel_settlement_step id b s u s' :
  cancel_settlement id b s = Ok (u, s') -> step (fun _ => 0) s s'.
Proof.
  unfold cancel_settlement. intros E. op_ok. assert (o = a) as -> by same_object.
  eapply step_ext; [|compose_steps]. intros x'. cbv beta. weigh.
Qed.

Lemma cancel_bid_step id b s u s' :
  cancel_bid id b s = Ok (u, s') -> step (fun _ => 0) s s'.
Proof.
  unfold cancel_bid. intros E. op_ok. assert (o = a) as -> by same_object.
  eapply step_ext; [|compose_steps]. intros x'. cbv beta. weigh.
Qed.

Lemma maybe_cull_step id s r s' :
  maybe_cull_small_order id s = Ok (r, s') -> step (fun _ => 0) s s'.
Proof.
  unfold maybe_cull_small_order. intros E. op_ok. case_match; op_ok; [|apply step_refl].
  by eapply cancel_order_step.
Qed.

(** ** Market fees *)
Lemma calculate_market_fee_Ok x amt s fee s' :
  chain_wf s -> 0 <= amount amt < 2 ^ 63 ->
  calculate_market_fee x amt s = Ok (fee, s') ->
  s' = s /\ asset_id fee = x /\ 0 <= amount fee <= amount amt.
Proof.
  intros Hw Ha. unfold calculate_market_fee. intros E. op_ok.
  destruct (negb (charges_market_fees a)); op_ok; [split_and!; cbn; done || lia|].
  destruct (market_fee_percent (options a) =? 0); op_ok; [split_and!; cbn; done || lia|].
  pose proof (wf_options s Hw _ _ Lk) as (Hp & Hm & _). unfold GRAPHENE_100_PERCENT in *.
  pose proof (ratio_le (amount amt) (market_fee_percent (options a)) 10000).
  rewrite u128_ratio_spec in * by lia.
  match goal with Hr : Ok _ = Ok _ |- _ => injection Hr as <- end. cbn.
  destruct (Z.ltb_spec (max_market_fee (options a))
              (amount amt * market_fee_percent (options a) / 10000)); split_and!; try done; lia.
Qed.

Lemma pay_market_fees_step x amt s fee s' :
  chain_wf s -> 0 <= amount amt < 2 ^ 63 ->
  pay_market_fees x amt s = Ok (fee, s') ->
  (exists m, s' = set_asset_dynamic_data m s) /\ step (fun a => asset_in a fee) s s'
  /\ asset_id fee = x /\ 0 <= amount fee <= amount amt.
Proof.
  intros Hw Ha. unfold pay_market_fees. intros E. inv_ok1.
  apply calculate_market_fee_Ok in Hrun as (-> & Hid & Hf); [|done..].
  destruct (Z.ltb_spec 0 (amount a)).
  - op_ok. split_and!; try done; try lia; [eexists; done|].
    unfold add_accumulated in Fn. inv_ok. apply safe_add_spec in Hrun as [-> _].
    specialize (St (fun W => wf_dynamic s W _ _ Lk)).
    eapply step_ext; [|eassumption]. intros y. cbv beta. unfold weight, asset_in. cbn.
    unfold w_dynamic. rewrite !(dyn_of_eqb _ _ _ _ Hw Lk0). cbn. unfold if_asset.
    destruct (asset_id fee =? y); lia.
  - op_ok. split_and!; try done; try lia.
    + exists (asset_dynamic_data s). by destruct s.
    + eapply step_ext; [|apply step_refl]. intros y. unfold asset_in, if_asset. case_match; lia.
Qed.

Lemma pay_order_step acc receives pays s u s' :
  pay_order acc receives pays s = Ok (u, s') ->
  (exists m b, s' = set_account_balances b (set_account_statistics m s))
  /\ step (fun a => asset_in a receives) s s'.
Proof.
  unfold pay_order. intros E. op_ok. split; [subst; by eexists _, _|].
  eapply step_ext; [|compose_steps]. intros y. cbv beta.
  rewrite (core_stats_weight _ _ _ _ _ _ _ Fn). lia.
Qed.

(** ** Filling *)
Definition fill_delta (pays receives : asset) (a : Z) : Z := asset_in a receives - asset_in a pays.

Lemma pay_deferred_step fee acc s u s' :
  0 <= fee ->
  when (0 <? fee)
    (stats ← statistics_of acc;
     threshold ← gets (fun s => cashback_vesting_threshold (parameters (gpo s)));
     modify stats (stats_pay_fee fee threshold)) s = Ok (u, s') ->
  (exists m, s' = set_account_statistics m s) /\ step (fun a => if_asset a core_asset fee) s s'.
Proof.
  intros Hfee [[Hp E]|[Hp ->]]%when_Ok.
  - op_ok. split; [by eexists|]. eapply step_ext; [|eassumption]. intros y. cbv beta.
    rewrite (stats_pay_fee_weight _ _ _ _ _ _ _ Fn). lia.
  - apply Z.ltb_ge in Hp. split; [exists (account_statistics s); by destruct s|].
    eapply step_ext; [|apply step_refl]. intros y. unfold if_asset. case_match; lia.
Qed.

Lemma fill_limit_step id pays receives cull p maker s r s' :
  chain_wf s -> 0 <= amount receives < 2 ^ 63 -> 0 <= amount pays ->
  (forall o, limit_orders s !! id = Some o -> amount pays <= for_sale o) ->
  fill_limit_order id pays receives cull p maker s = Ok (r, s') ->
  step (fill_delta pays receives) s s'.
Proof.
  intros Hw Hr Hp Hle. unfold fill_limit_order. intros E. op_ok.
  pose proof (wf_limits s Hw _ _ Lk) as (Hfs & Hpr & Hdf). specialize (Hle _ Lk).
  repeat match goal with
  | Hf : pay_market_fees _ _ _ = Ok _ |- _ =>
      apply pay_market_fees_step in Hf as ([dyns Ed] & Sd & Hfid & Hfee); [|done..]
  | Hf : pay_order _ _ _ _ = Ok _ |- _ => apply pay_order_step in Hf as ((sts & bals & Eo) & So)
  | Hf : when (0 <? _) _ _ = Ok _ |- _ => apply pay_deferred_step in Hf as ([sts' Ef] & Sf); [|done]
  | Hf : asset_sub _ _ = Ok _ |- _ => apply asset_sub_Ok in Hf as [Hfid' ->]
  end.
  match goal with Hi : (_ =? _) = true |- _ => apply Z.eqb_eq in Hi; rename Hi into Hpid end.
  destruct (asset_eqb pays (amount_for_sale a0)) eqn:Eq; op_ok.
  - apply asset_eqb_eq in Eq. assert (o = a0) as -> by same_object.
    eapply step_ext; [|compose_steps]. intros y. cbv beta. unfold fill_delta. subst pays. weigh.
  - assert (o = a0) as -> by same_object.
    assert (Hne : amount pays <> for_sale a0).
    { intros Hn. rewrite (proj2 (asset_eqb_eq _ _)) in Eq; [done|].
      unfold amount_for_sale in *. destruct pays. cbn in *. congruence. }
    match goal with Hs : safe_sub _ _ = Ok _ |- _ => apply safe_sub_spec in Hs as [-> _] end.
    subst o'. assert (Hok : limit_ok (set_for_sale (for_sale a0 - amount pays) 0 a0)).
    { unfold pos_int64 in *. split_and!; cbn; [unfold pos_int64; lia|done|lia]. }
    specialize (St0 (fun _ => Hok)).
    assert (Hcull : step (fun _ => 0) s0 s').
    { case_match; op_ok; [by eapply maybe_cull_step|apply step_refl]. }
    eapply step_ext; [|compose_steps]. intros y. cbv beta. unfold fill_delta, asset_in, if_asset.
    rewrite <- Hpid, Hfid. weigh.
Qed.

Lemma sub_core_weight x st st' s a i :
  sub_core_in_orders x st = Ok st' -> weight s a i st' = weight s a i st.
Proof. apply (core_stats_weight true). Qed.

Lemma call_supply_weight x s a o d d' :
  chain_wf s -> assets s !! x = Some o ->
  forall n, sub_supply n d = Ok d' ->
  weight s a (dynamic_asset_data_id o) d' = weight s a (dynamic_asset_data_id o) d + if_asset a x n.
Proof.
  intros Hw Hx n. unfold sub_supply. intros E. inv_ok. apply safe_sub_spec in Hrun as [-> _]. cbn.
  unfold w_dynamic. rewrite !(dyn_of_eqb _ _ _ _ Hw Hx). unfold if_asset. cbn.
  destruct (x =? a); lia.
Qed.

Lemma release_step account freed pays s u s' :
  release_collateral account freed pays s = Ok (u, s') ->
  (exists m b, s' = set_account_balances b (set_account_statistics m s))
  /\ step (fun a => match freed with Some x => asset_in a x | None => 0 end) s s'.
Proof.
  intros [[Hb E]|[Hb ->]]%when_Ok.
  - destruct freed as [x|]; op_ok.
    + split; [exists (<[statistics x0 := o']> (account_statistics s)), bals; by subst|].
      assert (Hwt : forall y, weight s1 y (statistics x0) o' = weight s1 y (statistics x0) o).
      { intros y. transitivity (weight s1 y (statistics x0) a1).
        - by apply (core_stats_weight _ _ _ _ _ _ _ Fn).
        - by apply (core_stats_weight _ _ _ _ _ _ _ Hrun0). }
      eapply step_ext; [|compose_steps]. intros y. cbv beta. rewrite Hwt. lia.
    + split; [subst; exists (<[statistics x := o']> (account_statistics s)), (account_balances s); by destruct s|].
      subst a0. eapply step_ext; [|eassumption]. intros y. cbv beta.
      rewrite (core_stats_weight _ _ _ _ _ _ _ Fn). lia.
  - split; [exists (account_statistics s), (account_balances s); by destruct s|].
    destruct freed; [done|apply step_refl].
Qed.

Lemma sub_supply_dynamic_ok n d d' : sub_supply n d = Ok d' -> dynamic_ok d'.
Proof.
  unfold sub_supply. intros E. run_ok1. apply safe_sub_spec in Hrun as [-> Hi]. injection E as <-.
  unfold in_int64, int64_max, dynamic_ok in *. cbn. lia.
Qed.

Lemma fill_call_step id pays receives p maker s r s' :
  chain_wf s -> 0 <= amount receives -> 0 <= amount pays ->
  (forall o, call_orders s !! id = Some o -> amount receives <= debt o) ->
  fill_call_order id pays receives p maker s = Ok (r, s') ->
  step (fill_delta pays receives) s s'.
Proof.
  intros Hw Hr Hp Hle. unfold fill_call_order. intros E. op_ok.
  match goal with Hf : release_collateral _ _ _ _ = Ok _ |- _ =>
    apply release_step in Hf as ((sts & bals & Er) & Sr) end.
  assert (o0 = a) as -> by same_object.
  apply Z.eqb_eq in Hreq0, Hreq1. subst a2. apply asset_ge_Ok in Hval1 as [_ Hge].
  symmetry in Hge. apply Z.leb_le in Hge. cbn in Hge.
  apply safe_sub_spec in Hval0 as [-> _], Hval as [-> _]. specialize (Hle _ Lk1).
  pose proof (wf_calls s Hw _ _ Lk1) as (Hc & Hd & Hpr). subst o'0.
  assert (Hok : call_ok (set_position (if debt a - amount receives =? 0 then 0 else collateral a - amount pays)
                          (debt a - amount receives) a)).
  { unfold call_ok; cbn. destruct (_ =? 0); split_and!; try done; lia. }
  specialize (St1 (fun _ => conj Hok (wf_call_backed s Hw _ _ Lk1))).
  specialize (St0 (fun _ => sub_supply_dynamic_ok _ _ _ Fn)).
  assert (Hw7 := step_wf _ _ _ St1 Hw).
  assert (Hwt := fun x => call_supply_weight (asset_id receives) s7 x _ _ _ Hw7 Lk3 _ Fn).
  destruct (debt a - amount receives =? 0) eqn:Ed; op_ok.
  - match goal with L : table s13 !! id = Some ?x |- _ =>
      assert (x = set_position 0 (debt a - amount receives) a) as ->
        by (subst; cbn in *; rewrite lookup_insert_eq in *; congruence) end.
    eapply step_ext; [|compose_steps]. intros y. cbv beta. rewrite Hwt.
    unfold fill_delta, asset_in, if_asset. rewrite <- Hreq0. weigh.
  - eapply step_ext; [|compose_steps]. intros y. cbv beta. rewrite Hwt.
    unfold fill_delta, asset_in, if_asset. rewrite <- Hreq0. weigh.
Qed.

(** ** What the fills leave alone *)
Record market_frame (s s' : database) : Prop := {
  mf_accounts : accounts s' = accounts s;
  mf_assets : assets s' = assets s;
  mf_gpo : gpo s' = gpo s;
  mf_dgp : dgp s' = dgp s;
  mf_bids : collateral_bids s' = collateral_bids s;
  mf_vesting : vesting_balances s' = vesting_balances s;
  mf_witnesses : witnesses s' = witnesses s;
}.
Record frame_but_limits (s s' : database) : Prop := {
  fl_frame : market_frame s s';
  fl_bitassets : bitasset_data s' = bitasset_data s;
  fl_calls : call_orders s' = call_orders s;
  fl_settlements : force_settlements s' = force_settlements s;
}.
Record frame_but_calls (s s' : database) : Prop := {
  fc_frame : market_frame s s';
  fc_bitassets : bitasset_data s' = bitasset_data s;
  fc_limits : limit_orders s' = limit_orders s;
  fc_settlements : force_settlements s' = force_settlements s;
}.
Lemma market_frame_refl s : market_frame s s. Proof. by split. Qed.
Lemma market_frame_trans s1 s2 s3 : market_frame s1 s2 -> market_frame s2 s3 -> market_frame s1 s3.
Proof. intros [] []. split; congruence. Qed.

Lemma cancel_order_frame id b s u s' :
  cancel_order id b s = Ok (u, s') ->
  frame_but_limits s s' /\ limit_orders s' = delete id (limit_orders s).
Proof. unfold cancel_order. intros E. op_ok. subst. by repeat split. Qed.

Lemma maybe_cull_frame id s r s' :
  maybe_cull_small_order id s = Ok (r, s') ->
  frame_but_limits s s' /\
  ((r = true /\ limit_orders s' = delete id (limit_orders s))
   \/ (r = false /\ limit_orders s' = limit_orders s)).
Proof.
  unfold maybe_cull_small_order. intros E. op_ok. case_match; op_ok.
  - match goal with Hc : cancel_order _ _ _ = Ok _ |- _ => apply cancel_order_frame in Hc as [? ?] end. auto.
  - split; [by repeat split|auto].
Qed.

Lemma pay_market_fees_frame x amt s fee s' :
  pay_market_fees x amt s = Ok (fee, s') ->
  exists m, s' = set_asset_dynamic_data m s.
Proof.
  unfold pay_market_fees, calculate_market_fee. intros E. op_ok.
  assert (s0 = s) as -> by (repeat (case_match; op_ok); done).
  clear Hrun. destruct (0 <? amount a); op_ok; [by eexists|].
  exists (asset_dynamic_data s). by destruct s.
Qed.

Lemma pay_deferred_frame b fee acc s u s' :
  when b
    (stats ← statistics_of acc;
     threshold ← gets (fun s => cashback_vesting_threshold (parameters (gpo s)));
     modify stats (stats_pay_fee fee threshold)) s = Ok (u, s') ->
  exists m, s' = set_account_statistics m s.
Proof.
  intros [[_ E]|[_ ->]]%when_Ok; [op_ok; by eexists|].
  exists (account_statistics s). by destruct s.
Qed.

Lemma fill_limit_frame id pays receives cull p maker s r s' :
  fill_limit_order id pays receives cull p maker s = Ok (r, s') ->
  frame_but_limits s s' /\
  exists o, limit_orders s !! id = Some o
    /\ ((r = true /\ limit_orders s' = delete id (limit_orders s))
        \/ (r = false /\ pays <> amount_for_sale o
            /\ limit_orders s' = <[id := set_for_sale (for_sale o - amount pays) 0 o]> (limit_orders s))).
Proof.
  unfold fill_limit_order. intros E. op_ok.
  repeat match goal with
  | Hf : pay_market_fees _ _ _ = Ok _ |- _ => apply pay_market_fees_frame in Hf as [dyns Ed]
  | Hf : pay_order _ _ _ _ = Ok _ |- _ => apply pay_order_step in Hf as ((sts & bals & Eo) & _)
  | Hf : when (0 <? _) _ _ = Ok _ |- _ => apply pay_deferred_frame in Hf as [sts' Ef]
  end.
  destruct (asset_eqb pays (amount_for_sale a0)) eqn:Eq; op_ok.
  - subst. split; [by repeat split|]. exists a0. split; [done|]. by left.
  - assert (o = a0) as -> by same_object.
    match goal with Hs : safe_sub _ _ = Ok _ |- _ => apply safe_sub_spec in Hs as [-> _] end.
    assert (Hne : pays <> amount_for_sale a0).
    { intros ->. by rewrite (proj2 (asset_eqb_eq _ _)) in Eq. }
    assert (Hfr : frame_but_limits s s0 /\ limit_orders s0
              = <[id := set_for_sale (for_sale a0 - amount pays) 0 a0]> (limit_orders s)).
    { subst. by repeat split. }
    destruct Hfr as [Hfr Hlo]. destruct (cull || _); op_ok.
    + apply maybe_cull_frame in E as [Hfr' Hc]. split.
      * destruct Hfr as [? ? ? ?], Hfr' as [? ? ? ?].
        split; [by eapply market_frame_trans|congruence..].
      * exists a0. split; [done|]. destruct Hc as [[-> ->]|[-> ->]].
        -- left. by rewrite Hlo, delete_insert_eq.
        -- right. by rewrite Hlo.
    + split; [done|]. exists a0. split; [done|]. by right.
Qed.

(** The supply of the asset [x] after [n] of it were retired. *)
Definition supply_less (x n : Z) (s s' : database) : Prop :=
  exists o d, assets s !! x = Some o /\ asset_dynamic_data s !! dynamic_asset_data_id o = Some d
    /\ asset_dynamic_data s'
       = <[dynamic_asset_data_id o := set_supply (current_supply d - n) d]> (asset_dynamic_data s).

Lemma sub_supply_Ok n d d' : sub_supply n d = Ok d' -> d' = set_supply (current_supply d - n) d.
Proof. unfold sub_supply. intros E. run_ok1. apply safe_sub_spec in Hrun as [-> _]. by injection E as <-. Qed.

Lemma fill_call_frame id pays receives p maker s r s' :
  fill_call_order id pays receives p maker s = Ok (r, s') ->
  frame_but_calls s s' /\ supply_less (asset_id receives) (amount receives) s s' /\
  exists o, call_orders s !! id = Some o /\ amount pays <= collateral o
    /\ ((r = true /\ amount receives = debt o /\ call_orders s' = delete id (call_orders s))
        \/ (r = false /\ amount receives <> debt o
            /\ call_orders s' = <[id := set_position (collateral o - amount pays)
                                           (debt o - amount receives) o]> (call_orders s))).
Proof.
  unfold fill_call_order. intros E. op_ok.
  match goal with Hf : release_collateral _ _ _ _ = Ok _ |- _ =>
    apply release_step in Hf as ((sts & bals & Er) & _) end.
  assert (o0 = a) as -> by same_object.
  subst a2. apply asset_ge_Ok in Hval1 as [_ Hge].
  symmetry in Hge. apply Z.leb_le in Hge. cbn in Hge.
  apply safe_sub_spec in Hval0 as [-> _], Hval as [-> _].
  apply sub_supply_Ok in Fn.
  destruct (Z.eqb_spec (debt a - amount receives) 0) as [Ed|Ed]; op_ok; subst; (split; [by repeat split|]);
    (split; [by eexists _, _|]).
  - exists a. split_and!; [done|done|]. left. split_and!; [done|lia|].
    cbn. by rewrite delete_insert_eq.
  - exists a. split_and!; [done|done|]. right. split_and!; [done|lia|done].
Qed.

Lemma fill_settlement_step id pays receives p maker s r s' :
  chain_wf s -> 0 <= amount receives < 2 ^ 63 -> 0 <= amount pays ->
  (forall o, force_settlements s !! id = Some o -> amount pays <= amount (settlement_balance o)) ->
  fill_settlement id pays receives p maker s = Ok (r, s') ->
  step (fill_delta pays receives) s s'.
Proof.
  intros Hw Hr Hp Hle. unfold fill_settlement. intros E. op_ok.
  match goal with Hf : pay_market_fees _ _ _ = Ok _ |- _ =>
    apply pay_market_fees_step in Hf as ([dyns Ed] & Sd & Hfid & Hfee); [|done..] end.
  match goal with Hf : asset_lt _ _ = Ok _ |- _ => apply asset_lt_Ok in Hf as [Hpid ->] end.
  match goal with Hf : asset_sub _ _ = Ok _ |- _ => apply asset_sub_Ok in Hf as [_ ->] end.
  match goal with L : table s1 !! id = Some ?o |- _ =>
    assert (Hl : force_settlements s !! id = Some o) by (subst; exact L); rename o into f end.
  specialize (Hle _ Hl). pose proof (wf_settlements s Hw _ _ Hl) as Hf. red in Hf.
  destruct (Z.ltb_spec (amount pays) (amount (settlement_balance f))) as [Hlt|Hge]; op_ok.
  - unfold when in *. op_ok. match goal with L : table s1 !! id = Some ?x |- _ =>
      assert (x = f) as -> by same_object end.
    match goal with Hs : asset_sub _ _ = Ok _ |- _ => apply asset_sub_Ok in Hs as [Hid ->] end.
    subst o'.
    assert (Hok : settlement_ok (set_settlement_balance
              (mk_asset (amount (settlement_balance f) - amount pays) (asset_id (settlement_balance f))) f))
      by (red; cbn; lia).
    specialize (St1 (fun _ => Hok)).
    eapply step_ext; [|compose_steps]. intros y. cbv beta. unfold fill_delta, asset_in, if_asset.
    rewrite Hpid, Hfid. weigh.
  - unfold when in *. op_ok. match goal with L : table _ !! id = Some ?x |- _ =>
      assert (x = f) as -> by same_object end.
    eapply step_ext; [|compose_steps]. intros y. cbv beta. unfold fill_delta, asset_in, if_asset.
    rewrite Hpid, Hfid. weigh.
Qed.

(** ** Matching *)
Lemma asset_mul_other a p c :
  0 <= amount a < 2 ^ 63 -> valid_price p -> asset_mul a p = Ok c ->
  asset_id c <> asset_id a /\ 0 <= amount c < 2 ^ 63
  /\ amount c = amount a * mul_num a p / mul_den a p
  /\ 0 < mul_num a p /\ 0 < mul_den a p
  /\ mul_num c p = mul_den a p /\ mul_den c p = mul_num a p /\ mul_id c p = asset_id a
  /\ asset_id c = mul_id a p.
Proof.
  intros Ha Hp (Hid & -> & Hm)%asset_mul_Ok; [|done..]. cbn in Hm |- *.
  destruct Hp as [Hb Hq Hne]. unfold pos_int64, GRAPHENE_MAX_SHARE_SUPPLY in *.
  assert (0 < mul_num a p /\ 0 < mul_den a p) as [Hn Hd]
    by (unfold mul_num, mul_den; case_match; lia).
  assert (Hi : mul_id a p <> asset_id a /\
    mul_num (mk_asset (amount a * mul_num a p / mul_den a p) (mul_id a p)) p = mul_den a p /\
    mul_den (mk_asset (amount a * mul_num a p / mul_den a p) (mul_id a p)) p = mul_num a p /\
    mul_id (mk_asset (amount a * mul_num a p / mul_den a p) (mul_id a p)) p = asset_id a).
  { unfold mul_id, mul_num, mul_den. cbn. destruct (Z.eqb_spec (asset_id a) (asset_id (base p))).
    - rewrite (proj2 (Z.eqb_neq (asset_id (quote p)) _)) by lia. split_and!; lia.
    - rewrite Z.eqb_refl. split_and!; lia. }
  assert (0 <= amount a * mul_num a p / mul_den a p) by (apply Z.div_pos; nia).
  destruct Hi as (? & ? & ? & ?). split_and!; done || lia.
Qed.

Lemma match_amounts_Ok u c p ur cr :
  pos_int64 (amount u) -> pos_int64 (amount c) -> valid_price p ->
  match_amounts u c p = Ok (ur, cr) ->
  asset_id u <> asset_id c /\ asset_id ur = asset_id c /\ asset_id cr = asset_id u
  /\ 0 <= amount cr <= amount u /\ 0 <= amount ur <= amount c /\ (cr = u \/ ur = c).
Proof.
  unfold pos_int64. intros Hu Hc Hp. unfold match_amounts. intros E. run_ok1. run_ok1.
  rename a into cv.
  apply asset_mul_other in Hrun as (Hid & Hcv & Ecv & Hn & Hd & Hn' & Hd' & Hi' & Hic); [|lia|done].
  apply asset_le_Ok in Hrun0 as [Hidu ->].
  destruct (Z.leb_spec (amount u) (amount cv)); run_ok1; injection E as <- <-.
  - assert (Hmu : mul_num u p = mul_num cv p /\ mul_den u p = mul_den cv p /\ mul_id u p = mul_id cv p)
      by (unfold mul_num, mul_den, mul_id; by rewrite Hidu).
    destruct Hmu as (E1 & E2 & E3).
    apply asset_mul_other in Hrun as (Hid' & Ha & Ea & _ & _ & _ & _ & _ & Hia); [|lia|done].
    split_and!; try congruence; try lia; [|by left].
    rewrite Ea, E1, E2, Hn', Hd'. apply Z.div_le_upper_bound; [done|].
    pose proof (Z.mul_div_le (amount c * mul_num c p) (mul_den c p) Hd). nia.
  - apply asset_mul_other in Hrun as (Hid' & Ha & Ea & _ & _ & _ & _ & _ & Hia); [|lia|done].
    split_and!; try congruence; try lia. by right.
Qed.

Lemma match_limit_step usd core p s r s' :
  chain_wf s -> valid_price p -> match_limit usd core p s = Ok (r, s') ->
  step (fun _ => 0) s s'.
Proof.
  intros Hw Hp. unfold match_limit. intros E. op_ok.
  match goal with Hm : match_amounts _ _ _ = Ok ?rr |- _ => destruct rr as [ur cr] end. op_ok.
  pose proof (wf_limits s Hw _ _ Lk) as (Hc & _). pose proof (wf_limits s Hw _ _ Lk0) as (Hu & _).
  apply match_amounts_Ok in Hval as (Hne & Hur & Hcr & Hcr' & Hur' & _); [|done..]. cbn in *.
  unfold pos_int64 in Hc, Hu.
  assert (Hids : usd <> core) by (intros ->; congruence).
  assert (Hlk : limit_orders s0 !! core = Some a0).
  { apply fill_limit_frame in Hrun as (_ & o & _ & [[_ ->]|(_ & _ & ->)]).
    - by rewrite lookup_delete_ne.
    - by rewrite lookup_insert_ne. }
  assert (S1 : step (fill_delta cr ur) s s0).
  { apply fill_limit_step in Hrun; try done; try lia. intros o Ho. simplify_eq. lia. }
  assert (S2 : step (fill_delta ur cr) s0 s1).
  { apply fill_limit_step in Hrun0; try done; try lia; [by apply (step_wf _ _ _ S1)|].
    intros o Ho. simplify_eq. lia. }
  eapply step_ext; [|eapply step_trans; [exact S1|exact S2]]. intros y. unfold fill_delta. lia.
Qed.

Lemma share_min_Ok x y z :
  share_min x y = Ok z ->
  asset_id x = asset_id y /\ asset_id z = asset_id x /\ amount z = Z.min (amount x) (amount y).
Proof.
  unfold share_min. intros E. run_ok1. apply asset_lt_Ok in Hrun as [Hid ->]. injection E as <-.
  destruct (Z.ltb_spec (amount y) (amount x)); split_and!; done || lia.
Qed.

(** ** Prices that may have a zero term *)
Record weak_price (p : price) : Prop := {
  wp_base : 0 <= amount (base p) < 2 ^ 63;
  wp_quote : 0 <= amount (quote p) < 2 ^ 63;
  wp_ids : asset_id (base p) <> asset_id (quote p);
}.
Lemma valid_weak p : valid_price p -> weak_price p.
Proof. intros [Hb Hq Hi]. unfold pos_int64 in *. split; [lia|lia|done]. Qed.

(** The assets of a price are [D] and [G]. *)
Definition pair_of (p : price) (D G : Z) : Prop :=
  D <> G /\ ((D = asset_id (base p) /\ G = asset_id (quote p))
            \/ (D = asset_id (quote p) /\ G = asset_id (base p))).

Lemma asset_mul_weak x p c :
  0 <= amount x < 2 ^ 63 -> weak_price p -> asset_mul x p = Ok c ->
  pair_of p (asset_id x) (asset_id c) /\ 0 <= amount c < 2 ^ 63.
Proof.
  intros Hx [Hb Hq Hi]. unfold asset_mul, mul_div, pair_of. intros E.
  assert (Hdiv : forall n d r, 0 <= n < 2 ^ 63 -> 0 <= d < 2 ^ 63 -> (0 <? d) = true ->
            u128_div (u128_mul (u128 (amount x)) (u128 n)) (u128 d) = Ok r -> 0 <= r).
  { intros n d r Hn Hd Hd0 Hr. apply Z.ltb_lt in Hd0.
    rewrite !u128_id, u128_mul_spec, u128_div_spec in Hr by nia. injection Hr as <-.
    apply Z.div_pos; nia. }
  unfold GRAPHENE_MAX_SHARE_SUPPLY in E.
  destruct (Z.eqb_spec (asset_id x) (asset_id (base p))); [|destruct (Z.eqb_spec (asset_id x) (asset_id (quote p)));
    [|discriminate]]; inv_ok; cbn;
    match goal with Hr : u128_div _ _ = Ok _ |- _ => apply Hdiv in Hr; [|done..] end;
    match goal with Hm : (_ <=? _) = true |- _ => apply Z.leb_le in Hm end;
    (split; [|lia]); split; first [congruence|auto].
Qed.

Lemma match_settlement_step call settle p mx s r s' :
  chain_wf s -> weak_price p -> 0 <= amount mx ->
  match_settlement call settle p mx s = Ok (r, s') -> step (fun _ => 0) s s'.
Proof.
  intros Hw Hp Hmx. unfold match_settlement. intros E. op_ok.
  pose proof (wf_calls s Hw _ _ Lk0) as (Hc & Hd & _). pose proof (wf_settlements s Hw _ _ Lk) as Hf.
  red in Hf.
  repeat match goal with Hm : share_min _ _ = Ok _ |- _ => apply share_min_Ok in Hm as (? & ? & ?) end.
  cbn in *. match goal with Hm : asset_mul _ _ = Ok ?c |- _ => rename c into pays;
    apply asset_mul_weak in Hm as (_ & Hpays); [|lia|done] end.
  match goal with Hc : fill_call_order _ _ _ _ _ _ = Ok (_, ?t), Hs : fill_settlement _ _ _ _ _ _ = Ok _ |- _ =>
    assert (Hfs : force_settlements t = force_settlements s) by (by apply fill_call_frame in Hc as ([] & _));
    apply fill_call_step in Hc; [|done|lia|lia|intros ? ?; simplify_eq; lia];
    apply fill_settlement_step in Hs; [|by apply (step_wf _ _ _ Hc)|lia|lia|];
    [|rewrite Hfs; intros ? ?; simplify_eq; lia];
    eapply step_ext; [|eapply step_trans; [exact Hc|exact Hs]] end.
  intros y. unfold fill_delta. lia.
Qed.

(** ** Iterator ranges *)
Lemma first_with_range {A} (lo hi : A -> bool) (l : list (Z * A)) id :
  first_with lo l = Some id -> first_with hi l <> Some id ->
  (forall k x, (k, x) ∈ l -> lo x = false -> hi x = false) ->
  exists x, (id, x) ∈ l /\ lo x = true /\ hi x = false.
Proof.
  induction l as [|[k x] l IH]; [done|]. cbn. intros Hlo Hhi Hlh.
  destruct (lo x) eqn:El.
  - injection Hlo as <-. exists x. split; [by left|]. split; [done|].
    destruct (hi x); [done|done].
  - rewrite (Hlh k x ltac:(by left) El) in Hhi.
    destruct IH as (y & Hy & ?); [done|done| |].
    + intros k' y Hy. apply (Hlh k'). by right.
    + exists y. split; [by right|done].
Qed.

Lemma first_with_none {A} (lo hi : A -> bool) (l : list (Z * A)) :
  first_with lo l = None -> (forall k x, (k, x) ∈ l -> lo x = false -> hi x = false) ->
  first_with hi l = None.
Proof.
  induction l as [|[k x] l IH]; [done|]. cbn. intros Hlo Hlh. destruct (lo x) eqn:El; [done|].
  rewrite (Hlh k x ltac:(by left) El). apply IH; [done|]. intros k' y Hy. apply (Hlh k'). by right.
Qed.

Lemma call_book_lookup s id c : (id, c) ∈ call_book s <-> call_orders s !! id = Some c.
Proof. unfold call_book. rewrite ordered_perm. apply elem_of_map_to_list. Qed.
Lemma limit_book_lookup s id o : (id, o) ∈ limit_book s <-> limit_orders s !! id = Some o.
Proof. unfold limit_book. rewrite ordered_perm. apply elem_of_map_to_list. Qed.
Lemma bid_book_lookup s id o : (id, o) ∈ bid_book s <-> collateral_bids s !! id = Some o.
Proof. unfold bid_book. rewrite ordered_perm. apply elem_of_map_to_list. Qed.

Lemma price_min_Ok b q p : price_min b q = Ok p ->
  b <> q /\ p = mk_price (mk_asset 1 b) (mk_asset GRAPHENE_MAX_SHARE_SUPPLY q).
Proof. unfold price_min, price_div. intros E. inv_ok. cbn in *. split; [|done]. lia. Qed.
Lemma price_max_Ok b q p : price_max b q = Ok p ->
  b <> q /\ p = mk_price (mk_asset GRAPHENE_MAX_SHARE_SUPPLY b) (mk_asset 1 q).
Proof. unfold price_max, price_div. intros E. inv_ok. cbn in *. split; [|done]. lia. Qed.
Lemma extreme_valid b q x y : b <> q -> pos_int64 x -> pos_int64 y ->
  valid_price (mk_price (mk_asset x b) (mk_asset y q)).
Proof. by split. Qed.

Lemma price_lt_false a b :
  valid_price a -> valid_price b -> price_lt a b = false ->
  ~ (asset_id (base a) < asset_id (base b) \/ asset_id (base a) = asset_id (base b) /\
    (asset_id (quote a) < asset_id (quote b) \/ asset_id (quote a) = asset_id (quote b) /\
     amount (base a) * amount (quote b) < amount (base b) * amount (quote a))).
Proof. intros Ha Hb Hf Hlt. apply price_lt_spec in Hlt; [congruence|done..]. Qed.

Lemma price_extremes b q p lo hi :
  valid_price p -> price_min b q = Ok lo -> price_max b q = Ok hi ->
  (price_lt p lo = true -> price_lt hi p = false)
  /\ (price_lt p lo = false -> price_lt hi p = false ->
      asset_id (base p) = b /\ asset_id (quote p) = q).
Proof.
  intros Hp [Hne ->]%price_min_Ok [_ ->]%price_max_Ok.
  assert (Hvl : valid_price (mk_price (mk_asset 1 b) (mk_asset GRAPHENE_MAX_SHARE_SUPPLY q)))
    by (apply extreme_valid; unfold pos_int64, GRAPHENE_MAX_SHARE_SUPPLY; lia).
  assert (Hvh : valid_price (mk_price (mk_asset GRAPHENE_MAX_SHARE_SUPPLY b) (mk_asset 1 q)))
    by (apply extreme_valid; unfold pos_int64, GRAPHENE_MAX_SHARE_SUPPLY; lia).
  pose proof Hp as [[Hb ?] [Hq ?] _]. split.
  - rewrite price_lt_spec by done. intros L. apply not_true_is_false. rewrite price_lt_spec by done.
    cbn in *. unfold GRAPHENE_MAX_SHARE_SUPPLY in *. lia.
  - intros L1%price_lt_false L2%price_lt_false; try done. cbn in *. lia.
Qed.

(** Between the extreme prices of a market there are only prices of the market. *)
Lemma call_range s b q lo hi :
  chain_wf s -> price_min b q = Ok lo -> price_max b q = Ok hi ->
  call_lower_bound lo s <> call_upper_bound hi s ->
  exists id c, call_lower_bound lo s = Some id /\ call_orders s !! id = Some c
    /\ asset_id (base (order_call_price c)) = b /\ debt_type c = q.
Proof.
  intros Hw Hmin Hmax Hne.
  assert (Hv : forall k x, (k, x) ∈ call_book s -> valid_price (order_call_price x)).
  { intros k x Hx. apply call_book_lookup in Hx. by destruct (wf_calls s Hw _ _ Hx) as (_ & _ & ?). }
  assert (Hlh : forall k x, (k, x) ∈ call_book s ->
             negb (price_lt (order_call_price x) lo) = false -> price_lt hi (order_call_price x) = false).
  { intros k x Hx E. apply negb_false_iff in E.
    by apply (proj1 (price_extremes _ _ _ _ _ (Hv _ _ Hx) Hmin Hmax)). }
  unfold call_lower_bound, call_upper_bound in *.
  destruct (first_with (fun o => negb (price_lt (order_call_price o) lo)) (call_book s)) as [id|] eqn:Hlo.
  - destruct (first_with_range _ _ _ _ Hlo (fun E => Hne (eq_sym E)) Hlh) as (c & Hc & Hl & Hh).
    exists id, c. split; [done|]. split; [by apply call_book_lookup|]. apply negb_true_iff in Hl.
    by apply (proj2 (price_extremes _ _ _ _ _ (Hv _ _ Hc) Hmin Hmax)).
  - exfalso. apply Hne. symmetry. by apply (first_with_none _ _ _ Hlo).
Qed.

(** ** Global settlement *)
Lemma pair_of_unique p D D' G : pair_of p D G -> pair_of p D' G -> D = D'.
Proof. unfold pair_of. lia. Qed.

Lemma asset_add_range a b c : asset_add a b = Ok c -> amount c < 2 ^ 63.
Proof.
  unfold asset_add. intros E. run_ok1. run_ok1. apply safe_add_spec in Hrun0 as [-> Hi].
  injection E as <-. unfold in_int64, int64_max in Hi. cbn. lia.
Qed.

Definition retired (x n : Z) (s s' : database) : Prop :=
  forall o d, assets s !! x = Some o -> asset_dynamic_data s !! dynamic_asset_data_id o = Some d ->
    asset_dynamic_data s' !! dynamic_asset_data_id o = Some (set_supply (current_supply d - n) d).
Lemma retired_refl x s : retired x 0 s s.
Proof. intros o d Ho Hd. rewrite Hd. destruct d. unfold set_supply. cbn. by rewrite Z.sub_0_r. Qed.
Lemma supply_less_retired x n s s' : supply_less x n s s' -> retired x n s s'.
Proof.
  intros (o & d & Ho & Hd & E) o1 d1 Ho1 Hd1. simplify_eq. by rewrite E, lookup_insert_eq.
Qed.
Lemma retired_trans x n m s1 s2 s3 :
  assets s2 = assets s1 -> retired x n s1 s2 -> retired x m s2 s3 -> retired x (n + m) s1 s3.
Proof.
  intros Ea H12 H23 o d Ho Hd. specialize (H12 o d Ho Hd).
  rewrite (H23 o _ ltac:(by rewrite Ea) H12). unfold set_supply. cbn. do 2 f_equal. lia.
Qed.

Lemma settle_calls_step fuel p end_ itr g s g' s' D :
  chain_wf s -> weak_price p -> 0 <= amount g < 2 ^ 63 ->
  (itr <> end_ -> exists id c, itr = Some id /\ call_orders s !! id = Some c /\ debt_type c = D)
  \/ pair_of p D (asset_id g) ->
  settle_calls fuel p end_ itr g s = Ok (g', s') ->
  asset_id g' = asset_id g /\ 0 <= amount g' < 2 ^ 63 /\ frame_but_calls s s'
  /\ exists n, step (fun a => if_asset a D n - if_asset a (asset_id g) (amount g' - amount g)) s s'
    /\ (is_Some (assets s !! D) -> retired D n s s').
Proof.
  revert itr g s. induction fuel as [|fuel IH]; intros itr g s Hw Hp Hg HD; cbn [settle_calls].
  - case_bool_decide; [|done]. intros E. run_ok1. split_and!; try done; try lia. exists 0.
    split; [|intros; apply retired_refl]. eapply step_ext; [|apply step_refl]. intros a. unfold if_asset. repeat case_match; lia.
  - case_bool_decide as Hend; intros E.
    { run_ok1. split_and!; try done; try lia. exists 0.
      split; [|intros; apply retired_refl]. eapply step_ext; [|apply step_refl]. intros a. unfold if_asset. repeat case_match; lia. }
    run_ok1. apply at_itr_Ok in Hrun as (-> & Hit & Hl). destruct a as [id c]. cbn in Hit, Hl.
    mk_ok.
    pose proof (wf_calls s Hw _ _ Hl) as (Hc & Hd & _).
    match goal with Hm : asset_mul _ _ = Ok ?v |- _ => rename v into value;
      apply asset_mul_weak in Hm as [Hpair Hv]; [|done..] end.
    match goal with Hm : asset_gt _ _ = Ok _ |- _ => apply asset_gt_Ok in Hm as [Hvid ->] end.
    cbn in Hpair, Hvid.
    set (pays := if amount (get_collateral c) <? amount value then get_collateral c else value) in *.
    assert (Hpays : asset_id pays = asset_id value /\ 0 <= amount pays < 2 ^ 63).
    { subst pays. case_match; cbn; split; done || lia. }
    match goal with Ha : asset_add g pays = Ok ?x |- _ => pose proof (asset_add_range _ _ _ Ha) as Hlt;
      apply asset_add_Ok in Ha as [Hgid ->] end. cbn in Hlt.
    assert (HpD : pair_of p (debt_type c) (asset_id g)).
    { rewrite Hgid. by rewrite (proj1 Hpays). }
    assert (debt_type c = D) as HcD.
    { destruct HD as [HD|HD]; [|by eapply pair_of_unique].
      destruct (HD Hend) as (id' & c' & Hi & Hl' & <-). simplify_eq. by simplify_eq/=. }
    match goal with Hf : fill_call_order _ _ _ _ _ _ = Ok (_, ?t) |- _ => rename t into s1;
      pose proof (fill_call_frame _ _ _ _ _ _ _ _ Hf) as (Hfr & Hret%supply_less_retired & _);
      apply fill_call_step in Hf as Hstep; [|done|cbn; lia|lia|] end.
    2: { intros o Ho. cbn. simplify_eq. lia. }
    apply IH in E as (Hg' & Hga & Hfr' & n & Hst & Hret'); cbn in *;
      [|by apply (step_wf _ _ _ Hstep)|done|lia|right; by rewrite <- HcD].
    split_and!; try done; try lia.
    + destruct Hfr as [? ? ? ?], Hfr' as [? ? ? ?]. split; [by eapply market_frame_trans|congruence..].
    + assert (Ea : assets s1 = assets s) by (by destruct Hfr as [[]]).
      rewrite HcD in Hret. rewrite Ea in Hret'.
      exists (debt c + n). split; [|intros Ha; exact (retired_trans _ _ _ _ _ _ Ea Hret (Hret' Ha))].
      eapply step_ext; [|eapply step_trans; [exact Hstep|exact Hst]].
      intros a. unfold fill_delta, asset_in, if_asset. cbn. rewrite HcD, <- Hgid.
      destruct (D =? a), (asset_id g =? a); lia.
Qed.

Lemma is_null_ids p : is_null p = true -> asset_id (base p) = core_asset /\ asset_id (quote p) = core_asset.
Proof.
  unfold is_null, price_eqb. intros [[E1 E2]%andb_true_iff _]%andb_true_iff.
  by apply Z.eqb_eq in E1, E2.
Qed.
Lemma not_null_valid p : null_or_valid p -> is_null p = false -> valid_price p.
Proof.
  intros [->|Hp] E; [|done]. exfalso. unfold is_null, price_eqb, price_cross in E. cbn in E.
  by rewrite Z.eqb_refl in E.
Qed.

Lemma bitasset_of_Ok mia s b s' :
  bitasset_of mia s = Ok (b, s') ->
  s' = s /\ exists o d, assets s !! mia = Some o /\ bitasset_data_id o = Some b /\ bitasset_data s !! b = Some d.
Proof. unfold bitasset_of. intros E. op_ok. split; [done|]. by eexists _, _. Qed.

(** What global settlement leaves alone. *)
Record frame_swan (s s' : database) : Prop := {
  fs_frame : market_frame s s';
  fs_limits : limit_orders s' = limit_orders s;
  fs_settlements : force_settlements s' = force_settlements s;
}.

Lemma globally_settle_step mia p s u s' :
  chain_wf s -> weak_price p -> globally_settle_asset mia p s = Ok (u, s') ->
  step (fun _ => 0) s s' /\ frame_swan s s'.
Proof.
  intros Hw Hp. unfold globally_settle_asset. intros E. run_ok1.
  apply bitasset_of_Ok in Hrun as (-> & o & d & Ho & Hb & Hd). mk_ok.
  assert (d = a0) as -> by (cbn in *; congruence). cbn in Lk1, Lk2.
  assert (a3 = o) as -> by congruence. clear Lk3.
  apply negb_true_iff, negb_false_iff, is_null_ids in Hreq.
  pose proof (wf_bitassets s Hw _ _ Hd) as (Hfeed & _ & Hfund & _). specialize (Hfund Hreq).
  match goal with Hs : settle_calls _ _ _ _ _ _ = Ok (?x, ?t) |- _ => rename x into g, t into s1;
    apply (settle_calls_step _ _ _ _ _ _ _ _ mia) in Hs as (Hgid & Hga & Hfr & n & Hst & Hret); try done end.
  2: { left. intros Hne. destruct (call_range _ _ _ _ _ Hw Hval0 Hval Hne) as (id & c & ? & ? & _ & ?).
       eauto. }
  specialize (Hret (mk_is_Some _ _ Ho)). cbn in Hgid.
  assert (Eb : bitasset_data s1 = bitasset_data s) by apply Hfr.
  assert (o1 = a0) as -> by (cbn in Lk0; congruence).
  assert (Hlk : asset_dynamic_data s1 !! dynamic_asset_data_id o = Some (set_supply (current_supply a5 - n) a5))
    by (by apply Hret).
  assert (o0 = set_supply (current_supply a5 - n) a5) as -> by (subst s12; cbn in *; congruence).
  assert (Hok : bitasset_ok o'0).
  { pose proof (wf_dynamic s Hw _ _ Lk1) as Hsup. unfold dynamic_ok in Hsup.
    unfold price_div in Hrun0. repeat run_ok1. subst. split_and!; cbn; [done|lia|lia| |].
    - intros [Hb1 Hb2]. cbn in *. lia.
    - right. cbn. split_and!; [done|lia|lia|congruence|cbn in *; lia]. }
  assert (Hrow : row_ok s1 a o'0) by (split; [done|]; exists a0; split; [exact Lk0|by subst o'0]).
  specialize (St0 (fun _ => Hrow)).
  assert (Hdok : dynamic_ok o') by (subst o'; exact (wf_dynamic s Hw _ _ Lk1)).
  specialize (St (fun _ => Hdok)). split.
  - eapply step_ext; [|eapply step_trans; [exact Hst|eapply step_trans; [exact St0|exact St]]].
    assert (Hw1 := step_wf _ _ _ Hst Hw). assert (Ho1 : assets s1 !! mia = Some o).
    { by rewrite (step_assets _ _ _ Hst). }
    intros y. cbn. subst o' o'0 s12. unfold w_dynamic, w_bitasset. cbn.
    rewrite !(dyn_of_eqb s1 mia o y Hw1 Ho1). rewrite Hfund. unfold if_asset.
    destruct (mia =? y), (short_backing_asset (bitasset_opts a0) =? y), (core_asset =? y); lia.
  - subst s' s12. destruct Hfr as [[] ? ? ?]. by repeat split.
Qed.

Lemma price_div_Ok b q p : price_div b q = Ok p -> asset_id b <> asset_id q /\ p = mk_price b q.
Proof. unfold price_div. intros E. repeat run_ok1. split; [lia|congruence]. Qed.

Lemma frame_swan_refl s : frame_swan s s.
Proof. by repeat split. Qed.

Lemma check_for_blackswan_step mia en s b s' :
  chain_wf s -> check_for_blackswan mia en s = Ok (b, s') ->
  step (fun _ => 0) s s' /\ frame_swan s s' /\ (b = false -> s' = s).
Proof.
  intros Hw. unfold check_for_blackswan. intros E. mk_ok.
  assert (Hstop : forall x, (mret x : M database bool) s = Ok (b, s') ->
    step (fun _ => 0) s s' /\ frame_swan s s' /\ (b = false -> s' = s)).
  { intros x E'. mk_ok. split; [apply step_refl|]. split; [apply frame_swan_refl|done]. }
  destruct (is_market_issued a); cbn [negb] in E; [|by eapply Hstop]. run_ok1.
  apply bitasset_of_Ok in Hrun as (-> & o & d & Ho & Hb & Hd). mk_ok.
  destruct (has_settlement a1); [by eapply Hstop|].
  destruct (is_null (settlement_price (current_feed a1))); [by eapply Hstop|]. mk_ok.
  case_bool_decide; [by eapply Hstop|]. run_ok1.
  match goal with Hh : (if bool_decide _ then _ else _) s = Ok (_, ?t) |- _ =>
    assert (t = s) as -> by (case_bool_decide; by mk_ok) end.
  mk_ok. branch E; [|by eapply Hstop]. mk_ok.
  match goal with Hc : collateralization _ = Ok _ |- _ => unfold collateralization in Hc;
    apply price_div_Ok in Hc as [Hid ->] end.
  match goal with Hl : table s !! _ = Some ?x |- _ => is_var x;
    match type of x with call_order_object => pose proof (wf_calls s Hw _ _ Hl) as (Hc & Hdd & _) end end.
  match goal with Hg : globally_settle_asset _ _ _ = Ok _ |- _ =>
    apply globally_settle_step in Hg as [? ?]; [|done|] end.
  - split_and!; done.
  - split; cbn; [lia|lia|exact (fun E' => Hid (eq_sym E'))].
Qed.

Lemma call_amounts_Ok buy sale p pays recv fc fl :
  0 <= amount buy < 2 ^ 63 -> 0 <= amount sale < 2 ^ 63 -> valid_price p ->
  call_amounts buy sale p = Ok (pays, recv, fc, fl) ->
  0 <= amount recv <= amount buy /\ amount recv <= amount sale /\ 0 <= amount pays < 2 ^ 63
  /\ (recv = buy \/ recv = sale) /\ asset_id buy = asset_id sale
  /\ (fl = true <-> recv = sale) /\ (fc = true <-> recv = buy).
Proof.
  intros Hb Hs Hp. unfold call_amounts. intros E. run_ok1. apply asset_ge_Ok in Hrun as [Hid ->].
  destruct (Z.leb_spec (amount sale) (amount buy)); run_ok1; injection E as <- <- <- <-;
    apply asset_mul_other in Hrun as (_ & Hv & _); try done; split_and!; try lia; auto.
  - done.
  - rewrite asset_eqb_eq. by split.
  - split; [done|]. intros ->. lia.
  - done.
Qed.

(** ** Margin calls *)
Definition has_feed (bid : Z) (s : database) : Prop :=
  exists d, bitasset_data s !! bid = Some d /\ is_null (settlement_price (current_feed d)) = false.

Lemma call_round_step mia bid en fnl limit_end st s r s' :
  chain_wf s -> has_feed bid s -> call_round mia bid en fnl limit_end st s = Ok (r, s') ->
  step (fun _ => 0) s s' /\ market_frame s s'
  /\ (forall st', r = inl st' -> bitasset_data s' = bitasset_data s).
Proof.
  intros Hw Hfeed. unfold call_round. intros E.
  assert (Hstop : forall x, (mret x : M database (call_loop + bool)) s = Ok (r, s') ->
    step (fun _ => 0) s s' /\ market_frame s s'
    /\ (forall st', r = inl st' -> bitasset_data s' = bitasset_data s)).
  { intros x E'. mk_ok. split; [apply step_refl|]. split; [apply market_frame_refl|done]. }
  case_bool_decide; [by eapply Hstop|]. mk_ok.
  repeat (branch E; [by eapply Hstop|]). mk_ok.
  match goal with L : table s !! bid = Some ?d |- _ => rename d into ba, L into Lba end. cbn in Lba, Hl, Hl0.
  pose proof (wf_bitassets s Hw _ _ Lba) as ((Hfo & _) & _).
  assert (Hnull : is_null (settlement_price (current_feed ba)) = false)
    by (destruct Hfeed as (d & ? & ?); congruence).
  pose proof (wf_limits s Hw _ _ Hl) as (Hfs & Hpr & _). pose proof (wf_calls s Hw _ _ Hl0) as (Hc & Hd & _).
  branch E.
  - mk_ok. match goal with Hg : globally_settle_asset _ _ _ = Ok _ |- _ =>
      apply globally_settle_step in Hg as [? []];
        [done|done|by apply valid_weak, not_null_valid] end.
  - run_ok1. match goal with Ha : lift _ _ = Ok (?x, _) |- _ => destruct x as [[[pays recv] fc] fl] end.
    mk_ok. match goal with Ha : call_amounts _ _ _ = Ok _ |- _ =>
      apply call_amounts_Ok in Ha as (Hrb & Hrs & Hp & _); [|cbn; unfold pos_int64 in *; lia..|done] end.
    match goal with Hi : (if fc then _ else _) s = Ok (_, ?t) |- _ =>
      assert (t = s) as -> by (destruct fc; by mk_ok) end.
    match goal with Hf : fill_call_order _ _ _ _ _ _ = Ok (_, ?t) |- _ => rename t into t1;
      pose proof (proj1 (fill_call_frame _ _ _ _ _ _ _ _ Hf)) as Hfr1;
      apply fill_call_step in Hf as S1;
        [|done|lia|lia|intros o Ho; cbn in Hrb; simplify_eq; lia] end.
    match goal with Hi : (if filled_limit st || fl then _ else _) t1 = Ok (_, ?t) |- _ =>
      assert (t = t1) as -> by (destruct (filled_limit st || fl); by mk_ok) end.
    match goal with Hf : fill_limit_order _ _ _ _ _ _ _ = Ok (_, ?t) |- _ => rename t into t2;
      pose proof (proj1 (fill_limit_frame _ _ _ _ _ _ _ _ _ Hf)) as Hfr2;
      apply fill_limit_step in Hf as S2; [|by apply (step_wf _ _ _ S1)|lia|lia|] end.
    2: { intros o Ho. cbn in Hrs. rewrite (fc_limits _ _ Hfr1) in Ho. simplify_eq. lia. }
    split_and!.
    + eapply step_ext; [|eapply step_trans; [exact S1|exact S2]]. intros y. unfold fill_delta. lia.
    + destruct Hfr1, Hfr2. by eapply market_frame_trans.
    + intros _ _. destruct Hfr1, Hfr2. congruence.
Qed.

Lemma call_rounds_step fuel mia bid en fnl limit_end call_end st s r s' :
  chain_wf s -> has_feed bid s ->
  call_rounds fuel mia bid en fnl limit_end call_end st s = Ok (r, s') ->
  step (fun _ => 0) s s' /\ market_frame s s'.
Proof.
  revert st s. induction fuel as [|fuel IH]; intros st s Hw Hf; cbn [call_rounds]; intros E; run_ok1;
    match goal with Hc : check_for_blackswan _ _ _ = Ok (?b, ?t) |- _ => rename b into swan, t into t1;
      apply check_for_blackswan_step in Hc as (S1 & [F1 _ _] & Hn); [|done] end.
  - branch E; [|done]. mk_ok. done.
  - branch E; [mk_ok; done|]. apply orb_false_iff in Heqb as [-> _].
    rewrite (Hn eq_refl) in *. run_ok1.
    apply call_round_step in Hrun as (S2 & F2 & Hb); [|done|done].
    match goal with rr : call_loop + bool |- _ => destruct rr as [st'|b] end; mk_ok; [|done].
    apply IH in E as [S3 F3]; [|by apply (step_wf _ _ _ S2)|].
    + split; [|by eapply market_frame_trans].
      eapply step_ext; [|eapply step_trans; [exact S2|exact S3]]. intros y. lia.
    + unfold has_feed. by rewrite (Hb _ eq_refl).
Qed.

Lemma check_call_orders_step mia en fnl s r s' :
  chain_wf s -> check_call_orders mia en fnl s = Ok (r, s') ->
  step (fun _ => 0) s s' /\ market_frame s s'.
Proof.
  intros Hw. unfold check_call_orders. intros E.
  assert (Hstop : forall t x, step (fun _ => 0) s t -> market_frame s t ->
    (mret x : M database bool) t = Ok (r, s') -> step (fun _ => 0) s s' /\ market_frame s s').
  { intros t x S F E'. by mk_ok. }
  mk_ok. branch E; [eapply Hstop; [apply step_refl|apply market_frame_refl|exact E]|]. run_ok1.
  match goal with Hc : check_for_blackswan _ _ _ = Ok (?b, ?t) |- _ => rename b into swan, t into t1;
    apply check_for_blackswan_step in Hc as (S1 & [F1 _ _] & Hn); [|done] end.
  branch E; [by eapply Hstop|]. rewrite (Hn eq_refl) in *. clear Hn. run_ok1.
  apply bitasset_of_Ok in Hrun as (-> & o & d & Ho & Hb & Hd). mk_ok.
  repeat (branch E; [by eapply Hstop|]). mk_ok.
  branch E; [by eapply Hstop|]. mk_ok.
  apply call_rounds_step in E; [done|done|]. eexists. split; [|eassumption]. done.
Qed.

(** ** New limit orders *)
Lemma match_limit_frame usd core p s r s' :
  match_limit usd core p s = Ok (r, s') -> market_frame s s' /\ bitasset_data s' = bitasset_data s.
Proof.
  unfold match_limit. intros E. mk_ok.
  match goal with Hm : match_amounts _ _ _ = Ok ?rr |- _ => destruct rr as [ur cr] end. mk_ok.
  repeat match goal with Hf : fill_limit_order _ _ _ _ _ _ _ = Ok _ |- _ =>
    apply fill_limit_frame in Hf as [[] _] end.
  split; [by eapply market_frame_trans|congruence].
Qed.

Lemma match_rounds_step fuel new_order limit_end itr fin s u s' :
  chain_wf s -> match_rounds fuel new_order limit_end itr fin s = Ok (u, s') ->
  step (fun _ => 0) s s' /\ market_frame s s'.
Proof.
  revert itr fin s. induction fuel as [|fuel IH]; intros itr fin s Hw; cbn [match_rounds]; intros E.
  - branch E; [|done]. mk_ok. split; [apply step_refl|apply market_frame_refl].
  - branch E; [mk_ok; split; [apply step_refl|apply market_frame_refl]|]. mk_ok.
    pose proof (wf_limits s Hw _ _ Hl) as (_ & Hpr & _).
    match goal with Hm : match_limit _ _ _ _ = Ok _ |- _ =>
      pose proof (match_limit_frame _ _ _ _ _ _ Hm) as [F1 _];
      apply match_limit_step in Hm as S1; [|done|done] end.
    apply IH in E as [S2 F2]; [|by apply (step_wf _ _ _ S1)]. split; [|by eapply market_frame_trans].
    eapply step_ext; [|eapply step_trans; [exact S1|exact S2]]. intros y. lia.
Qed.

Definition quiet (s s' : database) : Prop := step (fun _ => 0) s s' /\ market_frame s s'.
Lemma quiet_refl s : quiet s s.
Proof. split; [apply step_refl|apply market_frame_refl]. Qed.
Lemma quiet_trans s1 s2 s3 : quiet s1 s2 -> quiet s2 s3 -> quiet s1 s3.
Proof.
  intros [S1 F1] [S2 F2]. split; [|by eapply market_frame_trans].
  eapply step_ext; [|eapply step_trans; [exact S1|exact S2]]. intros y. lia.
Qed.
Lemma quiet_wf s s' : quiet s s' -> chain_wf s -> chain_wf s'.
Proof. intros [[W _ _] _]. exact W. Qed.

Ltac quiet_run :=
  match goal with
  | W : chain_wf ?s, R : _ ?s = Ok (_, ?t), Q : quiet ?s ?t |- _ =>
      lazymatch goal with Wt : chain_wf t |- _ => fail | _ => pose proof (quiet_wf _ _ Q W) end
  end.

Lemma check_call_orders_quiet mia en fnl s r s' :
  chain_wf s -> check_call_orders mia en fnl s = Ok (r, s') -> quiet s s' /\ chain_wf s'.
Proof.
  intros Hw E. apply check_call_orders_step in E as [S F]; [|done].
  split; [by split|by apply (step_wf _ _ _ S)].
Qed.
Lemma match_rounds_quiet fuel o e it fin s u s' :
  chain_wf s -> match_rounds fuel o e it fin s = Ok (u, s') -> quiet s s' /\ chain_wf s'.
Proof.
  intros Hw E. apply match_rounds_step in E as [S F]; [|done].
  split; [by split|by apply (step_wf _ _ _ S)].
Qed.
Lemma cancel_order_quiet id b s u s' : cancel_order id b s = Ok (u, s') -> quiet s s'.
Proof.
  intros E. split; [by eapply cancel_order_step|]. by apply cancel_order_frame in E as [[] _].
Qed.
Lemma maybe_cull_quiet id s r s' : maybe_cull_small_order id s = Ok (r, s') -> quiet s s'.
Proof.
  intros E. split; [by eapply maybe_cull_step|]. by apply maybe_cull_frame in E as [[] _].
Qed.

Lemma apply_order_quiet id allow s r s' :
  chain_wf s -> apply_order id allow s = Ok (r, s') -> quiet s s' /\ chain_wf s'.
Proof.
  intros Hw. unfold apply_order. intros E. assert (Q : quiet s s'); [|eauto using quiet_wf].
  mk_ok.
  do 2 match goal with W : chain_wf ?s, Hc : check_call_orders _ _ _ ?s = Ok _ |- _ =>
    apply check_call_orders_quiet in Hc as [? ?]; [|exact W] end.
  branch E; mk_ok; [by eapply quiet_trans|].
  match goal with W : chain_wf ?s, Hc : match_rounds _ _ _ _ _ ?s = Ok _ |- _ =>
    apply match_rounds_quiet in Hc as [? ?]; [|exact W] end.
  do 2 match goal with W : chain_wf ?s, Hc : check_call_orders _ _ _ ?s = Ok _ |- _ =>
    apply check_call_orders_quiet in Hc as [? ?]; [|exact W] end.
  match goal with Q : quiet ?s1 ?t |- _ => match type of E with context [table t] =>
    assert (Qt : quiet s t) by eauto using quiet_trans; assert (Q' : quiet t s'); [|by eapply quiet_trans] end end.
  match type of E with match ?x with _ => _ end _ = _ => destruct x end; mk_ok; [|apply quiet_refl].
  branch E; mk_ok; [apply quiet_refl|]. by eapply maybe_cull_quiet.
Qed.

(** ** Bids *)
Lemma execute_bid_step id debt fund feed s u s' bid :
  chain_wf s -> feed_ok feed -> 0 < debt < 2 ^ 63 -> 0 <= amount (base (inv_swan_price bid)) + fund ->
  collateral_bids s !! id = Some bid ->
  execute_bid id debt fund feed s = Ok (u, s') ->
  step (fun a => if_asset a (asset_id (base (inv_swan_price bid))) fund) s s'.
Proof.
  intros Hw Hfeed Hd Hf Hbid. unfold execute_bid. intros E. mk_ok.
  assert (a = bid) as -> by (cbn in *; congruence).
  pose proof (wf_bids s Hw _ _ Hbid) as (Hb & Hq & Hids). destruct Hfeed as (_ & _ & Hmcr).
  unfold GRAPHENE_MIN_COLLATERAL_RATIO, GRAPHENE_MAX_COLLATERAL_RATIO in Hmcr.
  apply safe_add_spec in Hval0 as [-> Hr]. unfold in_int64, int64_max in Hr.
  set (c := amount (base (inv_swan_price bid)) + fund) in *.
  assert (Hc : 0 < c).
  { destruct (Z.eq_dec c 0) as [E0|]; [|lia]. exfalso. unfold call_price in Hval. cbn in Hval.
    rewrite E0 in Hval. pose proof (rational_zero debt) as Hz. by destruct (rational debt 0). }
  apply call_price_valid in Hval as (Hpr & Hcb & Hcq); [|unfold pos_int64; cbn; lia..|exact (fun E' => Hids (eq_sym E'))].
  assert (Hok : call_ok (mk_call_order (bidder bid) c debt a1)) by (split_and!; cbn; done || lia).
  assert (Hback : call_backed s (mk_call_order (bidder bid) c debt a1)).
  { pose proof (wf_bid_backed s Hw _ _ Hbid) as Hbb. unfold bid_backed, call_backed, debt_type in *. cbn in *.
    by rewrite Hcb, Hcq. }
  specialize (St1 (fun _ => conj Hok Hback)).
  match goal with Hs : when _ _ s3 = Ok (_, s4) |- _ =>
    assert (Hst : (exists m, s4 = set_account_statistics m s3) /\ step (fun _ => 0) s3 s4) end.
  { match goal with Hs : when _ _ s3 = Ok (_, s4) |- _ => apply when_Ok in Hs as [[_ Hs]|[_ ->]] end.
    - mk_ok. split; [by eexists|]. eapply step_ext; [|eassumption]. intros y. cbv beta.
      unfold add_core_in_orders in Fn. repeat run_ok1. subst. cbn. unfold w_statistics. cbn. lia.
    - split; [exists (account_statistics s3); by destruct s3|apply step_refl]. }
  destruct Hst as [[m Em] Hst]. assert (o = bid) as -> by same_object.
  eapply step_ext; [|compose_steps]. intros y. cbv beta. cbn. unfold w_call, w_bid, asset_in, if_asset, c. cbn.
  rewrite Hcb. cbn. destruct (asset_id (base (inv_swan_price bid)) =? y); lia.
Qed.

Lemma execute_bid_frame id debt fund feed s u s' :
  execute_bid id debt fund feed s = Ok (u, s') ->
  bitasset_data s' = bitasset_data s /\ assets s' = assets s.
Proof.
  unfold execute_bid. intros E. mk_ok.
  match goal with Hs : when _ _ ?t1 = Ok (_, ?t2) |- _ =>
    assert (exists m, t2 = set_account_statistics m t1) as [m ->] end.
  { match goal with Hs : when _ _ ?t1 = Ok (_, ?t2) |- _ =>
      apply when_Ok in Hs as [[_ Hs]|[_ ->]]; [mk_ok; by eexists|exists (account_statistics t1); by destruct t1] end. }
  by subst.
Qed.

Lemma cancel_bid_frame id b s u s' : cancel_bid id b s = Ok (u, s') -> bitasset_data s' = bitasset_data s.
Proof. unfold cancel_bid. intros E. mk_ok. by subst. Qed.

Lemma cancel_bids_step fuel mia itr s u s' :
  cancel_bids fuel mia itr s = Ok (u, s') ->
  step (fun _ => 0) s s' /\ bitasset_data s' = bitasset_data s.
Proof.
  revert itr s. induction fuel as [|fuel IH]; intros [id|] s; cbn [cancel_bids]; intros E; mk_ok;
    try (branch E; mk_ok); try (split; [apply step_refl|done]).
  match goal with Hc : cancel_bid _ _ _ = Ok _ |- _ =>
    pose proof (cancel_bid_frame _ _ _ _ _ Hc); apply cancel_bid_step in Hc as S1 end.
  apply IH in E as [S2 ?]. split; [|congruence].
  eapply step_ext; [|eapply step_trans; [exact S1|exact S2]]. intros y. lia.
Qed.

Lemma finish_revive_step mia bid s u s' d :
  chain_wf s -> bitasset_data s !! bid = Some d -> cancel_bids_and_revive_mpa mia bid s = Ok (u, s') ->
  step (fun x => - if_asset x (short_backing_asset (bitasset_opts d)) (settlement_fund d)) s s'.
Proof.
  intros Hw Hd. unfold cancel_bids_and_revive_mpa. intros E. mk_ok. pose proof (wf_bitassets s Hw _ _ Hd) as (Hfeed & _).
  match goal with Hc : cancel_bids _ _ _ _ = Ok (_, ?t) |- _ =>
    apply cancel_bids_step in Hc as [S2 E2]; rename t into t2 end.
  assert (o = d) as -> by (cbn in *; congruence). subst o'.
  assert (Hok : bitasset_ok (set_swan null_price 0 d)) by (split_and!; cbn; [done|lia|lia|done|by left]).
  assert (Hrow : row_ok t2 bid (set_swan null_price 0 d)) by (split; [done|]; exists d; by split).
  specialize (St (fun _ => Hrow)).
  eapply step_ext; [|eapply step_trans; [exact S2|exact St]].
  intros y. cbn. unfold w_bitasset, if_asset. cbn.
  destruct (short_backing_asset (bitasset_opts d) =? y); lia.
Qed.
Lemma revive_step mia s u s' :
  chain_wf s -> revive_bitasset mia s = Ok (u, s') -> step (fun _ => 0) s s'.
Proof.
  intros Hw. unfold revive_bitasset. intros E. mk_ok.
  match goal with Hb : bitasset_of _ _ = Ok _ |- _ =>
    apply bitasset_of_Ok in Hb as (-> & o1 & d & Ho & Hb & Hd) end.
  assert (d = a2) as -> by (cbn in *; congruence).
  pose proof (wf_bitassets s Hw _ _ Hd) as (Hfeed & Hfund & _).
  pose proof (wf_dynamic s Hw _ _ Lk) as Hsup. red in Hsup.
  assert (Hmid : step (fun x => if_asset x (short_backing_asset (bitasset_opts a2)) (settlement_fund a2)) s s9
                 /\ bitasset_data s9 = bitasset_data s).
  { match goal with Hm : (if _ then _ else _) s = Ok (_, s9) |- _ => rename E into Er, Hm into E end.
    branch E; mk_ok.
    - apply Z.ltb_lt in Heqb. match goal with Hp : price_div _ _ = Ok _ |- _ =>
        apply price_div_Ok in Hp as [Hids ->] end. cbn in Hids.
      match goal with Hc : (chain_wf s -> row_ok s _ ?b) -> step _ s ?t |- _ =>
        assert (Hok : bid_ok b) by (split_and!; cbn; unfold pos_int64; done || lia);
        assert (Hback : bid_backed s b) by (split; [by eexists|]; intros ? ? ? ? ? ?; cbn in *; congruence);
        specialize (Hc (fun _ => conj Hok Hback)); rename Hc into S1, t into t1 end.
      match goal with Hx : execute_bid ?i _ _ _ t1 = Ok _ |- _ =>
        assert (Hl : exists b, collateral_bids t1 !! i = Some b
                      /\ inv_swan_price b = mk_price (mk_asset 0 (short_backing_asset (bitasset_opts a2)))
                                              (mk_asset (current_supply a5) mia))
          by (subst t1; cbn; rewrite lookup_insert_eq; eexists; split; [done|done]);
        destruct Hl as (b & Hl & Hb'); pose proof (execute_bid_frame _ _ _ _ _ _ _ Hx) as [Eb _];
        eapply execute_bid_step in Hx as S2; [|by apply (step_wf _ _ _ S1)|done|lia|rewrite Hb'; cbn; lia|exact Hl] end.
      split.
      + eapply step_ext; [|eapply step_trans; [exact S1|exact S2]]. intros y. rewrite Hb'. cbn.
        unfold w_bid, asset_in, if_asset. cbn.
        destruct (short_backing_asset (bitasset_opts a2) =? y); lia.
      + rewrite Eb. by subst.
    - match goal with Hq : (settlement_fund _ =? 0) = true |- _ => apply Z.eqb_eq in Hq as -> end. split; [|done]. eapply step_ext; [|apply step_refl].
      intros y. unfold if_asset. by case_match. }
  destruct Hmid as [S1 E1]. rewrite <-E1 in Hd.
  eapply finish_revive_step in E as S2; [|by apply (step_wf _ _ _ S1)|exact Hd].
  eapply step_ext; [|eapply step_trans; [exact S1|exact S2]]. intros y. cbv beta. lia.
Qed.
End Supply.
End MarketSupply.
