(* ===== verification/Evaluator.v ===== *)
(** * Operation evaluation ([evaluator.hpp], [evaluator.cpp],
    [is_authorized_asset.hpp], [is_authorized_asset.cpp])

    [evaluator<T>] is a class template whose derived classes supply
    [do_evaluate], [do_apply] and possibly [pay_fee]; here it is the type class
    [Evaluator], and [EvaluatorLaws] is what the template relies on for the
    supply of every asset to be kept.  The theorem about the template is proved
    against these laws; the evaluators discharge them. *)
From Stdlib Require Import ZArith Lia String.
From stdpp Require Import base gmap sets list strings.
From S2P Require Import Prelude External Asset Vesting Chain Balance Accounting.

Module Evaluator.
Import Asset Vesting Chain Balance Accounting.

Section Authorized.
(** ** Whitelists ([asset_issuer_permission_flags]: [white_list] is [0x02]) *)
Definition white_list_flag : Z := 2.
Definition _is_authorized_asset (now : Z) (acct : account_object) (asset : Z) (o : asset_object) : bool :=
  (match allowed_assets acct with
   | Some l => bool_decide (asset ∈ l)
   | None => true
   end)
  && negb (existsb (fun id => bool_decide (id ∈ blacklist_authorities (options o)))
             (elements (blacklisting_accounts acct)))
  && (((HARDFORK_415_TIME <? now) && bool_decide (whitelist_authorities (options o) = ∅))
      || existsb (fun id => bool_decide (id ∈ whitelist_authorities (options o)))
           (elements (whitelisting_accounts acct))).
Definition is_authorized_asset (now : Z) (acct : account_object) (asset : Z) (o : asset_object) : bool :=
  let fast_check := (Z.land (flags (options o)) white_list_flag =? 0)
                    && (match allowed_assets acct with Some _ => false | None => true end) in
  if fast_check then true else _is_authorized_asset now acct asset o.
End Authorized.

(** ** The state of an evaluation *)
Record transaction_evaluation_state : Type := mk_trx_state {
  _is_proposed_trx : bool;
  skip_fee : bool;
  skip_fee_schedule_check : bool;
}.
(** The members of [generic_evaluator] set by [start_evaluate] and [prepare_fee]. *)
Record generic_evaluator : Type := mk_evaluator {
  fee_from_account : asset;
  core_fee_paid : Z;
  fee_paying_account : Z;
  fee_asset : Z;
  trx_state : transaction_evaluation_state;
}.

Section Generic.
Context `{SafeOps, U128Ops}.

Definition prepare_fee (trx : transaction_evaluation_state) (account_id : Z) (fee : asset) : M database generic_evaluator :=
  _ ← require (0 <=? amount fee) "fee.amount >= 0";
  acct ← get account_object account_id;
  _ ← get account_statistics_object (statistics acct);
  o ← get asset_object (asset_id fee);
  d ← get asset_dynamic_data_object (dynamic_asset_data_id o);
  now ← gets head_block_time;
  _ ← when (HARDFORK_419_TIME <? now)
        (require (is_authorized_asset now acct (asset_id fee) o) "unauthorized due to whitelist / blacklist");
  if asset_id fee =? core_asset then mret (mk_evaluator fee (amount fee) account_id (asset_id fee) trx)
  else
    fee_from_pool ← lift (asset_mul fee (options_core_exchange_rate (options o)));
    _ ← require (asset_id fee_from_pool =? core_asset) "fee_from_pool.asset_id == asset_id_type()";
    _ ← require (amount fee_from_pool <=? fee_pool d) "Fee pool balance is less than required";
    mret (mk_evaluator fee (amount fee_from_pool) account_id (asset_id fee) trx).

Definition convert (g : generic_evaluator) (d : asset_dynamic_data_object)
  : result asset_dynamic_data_object :=
  acc ← safe_add (accumulated_fees d) (amount (fee_from_account g));
  pool ← safe_sub (fee_pool d) (core_fee_paid g);
  Ok (mk_dynamic_data (current_supply d) (confidential_supply d) acc pool).
Definition convert_fee (trx : transaction_evaluation_state) (g : generic_evaluator)
  : M database unit :=
  when (negb (skip_fee trx) && negb (fee_asset g =? core_asset))
    (o ← deref asset_object (fee_asset g);
     modify (dynamic_asset_data_id o) (convert g)).

(** [generic_evaluator::pay_fee]. *)
Definition generic_pay_fee (trx : transaction_evaluation_state) (g : generic_evaluator)
  : M database unit :=
  when (negb (skip_fee trx))
    (acct ← deref account_object (fee_paying_account g);
     threshold ← gets (fun s => cashback_vesting_threshold (parameters (gpo s)));
     modify (statistics acct) (stats_pay_fee (core_fee_paid g) threshold)).
End Generic.

(** ** [template<typename DerivedEvaluator> class evaluator]

    [E] are the members the derived class sets in [do_evaluate]; [pay_fee]
    returns the fee the derived class keeps back ([_deferred_fee]). *)
Class Evaluator (Op E R : Type) : Type := {
  fee_payer : Op -> Z;
  op_fee : Op -> asset;
  validate : Op -> result unit;
  do_evaluate : generic_evaluator -> Op -> M database E;
  pay_fee : transaction_evaluation_state -> generic_evaluator -> M database Z;
  do_apply : generic_evaluator -> E -> Z -> Op -> M database R;
}.

Section Template.
Context `{SafeOps, U128Ops} {Op E R : Type} `{Evaluator Op E R}.

(** [required_fee] is [calculate_fee_for_operation( op )]. *)
Definition evaluate (trx : transaction_evaluation_state) (required_fee : result Z) (op : Op)
  : M database (generic_evaluator * E) :=
  g ← prepare_fee trx (fee_payer op) (op_fee op);
  _ ← when (negb (skip_fee_schedule_check trx))
        (fee ← lift required_fee; require (fee <=? core_fee_paid g) "Insufficient Fee Paid");
  e ← do_evaluate g op;
  mret (g, e).
Definition apply (trx : transaction_evaluation_state) (g : generic_evaluator) (e : E) (op : Op)
  : M database R :=
  _ ← convert_fee trx g;
  deferred ← pay_fee trx g;
  result ← do_apply g e deferred op;
  neg ← lift (asset_neg (fee_from_account g));
  _ ← adjust_balance (fee_payer op) neg;
  mret result.
Definition start_evaluate (trx : transaction_evaluation_state) (required_fee : result Z) (op : Op)
  : M database R :=
  ge ← evaluate trx required_fee op;
  apply trx (fst ge) (snd ge) op.
End Template.

(** What a derived evaluator owes to the template, on the operations that are
    [typed] (their amounts are [int64_t]): evaluating changes nothing, and
    paying the fee and applying what was evaluated together add the core fee to
    the state and nothing else.  Between the two the template changes dynamic
    asset data only. *)
Class EvaluatorLaws `{SafeOps, U128Ops} (Op E R : Type) `{Evaluator Op E R} (typed : Op -> Prop)
  : Prop := {
  evaluate_pure g (op : Op) s (e : E) s' : do_evaluate g op s = Ok (e, s') -> s' = s;
  apply_step trx g (op : Op) (e : E) s0 m d s1 (r : R) s' :
    let s := set_asset_dynamic_data m s0 in
    skip_fee trx = false -> chain_wf s -> 0 <= core_fee_paid g -> validate op = Ok tt -> typed op ->
    do_evaluate g op s0 = Ok (e, s0) -> pay_fee trx g s = Ok (d, s1) ->
    do_apply g e d op s1 = Ok (r, s') ->
    conserves (fun a => if_asset a core_asset (core_fee_paid g)) s s';
}.

(** What is known of the steps of an evaluation, as a relation indexed by what
    they add to the surplus. *)
Class Tracks (R : (Z -> Z) -> database -> database -> Prop) : Prop := {
  track_step f s s' : step f s s' -> R f s s';
  track_trans f g s1 s2 s3 : R f s1 s2 -> R g s2 s3 -> R (fun a => f a + g a) s1 s3;
  track_ext f g s s' : (forall a, f a = g a) -> R f s s' -> R g s s';
}.
#[export] Instance conserves_tracks : Tracks conserves.
Proof. split; [apply step_conserves|apply conserves_trans|apply conserves_ext]. Qed.

(** ** Facts *)
Section Facts.
Context `{SafeLaws, U128Laws}.

Lemma mul_div_nonneg a n d r :
  0 <= a < 2 ^ 63 -> 0 <= n < 2 ^ 63 -> 0 <= d < 2 ^ 63 -> mul_div a n d = Ok r -> 0 <= r.
Proof.
  intros Ha Hn Hd. unfold mul_div. intros E. inv_ok.
  match goal with Hp : (0 <? d) = true |- _ => apply Z.ltb_lt in Hp end.
  rewrite !u128_id, u128_mul_spec, u128_div_spec in * by nia.
  match goal with Hr : Ok _ = Ok _ |- _ => injection Hr as <- end. apply Z.div_pos; nia.
Qed.

Lemma prepare_fee_Ok trx acct fee s g s' :
  chain_wf s -> amount fee < 2 ^ 63 -> prepare_fee trx acct fee s = Ok (g, s') ->
  s' = s /\ fee_from_account g = fee /\ fee_paying_account g = acct /\ fee_asset g = asset_id fee
  /\ 0 <= core_fee_paid g /\ (asset_id fee = core_asset -> core_fee_paid g = amount fee).
Proof.
  intros Hw Hfee. unfold prepare_fee. intros E. op_ok.
  match goal with Hr : (0 <=? amount fee) = true |- _ => apply Z.leb_le in Hr; rename Hr into Hpos end.
  match goal with Hr : when _ _ s = Ok (_, ?t) |- _ =>
    assert (t = s) as -> by (apply when_Ok in Hr as [[_ Hr]|[_ Hr]]; [by op_ok|done]) end.
  destruct (Z.eqb_spec (asset_id fee) core_asset); op_ok; cbn; [done|].
  split_and!; try done.
  match goal with L : table s !! asset_id fee = Some ?o |- _ =>
    pose proof (wf_options s Hw _ _ L) as (_ & _ & Hb & Hq) end.
  match goal with Hm : asset_mul _ _ = Ok _ |- _ => unfold asset_mul in Hm; revert Hm end.
  case_match; [|case_match; [|discriminate]]; intros Hm; inv_ok; cbn;
    match goal with Hr : mul_div _ _ _ = Ok _ |- _ => by apply mul_div_nonneg in Hr end.
Qed.

Lemma generic_pay_fee_step trx g s u s' :
  skip_fee trx = false -> generic_pay_fee trx g s = Ok (u, s') ->
  (exists m, s' = set_account_statistics m s)
  /\ step (fun a => if_asset a core_asset (core_fee_paid g)) s s'.
Proof.
  intros Hsk. unfold generic_pay_fee. rewrite Hsk. cbn [negb when]. intros E. op_ok.
  split; [by eexists|]. eapply step_ext; [|eassumption]. intros y. cbv beta.
  rewrite (stats_pay_fee_weight _ _ _ _ _ _ _ Fn). lia.
Qed.

Lemma convert_fee_step trx g s u s' :
  skip_fee trx = false -> chain_wf s -> convert_fee trx g s = Ok (u, s') ->
  (exists m, s' = set_asset_dynamic_data m s) /\ step (fun a => if fee_asset g =? core_asset then 0
                 else if_asset a (fee_asset g) (amount (fee_from_account g))
                      - if_asset a core_asset (core_fee_paid g)) s s'.
Proof.
  intros Hsk Hw. unfold convert_fee. rewrite Hsk. destruct (fee_asset g =? core_asset); cbn [negb andb when];
    intros E; op_ok;
    [split; [exists (asset_dynamic_data s); by destruct s|apply step_refl]|]. unfold convert in Fn. repeat run_ok1.
  repeat match goal with
  | Hs : safe_add _ _ = Ok _ |- _ => apply safe_add_spec in Hs as [-> _]
  | Hs : safe_sub _ _ = Ok _ |- _ => apply safe_sub_spec in Hs as [-> _]
  end. subst.
  specialize (St (fun W => wf_dynamic s W _ _ Lk)).
  split; [by eexists|]. eapply step_ext; [|eassumption]. intros y. cbn. unfold w_dynamic.
  match goal with L : table s !! fee_asset g = Some ?o |- _ => rewrite !(dyn_of_eqb _ _ _ _ Hw L) end.
  unfold if_asset. destruct (fee_asset g =? y), (core_asset =? y); cbn; lia.
Qed.
End Facts.

Section Supply.
Context `{SafeLaws, U128Laws} {Op E R : Type} `{!Evaluator Op E R}.

(** A successful evaluation keeps the supply of every asset, when paying the
    fee and applying the operation [op], evaluated in [s], add the core fee;
    and whatever else is tracked along. *)
Lemma start_evaluate_run (Rel : (Z -> Z) -> database -> database -> Prop) `{!Tracks Rel} trx required (op : Op) s (r : R) s' :
  (forall g (e : E) s1, do_evaluate g op s = Ok (e, s1) -> s1 = s) ->
  (forall g (e : E) m d s1 (r : R) s2, let t := set_asset_dynamic_data m s in
     chain_wf t -> 0 <= core_fee_paid g -> do_evaluate g op s = Ok (e, s) -> pay_fee trx g t = Ok (d, s1) ->
     do_apply g e d op s1 = Ok (r, s2) -> Rel (fun a => if_asset a core_asset (core_fee_paid g)) t s2) ->
  skip_fee trx = false -> chain_wf s -> amount (op_fee op) < 2 ^ 63 ->
  start_evaluate trx required op s = Ok (r, s') -> Rel (fun _ => 0) s s'.
Proof.
  intros Hpure Happ Hsk Hw Hfee. unfold start_evaluate, evaluate, apply. intros Hrn. op_ok.
  match goal with Hp : prepare_fee _ _ _ _ = Ok _ |- _ =>
    apply prepare_fee_Ok in Hp as (-> & Hfrom & Hacct & Hfa & Hcore & Hce); [|done|done] end.
  match goal with Hr : when _ _ s = Ok (_, ?t) |- _ =>
    assert (t = s) as -> by (apply when_Ok in Hr as [[_ Hr]|[_ Hr]]; [by op_ok|done]) end.
  match goal with Hp : do_evaluate _ _ _ = Ok _ |- _ =>
    pose proof (Hpure _ _ _ Hp) as ->; rename Hp into Hev end.
  cbn [fst snd] in *.
  match goal with Hp : convert_fee _ _ _ = Ok _ |- _ =>
    apply convert_fee_step in Hp as [[m ->] S1]; [|done..] end.
  match goal with Hp : pay_fee _ _ _ = Ok _, Hd : do_apply _ _ _ _ _ = Ok _ |- _ =>
    assert (S2 := Happ _ _ _ _ _ _ _ (step_wf _ _ _ S1 Hw) Hcore Hev Hp Hd) end.
  match goal with Hn : asset_neg _ = Ok _ |- _ => apply asset_neg_Ok in Hn as -> end.
  apply (track_step (R := Rel)) in S1, St.
  eapply track_ext; [|eapply track_trans; [exact S1|eapply track_trans; [exact S2|exact St]]].
  intros y. cbv beta. rewrite Hfa, Hfrom. unfold asset_in, if_asset. cbn [amount asset_id].
  destruct (Z.eqb_spec (asset_id (op_fee op)) core_asset) as [Ec|Ec].
  - rewrite Ec, (Hce Ec). destruct (core_asset =? y); lia.
  - destruct (asset_id (op_fee op) =? y), (core_asset =? y); lia.
Qed.

Lemma start_evaluate_conserves (typed : Op -> Prop) `{!EvaluatorLaws Op E R typed} trx required (op : Op) s (r : R) s' :
  skip_fee trx = false -> chain_wf s -> validate op = Ok tt -> typed op ->
  amount (op_fee op) < 2 ^ 63 -> start_evaluate trx required op s = Ok (r, s') ->
  conserves (fun _ => 0) s s'.
Proof.
  intros Hsk Hw Hv Hty. apply (start_evaluate_run conserves); [|intros ????????|done..].
  - intros g e s1. apply evaluate_pure.
  - intros. by eapply apply_step.
Qed.
End Supply.
End Evaluator.
