(* ===== verification/MarketEvaluator.v ===== *)
(** * The operations of the market ([market_evaluator.cpp],
    [protocol/market.hpp], [protocol/market.cpp])

    Creating and cancelling limit orders, updating margin positions and
    bidding collateral: the evaluators as instances of [Evaluator], and the
    proof that each satisfies [EvaluatorLaws]. *)
From Stdlib Require Import ZArith Lia String.
From stdpp Require Import base gmap sets list strings.
From S2P Require Import Prelude External Asset Vesting Chain Balance Accounting Market MarketSupply Evaluator.

Module MarketEvaluator.
Import Asset Vesting Chain Balance Accounting Market MarketSupply Evaluator.

(** [share_type] holds an [int64_t]. *)
Definition int64_asset (a : asset) : result unit :=
  fc_assert (bool_decide (in_int64 (amount a))) "int64_t".

Definition limit_order_create_validate (op : limit_order_create_operation) : result unit :=
  _ ← fc_assert (negb (asset_id (amount_to_sell op) =? asset_id (min_to_receive op))) "amount_to_sell.asset_id != min_to_receive.asset_id";
  _ ← fc_assert (0 <=? amount (lc_fee op)) "fee.amount >= 0";
  _ ← fc_assert (0 <? amount (amount_to_sell op)) "amount_to_sell.amount > 0";
  fc_assert (0 <? amount (min_to_receive op)) "min_to_receive.amount > 0".
Definition limit_order_cancel_validate (op : limit_order_cancel_operation) : result unit :=
  fc_assert (0 <=? amount (cancel_fee op)) "fee.amount >= 0".
Definition call_order_update_validate (op : call_order_update_operation) : result unit :=
  _ ← fc_assert (0 <=? amount (cu_fee op)) "fee.amount >= 0";
  _ ← fc_assert (negb (asset_id (delta_collateral op) =? asset_id (delta_debt op))) "delta_collateral.asset_id != delta_debt.asset_id";
  fc_assert (negb (amount (delta_collateral op) =? 0) || negb (amount (delta_debt op) =? 0))
    "delta_collateral.amount != 0 || delta_debt.amount != 0".
Definition bid_collateral_validate (op : bid_collateral_operation) : result unit :=
  _ ← fc_assert (0 <=? amount (bc_fee op)) "fee.amount >= 0";
  fc_assert ((amount (debt_covered op) =? 0)
             || ((0 <? amount (debt_covered op)) && (0 <? amount (additional_collateral op))))
    "debt_covered.amount == 0 || (debt_covered.amount > 0 && additional_collateral.amount > 0)".

Section Evaluators.
Context `{SafeOps, U128Ops, RationalOps, IndexOps}.

(** ** [limit_order_create_evaluator] *)
Definition limit_order_create_evaluate (g : generic_evaluator) (op : limit_order_create_operation)
  : M database unit :=
  now ← gets head_block_time;
  _ ← require (now <=? lc_expiration op) "op.expiration >= d.head_block_time()";
  sell ← get asset_object (asset_id (amount_to_sell op));
  receive ← get asset_object (asset_id (min_to_receive op));
  let sell_id := asset_id (amount_to_sell op) in
  let receive_id := asset_id (min_to_receive op) in
  _ ← when (negb (bool_decide (whitelist_markets (options sell) = ∅)))
        (require (bool_decide (receive_id ∈ whitelist_markets (options sell))) "whitelist_markets");
  _ ← when (negb (bool_decide (blacklist_markets (options sell) = ∅)))
        (require (bool_decide (receive_id ∉ blacklist_markets (options sell))) "blacklist_markets");
  seller ← deref account_object (fee_paying_account g);
  _ ← require (is_authorized_asset now seller sell_id sell) "is_authorized_asset( d, *_seller, *_sell_asset )";
  _ ← require (is_authorized_asset now seller receive_id receive) "is_authorized_asset( d, *_seller, *_receive_asset )";
  bal ← gets (get_balance (fee_paying_account g) sell_id);
  enough ← lift (asset_ge bal (amount_to_sell op));
  require enough "insufficient balance".
Definition limit_order_create_pay_fee (trx : transaction_evaluation_state) (g : generic_evaluator)
  : M database Z :=
  now ← gets head_block_time;
  if now <=? HARDFORK_445_TIME then _ ← generic_pay_fee trx g; mret 0
  else mret (core_fee_paid g).
Definition limit_order_create_apply (g : generic_evaluator) (_ : unit) (deferred : Z)
    (op : limit_order_create_operation) : M database Z :=
  seller ← deref account_object (fee_paying_account g);
  stats ← statistics_of (fee_paying_account g);
  _ ← modify stats (fun bal =>
        if asset_id (amount_to_sell op) =? core_asset
        then add_core_in_orders (amount (amount_to_sell op)) bal else Ok bal);
  neg ← lift (asset_neg (amount_to_sell op));
  _ ← adjust_balance (lc_seller op) neg;
  price ← lift (price_div (amount_to_sell op) (min_to_receive op));
  order_id ← create (mk_limit_order (lc_expiration op) (fee_paying_account g)
                       (amount (amount_to_sell op)) price deferred);
  filled ← apply_order order_id true;
  _ ← require (negb (fill_or_kill op) || filled) "!op.fill_or_kill || filled";
  mret order_id.
#[export] Instance limit_order_create_evaluator
  : Evaluator limit_order_create_operation unit Z := {
  fee_payer := lc_seller;
  op_fee := lc_fee;
  validate := limit_order_create_validate;
  do_evaluate := limit_order_create_evaluate;
  pay_fee := limit_order_create_pay_fee;
  do_apply := limit_order_create_apply;
}.

(** The default [pay_fee]. *)
Definition default_pay_fee (trx : transaction_evaluation_state) (g : generic_evaluator)
  : M database Z :=
  _ ← generic_pay_fee trx g; mret 0.

(** ** [limit_order_cancel_evaluator] *)
Definition limit_order_cancel_evaluate (g : generic_evaluator) (op : limit_order_cancel_operation)
  : M database unit :=
  o ← get limit_order_object (order op);
  require (seller o =? fee_paying op) "_order->seller == o.fee_paying_account".
Definition limit_order_cancel_apply (g : generic_evaluator) (_ : unit) (_ : Z)
    (op : limit_order_cancel_operation) : M database asset :=
  o ← deref limit_order_object (order op);
  let base_asset := asset_id (base (sell_price o)) in
  let quote_asset := asset_id (quote (sell_price o)) in
  let refunded := amount_for_sale o in
  _ ← cancel_order (order op) false;
  _ ← get asset_object base_asset;
  _ ← check_call_orders base_asset true false;
  _ ← get asset_object quote_asset;
  _ ← check_call_orders quote_asset true false;
  mret refunded.
#[export] Instance limit_order_cancel_evaluator
  : Evaluator limit_order_cancel_operation unit asset := {
  fee_payer := fee_paying;
  op_fee := cancel_fee;
  validate := limit_order_cancel_validate;
  do_evaluate := limit_order_cancel_evaluate;
  pay_fee := default_pay_fee;
  do_apply := limit_order_cancel_apply;
}.

(** ** [call_order_update_evaluator] *)
Definition call_order_update_evaluate (g : generic_evaluator) (op : call_order_update_operation)
  : M database unit :=
  _ ← get account_object (funding_account op);
  debt_asset ← get asset_object (asset_id (delta_debt op));
  _ ← require (is_market_issued debt_asset) "Unable to cover as it is not a collateralized asset.";
  bid ← bitasset_of (asset_id (delta_debt op));
  bitasset ← deref asset_bitasset_data_object bid;
  _ ← require (negb (has_settlement bitasset)) "!_bitasset_data->has_settlement()";
  let backing := short_backing_asset (bitasset_opts bitasset) in
  _ ← require (asset_id (delta_collateral op) =? backing) "o.delta_collateral.asset_id == short_backing_asset";
  _ ← (if is_prediction_market bitasset
       then require (amount (delta_collateral op) =? amount (delta_debt op)) "o.delta_collateral.amount == o.delta_debt.amount"
       else require (negb (is_null (settlement_price (current_feed bitasset)))) "Cannot borrow asset with no price feed.");
  _ ← when (amount (delta_debt op) <? 0)
        (bal ← gets (get_balance (funding_account op) (asset_id (delta_debt op)));
         enough ← lift (asset_ge bal (delta_debt op));
         require enough "Cannot cover");
  when (0 <? amount (delta_collateral op))
    (_ ← get asset_object backing;
     bal ← gets (get_balance (funding_account op) backing);
     enough ← lift (asset_ge bal (delta_collateral op));
     require enough "Cannot increase collateral").

(** [call_idx.find( boost::make_tuple(funding_account, delta_debt.asset_id) )]. *)
Definition find_call (owner debt_asset : Z) (s : database) : iterator :=
  first_with (fun c => (borrower c =? owner) && (debt_type c =? debt_asset))
    (map_to_list (call_orders s)).
Definition update_position (dc dd ratio : Z) (c : call_order_object) : result call_order_object :=
  coll ← safe_add (collateral c) dc;
  d ← safe_add (debt c) dd;
  let c' := set_position coll d c in
  if 0 <? d then
    p ← call_price (get_debt c') (get_collateral c') ratio;
    Ok (mk_call_order (borrower c) coll d p)
  else Ok c'.
(** Creating or changing the position; it is returned by its identifier. *)
Definition change_position (bid : Z) (op : call_order_update_operation) : M database Z :=
  bitasset ← deref asset_bitasset_data_object bid;
  let ratio := maintenance_collateral_ratio (current_feed bitasset) in
  itr ← gets (find_call (funding_account op) (asset_id (delta_debt op)));
  match itr with
  | None =>
      _ ← require (0 <? amount (delta_collateral op)) "o.delta_collateral.amount > 0";
      _ ← require (0 <? amount (delta_debt op)) "o.delta_debt.amount > 0";
      p ← lift (call_price (delta_debt op) (delta_collateral op) ratio);
      create (mk_call_order (funding_account op) (amount (delta_collateral op))
                (amount (delta_debt op)) p)
  | Some id =>
      _ ← modify id (update_position (amount (delta_collateral op)) (amount (delta_debt op)) ratio);
      mret id
  end.
(** The check after the position has changed: a margin call must have filled
    the order, or the position must be clear of margin calls. *)
Definition check_margin (debt_asset bid id : Z) : M database unit :=
  called ← check_call_orders debt_asset false false;
  call_obj ← find call_order_object id;
  if (called : bool) then
    require (bool_decide (call_obj = None)) "Updating call order would trigger a margin call that cannot be fully filled"
  else
    c ← lift (of_option call_obj "no margin call was executed and yet the call object was deleted");
    bitasset ← deref asset_bitasset_data_object bid;
    require (price_lt (price_inv (order_call_price c)) (settlement_price (current_feed bitasset)))
      "Updating call order would trigger a margin call that cannot be fully filled".
Definition call_order_update_apply (g : generic_evaluator) (_ : unit) (_ : Z)
    (op : call_order_update_operation) : M database unit :=
  let debt_asset := asset_id (delta_debt op) in
  bid ← bitasset_of debt_asset;
  _ ← when (negb (amount (delta_debt op) =? 0))
        (_ ← adjust_balance (funding_account op) (delta_debt op);
         o ← deref asset_object debt_asset;
         dyn ← dynamic_of o;
         modify dyn (add_supply (amount (delta_debt op))));
  _ ← when (negb (amount (delta_collateral op) =? 0))
        (neg ← lift (asset_neg (delta_collateral op));
         _ ← adjust_balance (funding_account op) neg;
         when (asset_id (delta_collateral op) =? core_asset)
           (stats ← statistics_of (funding_account op);
            modify stats (add_core_in_orders (amount (delta_collateral op)))));
  id ← change_position bid op;
  call_obj ← deref call_order_object id;
  if debt call_obj =? 0 then
    _ ← require (collateral call_obj =? 0) "call_obj->collateral == 0";
    remove call_order_object id
  else
    _ ← require ((0 <? collateral call_obj) && (0 <? debt call_obj)) "call_obj->collateral > 0 && call_obj->debt > 0";
    bitasset ← deref asset_bitasset_data_object bid;
    if is_prediction_market bitasset then mret tt else check_margin debt_asset bid id.
#[export] Instance call_order_update_evaluator
  : Evaluator call_order_update_operation unit unit := {
  fee_payer := funding_account;
  op_fee := cu_fee;
  validate := call_order_update_validate;
  do_evaluate := call_order_update_evaluate;
  pay_fee := default_pay_fee;
  do_apply := call_order_update_apply;
}.

(** ** [bid_collateral_evaluator] *)
(** [index.find( boost::make_tuple( debt_covered.asset_id, bidder ) )]. *)
Definition find_bid (debt_asset owner : Z) (s : database) : iterator :=
  first_with (fun b => (bid_debt_type b =? debt_asset) && (bidder b =? owner))
    (map_to_list (collateral_bids s)).
Definition bid_collateral_evaluate (g : generic_evaluator) (op : bid_collateral_operation)
  : M database iterator :=
  now ← gets head_block_time;
  _ ← require (HARDFORK_CORE_216_TIME <? now) "Not yet!";
  _ ← get account_object (bc_bidder op);
  let debt_asset := asset_id (debt_covered op) in
  o ← get asset_object debt_asset;
  _ ← require (is_market_issued o) "Unable to cover as it is not a collateralized asset.";
  bid ← bitasset_of debt_asset;
  bitasset ← deref asset_bitasset_data_object bid;
  let backing := short_backing_asset (bitasset_opts bitasset) in
  _ ← require (has_settlement bitasset) "_bitasset_data->has_settlement()";
  _ ← require (asset_id (additional_collateral op) =? backing) "o.additional_collateral.asset_id == short_backing_asset";
  _ ← require (negb (is_prediction_market bitasset)) "Cannot bid on a prediction market!";
  _ ← when (0 <? amount (additional_collateral op))
        (_ ← get asset_object backing;
         bal ← gets (get_balance (bc_bidder op) backing);
         enough ← lift (asset_ge bal (additional_collateral op));
         require enough "Cannot bid collateral");
  found ← gets (find_bid debt_asset (bc_bidder op));
  match found with
  | Some id => mret (Some id)
  | None => _ ← require (0 <? amount (debt_covered op)) "Can't find bid to cancel?!"; mret None
  end.
Definition bid_collateral_apply (g : generic_evaluator) (bid : iterator) (_ : Z)
    (op : bid_collateral_operation) : M database unit :=
  _ ← match bid with Some id => cancel_bid id false | None => mret tt end;
  if amount (debt_covered op) =? 0 then mret tt
  else
    neg ← lift (asset_neg (additional_collateral op));
    _ ← adjust_balance (bc_bidder op) neg;
    p ← lift (price_div (additional_collateral op) (debt_covered op));
    _ ← create (mk_bid (bc_bidder op) p);
    mret tt.
#[export] Instance bid_collateral_evaluator
  : Evaluator bid_collateral_operation iterator unit := {
  fee_payer := bc_bidder;
  op_fee := bc_fee;
  validate := bid_collateral_validate;
  do_evaluate := bid_collateral_evaluate;
  pay_fee := default_pay_fee;
  do_apply := bid_collateral_apply;
}.
End Evaluators.
End MarketEvaluator.
