(* ===== verification/MarketLaws.v ===== *)
(** * The market's operations keep the supply

    Each evaluator of [MarketEvaluator] satisfies [EvaluatorLaws], so that a
    whole operation ([start_evaluate]) keeps every asset's surplus. *)
From Stdlib Require Import ZArith Lia String.
From stdpp Require Import base gmap sets list strings.
From S2P Require Import Prelude External Asset Vesting Chain Balance Accounting Market MarketSupply Evaluator MarketEvaluator.

Module MarketLaws.
Import Asset Vesting Chain Balance Accounting Market MarketSupply Evaluator MarketEvaluator.

(** The amounts of an operation are [int64_t]. *)
Definition int64_amount (a : asset) : Prop := in_int64 (amount a).
Definition limit_create_typed (op : limit_order_create_operation) : Prop :=
  int64_amount (lc_fee op) /\ int64_amount (amount_to_sell op) /\ int64_amount (min_to_receive op).
Definition limit_cancel_typed (op : limit_order_cancel_operation) : Prop :=
  int64_amount (cancel_fee op).
Definition call_update_typed (op : call_order_update_operation) : Prop :=
  int64_amount (cu_fee op) /\ int64_amount (delta_collateral op) /\ int64_amount (delta_debt op).
Definition bid_typed (op : bid_collateral_operation) : Prop :=
  int64_amount (bc_fee op) /\ int64_amount (additional_collateral op) /\ int64_amount (debt_covered op).

Lemma int64_amount_lt a : int64_amount a -> amount a < 2 ^ 63.
Proof. unfold int64_amount, in_int64, int64_max. lia. Qed.

(** A [when] whose body does not change the state. *)
Lemma when_pure b (m : M database unit) s u s' :
  (m s = Ok (u, s') -> s' = s) -> when b m s = Ok (u, s') -> s' = s.
Proof. intros Hm [[_ E]|[_ ->]]%when_Ok; auto. Qed.
Ltac pure_ok :=
  repeat first
    [ run_ok1 | op_ok1
    | match goal with
      | H : when _ _ ?s = Ok (_, ?t) |- _ =>
          let E := fresh in
          assert (t = s) as E by (revert H; apply when_pure; intros H; pure_ok; done);
          clear H; subst t
      | H : bitasset_of _ _ = Ok _ |- _ => apply bitasset_of_Ok in H as (-> & ? & ? & ? & ? & ?)
      end ].

Section Laws.
Context `{SafeLaws, U128Laws, RationalLaws, IndexLaws}.

Lemma default_pay_fee_step trx g s d s' :
  skip_fee trx = false -> default_pay_fee trx g s = Ok (d, s') ->
  (exists m, s' = set_account_statistics m s)
  /\ step (fun a => if_asset a core_asset (core_fee_paid g)) s s'.
Proof.
  intros Hsk. unfold default_pay_fee. intros E. run_ok1. run_ok1. by apply generic_pay_fee_step in Hrun.
Qed.

(** ** Creating a limit order *)
Lemma limit_create_pure g op s e s' : limit_order_create_evaluate g op s = Ok (e, s') -> s' = s.
Proof. unfold limit_order_create_evaluate. intros E. pure_ok. done. Qed.

Lemma limit_create_pay_fee_step trx g s d s' :
  skip_fee trx = false -> 0 <= core_fee_paid g -> limit_order_create_pay_fee trx g s = Ok (d, s') ->
  0 <= d /\ step (fun a => if_asset a core_asset (core_fee_paid g - d)) s s'.
Proof.
  intros Hsk Hc. unfold limit_order_create_pay_fee. intros E. run_ok1. run_ok1. branch E.
  - run_ok1. apply generic_pay_fee_step in Hrun as [_ S]; [|done]. run_ok1.
    split; [done|]. by rewrite Z.sub_0_r.
  - run_ok1. split; [done|]. eapply step_ext; [|apply step_refl]. intros a. unfold if_asset.
    case_match; lia.
Qed.

Lemma limit_create_apply_step g e d op s r s' :
  chain_wf s -> 0 <= d -> limit_order_create_validate op = Ok tt -> limit_create_typed op ->
  limit_order_create_apply g e d op s = Ok (r, s') ->
  step (fun a => if_asset a core_asset d) s s'.
Proof.
  intros Hw Hd Hv (_ & Hs & Hm). unfold limit_order_create_validate in Hv. repeat run_ok1.
  apply int64_amount_lt in Hs, Hm.
  unfold limit_order_create_apply. intros E. op_ok.
  repeat match goal with Hb : (0 <? _) = true |- _ => apply Z.ltb_lt in Hb end.
  match goal with Hn : asset_neg _ = Ok _ |- _ => apply asset_neg_Ok in Hn as -> end.
  match goal with Hn : price_div _ _ = Ok _ |- _ => apply price_div_Ok in Hn as [Hne ->] end.
  match goal with Ha : apply_order _ _ ?t = Ok _ |- _ => rename t into tc, Ha into Hap end.
  match type of St1 with (chain_wf ?t -> _) -> _ => rename t into tb end.
  assert (Hwb : chain_wf tb) by (eapply step_wf; [eassumption|]; eapply step_wf; eassumption).
  assert (Hok : limit_ok (mk_limit_order (lc_expiration op) (fee_paying_account g)
                  (amount (amount_to_sell op)) (mk_price (amount_to_sell op) (min_to_receive op)) d)).
  { repeat split; unfold pos_int64; cbn; done || lia. }
  specialize (St1 (fun _ => Hok)).
  apply apply_order_quiet in Hap as [[S4 _] _]; [|eapply step_wf; eassumption].
  eapply step_ext; [|compose_steps]. intros y. cbv beta.
  rewrite (core_stats_add_weight _ _ _ _ _ _ _ Fn). weigh.
Qed.

(** ** Cancelling a limit order *)
Lemma limit_cancel_apply_step g e d op s r s' :
  chain_wf s -> limit_order_cancel_apply g e d op s = Ok (r, s') -> step (fun _ => 0) s s'.
Proof.
  intros Hw. unfold limit_order_cancel_apply. intros E. op_ok.
  match goal with Hc : cancel_order _ _ _ = Ok _ |- _ => apply cancel_order_quiet in Hc as Q1 end.
  pose proof (quiet_wf _ _ Q1 Hw).
  do 2 match goal with W : chain_wf ?s, Hc : check_call_orders _ _ _ ?s = Ok _ |- _ =>
    apply check_call_orders_quiet in Hc as [? ?]; [|exact W] end.
  apply (quiet_trans _ _ _ Q1). by eapply quiet_trans.
Qed.

(** ** Updating a margin position *)
Lemma call_update_pure g op s e s' : call_order_update_evaluate g op s = Ok (e, s') -> s' = s.
Proof.
  unfold call_order_update_evaluate. intros E. pure_ok.
  match goal with Hp : (if is_prediction_market ?b then _ else _) s = Ok (_, ?t) |- _ =>
    assert (t = s) as -> by (destruct (is_prediction_market b); by pure_ok) end.
  pure_ok. done.
Qed.

(** What [do_evaluate] establishes for [do_apply]. *)
Definition positioned (op : call_order_update_operation) (s : database) : Prop :=
  asset_id (delta_debt op) <> asset_id (delta_collateral op)
  /\ exists o b d, assets s !! asset_id (delta_debt op) = Some o /\ bitasset_data_id o = Some b
      /\ bitasset_data s !! b = Some d
      /\ short_backing_asset (bitasset_opts d) = asset_id (delta_collateral op).
Lemma call_update_positioned g op s e s' :
  call_order_update_validate op = Ok tt -> call_order_update_evaluate g op s = Ok (e, s') ->
  positioned op s.
Proof.
  unfold call_order_update_validate, call_order_update_evaluate. intros Hv E. repeat run_ok1.
  pure_ok. split; [lia|]. eexists _, _, _. split_and!; try eassumption. lia.
Qed.

(** The debt is paid out and recorded; the collateral is taken. *)
Lemma add_supply_weight s x o a n d d' :
  chain_wf s -> assets s !! x = Some o -> add_supply n d = Ok d' ->
  dynamic_ok d' /\ weight s a (dynamic_asset_data_id o) d'
                   = weight s a (dynamic_asset_data_id o) d - if_asset a x n.
Proof.
  intros Hw Hx. unfold add_supply. intros E. run_ok1. apply safe_add_spec in Hrun as [-> Hi].
  injection E as <-. split; [unfold dynamic_ok, in_int64, int64_max in *; cbn; lia|]. cbn.
  unfold w_dynamic. rewrite !(dyn_of_eqb _ _ _ _ Hw Hx). unfold if_asset. cbn. destruct (x =? a); lia.
Qed.

Lemma pay_out_debt_step op s u s' :
  chain_wf s ->
  when (negb (amount (delta_debt op) =? 0))
    (_ ← adjust_balance (funding_account op) (delta_debt op);
     o ← deref asset_object (asset_id (delta_debt op));
     dyn ← dynamic_of o;
     modify dyn (add_supply (amount (delta_debt op)))) s = Ok (u, s') ->
  (exists m b, s' = set_asset_dynamic_data m (set_account_balances b s)) /\ step (fun _ => 0) s s'.
Proof.
  intros Hw [[_ E]|[_ ->]]%when_Ok.
  - op_ok. split; [subst; by eexists _, _|].
    match goal with L : table ?t !! asset_id (delta_debt op) = Some ?o |- _ =>
      assert (Hwt : chain_wf t) by (by eapply step_wf);
      pose proof (fun a => add_supply_weight t _ o a _ _ _ Hwt L Fn) as Hd end.
    specialize (St0 (fun _ => proj1 (Hd 0))).
    eapply step_ext; [|compose_steps]. intros y. cbv beta.
    rewrite (proj2 (Hd y)). unfold asset_in. lia.
  - split; [|apply step_refl]. exists (asset_dynamic_data s), (account_balances s). by destruct s.
Qed.

Lemma take_collateral_step op s u s' :
  when (negb (amount (delta_collateral op) =? 0))
    (neg ← lift (asset_neg (delta_collateral op));
     _ ← adjust_balance (funding_account op) neg;
     when (asset_id (delta_collateral op) =? core_asset)
       (stats ← statistics_of (funding_account op);
        modify stats (add_core_in_orders (amount (delta_collateral op))))) s = Ok (u, s') ->
  (exists m b, s' = set_account_statistics m (set_account_balances b s))
  /\ step (fun a => - asset_in a (delta_collateral op)) s s'.
Proof.
  intros [[_ E]|[Hz ->]]%when_Ok.
  - op_ok. match goal with Hn : asset_neg _ = Ok _ |- _ => apply asset_neg_Ok in Hn as -> end.
    apply when_Ok in E as [[_ E]|[_ ->]].
    + op_ok. split; [subst; by eexists _, _|]. eapply step_ext; [|compose_steps].
      intros y. cbv beta. rewrite (core_stats_add_weight true _ _ _ _ _ _ Fn). weigh.
    + split; [subst; exists (account_statistics s), bals; by destruct s|].
      eapply step_ext; [|compose_steps]. intros y. cbv beta. weigh.
  - split; [exists (account_statistics s), (account_balances s); by destruct s|].
    apply negb_false_iff, Z.eqb_eq in Hz. eapply step_ext; [|apply step_refl].
    intros y. unfold asset_in, if_asset. case_match; lia.
Qed.

Lemma first_with_Some {A} (q : A -> bool) (l : list (Z * A)) id :
  first_with q l = Some id -> exists x, (id, x) ∈ l /\ q x = true.
Proof.
  induction l as [|[k x] l IH]; cbn; [done|]. destruct (q x) eqn:Eq.
  - intros [= <-]. exists x. split; [by left|done].
  - intros (y & Hy & ?)%IH. exists y. split; [by right|done].
Qed.
Lemma find_call_Some owner x s id :
  find_call owner x s = Some id ->
  exists c, call_orders s !! id = Some c /\ borrower c = owner /\ debt_type c = x.
Proof.
  intros (c & Hc & [E1 E2]%andb_true_iff)%first_with_Some. exists c.
  apply elem_of_map_to_list in Hc. split; [done|lia].
Qed.

(** A position that [do_apply] accepts. *)
Definition position_ok (c : call_order_object) : Prop :=
  (debt c = 0 /\ collateral c = 0) \/ (0 < collateral c /\ 0 < debt c).

Lemma update_position_ok dc dd ratio c c' :
  call_ok c -> 0 < ratio < 2 ^ 16 -> update_position dc dd ratio c = Ok c' -> position_ok c' ->
  call_ok c' /\ collateral c' = collateral c + dc
  /\ asset_id (base (order_call_price c')) = asset_id (base (order_call_price c))
  /\ debt_type c' = debt_type c.
Proof.
  intros (Hc & Hd & Hp) Hr. unfold update_position. intros E Hpos. run_ok1. run_ok1.
  apply safe_add_spec in Hrun as [-> Hi], Hrun0 as [-> Hj]. unfold in_int64, int64_max in *.
  destruct (Z.ltb_spec 0 (debt c + dd)).
  - run_ok1. injection E as <-. unfold position_ok in Hpos. cbn in Hpos.
    apply call_price_valid in Hrun as (Hv & Hb & Hq); cbn in *; [|unfold pos_int64; lia..|done|].
    + unfold call_ok, debt_type in *. cbn. split_and!; done || lia.
    + unfold debt_type. cbn. intros E. destruct Hp. congruence.
  - injection E as <-. unfold position_ok, call_ok, debt_type in *. cbn in *. split_and!; done || lia.
Qed.

Lemma change_position_step bid op s id s' c' :
  chain_wf s -> positioned op s -> int64_amount (delta_collateral op) -> int64_amount (delta_debt op) ->
  (forall o, assets s !! asset_id (delta_debt op) = Some o -> bitasset_data_id o = Some bid) ->
  change_position bid op s = Ok (id, s') -> call_orders s' !! id = Some c' -> position_ok c' ->
  step (fun a => asset_in a (delta_collateral op)) s s'.
Proof.
  intros Hw (Hne & o & b & d & Ho & Hb & Hd & Hback) Hdc Hdd Hbid E Hc' Hpos.
  specialize (Hbid _ Ho). simplify_eq. apply int64_amount_lt in Hdc, Hdd.
  unfold change_position in E. op_ok. cbn in Lk. simplify_eq.
  pose proof (wf_bitassets s Hw _ _ Hd) as ((_ & _ & Hmcr) & _).
  unfold GRAPHENE_MIN_COLLATERAL_RATIO, GRAPHENE_MAX_COLLATERAL_RATIO in Hmcr.
  assert (Hratio : 0 < maintenance_collateral_ratio (current_feed d) < 2 ^ 16) by lia.
  destruct (find_call (funding_account op) (asset_id (delta_debt op)) s) as [k|] eqn:Ef; op_ok.
  - apply find_call_Some in Ef as (c & Hc & _ & Hdt). cbn in Lk.
    assert (o0 = c) as -> by congruence. rewrite Es in Hc'. cbn in Hc'.
    rewrite lookup_insert_eq in Hc'. injection Hc' as <-.
    pose proof (wf_calls s Hw _ _ Hc) as Hcok. pose proof (wf_call_backed s Hw _ _ Hc) as Hcb.
    destruct (update_position_ok _ _ _ _ _ Hcok Hratio Fn Hpos) as (Hok & Ecoll & Eb & Eq).
    assert (Hbk : call_backed s o') by (unfold call_backed in *; by rewrite Eq, Eb).
    specialize (St (fun _ => conj Hok Hbk)).
    eapply step_ext; [|exact St]. intros y. cbv beta. cbn. unfold w_call, asset_in, if_asset, get_collateral. cbn.
    rewrite Eb, Ecoll. rewrite <- (proj2 Hcb o b d ltac:(congruence) Hb Hd).
    rewrite Hback. case_match; lia.
  - repeat match goal with Hb : (0 <? _) = true |- _ => apply Z.ltb_lt in Hb end.
    match goal with Hp : call_price _ _ _ = Ok _ |- _ =>
      apply call_price_valid in Hp as (Hv & Hpb & Hpq); [|unfold pos_int64; lia..|done] end.
    match goal with L : table s !! id = None |- _ =>
      rewrite Es in Hc'; cbn in Hc'; rewrite lookup_insert_eq in Hc'; injection Hc' as <- end.
    match type of St with (_ -> row_ok _ _ ?x) -> _ =>
      assert (Hok : call_ok x) by (repeat split; cbn; done || lia || apply Hv);
      assert (Hbk : call_backed s x) end.
    { split; unfold debt_type; cbn; rewrite Hpq; [by eexists|]. intros o1 b1 d1. rewrite Hpb. intros. by simplify_eq. }
    specialize (St (fun _ => conj Hok Hbk)).
    eapply step_ext; [|exact St]. intros y. cbv beta. cbn. unfold w_call, asset_in, if_asset, get_collateral. cbn.
    rewrite Hpb. done.
Qed.

Lemma check_margin_quiet x bid id s u s' :
  chain_wf s -> check_margin x bid id s = Ok (u, s') -> quiet s s'.
Proof.
  intros Hw. unfold check_margin. intros E. run_ok1.
  apply check_call_orders_quiet in Hrun as [Q _]; [|done]. mk_ok. branch E; by mk_ok.
Qed.

Lemma positioned_eq op s s' :
  assets s' = assets s -> bitasset_data s' = bitasset_data s -> positioned op s -> positioned op s'.
Proof. unfold positioned. by intros -> ->. Qed.

Lemma call_update_apply_step g e d op s r s' :
  chain_wf s -> positioned op s -> call_update_typed op ->
  call_order_update_apply g e d op s = Ok (r, s') -> step (fun _ => 0) s s'.
Proof.
  intros Hw Hpos (_ & Hdc & Hdd). unfold call_order_update_apply. intros E. run_ok1.
  apply bitasset_of_Ok in Hrun as (-> & o & b & Ho & Hb & _). run_ok1.
  apply pay_out_debt_step in Hrun as [(m1 & b1 & E1) S1]; [|done]. run_ok1.
  apply take_collateral_step in Hrun as [(m2 & b2 & E2) S2]. run_ok1.
  match goal with Hc : change_position _ _ ?t = Ok (?i, ?t') |- _ => rename Hc into Hch, t into t2, t' into t3 end.
  op_ok. cbn in Lk.
  match goal with L : call_orders t3 !! _ = Some ?c |- _ => rename c into call end.
  assert (Hp2 : positioned op t2) by (eapply positioned_eq; [| |exact Hpos]; by subst).
  assert (Hw2 : chain_wf t2) by (apply (step_wf _ _ _ S2), (step_wf _ _ _ S1), Hw).
  assert (Hbid : forall o', assets t2 !! asset_id (delta_debt op) = Some o' -> bitasset_data_id o' = Some a).
  { subst t2 s0. cbn. intros o' Ho'. cbn in Ho'. congruence. }
  assert (S3 : position_ok call -> step (fun x => asset_in x (delta_collateral op)) t2 t3)
    by (intros; by eapply change_position_step).
  assert (S4 : position_ok call /\ (chain_wf t3 -> step (fun _ => 0) t3 s')).
  { branch E.
    - match goal with Hz : (debt call =? 0) = true |- _ => apply Z.eqb_eq in Hz end. op_ok.
      repeat match goal with Hz : (_ =? 0) = true |- _ => apply Z.eqb_eq in Hz end.
      split; [by left|]. intros _. cbn in Lk0. simplify_eq. eapply step_ext; [|exact St].
      intros y. cbv beta. weigh.
    - op_ok. match goal with Hz : (_ && _) = true |- _ => apply andb_true_iff in Hz as [??] end.
      split; [right; lia|]. intros Hw3. branch E; op_ok; [apply step_refl|].
      by apply check_margin_quiet in E as [S _]. }
  destruct S4 as [Hok S4]. specialize (S3 Hok).
  assert (Hw3 : chain_wf t3) by by apply (step_wf _ _ _ S3).
  eapply step_ext; [|eapply step_trans; [exact S1|eapply step_trans; [exact S2|
    eapply step_trans; [exact S3|exact (S4 Hw3)]]]]. intros y. cbv beta. lia.
Qed.

(** ** Bidding collateral *)
Lemma bid_pure g op s e s' : bid_collateral_evaluate g op s = Ok (e, s') -> s' = s.
Proof.
  unfold bid_collateral_evaluate. intros E. pure_ok.
  match type of E with match ?x with _ => _ end _ = _ => destruct x end; by pure_ok.
Qed.

(** The collateral bid is the backing asset of the debt. *)
Definition bid_backing (op : bid_collateral_operation) (s : database) : Prop :=
  backed s (asset_id (debt_covered op)) (asset_id (additional_collateral op)).
Lemma bid_backing_Ok g op s e s' : bid_collateral_evaluate g op s = Ok (e, s') -> bid_backing op s.
Proof.
  unfold bid_collateral_evaluate. intros E. pure_ok. split; [by eexists|]. intros o b d Ho Hb Hd.
  cbn in *. simplify_eq.
  match goal with Hz : (_ =? short_backing_asset _) = true |- _ => apply Z.eqb_eq in Hz; congruence end.
Qed.

Lemma bid_apply_step g e d op s r s' :
  bid_backing op s -> bid_collateral_validate op = Ok tt -> bid_typed op ->
  bid_collateral_apply g e d op s = Ok (r, s') -> step (fun _ => 0) s s'.
Proof.
  intros Hb Hv (_ & Hc & Hd). unfold bid_collateral_validate in Hv. repeat run_ok1.
  apply int64_amount_lt in Hc, Hd. unfold bid_collateral_apply. intros E. run_ok1.
  match goal with Hr : match e with _ => _ end s = Ok (_, ?t) |- _ => rename t into t1;
    assert (Hq : step (fun _ => 0) s t1 /\ bitasset_data t1 = bitasset_data s) end.
  { destruct e as [id|]; [|mk_ok; split; [apply step_refl|done]].
    split; [by eapply cancel_bid_step|by eapply cancel_bid_frame]. }
  destruct Hq as [S1 Eb]. branch E; mk_ok; [done|].
  match goal with Hn : asset_neg _ = Ok _ |- _ => apply asset_neg_Ok in Hn as -> end.
  match goal with Hn : price_div _ _ = Ok _ |- _ => apply price_div_Ok in Hn as [Hne ->] end.
  match type of St0 with (chain_wf ?t -> _) -> _ => rename t into tb end.
  assert (Hok : bid_ok (mk_bid (bc_bidder op) (mk_price (additional_collateral op) (debt_covered op)))).
  { unfold bid_ok, pos_int64. cbn. match goal with Hz : _ || _ = true |- _ => apply orb_true_iff in Hz end.
    split_and!; done || lia. }
  assert (Hbk : bid_backed tb (mk_bid (bc_bidder op) (mk_price (additional_collateral op) (debt_covered op)))).
  { unfold bid_backed. cbn. unfold bid_backing, backed in Hb. subst tb. unfold backed. cbn.
    rewrite (step_assets _ _ _ S1), Eb. done. }
  specialize (St0 (fun _ => conj Hok Hbk)).
  eapply step_ext; [|compose_steps]. intros y. cbv beta. weigh.
Qed.

(** ** The laws *)
Lemma step_then f s1 s2 s3 : step f s1 s2 -> step (fun _ => 0) s2 s3 -> step f s1 s3.
Proof.
  intros S1 S2. eapply step_ext; [|eapply step_trans; [exact S1|exact S2]]. intros y. cbv beta. lia.
Qed.

#[export] Instance limit_create_laws : EvaluatorLaws limit_order_create_operation unit Z limit_create_typed.
Proof.
  split; [apply limit_create_pure|]. intros trx g op e s0 m d s1 r s' s Hsk Hw Hc Hv Ht _ Hp Ha. apply step_conserves.
  apply limit_create_pay_fee_step in Hp as [Hd S1]; [|done..].
  pose proof (limit_create_apply_step g e d op _ _ _ (step_wf _ _ _ S1 Hw) Hd Hv Ht Ha) as S2.
  eapply step_ext; [|eapply step_trans; [exact S1|exact S2]].
  intros y. cbv beta. unfold if_asset. case_match; lia.
Qed.
#[export] Instance limit_cancel_laws : EvaluatorLaws limit_order_cancel_operation unit asset limit_cancel_typed.
Proof.
  split.
  - cbn. unfold limit_order_cancel_evaluate. intros g op s e s' E. by pure_ok.
  - intros trx g op e s0 m d s1 r s' s Hsk Hw Hc Hv Ht _ Hp Ha. apply step_conserves.
    apply default_pay_fee_step in Hp as [_ S1]; [|done]. eapply step_then; [exact S1|].
    eapply (limit_cancel_apply_step g e d); [exact (step_wf _ _ _ S1 Hw)|exact Ha].
Qed.
#[export] Instance call_update_laws : EvaluatorLaws call_order_update_operation unit unit call_update_typed.
Proof.
  split; [apply call_update_pure|]. intros trx g op e s0 m d s1 r s' s Hsk Hw Hc Hv Ht He Hp Ha. apply step_conserves.
  apply default_pay_fee_step in Hp as [[m' E1] S1]; [|done]. eapply step_then; [exact S1|].
  eapply (call_update_apply_step g e d); [exact (step_wf _ _ _ S1 Hw)| |exact Ht|exact Ha].
  eapply (positioned_eq op s0); [by rewrite E1..|]. exact (call_update_positioned g op s0 e s0 Hv He).
Qed.
#[export] Instance bid_laws : EvaluatorLaws bid_collateral_operation iterator unit bid_typed.
Proof.
  split; [apply bid_pure|]. intros trx g op e s0 m d s1 r s' s Hsk Hw Hc Hv Ht He Hp Ha. apply step_conserves.
  apply default_pay_fee_step in Hp as [[m' E1] S1]; [|done]. eapply step_then; [exact S1|].
  eapply (bid_apply_step g e d); [|exact Hv|exact Ht|exact Ha].
  apply (bid_backing_Ok g op s0 e s0) in He. unfold bid_backing, backed in *. by rewrite E1.
Qed.
End Laws.
End MarketLaws.
