(* ===== verification/Scenario.v ===== *)
(** * A concrete chain state

    Core ([0]) and a market-issued dollar ([1], backed by core, fed at ten core
    a dollar, charging one per cent to its receivers), the accounts [17] to
    [20] and a book: the state on which the theorems of the market and of the
    operations are instantiated. *)
From Stdlib Require Import ZArith Lia String.
From stdpp Require Import base gmap sets list strings.
From S2P Require Import Prelude External Asset Vesting Authority Float Chain Balance Accounting.

Module Scenario.
Import Asset Vesting Authority Float Chain Balance Accounting.

Definition alice : Z := 17.
Definition bob : Z := 18.
Definition carol : Z := 19.
Definition dan : Z := 20.
Definition USD : Z := 1.
Definition usd (n : Z) : asset := mk_asset n USD.
Definition core (n : Z) : asset := mk_asset n core_asset.

Definition free_options (fee flags : Z) : asset_options :=
  mk_asset_options GRAPHENE_MAX_SHARE_SUPPLY fee 1000 511 flags
    (mk_price (core 1) (core 1)) ∅ ∅ ∅ ∅.
Definition core_object : asset_object := mk_asset_object "CORE" 5 3 (free_options 0 0) 0 None None.
Definition usd_object : asset_object :=
  mk_asset_object "USD" 4 alice
    (mk_asset_options GRAPHENE_MAX_SHARE_SUPPLY 100 1000 511 1 (mk_price (usd 1) (core 10)) ∅ ∅ ∅ ∅)
    1 (Some 0) None.
Definition usd_feed : price_feed := mk_feed (mk_price (usd 1) (core 10)) (mk_price (usd 1) (core 10)) 1750 1500.
Definition usd_bitasset (swan : price) (fund : Z) : asset_bitasset_data_object :=
  mk_bitasset_data (mk_bitasset_options 86400 1 86400 0 2000 core_asset)
    {[alice := (1600000000, usd_feed)]} usd_feed 1600000000 false 0 swan fund.
Definition self_voting : account_options := mk_account_options 0 5 0 0 [].
Definition no_personal : personal_info string := mk_personal "" "" "" "" "" "" "".
Definition no_bank : bank_account string := mk_bank "" "" "" "".
Definition no_additional : additional_info string := mk_additional "" "" "" "" "" "" "".
Definition plain_account (id : Z) : account_object :=
  mk_account 0 id id id 2000 3000 5000 id ∅ ∅ None None
    (mk_authority 1 [] [(id, 1)] []) (mk_authority 1 [] [(100 + id, 1)] [])
    "" (float_of (double_of_Z 1)) id 0 self_voting no_special_authority no_special_authority 0 ∅ ∅
    no_personal no_bank no_additional.
Definition no_statistics : account_statistics_object := mk_statistics 0 0 0 0.
Definition scenario_gpo : global_property_object :=
  mk_gpo (mk_parameters 5 86400 3 2000 31536000 10000 1000 86400 100 100 86400 2 (mk_fee_schedule ∅ 0)
    2000000 2419200 1209600 2048 1001 1001 10 2000 3000 true false 100000 1 100 1000 4 []) [1; 2; 3] None 6 [].
Definition scenario_dgp : dynamic_global_property_object :=
  mk_dgp 100 null_block_id 1600000000 1 1600080000 500000 0 100 0 0 90 1599990000 0.

(** A state with the given balances, book, positions, settlements and bids. *)
Definition state_of (bals : list (Z * Z * Z)) (limits : list (Z * limit_order_object))
    (calls : list (Z * call_order_object)) (settles : list (Z * force_settlement_object))
    (bids : list (Z * collateral_bid_object)) (bit : asset_bitasset_data_object)
    (core_supply usd_supply : Z) : database :=
  mk_database scenario_gpo scenario_dgp
    (list_to_map ((fun i => (i, plain_account i)) <$> [0; 1; 2; 3; 4; alice; bob; carol; dan]))
    (list_to_map ((fun i => (i, no_statistics)) <$> [0; 1; 2; 3; 4; alice; bob; carol; dan]))
    (list_to_map ((fun x => ((x.1.1, x.1.2), x.2)) <$> bals))
    {[core_asset := core_object; USD := usd_object]}
    {[0 := mk_dynamic_data core_supply 0 0 0; 1 := mk_dynamic_data usd_supply 0 0 1000000]}
    {[0 := bit]} (list_to_map limits) (list_to_map calls) (list_to_map settles) (list_to_map bids)
    ∅ {[1 := mk_witness 1 99 201 None 0 99 1 0 ""]} ∅ (mk_schedule [1; 2; 3]) ∅ ∅ ∅ ∅
    {[0 := mk_exchange_rate ∅ ∅ {["KRM" := double_of_Z 1]}]} ∅ ∅ ∅ ∅ ∅ ∅ ∅ ∅ (mk_immutable 11 11)
    (list_to_map [(7, 100); (8, 100); (4, 100); (273, 100); (13, 100)]) [].

Definition limit (owner n : Z) (p : price) : limit_order_object := mk_limit_order 1700000000 owner n p 0.
(** A position with its call price at the feed's maintenance ratio. *)
Definition position (owner c d : Z) : call_order_object :=
  mk_call_order owner c d (mk_price (core (c * 100)) (usd (d * 175))).

(** Bob sells 1000 core for 100 dollars; carol and dan are short. *)
Definition start : database :=
  state_of [(alice, USD, 500); (alice, core_asset, 5000); (bob, USD, 500); (bob, core_asset, 100000);
            (carol, core_asset, 100000); (carol, USD, 1000)]
    [(1, limit bob 1000 (mk_price (core 1000) (usd 100)))]
    [(1, position carol 40000 1000); (2, position dan 30000 1000)] [] []
    (usd_bitasset null_price 0) 1776000 2000.

Lemma start_wf : chain_wf start.
Proof. apply chain_wfb_wf. vm_compute. reflexivity. Qed.

(** The state after a run, and whether it returned. *)
Definition after {A} (m : M database A) (s : database) : database :=
  match m s with Ok (_, s') => s' | Throw _ => s end.
Definition returned {A} (r : outcome (string * database) (A * database)) : option A :=
  match r with Ok (a, _) => Some a | Throw _ => None end.
Lemma after_Ok {A} (m : M database A) s a :
  returned (m s) = Some a -> m s = Ok (a, after m s).
Proof. unfold after. destruct (m s) as [[b t]|]; cbn; congruence. Qed.
End Scenario.
