(* ===== verification/Book.v ===== *)
(** * The order books

    The indexes [by_price] of limit orders and of call orders are sorted by
    price and then by identifier; what the bounds of a range find, and what
    removing an order does to the traversal. *)
From Stdlib Require Import ZArith Lia String.
From stdpp Require Import base gmap sets list strings sorting.
From S2P Require Import Prelude External Asset Vesting Chain Balance Accounting Market MarketSupply.

Module Book.
Import Asset Vesting Chain Balance Accounting Market MarketSupply.

(** ** Prices are weakly ordered *)
Section Prices.
Context `{U128Laws}.

Lemma price_gt_lt a b : valid_price a -> valid_price b -> price_gt a b = price_lt b a.
Proof.
  intros Ha Hb. unfold price_gt, price_le. apply eq_true_iff_eq.
  rewrite negb_true_iff, orb_false_iff, <- !not_true_iff_false.
  rewrite price_eqb_spec, !price_lt_spec by done. lia.
Qed.
Lemma price_lt_irrefl a : valid_price a -> price_lt a a = false.
Proof. intros Ha. apply not_true_is_false. rewrite price_lt_spec by done. lia. Qed.
Lemma price_lt_asym a b : valid_price a -> valid_price b -> price_lt a b = true -> price_lt b a = false.
Proof. intros Ha Hb L. apply not_true_is_false. rewrite price_lt_spec in * by done. lia. Qed.
(** Every third price is beyond one of two prices in order. *)
Lemma price_lt_cotrans a b c : valid_price a -> valid_price b -> valid_price c ->
  price_lt a c = true -> price_lt a b = true \/ price_lt b c = true.
Proof.
  intros Ha Hb Hc. rewrite !price_lt_spec by done.
  destruct Ha as [[] [] _], Hb as [[] [] _], Hc as [[] [] _].
  intros L.
  destruct (Z.lt_trichotomy (asset_id (base a)) (asset_id (base b))) as [|[E1|]]; [lia| |lia].
  destruct (Z.lt_trichotomy (asset_id (base b)) (asset_id (base c))) as [|[E2|]]; [lia| |lia].
  destruct (Z.lt_trichotomy (asset_id (quote a)) (asset_id (quote b))) as [|[E3|]]; [lia| |lia].
  destruct (Z.lt_trichotomy (asset_id (quote b)) (asset_id (quote c))) as [|[E4|]]; [lia| |lia].
  destruct (Z.lt_ge_cases (amount (base a) * amount (quote b)) (amount (base b) * amount (quote a)));
    [left; lia|].
  destruct (Z.lt_ge_cases (amount (base b) * amount (quote c)) (amount (base c) * amount (quote b)));
    [right; lia|].
  exfalso. destruct L as [|[_ [|[_ L]]]]; [lia|lia|].
  assert (amount (base b) * amount (quote a) * amount (quote c)
          <= amount (base a) * amount (quote b) * amount (quote c)) by (apply Z.mul_le_mono_nonneg_r; lia).
  assert (amount (base c) * amount (quote b) * amount (quote a)
          <= amount (base b) * amount (quote c) * amount (quote a)) by (apply Z.mul_le_mono_nonneg_r; lia).
  nia.
Qed.
End Prices.

(** ** Rows ordered by a weak order of their objects and then by identifier *)
Section Keyed.
Context {A : Type} (before : A -> A -> bool) (good : A -> Prop).
Hypothesis before_irrefl : forall x, good x -> before x x = false.
Hypothesis before_asym : forall x y, good x -> good y -> before x y = true -> before y x = false.
Hypothesis before_cotrans : forall x y z, good x -> good y -> good z ->
  before x z = true -> before x y = true \/ before y z = true.

Definition row_before (x y : Z * A) : bool :=
  if before x.2 y.2 then true else if before y.2 x.2 then false else x.1 <? y.1.

Lemma before_trans x y z : good x -> good y -> good z ->
  before x y = true -> before y z = true -> before x z = true.
Proof.
  intros Hx Hy Hz L1 L2. destruct (before_cotrans x z y Hx Hz Hy L1) as [|L]; [done|].
  rewrite (before_asym z y) in L2 by done. done.
Qed.

Lemma rows_strict (m : gmap Z A) :
  map_Forall (fun _ => good) m -> strict_order_on row_before (map_to_list m).
Proof.
  intros Hm. assert (Hg : forall x, x ∈ map_to_list m -> good x.2).
  { intros [k x] Hx. apply elem_of_map_to_list in Hx. by apply (Hm k x). }
  unfold row_before. split_and!.
  - intros x Hx. rewrite before_irrefl by auto. lia.
  - intros x y z Hx%Hg Hy%Hg Hz%Hg.
    destruct (before x.2 y.2) eqn:E1; [intros _|destruct (before y.2 x.2) eqn:E1'; [done|intros L1]];
      (destruct (before y.2 z.2) eqn:E2; [intros _|destruct (before z.2 y.2) eqn:E2'; [done|intros L2]]).
    + by rewrite (before_trans _ y.2 _).
    + destruct (before_cotrans x.2 z.2 y.2 Hx Hz Hy E1) as [->|]; [done|congruence].
    + destruct (before_cotrans y.2 x.2 z.2 Hy Hx Hz E2) as [| ->]; [congruence|done].
    + destruct (before x.2 z.2) eqn:E3.
      { destruct (before_cotrans x.2 y.2 z.2 Hx Hy Hz E3); congruence. }
      destruct (before z.2 x.2) eqn:E4; [|lia].
      destruct (before_cotrans z.2 y.2 x.2 Hz Hy Hx E4); congruence.
  - intros [i x] [j y] Hx Hy Hne. cbn.
    destruct (before x y) eqn:E1; [by left|]. destruct (before y x) eqn:E2; [by right|].
    destruct (Z.lt_trichotomy i j) as [|[->|]]; [left; lia| |right; lia].
    apply elem_of_map_to_list in Hx, Hy. congruence.
Qed.
End Keyed.

(** ** Ranges of a traversal *)
Definition head_id {A} (l : list (Z * A)) : iterator :=
  match l with [] => None | (id, _) :: _ => Some id end.

Lemma first_with_split {A} (p : A -> bool) (l : list (Z * A)) :
  exists l1 l2, l = l1 ++ l2 /\ first_with p l = head_id l2
    /\ (forall x, x ∈ l1 -> p x.2 = false)
    /\ (forall x, head l2 = Some x -> p x.2 = true).
Proof.
  induction l as [|[k x] l (l1 & l2 & -> & IH & Hf & Hh)]; cbn.
  - exists [], []. split_and!; try done. intros x Hx. by apply not_elem_of_nil in Hx.
  - destruct (p x) eqn:E.
    + exists [], ((k, x) :: l1 ++ l2). split_and!; try done.
      * intros y Hy. by apply not_elem_of_nil in Hy.
      * by intros y [= <-].
    + exists ((k, x) :: l1), l2. split_and!; try done.
      intros y [->|Hy]%elem_of_cons; auto.
Qed.

(** On a sorted traversal along which [p] stays true. *)
Lemma first_with_sorted {A} (R : Z * A -> Z * A -> Prop) (p : A -> bool) (l : list (Z * A)) :
  StronglySorted R l ->
  (forall x y, x ∈ l -> y ∈ l -> R x y -> p x.2 = true -> p y.2 = true) ->
  exists l1 l2, l = l1 ++ l2 /\ first_with p l = head_id l2
    /\ (forall x, x ∈ l1 -> p x.2 = false) /\ (forall x, x ∈ l2 -> p x.2 = true).
Proof.
  intros Hs Hm. destruct (first_with_split p l) as (l1 & l2 & -> & Hf & H1 & H2).
  exists l1, l2. split_and!; try done. intros x Hx. destruct l2 as [|y l2]; [set_solver|].
  apply elem_of_cons in Hx as [->|Hx]; [by apply H2|].
  apply (Hm y x); [set_solver..| |by apply H2].
  by apply (proj2 (sorted_app_inv R l1 y l2 Hs)).
Qed.

Lemma next_in_split {A} (l1 l2 : list (Z * A)) id x :
  NoDup (fst <$> (l1 ++ (id, x) :: l2)) -> next_in id (l1 ++ (id, x) :: l2) = Ok (head_id l2).
Proof.
  induction l1 as [|[k y] l1 IH]; cbn.
  - rewrite Z.eqb_refl. by destruct l2 as [|[]].
  - intros [Hk Hn]%NoDup_cons. rewrite (proj2 (Z.eqb_neq id k)); [auto|].
    intros ->. apply Hk. rewrite fmap_app. cbn. set_solver.
Qed.

(** Two bounds, the second beyond the first: what lies between them. *)
Lemma bounds_split {A} (R : Z * A -> Z * A -> Prop) (lo hi : A -> bool) (l : list (Z * A)) :
  StronglySorted R l ->
  (forall x y, x ∈ l -> y ∈ l -> R x y -> lo x.2 = true -> lo y.2 = true) ->
  (forall x y, x ∈ l -> y ∈ l -> R x y -> hi x.2 = true -> hi y.2 = true) ->
  (forall x, x ∈ l -> lo x.2 = false -> hi x.2 = false) ->
  exists pre mid post, l = pre ++ mid ++ post
    /\ first_with lo l = head_id (mid ++ post) /\ first_with hi l = head_id post
    /\ (forall x, x ∈ l -> x ∈ mid <-> lo x.2 = true /\ hi x.2 = false).
Proof.
  intros Hs Hlo Hhi Hlh.
  destruct (first_with_sorted R lo l Hs Hlo) as (l1 & l2 & El & Elo & L1 & L2).
  destruct (first_with_sorted R hi l Hs Hhi) as (r1 & r2 & Er & Ehi & R1 & R2).
  assert (Hpre : exists mid, r1 = l1 ++ mid /\ l2 = mid ++ r2).
  { rewrite El in Er. destruct (app_eq_inv _ _ _ _ Er) as [(k & E1 & E2)|(k & E1 & E2)]; [|by exists k].
    destruct k as [|x k]; [exists []; rewrite app_nil_r in *; by subst|].
    exfalso. specialize (Hlh x ltac:(rewrite El, E1; set_solver) (L1 x ltac:(rewrite E1; set_solver))).
    rewrite (R2 x ltac:(rewrite E2; set_solver)) in Hlh. done. }
  destruct Hpre as (mid & -> & ->). exists l1, mid, r2. split_and!; try done.
  intros x Hx. split.
  - intros Hm. split; [apply L2; set_solver|apply R1; set_solver].
  - intros [E1 E2]. rewrite El, !elem_of_app in Hx. destruct Hx as [Hx|[Hx|Hx]]; [|done|].
    + rewrite (L1 x Hx) in E1. done.
    + rewrite (R2 x Hx) in E2. done.
Qed.

(** Different ends are different rows. *)
Lemma head_id_app_eq {A} (mid post : list (Z * A)) :
  NoDup (fst <$> (mid ++ post)) -> head_id (mid ++ post) = head_id post -> mid = [].
Proof.
  destruct mid as [|[k x] mid]; [done|]. cbn. destruct post as [|[j y] post]; [done|].
  intros [Hk _]%NoDup_cons [= ->]. exfalso. apply Hk. rewrite fmap_app. set_solver.
Qed.

(** Removing an object removes its row from the sorted traversal. *)
Lemma ordered_delete `{IndexLaws} {A} (lt : Z * A -> Z * A -> bool) (m : gmap Z A) l1 l2 id x :
  strict_order_on lt (map_to_list m) ->
  ordered lt (map_to_list m) = l1 ++ (id, x) :: l2 ->
  ordered lt (map_to_list (delete id m)) = l1 ++ l2.
Proof.
  intros Hs E.
  assert (Hp : (id, x) :: map_to_list (delete id m) ≡ₚ map_to_list m).
  { apply map_to_list_delete. apply elem_of_map_to_list.
    rewrite <- (ordered_perm lt), E. set_solver. }
  assert (Hp2 : map_to_list (delete id m) ≡ₚ l1 ++ l2).
  { apply (Permutation_cons_inv (a := (id, x))). rewrite Hp, <- (ordered_perm lt), E.
    symmetry. apply Permutation_middle. }
  pose proof (NoDup_map_to_list m) as Hnd.
  pose proof (ordered_sorted lt _ Hnd Hs) as Hso. rewrite E in Hso.
  assert (Hs' : strict_order_on lt (map_to_list (delete id m))).
  { eapply strict_order_on_incl; [|exact Hs]. intros y Hy. rewrite <- Hp. set_solver. }
  eapply (StronglySorted_unique_strong (fun x y => lt x y = true)).
  - intros y z Hy Hz L1 L2. destruct Hs' as (Hirr & Htr & _).
    rewrite ordered_perm in Hy. rewrite <- Hp2 in Hz.
    pose proof (Htr y z y Hy Hz Hy L1 L2). rewrite Hirr in *; done.
  - apply ordered_sorted; [apply NoDup_map_to_list|done].
  - clear -Hso. induction l1 as [|y l1 IH]; cbn in *; apply StronglySorted_inv in Hso as [Hs Hf]; [done|].
    constructor; [auto|]. rewrite Forall_app in Hf. destruct Hf as [? [_ ?]%Forall_cons].
    by rewrite Forall_app.
  - by rewrite ordered_perm.
Qed.

(** ** The book of limit orders *)
Section Limits.
Context `{U128Laws, IndexLaws, SafeOps, RationalOps}.

Lemma limit_rows s : chain_wf s -> strict_order_on limit_before (map_to_list (limit_orders s)).
Proof.
  intros Hw. apply (rows_strict (fun a b => price_gt (sell_price a) (sell_price b))
                      (fun o => valid_price (sell_price o))).
  - intros x Hx. by rewrite price_gt_lt, price_lt_irrefl.
  - intros x y Hx Hy. rewrite !price_gt_lt by done. by apply price_lt_asym.
  - intros x y z Hx Hy Hz. rewrite !price_gt_lt by done. intros L.
    destruct (price_lt_cotrans (sell_price z) (sell_price y) (sell_price x)); auto.
  - intros id o Ho. by destruct (wf_limits s Hw _ _ Ho) as (_ & ? & _).
Qed.
Lemma limit_book_sorted s : chain_wf s -> StronglySorted (fun x y => limit_before x y = true) (limit_book s).
Proof. intros Hw. apply ordered_sorted; [apply NoDup_map_to_list|by apply limit_rows]. Qed.

Lemma call_rows s : chain_wf s -> strict_order_on call_before (map_to_list (call_orders s)).
Proof.
  intros Hw. apply (rows_strict (fun a b => price_lt (order_call_price a) (order_call_price b))
                      (fun o => valid_price (order_call_price o))).
  - intros x Hx. by rewrite price_lt_irrefl.
  - intros x y Hx Hy. by apply price_lt_asym.
  - intros x y z Hx Hy Hz. by apply price_lt_cotrans.
  - intros id o Ho. by destruct (wf_calls s Hw _ _ Ho) as (_ & _ & ?).
Qed.
Lemma call_book_sorted s : chain_wf s -> StronglySorted (fun x y => call_before x y = true) (call_book s).
Proof. intros Hw. apply ordered_sorted; [apply NoDup_map_to_list|by apply call_rows]. Qed.

Lemma NoDup_book {A} (lt : Z * A -> Z * A -> bool) (m : gmap Z A) :
  NoDup (fst <$> ordered lt (map_to_list m)).
Proof. rewrite ordered_perm. apply NoDup_fst_map_to_list. Qed.
End Limits.
End Book.
