(* ===== verification/MarketTheorems.v ===== *)
(** * What the market does

    Matching: the amounts that change hands, the order that is met first, the
    end of the loops; the outcome of a black swan; and the states in which the
    code goes wrong. *)
From Stdlib Require Import ZArith Lia String.
From stdpp Require Import base gmap sets list strings sorting.
From S2P Require Import Prelude External Asset Vesting Chain Balance Accounting Market MarketSupply Book Scenario.

Module MarketTheorems.
Import Asset Vesting Chain Balance Accounting Market MarketSupply Book Scenario.

(** ** Amounts *)
Section Matching.
Context `{SafeLaws, U128Laws, RationalLaws, IndexLaws}.

(** [y] is [x] converted at [p], rounded down to a unit. *)
Definition converted (p : price) (x y : asset) : Prop :=
  amount y * mul_den x p <= amount x * mul_num x p < (amount y + 1) * mul_den x p.

(** C12: when two orders are matched at a price, neither gives more than it has
    for sale, at least one of them is filled completely, and what the other
    gives is the first one's whole amount converted at the price and rounded
    down to a unit. *)
Theorem match_is_fair (u c ur cr : asset) (p : price) :
  pos_int64 (amount u) -> pos_int64 (amount c) -> valid_price p ->
  match_amounts u c p = Ok (ur, cr) ->
  asset_id ur = asset_id c /\ asset_id cr = asset_id u
  /\ 0 <= amount cr <= amount u /\ 0 <= amount ur <= amount c
  /\ ((cr = u /\ converted p u ur) \/ (ur = c /\ converted p c cr /\ amount cr < amount u)).
Proof.
  intros Hu Hc Hp E. pose proof E as (Hne & Hi1 & Hi2 & B1 & B2 & _)%match_amounts_Ok; [|done..].
  split_and!; try done; try lia. unfold converted, match_amounts in *. run_ok1. run_ok1.
  unfold pos_int64 in *. rename a into cv.
  apply asset_mul_other in Hrun as (_ & Hcv & Ecv & Hn & Hd & _); [|lia|done].
  apply asset_le_Ok in Hrun0 as [_ ->].
  destruct (Z.leb_spec (amount u) (amount cv)); run_ok1; injection E as <- <-.
  - apply asset_mul_other in Hrun as (_ & Hv & Ev & Hn' & Hd' & _); [|lia|done]. left.
    split; [done|]. rewrite Ev. pose proof (Z.mul_div_le (amount u * mul_num u p) _ Hd').
    pose proof (Z.mul_succ_div_gt (amount u * mul_num u p) _ Hd'). lia.
  - apply asset_mul_other in Hrun as (_ & Hv & Ev & Hn' & Hd' & _); [|lia|done]. right.
    split; [done|]. rewrite Ev. pose proof (Z.mul_div_le (amount c * mul_num c p) _ Hd').
    pose proof (Z.mul_succ_div_gt (amount c * mul_num c p) _ Hd'). lia.
Qed.

(** The orders that a new order at [p] (selling its base for its quote)
    crosses: they sell its quote for its base, at a price no lower than [p]
    turned around. *)
Definition crosses (p : price) (o : limit_order_object) : Prop :=
  asset_id (base (sell_price o)) = asset_id (quote p) /\ asset_id (quote (sell_price o)) = asset_id (base p)
  /\ price_lt (sell_price o) (price_inv p) = false.
(** [b] goes before [b'] in the queue of its market. *)
Definition served_before (id : Z) (b : limit_order_object) (id' : Z) (b' : limit_order_object) : Prop :=
  price_lt (sell_price b') (sell_price b) = true
  \/ (price_lt (sell_price b) (sell_price b') = false /\ id < id').

Lemma price_inv_valid p : valid_price p -> valid_price (price_inv p).
Proof. intros []. split; done || congruence. Qed.

(** The range of the book that a new order at [p] crosses. *)
Lemma crossing_range p hi x :
  valid_price p -> valid_price x -> amount (base x) <= GRAPHENE_MAX_SHARE_SUPPLY ->
  price_max (asset_id (quote p)) (asset_id (base p)) = Ok hi ->
  (price_gt x hi = false /\ price_gt (price_inv p) x = false
   <-> asset_id (base x) = asset_id (quote p) /\ asset_id (quote x) = asset_id (base p)
       /\ price_lt x (price_inv p) = false)
  /\ (price_gt x hi = true -> price_gt (price_inv p) x = false).
Proof.
  intros Hp Hx Hsh [Hne ->]%price_max_Ok. pose proof (price_inv_valid p Hp) as Hi.
  assert (Hv : valid_price (mk_price (mk_asset GRAPHENE_MAX_SHARE_SUPPLY (asset_id (quote p)))
                              (mk_asset 1 (asset_id (base p)))))
    by (apply extreme_valid; unfold pos_int64, GRAPHENE_MAX_SHARE_SUPPLY; done || lia).
  rewrite !price_gt_lt by done. rewrite <- !not_true_iff_false, !price_lt_spec by done. cbn.
  destruct Hx as [[] [] _], Hp as [[] [] _]. unfold GRAPHENE_MAX_SHARE_SUPPLY in *.
  split; [split|].
  - intros [A1 A2]. assert (asset_id (base x) = asset_id (quote p)) by lia.
    assert (asset_id (quote x) = asset_id (base p)) by lia. split_and!; done || lia.
  - intros (-> & -> & A1). split; [|lia]. intros [?|[_ [?|[_ ?]]]]; lia || nia.
  - lia.
Qed.

(** Prices of the book are within the share supply. *)
Definition supply_bounded (s : database) : Prop :=
  map_Forall (fun _ o => amount (base (sell_price o)) <= GRAPHENE_MAX_SHARE_SUPPLY) (limit_orders s).

Lemma limit_before_served id b id' b' :
  valid_price (sell_price b) -> valid_price (sell_price b') ->
  limit_before (id, b) (id', b') = true -> served_before id b id' b'.
Proof.
  intros Hb Hb'. unfold limit_before, served_before. cbn. rewrite !price_gt_lt by done.
  destruct (price_lt (sell_price b') (sell_price b)); [by left|].
  destruct (price_lt (sell_price b) (sell_price b')); [done|]. right. split; [done|lia].
Qed.
Lemma served_le id b id' b' :
  valid_price (sell_price b) -> valid_price (sell_price b') ->
  served_before id b id' b' -> price_lt (sell_price b) (sell_price b') = false.
Proof. intros Hb Hb' [L|[? _]]; [by apply price_lt_asym|done]. Qed.
Lemma limit_before_down (x y : Z * limit_order_object) p :
  valid_price (sell_price x.2) -> valid_price (sell_price y.2) -> valid_price p ->
  limit_before x y = true ->
  negb (price_gt (sell_price x.2) p) = true -> negb (price_gt (sell_price y.2) p) = true.
Proof.
  destruct x as [i x], y as [j y]. cbn. intros Hx Hy Hp L. rewrite !negb_true_iff, !price_gt_lt by done.
  apply limit_before_served, served_le in L; [|done..]. intros Ex. apply not_true_is_false. intros Ey.
  destruct (price_lt_cotrans p (sell_price x) (sell_price y)); congruence.
Qed.
Lemma limit_before_up (x y : Z * limit_order_object) p :
  valid_price (sell_price x.2) -> valid_price (sell_price y.2) -> valid_price p ->
  limit_before x y = true ->
  price_gt p (sell_price x.2) = true -> price_gt p (sell_price y.2) = true.
Proof.
  destruct x as [i x], y as [j y]. cbn. intros Hx Hy Hp L. rewrite !price_gt_lt by done.
  apply limit_before_served, served_le in L; [|done..]. intros Ex.
  destruct (price_lt_cotrans (sell_price x) (sell_price y) p); congruence.
Qed.

(** C11: price and time priority: the first order that a new order at [p] meets
    is one that it crosses and that is served before every other order that it
    crosses (a better price, or as good a price and an earlier identifier);
    when the range is empty, no order of the book crosses it. *)
Theorem best_order_first (s : database) (p pmax : price) :
  chain_wf s -> supply_bounded s -> valid_price p ->
  price_max (asset_id (quote p)) (asset_id (base p)) = Ok pmax ->
  let itr := limit_lower_bound pmax s in
  let itr_end := limit_upper_bound (price_inv p) s in
  (itr = itr_end -> forall id o, limit_orders s !! id = Some o -> ~ crosses p o)
  /\ (itr <> itr_end -> exists id b, itr = Some id /\ limit_orders s !! id = Some b /\ crosses p b
      /\ forall id' b', limit_orders s !! id' = Some b' -> crosses p b' -> id' <> id ->
           served_before id b id' b').
Proof.
  intros Hw Hsb Hp Hmax itr itr_end.
  pose proof (limit_book_sorted s Hw) as Hso. pose proof (NoDup_book limit_before (limit_orders s)) as Hnd.
  fold (limit_book s) in Hnd.
  assert (Hv : forall x, x ∈ limit_book s -> limit_orders s !! x.1 = Some x.2 /\ valid_price (sell_price x.2)).
  { intros [k x] Hx%limit_book_lookup. split; [done|]. by destruct (wf_limits s Hw _ _ Hx) as (_ & ? & _). }
  assert (Hr : forall x, x ∈ limit_book s -> _) by
    (intros x Hx; exact (crossing_range p pmax (sell_price x.2) Hp (proj2 (Hv x Hx)) (Hsb _ _ (proj1 (Hv x Hx))) Hmax)).
  pose proof (price_inv_valid p Hp) as Hip.
  assert (Hmv : valid_price pmax).
  { apply price_max_Ok in Hmax as [Hne ->]. apply extreme_valid; unfold pos_int64, GRAPHENE_MAX_SHARE_SUPPLY; done || lia. }
  destruct (bounds_split _ (fun o => negb (price_gt (sell_price o) pmax))
              (fun o => price_gt (price_inv p) (sell_price o)) (limit_book s) Hso)
    as (pre & mid & post & El & Eitr & Eend & Hmid).
  { intros x y Hx Hy L. exact (limit_before_down x y pmax (proj2 (Hv x Hx)) (proj2 (Hv y Hy)) Hmv L). }
  { intros x y Hx Hy L. exact (limit_before_up x y _ (proj2 (Hv x Hx)) (proj2 (Hv y Hy)) Hip L). }
  { intros x Hx E%negb_false_iff. by apply (Hr x Hx). }
  assert (Hmid' : forall x, x ∈ limit_book s -> x ∈ mid <-> crosses p x.2).
  { intros x Hx. rewrite (Hmid x Hx), negb_true_iff. apply (Hr x Hx). }
  assert (Eitr' : itr = head_id (mid ++ post)) by exact Eitr.
  assert (Eend' : itr_end = head_id post) by exact Eend. clearbody itr itr_end. subst itr itr_end.
  rewrite El in Hnd, Hso. rewrite fmap_app in Hnd. split.
  - intros Eq id o Ho Hc. apply NoDup_app in Hnd as (_ & _ & Hnd).
    apply (head_id_app_eq mid post Hnd) in Eq as ->.
    apply limit_book_lookup in Ho. by apply (Hmid' _ Ho), not_elem_of_nil in Hc.
  - intros Hne. destruct mid as [|[k x] mid]; [done|]. exists k, x.
    assert (Hx : (k, x) ∈ limit_book s) by (rewrite El; set_solver). split_and!; [done| | |].
    + by apply limit_book_lookup.
    + apply (Hmid' _ Hx). set_solver.
    + intros k' x' Hx' Hc Hk. apply limit_book_lookup in Hx'. apply (Hmid' _ Hx') in Hc.
      apply elem_of_cons in Hc as [[= -> ->]|Hc]; [done|].
      apply (limit_before_served k x k' x'); [by apply (Hv _ Hx)|by apply (Hv _ Hx')|].
      eapply (proj2 (sorted_app_inv _ pre (k, x) (mid ++ post) Hso)). set_solver.
Qed.

(** ** The loops end *)
Lemma size_delete_lt {A} (m : gmap Z A) id x : m !! id = Some x -> (size (delete id m) < size m)%nat.
Proof.
  intros E. rewrite <- (insert_delete_id m id x E) at 2.
  rewrite map_size_insert_None by apply lookup_delete_eq. lia.
Qed.
Lemma size_update {A} (m : gmap Z A) id x y : m !! id = Some x -> size (<[id := y]> m) = size m.
Proof. intros E. rewrite map_size_insert, E. done. Qed.

(** A partial fill keeps the number of orders; a complete one removes one. *)
Lemma fill_limit_size id pays receives cull p maker s r s' :
  fill_limit_order id pays receives cull p maker s = Ok (r, s') ->
  size (limit_orders s') = (size (limit_orders s) - if r then 1 else 0)%nat
  /\ (size (limit_orders s) > 0)%nat /\ size (call_orders s') = size (call_orders s).
Proof.
  intros ([F _ Ec _] & o & Ho & [[-> E]|(-> & _ & E)])%fill_limit_frame; rewrite E, Ec;
    pose proof (size_delete_lt _ _ _ Ho); pose proof (map_size_delete_Some _ _ (ex_intro _ _ Ho)).
  - split_and!; lia.
  - rewrite (size_update _ _ _ _ Ho). split_and!; lia.
Qed.
Lemma fill_call_size id pays receives p maker s r s' :
  fill_call_order id pays receives p maker s = Ok (r, s') ->
  size (call_orders s') = (size (call_orders s) - if r then 1 else 0)%nat
  /\ (size (call_orders s) > 0)%nat /\ limit_orders s' = limit_orders s.
Proof.
  intros ([F _ Ec _] & _ & o & Ho & _ & [(-> & _ & E)|(-> & _ & E)])%fill_call_frame; rewrite E, Ec;
    pose proof (size_delete_lt _ _ _ Ho); pose proof (map_size_delete_Some _ _ (ex_intro _ _ Ho)).
  - split_and!; lia || done.
  - rewrite (size_update _ _ _ _ Ho). split_and!; lia || done.
Qed.

Lemma match_rounds_fuel X Y f1 f2 new e itr fin s :
  (size (limit_orders s) < f1)%nat -> (size (limit_orders s) < f2)%nat ->
  match_rounds (EX := X) f1 new e itr fin s = match_rounds (EX := Y) f2 new e itr fin s.
Proof.
  revert f2 itr fin s. induction f1 as [|f1 IH]; intros [|f2] itr fin s L1 L2; [lia..|].
  cbn [match_rounds]. case_match; [done|].
  apply M_bind_ext. intros [k o] s1 E1. apply at_itr_Ok in E1 as (-> & _).
  apply M_bind_ext. intros it' s1 E1. apply next_limit_state in E1 as ->.
  apply M_bind_ext. intros r s1 E1. destruct (Z.eqb_spec r 2) as [->|]; cbn [negb];
    [|by destruct f1, f2].
  assert (size (limit_orders s1) < size (limit_orders s))%nat; [|apply IH; lia].
  unfold match_limit in E1. mk_ok. destruct a1 as [ur cr]. mk_ok.
  match goal with A : fill_limit_order _ _ _ _ _ _ _ = _, B : fill_limit_order _ _ _ _ _ _ _ = _ |- _ =>
    apply fill_limit_size in A as (A1 & A2 & _); apply fill_limit_size in B as (B1 & B2 & _) end.
  match goal with Hr : (if ?b then 1 else 0) + (if ?c then 2 else 0) = 2 |- _ => destruct b, c; try lia end.
Qed.

Lemma settle_calls_fuel X Y f1 f2 p e itr g s :
  (size (call_orders s) < f1)%nat -> (size (call_orders s) < f2)%nat ->
  settle_calls (EX := X) f1 p e itr g s = settle_calls (EX := Y) f2 p e itr g s.
Proof.
  revert f2 itr g s. induction f1 as [|f1 IH]; intros [|f2] itr g s L1 L2; [lia..|].
  cbn [settle_calls]. case_match; [done|].
  apply M_bind_ext. intros [k o] s1 E1. apply at_itr_Ok in E1 as (-> & _).
  do 3 (apply M_bind_ext; intros ? ? E1; apply lift_Ok in E1 as [_ ->]).
  apply M_bind_ext. intros it' s1 E1. apply next_call_state in E1 as ->.
  apply M_bind_ext. intros r s1 E1. apply fill_call_size in E1 as (E1 & E2 & _).
  apply M_bind_ext. intros u s2 E3. apply require_Ok in E3 as [-> ->]. apply IH; lia.
Qed.

Lemma cancel_bids_fuel X Y f1 f2 mia itr s :
  (size (collateral_bids s) < f1)%nat -> (size (collateral_bids s) < f2)%nat ->
  cancel_bids (EX := X) f1 mia itr s = cancel_bids (EX := Y) f2 mia itr s.
Proof.
  revert f2 itr s. induction f1 as [|f1 IH]; intros [|f2] itr s L1 L2; [lia..|].
  cbn [cancel_bids]. destruct itr as [id|]; [|done].
  apply M_bind_ext. intros b s1 E1. op_ok. case_match; [done|].
  apply M_bind_ext. intros it' s1 E1. apply next_bid_state in E1 as ->.
  apply M_bind_ext. intros u s1 E1. unfold cancel_bid in E1. op_ok.
  match goal with Hd : table ?t !! id = Some _ |- _ => assert (collateral_bids t = collateral_bids s) as Et by (by subst) end.
  assert (size (collateral_bids s1) < size (collateral_bids s))%nat; [|apply IH; lia].
  subst s1. cbn. rewrite <- Et. by eapply size_delete_lt.
Qed.

Lemma call_round_size mia bid en fnl e st s st' s' :
  chain_wf s -> call_round mia bid en fnl e st s = Ok (inl st', s') ->
  (size (limit_orders s') + size (call_orders s') < size (limit_orders s) + size (call_orders s))%nat.
Proof.
  intros Hw. unfold call_round. intros E. branch E; [by mk_ok|]. mk_ok.
  repeat (branch E; [by mk_ok|]). mk_ok. branch E; [by mk_ok|]. mk_ok.
  match goal with Hm : call_amounts _ _ _ = Ok ?rr |- _ => destruct rr as [[[pays recv] fc] fl] end. mk_ok.
  pose proof (wf_limits s Hw _ _ Hl) as (Hfs & Hpr & _).
  pose proof (wf_calls s Hw _ _ Hl0) as (_ & Hdb & _). unfold pos_int64 in Hfs.
  match goal with Hm : call_amounts _ _ _ = Ok _ |- _ =>
    apply call_amounts_Ok in Hm as (_ & _ & _ & Hor & _); [|cbn; lia..|done] end.
  repeat match goal with Hi : (if ?b then next_call _ else mret _) ?t = Ok (_, ?t') |- _ =>
    assert (t' = t) as -> by (destruct b; mk_ok; done); clear Hi end.
  repeat match goal with Hi : (if ?b then next_limit _ else mret _) ?t = Ok (_, ?t') |- _ =>
    assert (t' = t) as -> by (destruct b; mk_ok; done); clear Hi end.
  match goal with A : fill_call_order _ _ _ _ _ _ = Ok (?b, _), B : fill_limit_order _ _ _ _ _ _ _ = Ok (?d, _) |- _ =>
    pose proof A as (_ & _ & c' & Hc' & _ & Hrc)%fill_call_frame; pose proof B as (_ & o' & Ho' & Hrl)%fill_limit_frame;
    apply fill_call_size in A as (A1 & A2 & A3); apply fill_limit_size in B as (B1 & B2 & B3);
    assert (b = true \/ d = true) as Hbd end.
  { rewrite A3 in Ho'. cbn in Hl, Hl0. simplify_eq. destruct Hor as [-> | ->].
    - left. destruct Hrc as [[-> _]|(_ & Hne & _)]; [done|]. by cbn in Hne.
    - right. by destruct Hrl as [[-> _]|(_ & Hne & _)]. }
  rewrite A3 in *. destruct Hbd as [-> | ->]; repeat case_match; lia.
Qed.

(** So the operations that contain such a loop do not depend on it either. *)
Ltac same_run :=
  repeat match goal with
  | |- ?x = ?x => reflexivity
  | |- (?m ≫= _) ?s = (?m ≫= _) ?s =>
      apply M_bind_ext; let E := fresh "E" in intros ? ? E; first [apply gets_Ok in E as [-> ->] | apply lift_Ok in E as [_ ->] | idtac]
  | |- (match ?x with _ => _ end) _ = (match ?x with _ => _ end) _ => destruct x eqn:?
  end.
#[local] Notation throwing := (exhausted_throws database).
Lemma settle_any X Y mia p s : globally_settle_asset (EX := X) mia p s = globally_settle_asset (EX := Y) mia p s.
Proof. unfold globally_settle_asset. same_run. apply M_bind_ext'; [apply settle_calls_fuel; lia|done]. Qed.
Lemma blackswan_any X Y mia en s : check_for_blackswan (EX := X) mia en s = check_for_blackswan (EX := Y) mia en s.
Proof. unfold check_for_blackswan. same_run. apply M_bind_ext'; [apply settle_any|done]. Qed.
Lemma call_round_any X Y mia bid en fnl le st s :
  call_round (EX := X) mia bid en fnl le st s = call_round (EX := Y) mia bid en fnl le st s.
Proof. unfold call_round. same_run. apply M_bind_ext'; [apply settle_any|done]. Qed.
Lemma call_rounds_fuel X Y f1 f2 mia bid en fnl le ce st s :
  chain_wf s -> has_feed bid s ->
  (size (limit_orders s) + size (call_orders s) < f1)%nat ->
  (size (limit_orders s) + size (call_orders s) < f2)%nat ->
  call_rounds (EX := X) f1 mia bid en fnl le ce st s = call_rounds (EX := Y) f2 mia bid en fnl le ce st s.
Proof.
  revert f2 st s. induction f1 as [|f1 IH]; intros [|f2] st s Hw Hf L1 L2; [lia..|].
  cbn [call_rounds]. eapply M_bind_same; [apply (blackswan_any X throwing)|apply (blackswan_any Y throwing)|].
  intros swan s1 E1. apply check_for_blackswan_step in E1 as (_ & _ & Hn); [|done].
  destruct (swan || _) eqn:Es; [done|]. apply orb_false_iff in Es as [-> _]. rewrite (Hn eq_refl) in *.
  eapply M_bind_same; [apply (call_round_any X throwing)|apply (call_round_any Y throwing)|]. intros [st'|] s2 E2; [|done].
  pose proof (call_round_size _ _ _ _ _ _ _ _ _ Hw E2) as Hsz.
  apply call_round_step in E2 as (S2 & _ & Hb); [|done..].
  apply IH; [exact (step_wf _ _ _ S2 Hw)| |lia..].
  unfold has_feed. by rewrite (Hb _ eq_refl).
Qed.

(** The orders that a round of [check_call_orders] can remove. *)
Definition open_orders (s : database) : nat := size (limit_orders s) + size (call_orders s).
Lemma check_calls_any X Y mia en fnl s :
  chain_wf s -> check_call_orders (EX := X) mia en fnl s = check_call_orders (EX := Y) mia en fnl s.
Proof.
  intros Hw. unfold check_call_orders. apply M_bind_ext. intros o s1 [Ho ->]%deref_Ok. destruct (negb (is_market_issued o)); [done|].
  eapply M_bind_same; [apply (blackswan_any X throwing)|apply (blackswan_any Y throwing)|].
  intros swan s1 E1. apply check_for_blackswan_step in E1 as (_ & _ & Hn); [|done]. destruct swan; [done|]. rewrite (Hn eq_refl).
  apply M_bind_ext. intros bid s2 (-> & _)%bitasset_of_Ok.
  apply M_bind_ext. intros d s2 [Hd ->]%deref_Ok. destruct (is_prediction_market d); [done|].
  destruct (is_null _) eqn:Hnull; [done|]. same_run. apply call_rounds_fuel; [done|by exists d|lia..].
Qed.

(** C20: the loops of the market end.  What a loop would do if it had used up its
    steps ([X] and [Y], anything: a throw, a result, a change of the state) makes no
    difference, so that point is never reached: one step more than there are orders
    (or bids) that a round can remove is enough, and more steps change nothing,
    because every round that goes on removes one of them.  The operations that
    contain the loops, with the steps they give them, do not depend on it either:
    a global settlement, the cancelling of the bids on an asset, a margin call. *)
Theorem market_loops_end (X Y : Exhausted database) (s : database) (fuel : nat) :
  ((size (limit_orders s) < fuel)%nat -> forall new e itr fin,
      match_rounds (EX := X) fuel new e itr fin s = match_rounds (EX := Y) (S (size (limit_orders s))) new e itr fin s)
  /\ ((size (call_orders s) < fuel)%nat -> forall p e itr g,
      settle_calls (EX := X) fuel p e itr g s = settle_calls (EX := Y) (S (size (call_orders s))) p e itr g s)
  /\ ((size (collateral_bids s) < fuel)%nat -> forall mia itr,
      cancel_bids (EX := X) fuel mia itr s = cancel_bids (EX := Y) (S (size (collateral_bids s))) mia itr s)
  /\ (chain_wf s -> (open_orders s < fuel)%nat ->
      forall mia bid en fnl le ce st, has_feed bid s ->
      call_rounds (EX := X) fuel mia bid en fnl le ce st s
      = call_rounds (EX := Y) (S (open_orders s)) mia bid en fnl le ce st s)
  /\ (forall mia p, globally_settle_asset (EX := X) mia p s = globally_settle_asset (EX := Y) mia p s)
  /\ (forall mia bid, cancel_bids_and_revive_mpa (EX := X) mia bid s = cancel_bids_and_revive_mpa (EX := Y) mia bid s)
  /\ (chain_wf s -> forall mia en fnl, check_call_orders (EX := X) mia en fnl s = check_call_orders (EX := Y) mia en fnl s).
Proof.
  split_and!; intros.
  - apply match_rounds_fuel; lia.
  - apply settle_calls_fuel; lia.
  - apply cancel_bids_fuel; lia.
  - unfold open_orders in *. apply call_rounds_fuel; done || lia.
  - apply settle_any.
  - unfold cancel_bids_and_revive_mpa. same_run. apply M_bind_ext'; [apply cancel_bids_fuel; lia|done].
  - by apply check_calls_any.
Qed.
End Matching.

(** ** Witnesses *)
Import Ref.

Lemma match_is_fair_witness :
  exists ur cr, match_amounts (usd 50) (core 1000) (mk_price (core 1000) (usd 100))
      = Ok (ur, cr) /\ asset_id ur = core_asset /\ 0 <= amount cr <= 50.
Proof.
  eexists _, _. split; [vm_compute; reflexivity|].
  destruct (match_is_fair (usd 50) (core 1000) (core 500) (usd 50) (mk_price (core 1000) (usd 100)))
    as (H1 & H2 & H3 & _);
    [unfold pos_int64; cbn; lia|unfold pos_int64; cbn; lia|by_decide
    |vm_compute; reflexivity|].
  split; [exact H1|exact H3].
Defined.

(** Alice, selling dollars for core, meets bob's order. *)
Definition alice_price : price := mk_price (usd 50) (core 400).
Lemma best_order_first_witness :
  exists id b, limit_lower_bound (mk_price (core GRAPHENE_MAX_SHARE_SUPPLY) (usd 1)) start = Some id
    /\ limit_orders start !! id = Some b /\ crosses alice_price b.
Proof.
  destruct (best_order_first start alice_price (mk_price (core GRAPHENE_MAX_SHARE_SUPPLY) (usd 1)))
    as [_ Hne].
  - exact start_wf.
  - unfold supply_bounded. by_decide.
  - by_decide.
  - reflexivity.
  - destruct Hne as (id & b & Hid & Hb & Hc & _); [vm_compute; discriminate|].
    exists id, b. split; [exact Hid|]. split; [exact Hb|exact Hc].
Defined.

(** What cannot be reached may as well throw something else. *)
Definition reached : Exhausted database := fun A => throw "the end of a loop was reached".
Lemma market_loops_end_witness :
  call_rounds (EX := reached) 9 USD 0 true true None None (mk_loop (Some 1) (Some 1) false false) start
  = call_rounds (EX := exhausted_throws database) 4 USD 0 true true None None (mk_loop (Some 1) (Some 1) false false) start
  /\ check_call_orders (EX := reached) USD true false start = check_call_orders (EX := exhausted_throws database) USD true false start.
Proof.
  destruct (market_loops_end reached (exhausted_throws database) start 9) as (_ & _ & _ & Hr & _ & _ & Hc).
  split; [refine (Hr start_wf _ USD 0 true true None None (mk_loop (Some 1) (Some 1) false false) _)|refine (Hc start_wf USD true false)].
  - vm_compute. lia.
  - exists (usd_bitasset null_price 0). split; vm_compute; reflexivity.
Defined.

(** ** Where the code goes wrong *)
(** Two orders of bob and carol, each selling 10 core for 100 dollars. *)
Definition two_makers : database :=
  state_of [(alice, USD, 500); (alice, core_asset, 5000); (bob, USD, 500); (carol, USD, 1000)]
    [(1, limit bob 10 (mk_price (core 10) (usd 100))); (2, limit carol 10 (mk_price (core 10) (usd 100)));
     (3, limit alice 101 (mk_price (usd 101) (core 10)))]
    [] [] [] (usd_bitasset null_price 0) 1505020 2101.
(** What an account gave and received in the fills of a run. *)
Definition fills_of (account : Z) (s : database) : list (asset * asset) :=
  omap (fun op => match op with
                  | fill_order_operation _ a pays receives _ _ _ =>
                      if a =? account then Some (pays, receives) else None
                  | _ => None
                  end) (applied_ops s).

(** A taker can pay for nothing: what is left of alice's order after bob's
    is filled buys less than one unit, yet it is matched with carol's order, to
    whom alice gives a dollar and from whom she receives nothing. *)
Theorem taker_pays_for_nothing :
  fills_of alice (after (apply_order 3 true) two_makers) = [(usd 100, core 10); (usd 1, core 0)].
Proof. vm_compute. reflexivity. Qed.

(** Dollars fed at a tenth of a core; carol and dan are both subject to a
    margin call, and bob offers one dollar more than carol's debt. *)
Definition cheap_feed : price_feed :=
  mk_feed (mk_price (usd 10) (core 1)) (mk_price (usd 10) (core 1)) 1750 1500.
Definition cheap_usd : asset_bitasset_data_object :=
  mk_bitasset_data (mk_bitasset_options 86400 1 86400 0 2000 core_asset)
    {[alice := (1600000000, cheap_feed)]} cheap_feed 1600000000 false 0 null_price 0.
Definition thin_market : database :=
  state_of [(alice, USD, 999)] [(1, limit bob 1001 (mk_price (usd 1001) (core 100)))]
    [(1, position carol 150 1000); (2, position dan 155 1000)] [] [] cheap_usd 1500305 2000.

(** [check_call_orders] can read an order that it has removed: filling
    carol's position leaves bob's order with a remainder that is culled as too
    small, while [limit_itr] still refers to it; the next round dereferences
    the iterator. *)
Theorem margin_call_reads_culled_order :
  chain_wfb thin_market = true /\ surplus USD thin_market = 0 /\ surplus core_asset thin_market = 0
  /\ exists t, check_call_orders USD true false thin_market = Throw (dangling, t).
Proof. split_and!; [vm_compute; done..|]. eexists. vm_compute. reflexivity. Qed.

(** A euro ([2]) backed by dollars. *)
Definition EUR : Z := 2.
Definition eur (n : Z) : asset := mk_asset n EUR.
Definition eur_object : asset_object :=
  mk_asset_object "EUR" 4 alice
    (mk_asset_options GRAPHENE_MAX_SHARE_SUPPLY 0 1000 511 0 (mk_price (eur 1) (core 10)) ∅ ∅ ∅ ∅)
    2 (Some 1) None.
Definition eur_feed : price_feed := mk_feed (mk_price (eur 1) (usd 1)) (mk_price (eur 1) (core 10)) 1750 1500.
Definition eur_market : database :=
  set_assets {[core_asset := core_object; USD := usd_object; EUR := eur_object]}
   (set_asset_dynamic_data {[0 := mk_dynamic_data 2100000 0 0 0; 1 := mk_dynamic_data 6000 0 0 1000000;
                             2 := mk_dynamic_data 1000 0 0 600000]}
    (set_bitasset_data {[0 := usd_bitasset null_price 0;
       1 := mk_bitasset_data (mk_bitasset_options 86400 1 86400 0 2000 USD)
              {[alice := (1600000000, eur_feed)]} eur_feed 1600000000 false 0 null_price 0]}
     (state_of [(alice, USD, 3000); (bob, EUR, 1000)] []
        [(1, mk_call_order carol 3000 1000 (mk_price (usd 300000) (eur 175000)))] [] []
        (usd_bitasset null_price 0) 0 0))).

(** [total_core_in_orders] counts collateral that is not core: closing a
    position in an asset backed by dollars subtracts the released dollars from
    the borrower's core in orders, which becomes negative. *)
Theorem released_dollars_counted_as_core :
  chain_wfb eur_market = true
  /\ (total_core_in_orders <$> account_statistics eur_market !! carol) = Some 0
  /\ (let s' := after (globally_settle_asset EUR (mk_price (eur 1) (usd 1))) eur_market in
      returned (globally_settle_asset EUR (mk_price (eur 1) (usd 1)) eur_market) = Some tt
      /\ call_orders s' = ∅ /\ get_balance carol USD s' = usd 2000
      /\ (total_core_in_orders <$> account_statistics s' !! carol) = Some (-2000)).
Proof. vm_compute. done. Qed.
End MarketTheorems.
