(* ===== verification/BlackSwan.v ===== *)
(** * The outcome of a black swan

    [globally_settle_asset] closes every position of the asset, whatever the
    other books hold, and fixes the price at which the asset is redeemed from
    the fund so gathered. *)
From Stdlib Require Import ZArith Lia String.
From stdpp Require Import base gmap sets list strings sorting.
From S2P Require Import Prelude External Asset Vesting Chain Balance Accounting Market MarketSupply Book Scenario.

Module BlackSwan.
Import Asset Vesting Chain Balance Accounting Market MarketSupply Book Scenario.

(** What a position pays at the settlement price: its debt's worth, or all its
    collateral. *)
Definition paid `{U128Ops} (p : price) (c : call_order_object) : Z :=
  match asset_mul (get_debt c) p with
  | Ok v => Z.min (amount v) (collateral c)
  | Throw _ => 0
  end.

Section Swan.
Context `{SafeLaws, U128Laws, RationalLaws, IndexLaws}.

Definition priced_calls (s : database) : Prop :=
  map_Forall (fun _ c => valid_price (order_call_price c)) (call_orders s).
Lemma priced_rows s : priced_calls s -> strict_order_on call_before (map_to_list (call_orders s)).
Proof.
  intros Hv. apply (rows_strict (fun a b => price_lt (order_call_price a) (order_call_price b))
                      (fun o => valid_price (order_call_price o))).
  - intros x Hx. by rewrite price_lt_irrefl.
  - intros x y Hx Hy. by apply price_lt_asym.
  - intros x y z Hx Hy Hz. by apply price_lt_cotrans.
  - done.
Qed.

Lemma settle_calls_spec fuel p pre mid post g s g' s' :
  priced_calls s -> call_book s = pre ++ mid ++ post ->
  settle_calls fuel p (head_id post) (head_id (mid ++ post)) g s = Ok (g', s') ->
  (forall id, call_orders s' !! id = if bool_decide (id ∈ fst <$> mid) then None else call_orders s !! id)
  /\ amount g' = amount g + sum_list (fun _ => paid p) mid.
Proof.
  revert mid g s. induction fuel as [|fuel IH]; intros mid g s Hv Hb; cbn [settle_calls];
    pose proof (NoDup_book call_before (call_orders s)) as Hnd; fold (call_book s) in Hnd;
    rewrite Hb, fmap_app in Hnd; apply NoDup_app in Hnd as (_ & _ & Hnd);
    (case_bool_decide as Ee; [apply head_id_app_eq in Ee as ->; [|done];
       intros E; mk_ok; cbn; split; [done|lia]|]); [done|].
  destruct mid as [|[id c] mid]; [done|]. cbn [app head_id]. intros E.
  repeat first [run_ok1 | match goal with Hi : at_itr _ _ _ = Ok (?x, _) |- _ =>
    let I := fresh "Hit" in let L := fresh "Hl" in apply at_itr_Ok in Hi as (-> & I & L); destruct x as [id' c'] end].
  cbn [fst snd] in *. injection Hit as <-.
  assert (Hc : call_orders s !! id = Some c) by (apply call_book_lookup; rewrite Hb; set_solver).
  assert (c' = c) as -> by (cbn in Hl; congruence). clear Hl.
  match goal with Hi : next_call _ _ = Ok (?i, ?t) |- _ =>
    rename i into itr'; pose proof (next_call_state _ _ _ _ Hi) as ->;
    assert (itr' = head_id (mid ++ post)) as -> end.
  { match goal with Hi : next_call _ _ = Ok _ |- _ => unfold next_call in Hi end. repeat run_ok1.
    match goal with Hi : lift (next_in _ _) _ = Ok _ |- _ => apply lift_Ok in Hi as [Hi _];
      rewrite Hb in Hi; cbn [app] in Hi; rewrite next_in_split in Hi; [congruence|] end.
    pose proof (NoDup_book call_before (call_orders s)) as Hn'. fold (call_book s) in Hn'.
    by rewrite Hb in Hn'. }
  match goal with Hf : fill_call_order _ _ _ _ _ _ = Ok (_, ?t') |- _ => rename t' into t;
    apply fill_call_frame in Hf as (_ & _ & o & _ & _ & Hd) end.
  destruct Hd as [(_ & _ & Ed)|(? & _)]; [|by subst].
  assert (Hbt : call_book t = pre ++ mid ++ post).
  { unfold call_book. rewrite Ed. apply (ordered_delete _ _ pre (mid ++ post) id c); [by apply priced_rows|exact Hb]. }
  apply IH in E as [Hl Hg]; [|unfold priced_calls; rewrite Ed; by apply map_Forall_delete|done].
  split.
  - intros k. rewrite Hl, Ed. cbn [fmap list_fmap fst]. destruct (decide (k = id)) as [->|Hk].
    + rewrite (bool_decide_eq_true_2 (id ∈ id :: _)) by set_solver. rewrite lookup_delete_eq. by case_bool_decide.
    + rewrite lookup_delete_ne by done. do 2 case_bool_decide; try done; set_solver.
  - rewrite Hg. cbn [sum_list fst snd]. unfold paid at 2.
    repeat match goal with
    | Hm : asset_mul _ _ = Ok ?v |- _ => rewrite Hm; clear Hm
    | Hm : asset_gt _ _ = Ok _ |- _ => apply asset_gt_Ok in Hm as [_ ->]
    | Hm : asset_add _ _ = Ok _ |- _ => apply asset_add_Ok in Hm as [_ ->]
    end.
    cbn [amount get_collateral]. destruct (Z.ltb_spec (collateral c) (amount a)); cbn [amount get_collateral]; lia.
Qed.

(** The call prices are within the share supply, as [price::call_price] leaves
    them. *)
Definition calls_bounded (s : database) : Prop :=
  map_Forall (fun _ c => amount (base (order_call_price c)) <= GRAPHENE_MAX_SHARE_SUPPLY
                /\ amount (quote (order_call_price c)) <= GRAPHENE_MAX_SHARE_SUPPLY) (call_orders s).

(** A price of a pair, within the share supply, is between the extremes. *)
Lemma within_extremes b q lo hi x :
  valid_price x -> amount (base x) <= GRAPHENE_MAX_SHARE_SUPPLY -> amount (quote x) <= GRAPHENE_MAX_SHARE_SUPPLY ->
  price_min b q = Ok lo -> price_max b q = Ok hi ->
  (negb (price_lt x lo) = true /\ price_lt hi x = false
   <-> asset_id (base x) = b /\ asset_id (quote x) = q).
Proof.
  intros Hx Hb Hq Hmin Hmax. rewrite negb_true_iff.
  split; [intros [? ?]; by eapply price_extremes|]. intros [<- <-].
  apply price_min_Ok in Hmin as [Hne ->]. apply price_max_Ok in Hmax as [_ ->].
  rewrite <- !not_true_iff_false, !price_lt_spec;
    try (by apply extreme_valid; unfold pos_int64, GRAPHENE_MAX_SHARE_SUPPLY; done || lia); [|done..].
  destruct Hx as [[] [] _]. cbn. unfold GRAPHENE_MAX_SHARE_SUPPLY in *. lia.
Qed.

Lemma call_before_le (x y : Z * call_order_object) :
  valid_price (order_call_price x.2) -> valid_price (order_call_price y.2) ->
  call_before x y = true -> price_lt (order_call_price y.2) (order_call_price x.2) = false.
Proof.
  intros Hx Hy. unfold call_before. destruct (price_lt (order_call_price x.2) (order_call_price y.2)) eqn:E.
  - intros _. by apply price_lt_asym.
  - by destruct (price_lt (order_call_price y.2) (order_call_price x.2)).
Qed.

(** The positions of an asset are one stretch of the traversal. *)
Lemma call_stretch s mia backing lo hi :
  chain_wf s -> calls_bounded s ->
  price_min backing mia = Ok lo -> price_max backing mia = Ok hi ->
  (forall id c, call_orders s !! id = Some c -> debt_type c = mia ->
     asset_id (base (order_call_price c)) = backing) ->
  exists pre mid post, call_book s = pre ++ mid ++ post
    /\ call_lower_bound lo s = head_id (mid ++ post) /\ call_upper_bound hi s = head_id post
    /\ (forall id c, call_orders s !! id = Some c -> (id, c) ∈ mid <-> debt_type c = mia).
Proof.
  intros Hw Hbd Hmin Hmax Hback.
  assert (Hv : forall x, x ∈ call_book s -> call_orders s !! x.1 = Some x.2 /\ valid_price (order_call_price x.2)).
  { intros [k x] Hx%call_book_lookup. split; [done|]. by destruct (wf_calls s Hw _ _ Hx) as (_ & _ & ?). }
  assert (Hvl : valid_price lo /\ valid_price hi).
  { apply price_min_Ok in Hmin as [Hne ->]. apply price_max_Ok in Hmax as [_ ->].
    split; apply extreme_valid; unfold pos_int64, GRAPHENE_MAX_SHARE_SUPPLY; done || lia. }
  destruct Hvl as [Hvl Hvh].
  destruct (bounds_split _ (fun o => negb (price_lt (order_call_price o) lo))
              (fun o => price_lt hi (order_call_price o)) (call_book s) (call_book_sorted s Hw))
    as (pre & mid & post & El & Elo & Ehi & Hmid).
  - intros x y Hx%Hv Hy%Hv L. rewrite !negb_true_iff. apply call_before_le in L; [|apply Hx|apply Hy].
    intros E. apply not_true_is_false. intros E'.
    destruct (price_lt_cotrans (order_call_price y.2) (order_call_price x.2) lo); try apply Hx; try apply Hy; congruence.
  - intros x y Hx%Hv Hy%Hv L. apply call_before_le in L; [|apply Hx|apply Hy]. intros E.
    destruct (price_lt_cotrans hi (order_call_price y.2) (order_call_price x.2)); try apply Hx; try apply Hy; congruence.
  - intros x [Hx Hvx]%Hv E. apply negb_false_iff in E.
    exact (proj1 (price_extremes backing mia _ lo hi Hvx Hmin Hmax) E).
  - exists pre, mid, post. split_and!; try done. intros id c Hc.
    assert (Hin : (id, c) ∈ call_book s) by by apply call_book_lookup.
    rewrite (Hmid _ Hin). cbn. destruct (Hbd _ _ Hc).
    rewrite (within_extremes backing mia lo hi); [|by apply (Hv _ Hin)|done..].
    split; [by intros [_ ?]|]. intros Hd. split; [by eapply Hback|done].
Qed.

Lemma stretch_paid s p mia pre mid post :
  call_book s = pre ++ mid ++ post ->
  (forall id c, call_orders s !! id = Some c -> (id, c) ∈ mid <-> debt_type c = mia) ->
  sum_list (fun _ => paid p) mid
  = sum_map (fun _ c => if debt_type c =? mia then paid p c else 0) (call_orders s).
Proof.
  intros Hb Hm. assert (Hin : forall x, x ∈ pre ++ mid ++ post -> call_orders s !! x.1 = Some x.2).
  { intros [k x]. rewrite <- Hb. by intros Hx%call_book_lookup. }
  pose proof (NoDup_book call_before (call_orders s)) as Hnd. fold (call_book s) in Hnd. rewrite Hb in Hnd.
  rewrite sum_map_list.
  rewrite (sum_list_perm _ (map_to_list (call_orders s)) (call_book s)) by (symmetry; apply ordered_perm).
  rewrite Hb, !sum_list_app.
  assert (Hz : forall l, (forall x, x ∈ l -> x ∈ pre ++ mid ++ post /\ x ∉ mid) ->
             sum_list (fun _ c => if debt_type c =? mia then paid p c else 0) l = 0).
  { intros l Hl. apply sum_list_zero. intros [k c] Hx. destruct (Hl _ Hx) as [Hx1 Hx2].
    cbn. destruct (Z.eqb_spec (debt_type c) mia) as [E|]; [|done].
    exfalso. apply Hx2. by apply (Hm k c (Hin _ Hx1)). }
  assert (Hdis : forall x l1 l2, NoDup (fst <$> (l1 ++ l2) : list Z) -> x ∈ (l1 : list (Z * call_order_object)) -> x ∉ l2).
  { intros x l1 l2. rewrite fmap_app, NoDup_app. intros (_ & Hd & _) H1x H2x.
    apply (Hd x.1); by apply list_elem_of_fmap_2. }
  rewrite (Hz pre), (Hz post).
  - rewrite Z.add_0_r, Z.add_0_l. apply sum_list_ext. intros [k c] Hx. cbn.
    assert (debt_type c = mia) as ->; [|by rewrite Z.eqb_refl].
    apply (proj1 (Hm k c (Hin (k, c) ltac:(set_solver))) Hx).
  - intros x Hx. split; [set_solver|]. intros Hx'. rewrite fmap_app, NoDup_app in Hnd.
    destruct Hnd as (_ & _ & Hnd). by eapply Hdis.
  - intros x Hx. split; [set_solver|]. intros Hx'. eapply (Hdis x pre (mid ++ post)); [done|done|set_solver].
Qed.

(** C13: a black swan closes every position of the asset and no other; the
    settlement fund is what the positions pay at the price, the asset is
    redeemed at its supply over the fund, and its recorded supply and the
    other books are as before. *)
Theorem black_swan_closes_all (mia : Z) (p : price) (s s' : database) (u : unit) :
  chain_wf s -> calls_bounded s -> weak_price p -> globally_settle_asset mia p s = Ok (u, s') ->
  exists o b d d' dyn,
    assets s !! mia = Some o /\ bitasset_data_id o = Some b /\ bitasset_data s !! b = Some d
    /\ asset_dynamic_data s !! dynamic_asset_data_id o = Some dyn
    /\ call_orders s' = filter (fun kc => debt_type kc.2 <> mia) (call_orders s)
    /\ bitasset_data s' = <[b := d']> (bitasset_data s)
    /\ settlement_fund d' = sum_map (fun _ c => if debt_type c =? mia then paid p c else 0) (call_orders s)
    /\ swan_price d' = mk_price (mk_asset (current_supply dyn) mia)
                          (mk_asset (settlement_fund d') (short_backing_asset (bitasset_opts d)))
    /\ asset_dynamic_data s' !! dynamic_asset_data_id o = Some dyn
    /\ limit_orders s' = limit_orders s /\ force_settlements s' = force_settlements s.
Proof.
  intros Hw Hbd Hp. unfold globally_settle_asset. intros E. run_ok1.
  apply bitasset_of_Ok in Hrun as (-> & o & d & Ho & Hb & Hd). mk_ok.
  assert (d = a0) as -> by (cbn in *; congruence). cbn in Lk1, Lk2.
  assert (a3 = o) as -> by congruence. clear Lk3.
  destruct (call_stretch s mia (short_backing_asset (bitasset_opts a0)) a6 a7)
    as (pre & mid & post & Hbk & Elo & Ehi & Hmid); [done..| |].
  { intros id c Hc <-. symmetry. by apply (proj2 (wf_call_backed s Hw _ _ Hc) o a a0). }
  match goal with Hs : settle_calls _ _ _ _ _ _ = Ok (?x, ?t) |- _ => rename x into g, t into s1, Hs into Hset end.
  rewrite Elo, Ehi in Hset. pose proof Hset as Hst.
  apply (settle_calls_spec _ _ pre) in Hset as [Hl Hg]; [|intros k c Hc; by destruct (wf_calls s Hw _ _ Hc) as (_ & _ & ?)|done].
  apply (settle_calls_step _ _ _ _ _ _ _ _ mia) in Hst as (Hgid & Hga & Hfr & n & _ & Hret); try done.
  2: { left. intros Hne. rewrite <- Elo, <- Ehi in Hne.
       destruct (call_range _ _ _ _ _ Hw Hval0 Hval Hne) as (id & c & E1 & ? & _ & ?).
       rewrite <- Elo. eauto. }
  specialize (Hret (mk_is_Some _ _ Ho) o a5 Ho Lk1).
  destruct Hfr as [F Eb El Efs]. assert (o1 = a0) as -> by (cbn in Lk0; congruence).
  assert (o0 = set_supply (current_supply a5 - n) a5) as -> by (subst s12; cbn in *; congruence).
  exists o, a, a0, o'0, a5. subst s' s12 o'. cbn. rewrite lookup_insert_eq, Eb, El, Efs.
  split_and!; try done.
  - apply map_eq. intros k. rewrite Hl. cbn. rewrite map_lookup_filter.
    destruct (call_orders s !! k) as [c|] eqn:Hc; cbn; [|by case_bool_decide].
    assert (Hk : k ∈ mid.*1 <-> debt_type c = mia).
    { rewrite <- (Hmid k c Hc). split.
      - intros ((k' & c') & -> & Hx)%list_elem_of_fmap. cbn in *.
        assert (Hx' : (k', c') ∈ call_book s) by (rewrite Hbk; set_solver).
        apply call_book_lookup in Hx'. by simplify_eq.
      - intros Hx. by apply (list_elem_of_fmap_2 fst) in Hx. }
    case_bool_decide as Hin.
    + rewrite option_guard_False; [done|]. tauto.
    + rewrite option_guard_True; [done|]. tauto.
  - rewrite <- (stretch_paid s p mia pre mid post Hbk Hmid). subst o'0. cbn. cbn in Hg. lia.
  - apply price_div_Ok in Hrun0 as [_ ->]. subst o'0. cbn. do 2 f_equal. destruct g. cbn in *. by subst.
  - unfold set_supply. cbn. destruct a5. done.
Qed.
End Swan.

(** ** Witness: at 35 core a dollar carol pays 35000 and dan all his 30000. *)
Import Ref.

Definition swan_at_35 : price := mk_price (usd 1) (core 35).
Lemma black_swan_closes_all_witness :
  exists b d', bitasset_data (after (globally_settle_asset USD swan_at_35) start)
               = <[b := d']> (bitasset_data start)
    /\ settlement_fund d' = 65000.
Proof.
  destruct (black_swan_closes_all USD swan_at_35 start
              (after (globally_settle_asset USD swan_at_35) start) tt)
    as (o & b & d & d' & dyn & _ & _ & _ & _ & _ & Hb & Hf & _).
  - exact start_wf.
  - unfold calls_bounded. by_decide.
  - split; vm_compute; try split; discriminate || reflexivity.
  - apply after_Ok. vm_compute. reflexivity.
  - exists b, d'. split; [exact Hb|]. rewrite Hf. vm_compute. reflexivity.
Defined.
End BlackSwan.
