(* ===== verification/AssetObject.v ===== *)
(** * Price feeds and settlement volumes ([asset_object.cpp],
    [asset_object.hpp])

    The median of the feeds of a market-issued asset, its expiry, and the
    volume that may be force settled in a maintenance interval. *)
From Stdlib Require Import ZArith Lia String.
From stdpp Require Import base gmap sets list strings sorting.
From S2P Require Import Prelude External Asset Vesting Chain Balance Accounting Market MarketSupply Book Scenario.

Module AssetObject.
Import Asset Vesting Chain Balance Accounting Market MarketSupply Book Scenario.

(** [price_feed()]. *)
Definition default_feed : price_feed := mk_feed null_price null_price 1750 1500.

Section Ops.
Context `{SafeOps, U128Ops, IndexOps, NthOps, TimeOps}.

(** [asset_bitasset_data_object::max_force_settlement_volume]; the sum of the
    two [int64_t] values has no defined result on overflow. *)
Definition max_force_settlement_volume (supply : Z) (b : asset_bitasset_data_object) : result Z :=
  let p := maximum_force_settlement_volume (bitasset_opts b) in
  if p =? 0 then Ok 0
  else if p =? GRAPHENE_100_PERCENT then safe_add supply (force_settled_volume b)
  else
    _ ← fc_assert (bool_decide (in_int64 (supply + force_settled_volume b))) "undefined: int64 overflow";
    u128_ratio (supply + force_settled_volume b) p GRAPHENE_100_PERCENT.

(** The feeds in the order of the [flat_map], and those that count. *)
Definition feed_list (b : asset_bitasset_data_object) : list (Z * (Z * price_feed)) :=
  ordered (fun x y => x.1 <? y.1) (map_to_list (feeds b)).
Definition counts (now : Z) (b : asset_bitasset_data_object) (f : Z * price_feed) : bool :=
  (now - f.1 <? feed_lifetime_sec (bitasset_opts b)) && negb (f.1 =? 0).
Definition current_feeds (now : Z) (b : asset_bitasset_data_object) : list (Z * price_feed) :=
  List.filter (counts now b) (snd <$> feed_list b).
Definition oldest (now : Z) (fs : list (Z * price_feed)) : Z := foldl Z.min now (fst <$> fs).
Definition set_current_feed (f : price_feed) (published : Z) (b : asset_bitasset_data_object)
  : asset_bitasset_data_object :=
  mk_bitasset_data (bitasset_opts b) (feeds b) f published (is_prediction_market b)
    (force_settled_volume b) (swan_price b) (settlement_fund b).

(** [CALCULATE_MEDIAN_VALUE]: the list that [nth_element] leaves, and the feed
    at the middle. *)
Definition median_by (lt : price_feed -> price_feed -> bool) (l : list price_feed)
  : result (list price_feed * price_feed) :=
  let n := (length l / 2)%nat in
  let l' := nth_element lt n l in
  f ← of_option (l' !! n) dangling; Ok (l', f).
Definition median_feed (l : list price_feed) : result price_feed :=
  r1 ← median_by (fun a b => price_lt (settlement_price a) (settlement_price b)) l;
  r2 ← median_by (fun a b => maintenance_collateral_ratio a <? maintenance_collateral_ratio b) (fst r1);
  r3 ← median_by (fun a b => maximum_short_squeeze_ratio a <? maximum_short_squeeze_ratio b) (fst r2);
  r4 ← median_by (fun a b => price_lt (core_exchange_rate a) (core_exchange_rate b)) (fst r3);
  Ok (mk_feed (settlement_price (snd r1)) (core_exchange_rate (snd r4))
        (maintenance_collateral_ratio (snd r2)) (maximum_short_squeeze_ratio (snd r3))).
Definition update_median_feeds (now : Z) (b : asset_bitasset_data_object)
  : result asset_bitasset_data_object :=
  let fs := current_feeds now b in
  if Z.of_nat (length fs) <? minimum_feeds (bitasset_opts b)
  then Ok (set_current_feed default_feed now b)
  else
    match fs with
    | [(t, f)] => Ok (set_current_feed f (oldest now fs) b)
    | _ => f ← median_feed (snd <$> fs); Ok (set_current_feed f (oldest now fs) b)
    end.

Definition feed_expiration_time (b : asset_bitasset_data_object) : Z :=
  time_add (current_feed_publication_time b) (feed_lifetime_sec (bitasset_opts b)).
Definition feed_is_expired_before_hardfork_615 (now : Z) (b : asset_bitasset_data_object) : bool :=
  now <=? feed_expiration_time b.
Definition feed_is_expired (now : Z) (b : asset_bitasset_data_object) : bool :=
  feed_expiration_time b <=? now.
End Ops.

(** ** Facts *)
Section Facts.
Context `{SafeLaws, U128Laws, IndexLaws, NthLaws}.

Lemma median_by_Ok lt l l' f :
  median_by lt l = Ok (l', f) ->
  l' ≡ₚ l /\ f ∈ l /\ exists l1 l2, l' = l1 ++ f :: l2 /\ length l1 = (length l / 2)%nat
    /\ l' = nth_element lt (length l / 2) l.
Proof.
  unfold median_by. intros E. run_ok1. apply of_option_Ok in Hrun. injection E as <- ->.
  pose proof (nth_element_perm lt (length l / 2) l) as Hp. split; [done|]. split.
  - rewrite <- Hp. by eapply list_elem_of_lookup_2.
  - eexists _, _. split; [symmetry; by apply take_drop_middle|]. split; [|done].
    rewrite length_take. apply lookup_lt_Some in Hrun.
    apply Nat.min_l, Nat.lt_le_incl, Hrun.
Qed.
Lemma median_by_total lt l : l <> [] -> exists l' f, median_by lt l = Ok (l', f).
Proof.
  intros Hl. unfold median_by. destruct (nth_element lt (length l / 2) l !! (length l / 2)%nat) as [f|] eqn:E.
  - cbn. eauto.
  - apply lookup_ge_None in E. rewrite (Permutation_length (nth_element_perm _ _ _)) in E.
    destruct l as [|p l]; [done|].
    assert (length (p :: l) / 2 < length (p :: l))%nat by (apply Nat.div_lt; cbn; lia). lia.
Qed.

Lemma median_feed_Ok l f :
  median_feed l = Ok f ->
  (exists l' g, median_by (fun a b => price_lt (settlement_price a) (settlement_price b)) l = Ok (l', g)
     /\ settlement_price f = settlement_price g)
  /\ (exists g, g ∈ l /\ maintenance_collateral_ratio f = maintenance_collateral_ratio g)
  /\ (exists g, g ∈ l /\ maximum_short_squeeze_ratio f = maximum_short_squeeze_ratio g)
  /\ (exists g, g ∈ l /\ core_exchange_rate f = core_exchange_rate g).
Proof.
  unfold median_feed. intros E. repeat run_ok1.
  repeat match goal with x : _ * _ |- _ => destruct x end. cbn [fst snd] in *. subst f. cbn.
  repeat match goal with
  | Hm : median_by ?lt ?l = Ok (?l', ?f) |- _ =>
      lazymatch goal with Hp : l' ≡ₚ l |- _ => fail | _ => pose proof (median_by_Ok _ _ _ _ Hm) as (? & ? & _) end
  end.
  split_and!; eexists; [eexists; split; [eassumption|done]|..]; (split; [|done]);
    repeat match goal with
    | Hp : ?l' ≡ₚ ?l, Hi : _ ∈ ?l' |- _ => rewrite Hp in Hi
    end; done.
Qed.
Lemma median_feed_total l : l <> [] -> exists f, median_feed l = Ok f.
Proof.
  intros Hl. unfold median_feed.
  assert (Hm : forall lt l0, l0 ≡ₚ l -> exists l' f, median_by lt l0 = Ok (l', f) /\ l' ≡ₚ l).
  { intros lt l0 Hp. destruct (median_by_total lt l0) as (l' & f & E).
    - intros ->. by apply Permutation_nil in Hp.
    - exists l', f. split; [done|]. apply median_by_Ok in E as (E & _). by rewrite E. }
  destruct (Hm (fun a b => price_lt (settlement_price a) (settlement_price b)) l)
    as (l1 & f1 & E1 & P1); [done|]. rewrite E1. cbn.
  destruct (Hm (fun a b => maintenance_collateral_ratio a <? maintenance_collateral_ratio b) l1)
    as (l2 & f2 & E2 & P2); [done|]. rewrite E2. cbn.
  destruct (Hm (fun a b => maximum_short_squeeze_ratio a <? maximum_short_squeeze_ratio b) l2)
    as (l3 & f3 & E3 & P3); [done|]. rewrite E3. cbn.
  destruct (Hm (fun a b => price_lt (core_exchange_rate a) (core_exchange_rate b)) l3)
    as (l4 & f4 & E4 & P4); [done|]. rewrite E4. cbn. eauto.
Qed.

(** The feeds that count are feeds of the asset. *)
Lemma current_feeds_in now b t f :
  (t, f) ∈ current_feeds now b -> counts now b (t, f) = true /\ exists k, feeds b !! k = Some (t, f).
Proof.
  unfold current_feeds. intros Hin%list_elem_of_In. apply filter_In in Hin as [Hin Hc]. split; [done|].
  apply list_elem_of_In, list_elem_of_fmap in Hin as ([k x] & -> & Hx). exists k.
  apply elem_of_map_to_list. by rewrite <- (ordered_perm (fun x y => x.1 <? y.1)).
Qed.

(** What the update changes, and where its feed comes from. *)
Lemma update_median_feeds_Ok now b b' :
  update_median_feeds now b = Ok b' ->
  exists f t, b' = set_current_feed f t b
    /\ (f = default_feed \/ f ∈ (snd <$> current_feeds now b) \/ median_feed (snd <$> current_feeds now b) = Ok f).
Proof.
  unfold update_median_feeds. case_match; [intros [= <-]; by eauto 6|].
  destruct (current_feeds now b) as [|[t f] [|y l]] eqn:El; cbn [fmap list_fmap snd].
  - intros E. run_ok1. injection E as <-. by eauto 6.
  - intros [= <-]. eexists _, _. split; [done|]. right; left. set_solver.
  - intros E. run_ok1. injection E as <-. by eauto 6.
Qed.

Lemma default_feed_ok : feed_ok default_feed.
Proof. repeat split; cbn; unfold GRAPHENE_MIN_COLLATERAL_RATIO, GRAPHENE_MAX_COLLATERAL_RATIO; try lia. by left. Qed.
Lemma update_median_feeds_ok now b b' :
  feeds_ok b -> update_median_feeds now b = Ok b' -> feed_ok (current_feed b').
Proof.
  intros Hf (f & t & -> & Hor)%update_median_feeds_Ok. cbn.
  assert (Hin : forall g, g ∈ (snd <$> current_feeds now b) -> feed_ok g).
  { intros g ([t' g'] & -> & Hg)%list_elem_of_fmap. apply current_feeds_in in Hg as (_ & k & Hk).
    exact (Hf _ _ Hk). }
  destruct Hor as [->|[Hg|Hm]]; [exact default_feed_ok|by apply Hin|].
  apply median_feed_Ok in Hm as ((l' & g1 & E1 & F1) & (g2 & I2 & F2) & (g3 & I3 & F3) & (g4 & I4 & F4)).
  apply median_by_Ok in E1 as (_ & I1 & _). apply Hin in I1, I2, I3, I4.
  destruct I1 as (? & _), I2 as (_ & _ & ? & _), I3 as (_ & ? & _), I4 as (_ & _ & _ & ?).
  split_and!; rewrite ?F1, ?F2, ?F3, ?F4; done || lia.
Qed.

(** ** The median *)
Definition between (lo hi : price) (f : price_feed) : bool :=
  negb (price_lt (settlement_price f) lo) && negb (price_lt hi (settlement_price f)).

Lemma median_between lo hi l l' f :
  valid_price lo -> valid_price hi -> (forall g, g ∈ l -> valid_price (settlement_price g)) ->
  (length l < 2 * count (between lo hi) l)%nat ->
  median_by (fun a b => price_lt (settlement_price a) (settlement_price b)) l = Ok (l', f) ->
  between lo hi f = true.
Proof.
  intros Hlo Hhi Hv Hmaj (Hp & Hin & l1 & l2 & El & Hlen & En)%median_by_Ok.
  rewrite El in En. symmetry in En. apply nth_element_split in En as [H1l H2l]; [|..|done].
  2: { intros y z Hy Hz. apply price_lt_asym; auto. }
  2: { intros y z w Hy Hz Hw. apply price_lt_cotrans; auto. }
  assert (Hl1 : forall g, g ∈ l1 -> g ∈ l) by (intros g Hg; rewrite <- Hp, El; set_solver).
  assert (Hl2 : forall g, g ∈ l2 -> g ∈ l) by (intros g Hg; rewrite <- Hp, El; set_solver).
  rewrite <- (count_perm _ _ _ Hp), <- (Permutation_length Hp), El in Hmaj.
  rewrite <- (Permutation_length Hp), El in Hlen.
  rewrite count_app, count_cons, length_app in Hmaj. rewrite length_app in Hlen. cbn [length] in *.
  pose proof (count_le (between lo hi) l1). pose proof (count_le (between lo hi) l2).
  assert (Hhalf : (2 * length l1 <= length l1 + S (length l2) < 2 * length l1 + 2)%nat).
  { pose proof (Nat.div_mod_eq (length l1 + S (length l2)) 2) as D. rewrite <- Hlen in D.
    pose proof (Nat.mod_upper_bound (length l1 + S (length l2)) 2). lia. }
  destruct (between lo hi f) eqn:Eb; [done|]. exfalso.
  apply andb_false_iff in Eb as [E|E]; apply negb_false_iff in E.
  - rewrite (count_none _ l1) in Hmaj; [lia|]. intros g Hg. unfold between.
    destruct (price_lt_cotrans (settlement_price f) (settlement_price g) lo) as [L|L]; auto.
    + rewrite H1l in L; done.
    + by rewrite L.
  - rewrite (count_none _ l2) in Hmaj; [lia|]. intros g Hg. unfold between.
    destruct (price_lt_cotrans hi (settlement_price g) (settlement_price f)) as [L|L]; auto.
    + rewrite L. by rewrite andb_false_r.
    + rewrite H2l in L; done.
Qed.

(** A minority of feeds cannot move the settlement price: when there are
    enough feeds that count, the update succeeds, and whatever range holds the
    settlement prices of more than half of them holds the new settlement
    price, whichever elements [nth_element] puts beside the median. *)
Theorem median_resists_minority (now : Z) (b : asset_bitasset_data_object) (lo hi : price) :
  let fs := snd <$> current_feeds now b in
  minimum_feeds (bitasset_opts b) <= Z.of_nat (length fs) ->
  valid_price lo -> valid_price hi -> (forall f, f ∈ fs -> valid_price (settlement_price f)) ->
  (length fs < 2 * count (between lo hi) fs)%nat ->
  exists b', update_median_feeds now b = Ok b' /\ between lo hi (current_feed b') = true.
Proof.
  intros fs Hmin Hlo Hhi Hv Hmaj. unfold update_median_feeds.
  assert (Efs : fs = snd <$> current_feeds now b) by done. clearbody fs.
  assert (Hlen : length fs = length (current_feeds now b)) by (rewrite Efs; apply length_fmap).
  rewrite Hlen in Hmin. rewrite (proj2 (Z.ltb_ge _ _) Hmin).
  assert (Hm : fs <> [] -> exists f, median_feed fs = Ok f /\ between lo hi f = true).
  { intros Hne. destruct (median_feed_total fs Hne) as [f Ef]. exists f. split; [done|].
    apply median_feed_Ok in Ef as ((l' & g & E & F) & _).
    apply (median_between lo hi) in E; [|done..]. unfold between in *. by rewrite F. }
  destruct (current_feeds now b) as [|[t f] [|y l]]; rewrite <- ?Efs.
  - subst fs. cbn in Hmaj. lia.
  - eexists. split; [done|]. subst fs. unfold count in Hmaj. cbn in Hmaj |- *.
    destruct (between lo hi f); [done|]. cbn in Hmaj. lia.
  - destruct Hm as (f' & -> & ?); [by subst fs|]. eexists. split; [done|done].
Qed.

(** The volume that may be force settled is the configured fraction of the
    supply at the start of the interval, rounded down, and never exceeds it. *)
Theorem settlement_volume_bounded (supply v : Z) (b : asset_bitasset_data_object) :
  0 <= supply <= GRAPHENE_MAX_SHARE_SUPPLY -> 0 <= force_settled_volume b <= GRAPHENE_MAX_SHARE_SUPPLY ->
  0 <= maximum_force_settlement_volume (bitasset_opts b) <= GRAPHENE_100_PERCENT ->
  max_force_settlement_volume supply b = Ok v ->
  v = (supply + force_settled_volume b) * maximum_force_settlement_volume (bitasset_opts b) / GRAPHENE_100_PERCENT
  /\ 0 <= v <= supply + force_settled_volume b.
Proof.
  unfold GRAPHENE_MAX_SHARE_SUPPLY, GRAPHENE_100_PERCENT. intros Hs Hf Hp.
  unfold max_force_settlement_volume, GRAPHENE_100_PERCENT. set (p := maximum_force_settlement_volume _) in *.
  set (a := supply + force_settled_volume b) in *.
  pose proof (ratio_le a p 10000 ltac:(lia) ltac:(lia) ltac:(lia)).
  destruct (Z.eqb_spec p 0) as [->|]; [intros [= <-]; rewrite Z.mul_0_r; split; [done|lia]|].
  destruct (Z.eqb_spec p 10000) as [->|].
  - intros [-> _]%safe_add_spec. fold a. rewrite Z.div_mul by lia. split; [done|lia].
  - intros E. run_ok1. rewrite u128_ratio_spec in E by lia. injection E as <-. split; [done|lia].
Qed.
End Facts.

(** ** Concrete feeds *)
Section Examples.
Import Ref.
Definition feed_at (core_per_usd : Z) : price_feed :=
  mk_feed (mk_price (usd 1) (core core_per_usd)) (mk_price (usd 1) (core core_per_usd)) 1750 1500.
(** Three honest publishers around ten core a dollar and two liars. *)
Definition fed_by_five : asset_bitasset_data_object :=
  mk_bitasset_data (mk_bitasset_options 86400 3 86400 0 2000 core_asset)
    {[1 := (1600000000, feed_at 10); 2 := (1600000000, feed_at 900); 3 := (1600000000, feed_at 9);
      4 := (1600000000, feed_at 800); 5 := (1600000000, feed_at 11)]}
    default_feed 0 false 300 null_price 0.
Lemma median_resists_minority_witness :
  exists b', update_median_feeds 1600000010 fed_by_five = Ok b'
    /\ between (mk_price (usd 1) (core 11)) (mk_price (usd 1) (core 9)) (current_feed b') = true.
Proof.
  apply (median_resists_minority 1600000010 fed_by_five).
  - vm_compute. discriminate.
  - by_decide.
  - by_decide.
  - intros f Hf. refine (_ f Hf). apply Forall_forall. by_decide.
  - vm_compute. lia.
Defined.
Lemma settlement_volume_bounded_witness :
  exists v, max_force_settlement_volume 10007 fed_by_five = Ok v /\ v = 2061 /\ 0 <= v <= 10307.
Proof.
  exists 2061. split; [vm_compute; reflexivity|].
  destruct (settlement_volume_bounded 10007 2061 fed_by_five) as [E B];
    [vm_compute; split; discriminate..|vm_compute; reflexivity|].
  split; [reflexivity|]. exact B.
Defined.
End Examples.
End AssetObject.
