(* ===== verification/Transfers.v ===== *)
(** * Transfers, vesting operations and withdrawal permissions
    ([transfer_evaluator.cpp], [vesting_balance_evaluator.cpp],
    [withdraw_permission_evaluator.cpp], with the operations' [validate])

    The evaluators as instances of [Evaluator]; their laws and properties are
    in [TransferLaws]. *)
From Stdlib Require Import ZArith Lia String.
From stdpp Require Import base gmap sets list strings.
From S2P Require Import Prelude External Asset Vesting Chain Balance Accounting Market Evaluator MarketEvaluator.

Module Transfers.
Import Asset Vesting Chain Balance Accounting Market Evaluator MarketEvaluator.

#[export] Instance permit_unique : UniqueKey withdraw_permission_object := fun _ _ => false.

(** ** Validation *)
Definition fee_ok (fee : asset) : result unit := fc_assert (0 <=? amount fee) "fee.amount >= 0".
Definition transfer_validate (op : transfer_operation) : result unit :=
  _ ← fee_ok (tr_fee op);
  _ ← fc_assert (negb (from op =? to op)) "from != to";
  fc_assert (0 <? amount (tr_amount op)) "amount.amount > 0".
Definition override_transfer_validate (op : override_transfer_operation) : result unit :=
  _ ← fee_ok (ov_fee op);
  _ ← fc_assert (negb (ov_from op =? ov_to op)) "from != to";
  _ ← fc_assert (0 <? amount (ov_amount op)) "amount.amount > 0";
  fc_assert (negb (ov_issuer op =? ov_from op)) "issuer != from".
Definition vesting_balance_create_validate (op : vesting_balance_create_operation) : result unit :=
  _ ← fee_ok (vc_fee op); fc_assert (0 <? amount (vc_amount op)) "amount.amount > 0".
Definition vesting_balance_withdraw_validate (op : vesting_balance_withdraw_operation) : result unit :=
  _ ← fee_ok (vw_fee op); fc_assert (0 <? amount (vw_amount op)) "amount.amount > 0".
Definition permission_create_validate (op : withdraw_permission_create_operation) : result unit :=
  _ ← fee_ok (pc_fee op);
  _ ← fc_assert (negb (pc_from op =? pc_authorized op)) "withdraw_from_account != authorized_account";
  _ ← fc_assert (0 <? amount (pc_limit op)) "withdrawal_limit.amount > 0";
  _ ← fc_assert (0 <? pc_period_sec op) "withdrawal_period_sec > 0";
  fc_assert (0 <? pc_periods op) "periods_until_expiration > 0".
Definition permission_update_validate (op : withdraw_permission_update_operation) : result unit :=
  _ ← fc_assert (0 <? amount (pu_limit op)) "withdrawal_limit.amount > 0";
  _ ← fee_ok (pu_fee op);
  _ ← fc_assert (0 <? pu_period_sec op) "withdrawal_period_sec > 0";
  _ ← fc_assert (negb (pu_from op =? pu_authorized op)) "withdraw_from_account != authorized_account";
  fc_assert (0 <? pu_periods op) "periods_until_expiration > 0".
Definition permission_claim_validate (op : withdraw_permission_claim_operation) : result unit :=
  _ ← fc_assert (negb (cl_to op =? cl_from op)) "withdraw_to_account != withdraw_from_account";
  _ ← fc_assert (0 <? amount (amount_to_withdraw op)) "amount_to_withdraw.amount > 0";
  fee_ok (cl_fee op).
Definition permission_delete_validate (op : withdraw_permission_delete_operation) : result unit :=
  _ ← fee_ok (pd_fee op);
  fc_assert (negb (pd_from op =? pd_authorized op)) "withdraw_from_account != authorized_account".

Definition transfer_restricted_flag : Z := 8.
Definition override_authority_flag : Z := 4.
Definition is_transfer_restricted (o : asset_object) : bool :=
  negb (Z.land (flags (options o)) transfer_restricted_flag =? 0).
Definition can_override (o : asset_object) : bool :=
  negb (Z.land (flags (options o)) override_authority_flag =? 0).

Section Evaluators.
Context `{SafeOps, U128Ops, TimeOps}.

(** ** Transfers *)
(** The two [adjust_balance] calls of every [do_apply] that moves an amount. *)
Definition move (src dst : Z) (a : asset) : M database unit :=
  neg ← lift (asset_neg a);
  _ ← adjust_balance src neg;
  adjust_balance dst a.

Definition transfer_evaluate (g : generic_evaluator) (op : transfer_operation) : M database unit :=
  now ← gets head_block_time;
  from_account ← get account_object (from op);
  to_account ← get account_object (to op);
  o ← get asset_object (asset_id (tr_amount op));
  _ ← require (is_authorized_asset now from_account (asset_id (tr_amount op)) o) "'from' account is not whitelisted";
  _ ← require (is_authorized_asset now to_account (asset_id (tr_amount op)) o) "'to' account is not whitelisted";
  _ ← when (is_transfer_restricted o)
        (require ((from op =? issuer o) || (to op =? issuer o)) "Asset has transfer_restricted flag enabled");
  bal ← gets (get_balance (from op) (asset_id (tr_amount op)));
  require (amount (tr_amount op) <=? amount bal) "Insufficient Balance".
Definition transfer_apply (g : generic_evaluator) (_ : unit) (_ : Z) (op : transfer_operation) : M database unit :=
  move (from op) (to op) (tr_amount op).
#[export] Instance transfer_evaluator : Evaluator transfer_operation unit unit := {
  fee_payer := from;
  op_fee := tr_fee;
  validate := transfer_validate;
  do_evaluate := transfer_evaluate;
  pay_fee := default_pay_fee;
  do_apply := transfer_apply;
}.

Definition override_transfer_evaluate (g : generic_evaluator) (op : override_transfer_operation)
  : M database unit :=
  now ← gets head_block_time;
  o ← get asset_object (asset_id (ov_amount op));
  _ ← require (can_override o) "override_transfer not permitted for asset";
  _ ← require (issuer o =? ov_issuer op) "asset_type.issuer == op.issuer";
  from_account ← get account_object (ov_from op);
  to_account ← get account_object (ov_to op);
  _ ← require (is_authorized_asset now to_account (asset_id (ov_amount op)) o) "is_authorized_asset( d, to_account, asset_type )";
  _ ← require (is_authorized_asset now from_account (asset_id (ov_amount op)) o) "is_authorized_asset( d, from_account, asset_type )";
  _ ← when (now <=? HARDFORK_419_TIME)
        (require (is_authorized_asset now from_account (asset_id (ov_amount op)) o) "is_authorized_asset( d, from_account, asset_type )");
  bal ← gets (get_balance (ov_from op) (asset_id (ov_amount op)));
  require (amount (ov_amount op) <=? amount bal) "balance >= amount".
Definition override_transfer_apply (g : generic_evaluator) (_ : unit) (_ : Z)
    (op : override_transfer_operation) : M database unit :=
  move (ov_from op) (ov_to op) (ov_amount op).
#[export] Instance override_transfer_evaluator : Evaluator override_transfer_operation unit unit := {
  fee_payer := ov_issuer;
  op_fee := ov_fee;
  validate := override_transfer_validate;
  do_evaluate := override_transfer_evaluate;
  pay_fee := default_pay_fee;
  do_apply := override_transfer_apply;
}.

(** ** Vesting balances *)
Definition vesting_create_evaluate (g : generic_evaluator) (op : vesting_balance_create_operation)
  : M database unit :=
  _ ← get account_object (creator op);
  _ ← get account_object (vc_owner op);
  _ ← require (0 <? amount (vc_amount op)) "op.amount.amount > 0";
  bal ← gets (get_balance (creator op) (asset_id (vc_amount op)));
  enough ← lift (asset_ge bal (vc_amount op));
  _ ← require enough "d.get_balance( creator_account.id, op.amount.asset_id ) >= op.amount";
  o ← get asset_object (asset_id (vc_amount op));
  require (negb (is_transfer_restricted o)) "!op.amount.asset_id(d).is_transfer_restricted()".
(** [init_policy_visitor]. *)
Definition init_policy (init_balance now : Z) (i : vesting_policy_initializer) : vesting_policy :=
  match i with
  | linear_vesting_policy_initializer b cliff duration =>
      linear_policy (mk_linear b cliff duration init_balance)
  | cdd_vesting_policy_initializer start seconds => cdd_policy (mk_cdd seconds 0 start now)
  end.
Definition vesting_create_apply (g : generic_evaluator) (_ : unit) (_ : Z)
    (op : vesting_balance_create_operation) : M database Z :=
  now ← gets head_block_time;
  bal ← gets (get_balance (creator op) (asset_id (vc_amount op)));
  enough ← lift (asset_ge bal (vc_amount op));
  _ ← require enough "d.get_balance( op.creator, op.amount.asset_id ) >= op.amount";
  neg ← lift (asset_neg (vc_amount op));
  _ ← adjust_balance (creator op) neg;
  create (mk_vbo (vc_owner op) (vc_amount op) (init_policy (amount (vc_amount op)) now (vc_policy op))).
#[export] Instance vesting_create_evaluator : Evaluator vesting_balance_create_operation unit Z := {
  fee_payer := creator;
  op_fee := vc_fee;
  validate := vesting_balance_create_validate;
  do_evaluate := vesting_create_evaluate;
  pay_fee := default_pay_fee;
  do_apply := vesting_create_apply;
}.

Definition vesting_withdraw_evaluate (g : generic_evaluator) (op : vesting_balance_withdraw_operation)
  : M database unit :=
  now ← gets head_block_time;
  vbo ← get vesting_balance_object (vesting_balance op);
  _ ← require (vw_owner op =? vb_owner vbo) "op.owner == vbo.owner";
  allowed ← lift (is_withdraw_allowed vbo now (vw_amount op));
  _ ← require allowed "vbo.is_withdraw_allowed( now, op.amount )";
  _ ← get account_object (vw_owner op);
  mret tt.
Definition vesting_withdraw_apply (g : generic_evaluator) (_ : unit) (_ : Z)
    (op : vesting_balance_withdraw_operation) : M database unit :=
  now ← gets head_block_time;
  _ ← get vesting_balance_object (vesting_balance op);
  _ ← modify (vesting_balance op) (fun vbo => withdraw vbo now (vw_amount op));
  adjust_balance (vw_owner op) (vw_amount op).
#[export] Instance vesting_withdraw_evaluator : Evaluator vesting_balance_withdraw_operation unit unit := {
  fee_payer := vw_owner;
  op_fee := vw_fee;
  validate := vesting_balance_withdraw_validate;
  do_evaluate := vesting_withdraw_evaluate;
  pay_fee := default_pay_fee;
  do_apply := vesting_withdraw_apply;
}.

(** ** Withdrawal permissions *)
(** [withdraw_permission_object::available_this_period]. *)
Definition available_this_period (p : withdraw_permission_object) (now : Z) : result asset :=
  if time_add (period_start_time p) (withdrawal_period_sec p) <=? now then Ok (withdrawal_limit p)
  else if claimed_this_period p <? amount (withdrawal_limit p) then
    n ← safe_sub (amount (withdrawal_limit p)) (claimed_this_period p);
    Ok (mk_asset n (asset_id (withdrawal_limit p)))
  else Ok (mk_asset 0 (asset_id (withdrawal_limit p))).
(** [start + periods * period_sec], the product being of [uint32_t]. *)
Definition permit_end (start periods period_sec : Z) : Z := time_add start (wrap 32 (periods * period_sec)).
Definition exists_object (A : Type) `{Object A} (id : Z) (msg : string) : M database unit :=
  o ← find A id; require (match o with Some _ => true | None => false end) msg.

Definition permission_create_evaluate (g : generic_evaluator) (op : withdraw_permission_create_operation)
  : M database unit :=
  _ ← exists_object account_object (pc_from op) "d.find_object(op.withdraw_from_account)";
  _ ← exists_object account_object (pc_authorized op) "d.find_object(op.authorized_account)";
  _ ← exists_object asset_object (asset_id (pc_limit op)) "d.find_object(op.withdrawal_limit.asset_id)";
  now ← gets head_block_time;
  _ ← require (now <? pc_start op) "op.period_start_time > d.head_block_time()";
  _ ← require (now <? permit_end (pc_start op) (pc_periods op) (pc_period_sec op)) "expiration > d.head_block_time()";
  interval ← gets (fun s => block_interval (parameters (gpo s)));
  require (interval <=? pc_period_sec op) "op.withdrawal_period_sec >= block_interval".
Definition permission_create_apply (g : generic_evaluator) (_ : unit) (_ : Z)
    (op : withdraw_permission_create_operation) : M database Z :=
  create (mk_permit (pc_from op) (pc_authorized op) (pc_limit op) (pc_period_sec op) (pc_start op)
            (permit_end (pc_start op) (pc_periods op) (pc_period_sec op)) 0).
#[export] Instance permission_create_evaluator
  : Evaluator withdraw_permission_create_operation unit Z := {
  fee_payer := pc_from;
  op_fee := pc_fee;
  validate := permission_create_validate;
  do_evaluate := permission_create_evaluate;
  pay_fee := default_pay_fee;
  do_apply := permission_create_apply;
}.

(** The accounts whose authorization for the asset is checked are named as in
    the code. *)
Definition permission_claim_evaluate (g : generic_evaluator) (op : withdraw_permission_claim_operation)
  : M database unit :=
  now ← gets head_block_time;
  permit ← get withdraw_permission_object (withdraw_permission op);
  _ ← require (now <? permit_expiration permit) "permit.expiration > head_block_time";
  _ ← require (authorized_account permit =? cl_to op) "permit.authorized_account == op.withdraw_to_account";
  _ ← require (withdraw_from_account permit =? cl_from op) "permit.withdraw_from_account == op.withdraw_from_account";
  _ ← when (HARDFORK_23_TIME <=? now)
        (require (period_start_time permit <=? now) "permit.period_start_time <= head_block_time");
  available ← lift (available_this_period permit now);
  allowed ← lift (asset_le (amount_to_withdraw op) available);
  _ ← require allowed "op.amount_to_withdraw <= permit.available_this_period( head_block_time )";
  bal ← gets (get_balance (cl_from op) (asset_id (amount_to_withdraw op)));
  enough ← lift (asset_ge bal (amount_to_withdraw op));
  _ ← require enough "balance >= op.amount_to_withdraw";
  o ← get asset_object (asset_id (amount_to_withdraw op));
  _ ← when (is_transfer_restricted o)
        (require ((issuer o =? authorized_account permit) || (issuer o =? withdraw_from_account permit)) "transfer restricted");
  from ← get account_object (cl_to op);
  to ← get account_object (authorized_account permit);
  _ ← require (is_authorized_asset now to (asset_id (amount_to_withdraw op)) o) "is_authorized_asset( d, to, _asset )";
  require (is_authorized_asset now from (asset_id (amount_to_withdraw op)) o) "is_authorized_asset( d, from, _asset )".
Definition claim (now n : Z) (p : withdraw_permission_object) : result withdraw_permission_object :=
  let periods := Z.quot (now - period_start_time p) (withdrawal_period_sec p) in
  let start := time_add (period_start_time p) (wrap 32 (periods * withdrawal_period_sec p)) in
  claimed ← (if periods =? 0 then safe_add (claimed_this_period p) n else Ok n);
  Ok (mk_permit (withdraw_from_account p) (authorized_account p) (withdrawal_limit p)
        (withdrawal_period_sec p) start (permit_expiration p) claimed).
Definition permission_claim_apply (g : generic_evaluator) (_ : unit) (_ : Z)
    (op : withdraw_permission_claim_operation) : M database unit :=
  _ ← get withdraw_permission_object (withdraw_permission op);
  now ← gets head_block_time;
  _ ← modify (withdraw_permission op) (claim now (amount (amount_to_withdraw op)));
  move (cl_from op) (cl_to op) (amount_to_withdraw op).
#[export] Instance permission_claim_evaluator
  : Evaluator withdraw_permission_claim_operation unit unit := {
  fee_payer := cl_to;
  op_fee := cl_fee;
  validate := permission_claim_validate;
  do_evaluate := permission_claim_evaluate;
  pay_fee := default_pay_fee;
  do_apply := permission_claim_apply;
}.

Definition permission_update_evaluate (g : generic_evaluator) (op : withdraw_permission_update_operation)
  : M database unit :=
  permit ← get withdraw_permission_object (permission_to_update op);
  _ ← require (authorized_account permit =? pu_authorized op) "permit.authorized_account == op.authorized_account";
  _ ← require (withdraw_from_account permit =? pu_from op) "permit.withdraw_from_account == op.withdraw_from_account";
  _ ← exists_object asset_object (asset_id (pu_limit op)) "d.find_object(op.withdrawal_limit.asset_id)";
  now ← gets head_block_time;
  _ ← require (now <=? pu_start op) "op.period_start_time >= d.head_block_time()";
  _ ← require (now <? permit_end (pu_start op) (pu_periods op) (pu_period_sec op)) "expiration > d.head_block_time()";
  interval ← gets (fun s => block_interval (parameters (gpo s)));
  require (interval <=? pu_period_sec op) "op.withdrawal_period_sec >= block_interval".
Definition update_permit (op : withdraw_permission_update_operation) (p : withdraw_permission_object)
  : withdraw_permission_object :=
  mk_permit (withdraw_from_account p) (authorized_account p) (pu_limit op) (pu_period_sec op) (pu_start op)
    (permit_end (pu_start op) (pu_periods op) (pu_period_sec op)) (claimed_this_period p).
Definition permission_update_apply (g : generic_evaluator) (_ : unit) (_ : Z)
    (op : withdraw_permission_update_operation) : M database unit :=
  _ ← get withdraw_permission_object (permission_to_update op);
  modify (permission_to_update op) (fun p => Ok (update_permit op p)).
#[export] Instance permission_update_evaluator
  : Evaluator withdraw_permission_update_operation unit unit := {
  fee_payer := pu_from;
  op_fee := pu_fee;
  validate := permission_update_validate;
  do_evaluate := permission_update_evaluate;
  pay_fee := default_pay_fee;
  do_apply := permission_update_apply;
}.

Definition permission_delete_evaluate (g : generic_evaluator) (op : withdraw_permission_delete_operation)
  : M database unit :=
  permit ← get withdraw_permission_object (withdrawal_permission op);
  _ ← require (authorized_account permit =? pd_authorized op) "permit.authorized_account == op.authorized_account";
  require (withdraw_from_account permit =? pd_from op) "permit.withdraw_from_account == op.withdraw_from_account".
Definition permission_delete_apply (g : generic_evaluator) (_ : unit) (_ : Z)
    (op : withdraw_permission_delete_operation) : M database unit :=
  _ ← get withdraw_permission_object (withdrawal_permission op);
  remove withdraw_permission_object (withdrawal_permission op).
#[export] Instance permission_delete_evaluator
  : Evaluator withdraw_permission_delete_operation unit unit := {
  fee_payer := pd_from;
  op_fee := pd_fee;
  validate := permission_delete_validate;
  do_evaluate := permission_delete_evaluate;
  pay_fee := default_pay_fee;
  do_apply := permission_delete_apply;
}.
End Evaluators.
End Transfers.
