(* ===== verification/TransferLaws.v ===== *)
(** * Transfers and withdrawals: laws and properties *)
From Stdlib Require Import ZArith Lia String.
From stdpp Require Import base gmap sets list strings.
From S2P Require Import Prelude External Asset Vesting Chain Balance Accounting Market MarketSupply Evaluator MarketEvaluator MarketLaws Transfers Scenario.

Module TransferLaws.
Import Asset Vesting Chain Balance Accounting Market MarketSupply Evaluator MarketEvaluator MarketLaws Transfers Scenario.

Section Laws.
Context `{SafeLaws, U128Laws, TimeLaws}.

Lemma exists_object_pure `{Object A} id msg s u s' : exists_object A id msg s = Ok (u, s') -> s' = s.
Proof. unfold exists_object. intros E. op_ok. done. Qed.
Ltac pure_run :=
  repeat first
    [ progress pure_ok
    | match goal with Hx : exists_object _ _ _ _ = Ok _ |- _ => apply exists_object_pure in Hx as -> end ].

(** An evaluator that pays the default fee and whose [do_apply] keeps the
    supply satisfies the laws. *)
Lemma default_laws {Op E R} `{!Evaluator Op E R} (typed : Op -> Prop) :
  pay_fee (Op := Op) = default_pay_fee ->
  (forall g (op : Op) s (e : E) s', do_evaluate g op s = Ok (e, s') -> s' = s) ->
  (forall g (op : Op) (e : E) d s0 s (r : R) s',
     validate op = Ok tt -> typed op -> do_evaluate g op s0 = Ok (e, s0) ->
     assets s = assets s0 /\ call_orders s = call_orders s0 -> bitasset_data s = bitasset_data s0 -> chain_wf s ->
     do_apply g e d op s = Ok (r, s') -> conserves (fun _ => 0) s s') ->
  EvaluatorLaws Op E R typed.
Proof.
  intros Hpay Hpure Happ. split; [done|]. intros trx g op e s0 m d s1 r s' s Hsk Hw Hc Hv Ht He Hp Ha.
  rewrite Hpay in Hp. apply default_pay_fee_step in Hp as [[m' E1] S1]; [|done].
  assert (S2 : conserves (fun _ => 0) s1 s').
  { eapply (Happ g op e d s0); try done; [split; by rewrite E1|by rewrite E1|]. exact (step_wf _ _ _ S1 Hw). }
  apply step_conserves in S1. eapply conserves_ext; [|eapply conserves_trans; [exact S1|exact S2]].
  intros y. cbv beta. lia.
Qed.

Ltac use_default_laws :=
  match goal with |- EvaluatorLaws ?Op ?E ?R ?t =>
    refine (default_laws (Op := Op) (E := E) (R := R) t eq_refl _ _) end.

Lemma move_step src dst a s u s' : move src dst a s = Ok (u, s') -> step (fun _ => 0) s s'.
Proof.
  unfold move. intros E. op_ok. match goal with Hn : asset_neg _ = Ok _ |- _ => apply asset_neg_Ok in Hn as -> end.
  eapply step_ext; [|compose_steps]. intros y. cbv beta. weigh.
Qed.

#[export] Instance transfer_laws : EvaluatorLaws transfer_operation unit unit (fun op => int64_amount (tr_fee op)).
Proof.
  use_default_laws.
  - cbn. unfold transfer_evaluate. intros g op s e s' E. by pure_run.
  - intros g op e d s0 s r s' _ _ _ _ _ _ E. apply step_conserves. eapply move_step. exact E.
Qed.
#[export] Instance override_transfer_laws
  : EvaluatorLaws override_transfer_operation unit unit (fun op => int64_amount (ov_fee op)).
Proof.
  use_default_laws.
  - cbn. unfold override_transfer_evaluate. intros g op s e s' E. by pure_run.
  - intros g op e d s0 s r s' _ _ _ _ _ _ E. apply step_conserves. eapply move_step. exact E.
Qed.
#[export] Instance vesting_create_laws
  : EvaluatorLaws vesting_balance_create_operation unit Z (fun op => int64_amount (vc_fee op)).
Proof.
  use_default_laws.
  - cbn. unfold vesting_create_evaluate. intros g op s e s' E. by pure_run.
  - cbn. unfold vesting_create_apply. intros g op e d s0 s r s' _ _ _ _ _ _ E. apply step_conserves. op_ok.
    match goal with Hn : asset_neg _ = Ok _ |- _ => apply asset_neg_Ok in Hn as -> end.
    eapply step_ext; [|compose_steps]. intros y. cbv beta. weigh.
Qed.
#[export] Instance vesting_withdraw_laws
  : EvaluatorLaws vesting_balance_withdraw_operation unit unit (fun op => int64_amount (vw_fee op)).
Proof.
  use_default_laws.
  - cbn. unfold vesting_withdraw_evaluate. intros g op s e s' E. by pure_run.
  - cbn. unfold vesting_withdraw_apply. intros g op e d s0 s r s' _ _ _ _ _ _ E. apply step_conserves. op_ok.
    unfold withdraw in Fn. run_ok1. run_ok1. subst o'.
    match goal with Hs : asset_sub _ _ = Ok _ |- _ => apply asset_sub_Ok in Hs as [Hid ->] end.
    eapply step_ext; [|compose_steps]. intros y. cbv beta. weigh.
Qed.
#[export] Instance permission_create_laws
  : EvaluatorLaws withdraw_permission_create_operation unit Z (fun op => int64_amount (pc_fee op)).
Proof.
  use_default_laws.
  - cbn. unfold permission_create_evaluate. intros g op s e s' E. by pure_run.
  - cbn. unfold permission_create_apply. intros g op e d s0 s r s' _ _ _ _ _ _ E. apply step_conserves. by op_ok.
Qed.
#[export] Instance permission_claim_laws
  : EvaluatorLaws withdraw_permission_claim_operation unit unit (fun op => int64_amount (cl_fee op)).
Proof.
  use_default_laws.
  - cbn. unfold permission_claim_evaluate. intros g op s e s' E. by pure_run.
  - cbn. unfold permission_claim_apply. intros g op e d s0 s r s' _ _ _ _ _ _ E. apply step_conserves. op_ok.
    match goal with Hm : move _ _ _ _ = Ok _ |- _ => apply move_step in Hm end.
    eapply step_ext; [|compose_steps]. intros y. cbv beta. weigh.
Qed.
#[export] Instance permission_update_laws
  : EvaluatorLaws withdraw_permission_update_operation unit unit (fun op => int64_amount (pu_fee op)).
Proof.
  use_default_laws.
  - cbn. unfold permission_update_evaluate. intros g op s e s' E. by pure_run.
  - cbn. unfold permission_update_apply. intros g op e d s0 s r s' _ _ _ _ _ _ E. apply step_conserves. op_ok.
    eapply step_ext; [|compose_steps]. intros y. cbv beta. weigh.
Qed.
#[export] Instance permission_delete_laws
  : EvaluatorLaws withdraw_permission_delete_operation unit unit (fun op => int64_amount (pd_fee op)).
Proof.
  use_default_laws.
  - cbn. unfold permission_delete_evaluate. intros g op s e s' E. by pure_run.
  - cbn. unfold permission_delete_apply. intros g op e d s0 s r s' _ _ _ _ _ _ E. apply step_conserves. op_ok.
    eapply step_ext; [|compose_steps]. intros y. cbv beta. weigh.
Qed.
End Laws.
End TransferLaws.
