(* ===== verification/Permits.v ===== *)
(** * Recurring payments: what withdrawal permissions promise

    [withdraw_permission_object.hpp]: any number of withdrawals may be made so
    long as the total withdrawn in a period does not exceed the limit.  [claims]
    collects the claims of one permission over any history of the chain in
    which the permission is neither updated nor deleted. *)
From Stdlib Require Import ZArith Lia String.
From stdpp Require Import base gmap sets list strings.
From S2P Require Import Prelude External Asset Vesting Authority Float Chain Balance Accounting Market MarketSupply Evaluator MarketEvaluator MarketLaws Transfers TransferLaws Scenario.

Module Permits.
Import Asset Vesting Authority Float Chain Balance Accounting Market MarketSupply Evaluator MarketEvaluator MarketLaws Transfers TransferLaws Scenario.

(** The amounts of a history of claims (time, amount) that fall into the
    [k]-th period after [start]. *)
Definition in_period (start period k t : Z) : bool := (t - start) / period =? k.
Fixpoint withdrawn_in (start period k : Z) (l : list (Z * Z)) : Z :=
  match l with
  | [] => 0
  | (t, n) :: l' => (if in_period start period k t then n else 0) + withdrawn_in start period k l'
  end.

Lemma withdrawn_in_snoc start period k l t n :
  withdrawn_in start period k (l ++ [(t, n)])
  = withdrawn_in start period k l + (if in_period start period k t then n else 0).
Proof. induction l as [|[t' n'] l IH]; cbn; [lia|]. rewrite IH. lia. Qed.

Section Claims.
Context `{SafeLaws, U128Laws, TimeLaws}.

(** A claim is evaluated in a state that holds the permission, and applied in
    one that holds the same permission at the same time (the fee has been paid
    in between). *)
Inductive claims (id : Z) (p0 : withdraw_permission_object)
  : list (Z * Z) -> withdraw_permission_object -> Prop :=
| no_claims : claims id p0 [] p0
| claim_more l p g d op s s1 u s2 p' :
    claims id p0 l p -> withdraw_permissions s !! id = Some p -> withdraw_permission op = id ->
    permission_claim_evaluate g op s = Ok (tt, s) ->
    withdraw_permissions s1 = withdraw_permissions s -> head_block_time s1 = head_block_time s ->
    permission_claim_apply g tt d op s1 = Ok (u, s2) -> withdraw_permissions s2 !! id = Some p' ->
    claims id p0 (l ++ [(head_block_time s, amount (amount_to_withdraw op))]) p'.

(** The times for which the 32-bit arithmetic of the permission is exact. *)
Definition claim_time_ok (p : withdraw_permission_object) (t : Z) : Prop :=
  HARDFORK_23_TIME <= t /\ t + withdrawal_period_sec p < 2 ^ 32.
Definition permit_typed (p : withdraw_permission_object) : Prop :=
  0 < withdrawal_period_sec p /\ 0 <= period_start_time p
  /\ period_start_time p + withdrawal_period_sec p < 2 ^ 32.

(** What a successful evaluation has checked. *)
Lemma claim_evaluate_Ok g op s u s' p :
  HARDFORK_23_TIME <= head_block_time s -> withdraw_permissions s !! withdraw_permission op = Some p ->
  permission_claim_evaluate g op s = Ok (u, s') ->
  period_start_time p <= head_block_time s < permit_expiration p
  /\ authorized_account p = cl_to op /\ withdraw_from_account p = cl_from op
  /\ exists a, available_this_period p (head_block_time s) = Ok a /\ asset_le (amount_to_withdraw op) a = Ok true.
Proof.
  intros Hhf Hp E. unfold permission_claim_evaluate in E.
  op_ok.
  match goal with L : table s !! withdraw_permission op = Some ?q |- _ =>
    assert (q = p) as -> by (cbn in L; congruence); clear L end.
  match goal with W : when (_ <=? _) _ _ = Ok _ |- _ =>
    apply when_Ok in W as [[_ W]|[W _]]; [apply require_Ok in W as [W ->]|lia] end.
  rewrite ?Z.ltb_lt, ?Z.leb_le, ?Z.eqb_eq in *. subst. split_and!; try done. eauto.
Qed.

Lemma move_frame src dst a s u s' :
  move src dst a s = Ok (u, s') -> exists m, s' = set_account_balances m s.
Proof. unfold move. intros E. op_ok. subst. by eexists. Qed.

Lemma claim_apply_Ok g e d op s u s' p p' :
  withdraw_permissions s !! withdraw_permission op = Some p ->
  permission_claim_apply g e d op s = Ok (u, s') -> withdraw_permissions s' !! withdraw_permission op = Some p' ->
  claim (head_block_time s) (amount (amount_to_withdraw op)) p = Ok p'.
Proof.
  intros Hp E Hp'. unfold permission_claim_apply in E. op_ok.
  match goal with Hm : move _ _ _ _ = Ok _ |- _ => apply move_frame in Hm as [m ->] end.
  subst. cbn in *. rewrite lookup_insert_eq in Hp'. congruence.
Qed.

(** The period a permission is in, and how a claim moves it there. *)
Lemma claim_Ok now n p p' :
  permit_typed p -> period_start_time p <= now -> now < 2 ^ 32 -> claim now n p = Ok p' ->
  exists j, 0 <= j /\ j = (now - period_start_time p) / withdrawal_period_sec p
    /\ period_start_time p' = period_start_time p + j * withdrawal_period_sec p
    /\ claimed_this_period p' = (if j =? 0 then claimed_this_period p + n else n)
    /\ withdrawal_limit p' = withdrawal_limit p /\ withdrawal_period_sec p' = withdrawal_period_sec p.
Proof.
  intros (Hper & Hs & Hb) Hnow Hmax. unfold claim. rewrite Z.quot_div_nonneg by lia.
  set (j := (now - period_start_time p) / withdrawal_period_sec p).
  assert (Hj : 0 <= j /\ j * withdrawal_period_sec p <= now - period_start_time p).
  { unfold j. pose proof (Z.mul_div_le (now - period_start_time p) (withdrawal_period_sec p) Hper).
    split; [apply Z.div_pos; lia|lia]. }
  rewrite wrap_id by nia. rewrite time_add_spec by nia. intros E. repeat run_ok1.
  exists j. subst p'. cbn. split_and!; try done; try lia.
  destruct (j =? 0); [by apply safe_add_spec in Hrun as [-> _]|congruence].
Qed.

Lemma available_Ok now p a :
  permit_typed p -> available_this_period p now = Ok a ->
  asset_id a = asset_id (withdrawal_limit p)
  /\ (if period_start_time p + withdrawal_period_sec p <=? now then amount a = amount (withdrawal_limit p)
      else amount a = Z.max 0 (amount (withdrawal_limit p) - claimed_this_period p)).
Proof.
  intros (Hper & Hs & Hb). unfold available_this_period. rewrite time_add_spec by lia.
  destruct (_ <=? now); [intros [= <-]; done|].
  destruct (Z.ltb_spec (claimed_this_period p) (amount (withdrawal_limit p))); intros E; repeat run_ok1.
  - subst. apply safe_sub_spec in Hrun as [-> _]. split; [done|]. cbn. lia.
  - subst. split; [done|]. cbn. lia.
Qed.

(** The permission after a history: the current period, and what was withdrawn
    in it and in the others. *)
Record after_claims (p0 p : withdraw_permission_object) (l : list (Z * Z)) (j : Z) : Prop := {
  ac_typed : permit_typed p;
  ac_limit : withdrawal_limit p = withdrawal_limit p0;
  ac_period : withdrawal_period_sec p = withdrawal_period_sec p0;
  ac_start : period_start_time p = period_start_time p0 + j * withdrawal_period_sec p0;
  ac_claimed : withdrawn_in (period_start_time p0) (withdrawal_period_sec p0) j l <= claimed_this_period p;
  ac_bounded k : withdrawn_in (period_start_time p0) (withdrawal_period_sec p0) k l <= amount (withdrawal_limit p0);
  ac_later k : j < k -> withdrawn_in (period_start_time p0) (withdrawal_period_sec p0) k l = 0;
}.

Lemma claim_after p0 p p' l j now n a :
  permit_typed p0 -> 0 <= amount (withdrawal_limit p0) -> claim_time_ok p0 now -> after_claims p0 p l j ->
  period_start_time p <= now -> available_this_period p now = Ok a -> n <= amount a ->
  claim now n p = Ok p' -> exists j', after_claims p0 p' (l ++ [(now, n)]) j'.
Proof.
  intros (Hpos & Hs0 & _) Hlim [Hhf Hmax] [Hty Hl Hper Hst Hcm Hb Hlater] Hs Ha Hle Hc.
  destruct (available_Ok _ _ _ Hty Ha) as [_ Hav].
  assert (Hlt : now < 2 ^ 32) by lia.
  destruct (claim_Ok _ _ _ _ Hty Hs Hlt Hc) as (i & Hi & Ei & Est & Ecl & El & Ep).
  rewrite Hper in *.
  assert (Hk : forall k, in_period (period_start_time p0) (withdrawal_period_sec p0) k now = (j + i =? k)).
  { intros k. unfold in_period. f_equal. subst i.
    replace (now - period_start_time p0) with ((now - period_start_time p) + j * withdrawal_period_sec p0) by lia.
    rewrite Z.div_add by lia. lia. }
  assert (Hdiv := Z.mul_div_le (now - period_start_time p) (withdrawal_period_sec p0) Hpos).
  assert (Hmod := Z.mul_succ_div_gt (now - period_start_time p) (withdrawal_period_sec p0) Hpos).
  rewrite <- Ei in Hdiv, Hmod.
  assert (Hi0 : (period_start_time p + withdrawal_period_sec p0 <=? now) = negb (i =? 0)).
  { destruct (Z.eqb_spec i 0); cbn; [apply Z.leb_gt|apply Z.leb_le]; nia. }
  rewrite Hi0 in Hav. exists (j + i). split; try congruence.
  - destruct Hty as (_ & ? & _). unfold permit_typed. rewrite Ep, Est. split_and!; nia.
  - lia.
  - rewrite withdrawn_in_snoc, Hk, Z.eqb_refl, Ecl. destruct (Z.eqb_spec i 0) as [Ez|Ez].
    + rewrite Ez, Z.add_0_r. lia.
    + rewrite Hlater by lia. lia.
  - intros k. rewrite withdrawn_in_snoc, Hk. destruct (Z.eqb_spec (j + i) k) as [<-|]; [|rewrite Z.add_0_r; apply Hb].
    specialize (Hb (j + i)). destruct (Z.eqb_spec i 0) as [Ez|Ez]; cbn in Hav.
    + rewrite Ez, Z.add_0_r in *. rewrite Hl in Hav. lia.
    + rewrite Hlater by lia. rewrite Hl in Hav. lia.
  - intros k Hj. rewrite withdrawn_in_snoc, Hk. destruct (Z.eqb_spec (j + i) k); [lia|]. rewrite Hlater; lia.
Qed.

Lemma claims_after id p0 p l :
  permit_typed p0 -> 0 <= amount (withdrawal_limit p0) -> 0 <= claimed_this_period p0 ->
  (forall t n, (t, n) ∈ l -> claim_time_ok p0 t) -> claims id p0 l p -> exists j, after_claims p0 p l j.
Proof.
  intros Ht Hlim Hcl Htimes Hc. induction Hc as [|l p g d op s s1 u s2 p' Hc IH Hp Hid Hev Hw1 Ht1 Hap Hp'].
  - exists 0. split; intros; cbn; try done; lia.
  - destruct IH as [j IH]; [intros t n Hin; apply (Htimes t n); set_solver|]. subst id.
    assert (Hok := Htimes (head_block_time s) (amount (amount_to_withdraw op)) ltac:(set_solver)).
    destruct (claim_evaluate_Ok _ _ _ _ _ _ (proj1 Hok) Hp Hev) as ((Hs1 & _) & _ & _ & a & Ha & Hle).
    apply asset_le_Ok in Hle as [_ Hle]. symmetry in Hle. apply Z.leb_le in Hle.
    rewrite <- Hw1 in Hp. assert (Hcl' := claim_apply_Ok _ _ _ _ _ _ _ _ _ Hp Hap Hp'). rewrite Ht1 in Hcl'.
    by eapply claim_after.
Qed.

(** C33: recurring payments stay within their limit: over any history of claims
    of a permission that is not updated in between, the amounts withdrawn in
    any one period never add up to more than the limit, whenever the claims
    are made and whatever else happens on the chain between them. *)
Theorem claims_within_limit (id : Z) (p0 p : withdraw_permission_object) (l : list (Z * Z)) (k : Z) :
  permit_typed p0 -> 0 <= amount (withdrawal_limit p0) -> 0 <= claimed_this_period p0 ->
  (forall t n, (t, n) ∈ l -> claim_time_ok p0 t) -> claims id p0 l p ->
  withdrawn_in (period_start_time p0) (withdrawal_period_sec p0) k l <= amount (withdrawal_limit p0).
Proof.
  intros Ht Hlim Hcl Htimes Hc. destruct (claims_after _ _ _ _ Ht Hlim Hcl Htimes Hc) as [j IH].
  apply (ac_bounded _ _ _ _ IH).
Qed.
End Claims.

(** ** Concrete claims *)
Section Examples.
Import Ref.

(** Bob may withdraw 100 dollars a day from alice. *)
Definition permit : withdraw_permission_object :=
  mk_permit alice bob (usd 100) 86400 1599990000 1700000000 0.
Definition permit_state (now : Z) (p : withdraw_permission_object) : database :=
  set_dgp (mk_dgp 100 null_block_id now 1 1600080000 500000 0 100 0 0 90 1599990000 0) (set_withdraw_permissions {[5 := p]} start).
Definition claim_op (n : Z) : withdraw_permission_claim_operation := mk_permit_claim (core 0) 5 alice bob (usd n).
Definition no_fee : generic_evaluator := mk_evaluator (core 0) 0 bob core_asset (mk_trx_state false false false).
Definition claimed (n : Z) : withdraw_permission_object :=
  mk_permit alice bob (usd 100) 86400 1599990000 1700000000 n.
Lemma one_claim l now m n :
  let s := permit_state now (claimed m) in
  let r := permission_claim_apply no_fee tt 0 (claim_op n) in
  claims 5 permit l (claimed m) -> permission_claim_evaluate no_fee (claim_op n) s = Ok (tt, s) ->
  returned (r s) = Some tt -> withdraw_permissions (after r s) !! 5 = Some (claimed (m + n)) ->
  claims 5 permit (l ++ [(now, n)]) (claimed (m + n)).
Proof.
  intros s r Hc He Hr Hp. apply after_Ok in Hr.
  exact (claim_more 5 permit l (claimed m) no_fee 0 (claim_op n) s s tt (after r s) _ Hc eq_refl eq_refl He eq_refl eq_refl Hr Hp).
Qed.

(** Sixty and forty dollars withdrawn on one day use the limit up. *)
Lemma claims_within_limit_witness :
  withdrawn_in 1599990000 86400 0 [(1600000000, 60); (1600000005, 40)] <= 100
  /\ available_this_period (claimed 100) 1600000010 = Ok (usd 0)
  /\ is_ok (permission_claim_evaluate no_fee (claim_op 1) (permit_state 1600000010 (claimed 100))) = false
  /\ is_ok (permission_claim_evaluate no_fee (claim_op 100) (permit_state 1600076400 (claimed 100))) = true.
Proof.
  split; [|by vm_compute].
  apply (claims_within_limit 5 permit (claimed 100) [(1600000000, 60); (1600000005, 40)] 0); [|vm_compute; discriminate..| |].
  - vm_compute. split_and!; congruence.
  - intros t n. rewrite !elem_of_cons, elem_of_nil.
    intros [[= -> ->]|[[= -> ->]|[]]]; vm_compute; split; congruence.
  - apply (one_claim [(1600000000, 60)] 1600000005 60 40); [|vm_compute; reflexivity..].
    apply (one_claim [] 1600000000 0 60); [exact (no_claims 5 permit)|vm_compute; reflexivity..].
Defined.

(** Alice may only hold core. *)
Definition core_only : account_object :=
  mk_account 0 alice alice alice 2000 3000 5000 alice ∅ ∅ None (Some {[core_asset]}) null_authority null_authority
    "" (float_of (double_of_Z 1)) alice 0 self_voting no_special_authority no_special_authority 0 ∅ ∅
    no_personal no_bank no_additional.
Definition restricted_state : database :=
  set_accounts (<[alice := core_only]> (accounts start)) (permit_state 1600000000 permit).

(** The claim of a permission checks the asset authorization of the receiver
    twice and that of the paying account never: dollars are withdrawn from an
    account that is not authorized for them, while the same amount cannot be
    transferred from it. *)
Theorem claim_ignores_source_authorization :
  match accounts restricted_state !! alice, assets restricted_state !! USD with
  | Some a, Some o => is_authorized_asset 1600000000 a USD o = false
  | _, _ => False
  end
  /\ transfer_evaluate no_fee (mk_transfer (core 0) alice bob (usd 60)) restricted_state
     = Throw ("'from' account is not whitelisted"%string, restricted_state)
  /\ permission_claim_evaluate no_fee (claim_op 60) restricted_state = Ok (tt, restricted_state)
  /\ get_balance alice USD
       (after (permission_claim_apply no_fee tt 0 (claim_op 60)) restricted_state) = usd 440.
Proof. vm_compute. done. Qed.
End Examples.
End Permits.
