(* ===== verification/AssetOps.v ===== *)
(** * The operations on assets and their validation ([asset_ops.hpp],
    [asset_ops.cpp])

    The checks an operation can make without the state of the chain. *)
From Stdlib Require Import ZArith Lia String Ascii.
From stdpp Require Import base gmap sets list strings.
From S2P Require Import Prelude External Asset Vesting Chain Balance Market Transfers.

Module AssetOps.
Import Asset Vesting Chain Balance Market Transfers.

(** ** [asset_issuer_permission_flags] *)
Definition charge_market_fee : Z := 0x01.
Definition white_list : Z := 0x02.
Definition override_authority : Z := 0x04.
Definition transfer_restricted : Z := 0x08.
Definition disable_force_settle : Z := 0x10.
Definition global_settle : Z := 0x20.
Definition disable_confidential : Z := 0x40.
Definition witness_fed_asset : Z := 0x80.
Definition committee_fed_asset : Z := 0x100.
Definition ASSET_ISSUER_PERMISSION_MASK : Z := 0x1ff.
(** [bits & flag], as a condition. *)
Definition has_flag (bits flag : Z) : bool := negb (Z.land bits flag =? 0).

Definition can_force_settle (o : asset_object) : bool := negb (has_flag (flags (options o)) disable_force_settle).
Definition can_global_settle (o : asset_object) : bool := has_flag (issuer_permissions (options o)) global_settle.

(** ** Symbols *)
Definition GRAPHENE_MIN_ASSET_SYMBOL_LENGTH : nat := 3.
Definition GRAPHENE_MAX_ASSET_SYMBOL_LENGTH : nat := 16.
(** [<cctype>] in the "C" locale. *)
Definition in_range (lo hi : ascii) (c : ascii) : bool :=
  (N.leb (N_of_ascii lo) (N_of_ascii c)) && (N.leb (N_of_ascii c) (N_of_ascii hi)).
Definition isupper : ascii -> bool := in_range "A" "Z".
Definition islower : ascii -> bool := in_range "a" "z".
Definition isalpha (c : ascii) : bool := isupper c || islower c.
Definition isdigit : ascii -> bool := in_range "0" "9".

(** The loop over the characters; [None] is a [return false] inside it. *)
Fixpoint symbol_chars (dot_already_present : bool) (l : list ascii) : bool :=
  match l with
  | [] => true
  | c :: l' =>
      if (isalpha c && isupper c) || isdigit c then symbol_chars dot_already_present l'
      else if Ascii.eqb c dot then if dot_already_present then false else symbol_chars true l'
      else false
  end.
Definition is_valid_symbol (symbol : string) : bool :=
  let l := list_ascii_of_string symbol in
  if (length l <? GRAPHENE_MIN_ASSET_SYMBOL_LENGTH)%nat then false
  else if String.eqb (String.substring 0 3 symbol) "BIT" then false
  else if (GRAPHENE_MAX_ASSET_SYMBOL_LENGTH <? length l)%nat then false
  else if negb (isalpha (List.hd Ascii.zero l)) then false
  else if negb (isalpha (List.last l Ascii.zero)) then false
  else symbol_chars false l.

(** ** Validation *)
Section Validate.
Context `{SafeOps, U128Ops, RationalOps}.

Definition disjoint_from (l r : gset Z) : result unit :=
  fc_assert (forallb (fun i => negb (bool_decide (i ∈ r))) (elements l)) "market whitelisted and blacklisted".
Definition asset_options_validate (o : asset_options) : result unit :=
  _ ← fc_assert (0 <? max_supply o) "max_supply > 0";
  _ ← fc_assert (max_supply o <=? GRAPHENE_MAX_SHARE_SUPPLY) "max_supply <= GRAPHENE_MAX_SHARE_SUPPLY";
  _ ← fc_assert (market_fee_percent o <=? GRAPHENE_100_PERCENT) "market_fee_percent <= GRAPHENE_100_PERCENT";
  _ ← fc_assert ((0 <=? max_market_fee o) && (max_market_fee o <=? GRAPHENE_MAX_SHARE_SUPPLY)) "max_market_fee";
  _ ← fc_assert (Z.ldiff (issuer_permissions o) ASSET_ISSUER_PERMISSION_MASK =? 0) "unknown permissions";
  _ ← fc_assert (negb (has_flag (flags o) global_settle)) "!(flags & global_settle)";
  _ ← fc_assert (negb (Z.land (flags o) (Z.lor witness_fed_asset committee_fed_asset)
                       =? Z.lor witness_fed_asset committee_fed_asset)) "witness_fed and committee_fed";
  _ ← price_validate (options_core_exchange_rate o);
  _ ← fc_assert ((asset_id (base (options_core_exchange_rate o)) =? 0)
                 || (asset_id (quote (options_core_exchange_rate o)) =? 0)) "core_exchange_rate";
  _ ← (if bool_decide (whitelist_authorities o = ∅) && bool_decide (blacklist_authorities o = ∅) then Ok tt
       else fc_assert (has_flag (flags o) white_list) "flags & white_list");
  _ ← disjoint_from (whitelist_markets o) (blacklist_markets o);
  disjoint_from (blacklist_markets o) (whitelist_markets o).
Definition bitasset_options_validate (o : bitasset_options) : result unit :=
  _ ← fc_assert (0 <? minimum_feeds o) "minimum_feeds > 0";
  _ ← fc_assert (force_settlement_offset_percent o <=? GRAPHENE_100_PERCENT) "force_settlement_offset_percent";
  fc_assert (maximum_force_settlement_volume o <=? GRAPHENE_100_PERCENT) "maximum_force_settlement_volume".

Definition asset_create_validate (op : asset_create_operation) : result unit :=
  let perms := issuer_permissions (common_options op) in
  let bit := match ac_bitasset_opts op with Some _ => true | None => false end in
  _ ← fee_ok (ac_fee op);
  _ ← fc_assert (is_valid_symbol (ac_symbol op)) "is_valid_symbol(symbol)";
  _ ← asset_options_validate (common_options op);
  _ ← (if has_flag perms (Z.lor disable_force_settle global_settle) then fc_assert bit "bitasset_opts.valid()" else Ok tt);
  _ ← (if ac_prediction_market op then
         _ ← fc_assert bit "Cannot have a User-Issued Asset implement a prediction market.";
         fc_assert (has_flag perms global_settle) "common_options.issuer_permissions & global_settle"
       else Ok tt);
  _ ← match ac_bitasset_opts op with Some b => bitasset_options_validate b | None => Ok tt end;
  dummy ← asset_mul (mk_asset 1 core_asset) (options_core_exchange_rate (common_options op));
  _ ← fc_assert (asset_id dummy =? 1) "dummy.asset_id == asset_id_type(1)";
  fc_assert (ac_precision op <=? 12) "precision <= 12".
Definition asset_update_validate (op : asset_update_operation) : result unit :=
  _ ← fee_ok (au_fee op);
  _ ← match new_issuer op with
      | Some n => fc_assert (negb (au_issuer op =? n)) "issuer != *new_issuer"
      | None => Ok tt
      end;
  _ ← asset_options_validate (new_options op);
  dummy ← asset_mul (mk_asset 1 (asset_to_update op)) (options_core_exchange_rate (new_options op));
  fc_assert (asset_id dummy =? core_asset) "dummy.asset_id == asset_id_type()".
Definition asset_publish_feed_validate (op : asset_publish_feed_operation) : result unit :=
  let f := feed op in
  _ ← fee_ok (pf_fee op);
  _ ← feed_validate f;
  _ ← (if is_null (core_exchange_rate f) then Ok tt else price_validate (core_exchange_rate f));
  _ ← (if negb (is_null (settlement_price f)) && negb (is_null (core_exchange_rate f))
       then fc_assert (asset_id (base (settlement_price f)) =? asset_id (base (core_exchange_rate f)))
              "settlement_price.base.asset_id == core_exchange_rate.base.asset_id"
       else Ok tt);
  _ ← fc_assert (negb (is_null (settlement_price f))) "!feed.settlement_price.is_null()";
  _ ← fc_assert (negb (is_null (core_exchange_rate f))) "!feed.core_exchange_rate.is_null()";
  fc_assert (is_for f (pf_asset op)) "feed.is_for( asset_id )".
Definition asset_reserve_validate (op : asset_reserve_operation) : result unit :=
  _ ← fee_ok (ar_fee op);
  _ ← fc_assert (amount (amount_to_reserve op) <=? GRAPHENE_MAX_SHARE_SUPPLY) "amount_to_reserve";
  fc_assert (0 <? amount (amount_to_reserve op)) "amount_to_reserve.amount.value > 0".
Definition asset_issue_validate (op : asset_issue_operation) : result unit :=
  _ ← fee_ok (ai_fee op);
  _ ← fc_assert (amount (asset_to_issue op) <=? GRAPHENE_MAX_SHARE_SUPPLY) "asset_to_issue";
  _ ← fc_assert (0 <? amount (asset_to_issue op)) "asset_to_issue.amount.value > 0";
  fc_assert (negb (asset_id (asset_to_issue op) =? 0)) "asset_to_issue.asset_id != asset_id_type(0)".
Definition asset_fund_fee_pool_validate (op : asset_fund_fee_pool_operation) : result unit :=
  _ ← fee_ok (fp_fee op);
  _ ← fc_assert (asset_id (fp_fee op) =? core_asset) "fee.asset_id == asset_id_type()";
  fc_assert (0 <? fp_amount op) "amount > 0".
Definition asset_settle_validate (op : asset_settle_operation) : result unit :=
  _ ← fee_ok (as_fee op); fc_assert (0 <=? amount (as_amount op)) "amount.amount >= 0".
Definition asset_update_bitasset_validate (op : asset_update_bitasset_operation) : result unit :=
  _ ← fee_ok (ub_fee op); bitasset_options_validate (ub_options op).
Definition asset_update_feed_producers_validate (op : asset_update_feed_producers_operation) : result unit :=
  fee_ok (uf_fee op).
Definition asset_global_settle_validate (op : asset_global_settle_operation) : result unit :=
  _ ← fee_ok (gs_fee op);
  fc_assert (asset_to_settle op =? asset_id (base (settle_price op))) "asset_to_settle == settle_price.base.asset_id".
Definition asset_claim_fees_validate (op : asset_claim_fees_operation) : result unit :=
  _ ← fee_ok (cf_fee op); fc_assert (0 <? amount (amount_to_claim op)) "amount_to_claim.amount > 0".
End Validate.

(** ** What the validation of a symbol accepts *)
Definition upper_or_digit (c : ascii) : Prop := isupper c = true \/ isdigit c = true.
Lemma symbol_chars_spec b l :
  symbol_chars b l = true <->
  (forall c, c ∈ l -> upper_or_digit c \/ c = dot)
  /\ (count (fun c => Ascii.eqb c dot) l <= if b then 0 else 1)%nat.
Proof.
  revert b. induction l as [|c l IH]; intros b; cbn [symbol_chars].
  - split; [|done]. intros _. split; [by intros c ?%not_elem_of_nil|]. cbn. lia.
  - rewrite count_cons.
    assert (Hu : (isalpha c && isupper c) || isdigit c = true <-> upper_or_digit c).
    { unfold upper_or_digit, isalpha. destruct (isupper c), (islower c), (isdigit c); cbn; naive_solver. }
    destruct (_ || _) eqn:Ec.
    + assert (Hd : Ascii.eqb c dot = false).
      { apply Ascii.eqb_neq. intros ->. by vm_compute in Ec. }
      rewrite Hd, IH. apply proj1 in Hu. specialize (Hu eq_refl). cbn. set_solver.
    + destruct (Ascii.eqb_spec c dot) as [->|Hne].
      * destruct b; [split; [done|lia]|]. rewrite IH. cbn. split.
        -- intros [Hl Hc]. split; [set_solver|lia].
        -- intros [Hl Hc]. split; [set_solver|lia].
      * split; [done|]. intros [Hl _]. destruct (Hl c) as [Hup|]; [by left| |done].
        by apply Hu in Hup.
Qed.
End AssetOps.
