(* ===== verification/AccountOps.v ===== *)
(** * Accounts: names, votes and what their operations must satisfy
    ([protocol/account.cpp], [protocol/vote.hpp], [protocol/vote.cpp],
    [special_authority.cpp])

    The checks an operation on an account can make without the state of the
    chain, and the identifiers of what an account can vote for. *)
From Stdlib Require Import ZArith Lia String Ascii.
From stdpp Require Import base gmap sets list strings.
From S2P Require Import Prelude External Asset Vesting Authority Chain Balance Transfers AssetOps.

Module AccountOps.
Import Asset Vesting Authority Chain Balance Transfers AssetOps.

#[export] Instance authority_eq_dec : EqDecision authority.
Proof. solve_decision. Defined.

(** ** [vote_id_type]: the type in the lower 8 bits, the instance in the upper 24 *)
Definition committee_vote : Z := 0.
Definition witness_vote : Z := 1.
Definition worker_vote : Z := 2.
Definition vote_id (type instance : Z) : Z := Z.lor (wrap 32 (Z.shiftl instance 8)) type.
Definition vote_type (id : Z) : Z := Z.land id 0xff.
Definition vote_instance (id : Z) : Z := Z.shiftr id 8.
Definition get_next_vote_id (type : Z) (p : global_property_object) : Z * global_property_object :=
  (vote_id type (next_available_vote_id p), with_next_available_vote_id (wrap 32 (next_available_vote_id p + 1)) p).

(** ** Names *)
Definition GRAPHENE_MIN_ACCOUNT_NAME_LENGTH : nat := 1.
Definition GRAPHENE_MAX_ACCOUNT_NAME_LENGTH : nat := 63.
(** The labels between the dots. *)
Fixpoint name_labels (l : list ascii) : list ascii * list (list ascii) :=
  match l with
  | [] => ([], [])
  | c :: l' =>
      let (label, labels) := name_labels l' in
      if Ascii.eqb c dot then ([], label :: labels) else (c :: label, labels)
  end.
Definition let_dig (c : ascii) : bool := islower c || isdigit c.
Definition let_dig_hyp (c : ascii) : bool := let_dig c || Ascii.eqb c "-".
(** The body of the loop of [is_valid_name]: the first character, the last one
    and those between. *)
Definition valid_label (l : list ascii) : bool :=
  match l with
  | [] => false
  | c :: l' => islower c && let_dig (List.last l c) && forallb let_dig_hyp (removelast l')
  end.
Definition is_valid_name (name : string) : bool :=
  let l := list_ascii_of_string name in
  if (length l <? GRAPHENE_MIN_ACCOUNT_NAME_LENGTH)%nat then false
  else if (GRAPHENE_MAX_ACCOUNT_NAME_LENGTH <? length l)%nat then false
  else let (label, labels) := name_labels l in forallb valid_label (label :: labels).

Definition vowel (c : ascii) : bool :=
  match c with
  | "a"%char | "e"%char | "i"%char | "o"%char | "u"%char | "y"%char => true
  | _ => false
  end.
Fixpoint cheap_chars (v : bool) (l : list ascii) : bool :=
  match l with
  | [] => negb v
  | c :: l' =>
      if isdigit c then true
      else if Ascii.eqb c dot || Ascii.eqb c "-" || Ascii.eqb c "/" then true
      else cheap_chars (v || vowel c) l'
  end.
Definition is_cheap_name (n : string) : bool := cheap_chars false (list_ascii_of_string n).

(** ** Validation *)
(** The loop of [account_options::validate]: the witnesses and members still needed. *)
Fixpoint votes_needed (needed_witnesses needed_committee : Z) (l : list Z) : Z * Z :=
  match l with
  | [] => (needed_witnesses, needed_committee)
  | id :: l' =>
      if (vote_type id =? witness_vote) && negb (needed_witnesses =? 0)
      then votes_needed (needed_witnesses - 1) needed_committee l'
      else if (vote_type id =? committee_vote) && negb (needed_committee =? 0)
      then votes_needed needed_witnesses (needed_committee - 1) l'
      else votes_needed needed_witnesses needed_committee l'
  end.
Definition account_options_validate (o : account_options) : result unit :=
  let (w, c) := votes_needed (num_witness o) (num_committee o) (account_votes o) in
  fc_assert ((w =? 0) && (c =? 0)) "May not specify fewer witnesses or committee members than the number voted for.".
Definition validate_special_authority (a : special_authority) : result unit :=
  match a with
  | no_special_authority => Ok tt
  | top_holders_special_authority _ num_top_holders => fc_assert (0 <? num_top_holders) "a.num_top_holders > 0"
  end.
(** What is done when an optional field is set. *)
Definition if_some {A} (o : option A) (f : A -> result unit) : result unit :=
  match o with Some x => f x | None => Ok tt end.
Definition is_some {A} (o : option A) : bool := match o with Some _ => true | None => false end.

Definition authority_shape (a : authority) : result unit :=
  _ ← fc_assert (negb (num_auths a =? 0)) "num_auths() != 0";
  fc_assert (length (address_auths a) =? 0)%nat "address_auths.size() == 0".
Definition account_create_validate (op : account_create_operation) : result unit :=
  _ ← fee_ok (na_fee op);
  _ ← fc_assert (is_valid_name (na_name op)) "is_valid_name( name )";
  _ ← fc_assert (na_referrer_percent op <=? GRAPHENE_100_PERCENT) "referrer_percent <= GRAPHENE_100_PERCENT";
  _ ← authority_shape (na_owner op);
  _ ← authority_shape (na_active op);
  _ ← fc_assert (negb (is_impossible (na_owner op))) "cannot create an account with an imposible owner authority threshold";
  _ ← fc_assert (negb (is_impossible (na_active op))) "cannot create an account with an imposible active authority threshold";
  _ ← account_options_validate (na_options op);
  _ ← if_some (na_owner_special_authority op) validate_special_authority;
  _ ← if_some (na_active_special_authority op) validate_special_authority;
  if_some (na_buyback_options op) (fun b =>
    _ ← fc_assert (negb (is_some (na_owner_special_authority op))) "!owner_special_authority";
    _ ← fc_assert (negb (is_some (na_active_special_authority op))) "!active_special_authority";
    _ ← fc_assert (bool_decide (na_owner op = null_authority)) "owner == authority::null_authority()";
    _ ← fc_assert (bool_decide (na_active op = null_authority)) "active == authority::null_authority()";
    _ ← fc_assert (0 <? Z.of_nat (size (markets b))) "n_markets > 0";
    fc_assert (bool_decide (asset_to_buy b ∉ markets b)) "m != asset_to_buy").
Definition update_authority_validate (what : string) (a : authority) : result unit :=
  _ ← authority_shape a; fc_assert (negb (is_impossible a)) what.
Definition account_update_validate (op : account_update_operation) : result unit :=
  _ ← fc_assert (negb (nu_account op =? Balance.GRAPHENE_TEMP_ACCOUNT)) "account != GRAPHENE_TEMP_ACCOUNT";
  _ ← fee_ok (nu_fee op);
  _ ← fc_assert (negb (nu_account op =? 0)) "account != account_id_type()";
  _ ← fc_assert (is_some (nu_owner op) || is_some (nu_active op) || is_some (nu_new_options op)
                 || is_some (nu_owner_special_authority op) || is_some (nu_active_special_authority op)) "has_action";
  _ ← if_some (nu_owner op)
        (update_authority_validate "cannot update an account with an imposible owner authority threshold");
  _ ← if_some (nu_active op)
        (update_authority_validate "cannot update an account with an imposible active authority threshold");
  _ ← if_some (nu_new_options op) account_options_validate;
  _ ← if_some (nu_owner_special_authority op) validate_special_authority;
  if_some (nu_active_special_authority op) validate_special_authority.
Definition account_whitelist_validate (op : account_whitelist_operation) : result unit :=
  _ ← fee_ok (nw_fee op); fc_assert (new_listing op <? 0x4) "new_listing < 0x4".
Definition account_upgrade_validate (op : account_upgrade_operation) : result unit := fee_ok (ng_fee op).

(** ** The grammar of names ([protocol/account.cpp])

    [<subdomain> ::= <label> ( "." <label> )*], a label being a letter alone, or one
    followed by letters, digits and hyphens and ending with a letter or a digit;
    all letters are lowercase. *)
Inductive label : list ascii -> Prop :=
| label_letter c : islower c = true -> label [c]
| label_more c l d :
    islower c = true -> Forall (fun x => let_dig_hyp x = true) l -> let_dig d = true -> label (c :: l ++ [d]).
Inductive domain : list ascii -> Prop :=
| domain_label l : label l -> domain l
| domain_dot l d : label l -> domain d -> domain (l ++ dot :: d).

Lemma islower_let_dig c : islower c = true -> let_dig c = true.
Proof. unfold let_dig. by intros ->. Qed.
Lemma label_cons_inv c l : label (c :: l) -> islower c = true /\ (l = [] \/ exists m d, l = m ++ [d] /\ Forall (fun x => let_dig_hyp x = true) m /\ let_dig d = true).
Proof. inversion 1; subst; eauto 10. Qed.
Lemma valid_label_label l : valid_label l = true <-> label l.
Proof.
  destruct l as [|c l]; [split; [done|by inversion 1]|]. unfold valid_label. rewrite !andb_true_iff, forallb_forall.
  assert (Hin : forall m, (forall x, In x m -> let_dig_hyp x = true) <-> Forall (fun x => let_dig_hyp x = true) m)
    by (intros m; rewrite Forall_forall; by setoid_rewrite list_elem_of_In).
  rewrite Hin. split.
  - destruct l as [|d l _] using rev_ind; [intros [[Hc _] _]; by constructor|].
    change (c :: l ++ [d]) with ((c :: l) ++ [d]) at 1. rewrite List.last_last, removelast_last.
    intros [[Hc Hd] Hl]. by constructor.
  - intros [Hc [->|(m & d & -> & Hm & Hd)]]%label_cons_inv.
    + cbn. split_and!; [done|by apply islower_let_dig|by constructor].
    + change (c :: m ++ [d]) with ((c :: m) ++ [d]). rewrite List.last_last, removelast_last. done.
Qed.
Lemma label_no_dot l : label l -> dot ∉ l.
Proof.
  intros Hl Hin. destruct Hl as [c Hc|c l d Hc Hl Hd].
  - apply list_elem_of_singleton in Hin as <-. discriminate.
  - rewrite elem_of_cons, elem_of_app, list_elem_of_singleton in Hin. rewrite Forall_forall in Hl.
    destruct Hin as [<-|[Hin%Hl|<-]]; discriminate.
Qed.
(** The labels of a name are those its dots separate. *)
Lemma name_labels_nodot l : dot ∉ l -> name_labels l = (l, []).
Proof.
  induction l as [|c l IH]; cbn; [done|]. intros Hn%not_elem_of_cons. rewrite IH by by apply Hn.
  destruct (Ascii.eqb_spec c dot) as [->|]; [|done]. by destruct Hn.
Qed.
Lemma name_labels_dot l d : dot ∉ l -> name_labels (l ++ dot :: d) = (l, (name_labels d).1 :: (name_labels d).2).
Proof.
  induction l as [|c l IH]; cbn; intros Hn; [by destruct (name_labels d)|].
  apply not_elem_of_cons in Hn as [Hc Hn]. rewrite IH by done. by destruct (Ascii.eqb_spec c dot) as [->|].
Qed.
Lemma name_labels_inv l w ws :
  name_labels l = (w, ws) ->
  dot ∉ w /\ match ws with [] => l = w | v :: vs => exists d, l = w ++ dot :: d /\ name_labels d = (v, vs) end.
Proof.
  revert w ws. induction l as [|c l IH]; cbn; intros w ws; [intros [= <- <-]; by split; [apply not_elem_of_nil|]|].
  destruct (name_labels l) as [w' ws'] eqn:E. destruct (IH _ _ eq_refl) as [Hn Hl].
  destruct (Ascii.eqb_spec c dot) as [->|Hc]; intros [= <- <-].
  - split; [apply not_elem_of_nil|]. by exists l.
  - split; [by apply not_elem_of_cons|]. destruct ws' as [|v vs]; [by subst|]. destruct Hl as (d & -> & Hd). by exists d.
Qed.
Lemma labels_domain l : forallb valid_label ((name_labels l).1 :: (name_labels l).2) = true <-> domain l.
Proof.
  split.
  - destruct (name_labels l) as [w ws] eqn:E. revert l w E. induction ws as [|v vs IH]; intros l w [_ Hl]%name_labels_inv; cbn.
    + subst. rewrite andb_true_r. intros Hw. constructor. by apply valid_label_label.
    + destruct Hl as (d & -> & Hd). intros [Hw Hv]%andb_true_iff. constructor; [by apply valid_label_label|]. by eapply IH.
  - induction 1 as [l Hl|l d Hl Hd IH].
    + rewrite name_labels_nodot by by apply label_no_dot. cbn. rewrite andb_true_r. by apply valid_label_label.
    + rewrite name_labels_dot by by apply label_no_dot. cbn [fst snd]. cbn [forallb] in *. apply andb_true_iff. split; [|done].
      by apply valid_label_label.
Qed.

(** C36: the names the code takes for valid: those of one to 63 characters that are
    labels separated by dots, each label a lowercase letter, or one followed by
    lowercase letters, digits and hyphens of which the last is no hyphen.  A label
    has at least GRAPHENE_MIN_ACCOUNT_NAME_LENGTH characters, which is one: the
    code does not ask for the three of the sentence in its comment, nor accept
    the name of a blank that the comment's grammar has. *)
Theorem valid_name_grammar (name : string) :
  is_valid_name name = true <->
  (1 <= String.length name <= 63)%nat /\ domain (list_ascii_of_string name).
Proof.
  unfold is_valid_name, GRAPHENE_MIN_ACCOUNT_NAME_LENGTH, GRAPHENE_MAX_ACCOUNT_NAME_LENGTH.
  assert (El : length (list_ascii_of_string name) = String.length name) by (induction name; cbn; congruence).
  rewrite El, <- labels_domain. destruct (Nat.ltb_spec (String.length name) 1); [split; [done|lia]|].
  destruct (Nat.ltb_spec 63 (String.length name)); [split; [done|lia]|].
  destruct (name_labels _) as [w ws]. cbn [fst snd]. split; [|by intros []]. intros ?. split; [lia|done].
Qed.

(** ** Facts *)
(** Identifiers of votes keep their type and instance. *)
Lemma vote_id_fields type instance :
  0 <= type < 2 ^ 8 -> 0 <= instance < 2 ^ 24 ->
  vote_type (vote_id type instance) = type /\ vote_instance (vote_id type instance) = instance.
Proof.
  intros Ht Hi. assert (E : vote_id type instance = instance * 2 ^ 8 + type).
  { unfold vote_id. rewrite wrap_id by (rewrite Z.shiftl_mul_pow2 by lia; lia). by apply lor_shiftl; [lia|]. }
  rewrite E. unfold vote_type, vote_instance. change 0xff with (Z.ones 8).
  rewrite Z.land_ones, Z.shiftr_div_pow2 by lia. split.
  - rewrite Z.add_comm, Z.mod_add by lia. by apply Z.mod_small.
  - rewrite Z.div_add_l by lia. rewrite Z.div_small by lia. lia.
Qed.
End AccountOps.
