(* ===== verification/AccountEvaluator.v ===== *)
(** * The evaluators of the operations on accounts ([account_evaluator.cpp],
    [special_authority.cpp], [buyback.cpp])

    Creating, updating, listing and upgrading accounts, as instances of
    [Evaluator]. *)
From Stdlib Require Import ZArith Lia String.
From stdpp Require Import base gmap sets list strings.
From S2P Require Import Prelude External Asset Vesting Authority Float Chain Balance Accounting Market Evaluator MarketEvaluator Transfers AssetOps AccountOps.

Module AccountEvaluator.
Import Asset Vesting Authority Float Chain Balance Accounting Market Evaluator MarketEvaluator Transfers AssetOps AccountOps.

(** The further unique indexes of the classes. *)
#[export] Instance account_unique : UniqueKey account_object := fun a b => String.eqb (account_name a) (account_name b).
#[export] Instance statistics_unique : UniqueKey account_statistics_object := fun _ _ => false.
#[export] Instance karma_history_unique : UniqueKey account_history_of_karma_object := fun _ _ => false.
#[export] Instance special_authority_unique : UniqueKey special_authority_object := fun a b => special_account a =? special_account b.
#[export] Instance buyback_unique : UniqueKey buyback_object := fun a b => bought_asset a =? bought_asset b.

Definition time_point_sec_maximum : Z := 2 ^ 32 - 1.
Definition days (n : Z) : Z := n * 86400.
Definition KARMA_BONUS_FOR_ACCOUNT_CREATE : float32 := float_of (decimal 1 0).
Definition GRAPHENE_DEFAULT_MAX_BUYBACK_MARKETS : Z := 4.
Definition undefined_modulo : string := "undefined: modulo by zero".
Definition undefined_shift : string := "undefined: shift by the width of the type".

(** ** Membership ([account_object.hpp]) *)
Definition is_lifetime_member (a : account_object) : bool := membership_expiration_date a =? time_point_sec_maximum.
Definition is_annual_member (a : account_object) (now : Z) : bool := negb (is_lifetime_member a) && negb (is_basic_account a now).
Definition is_member (a : account_object) (now : Z) : bool := negb (is_basic_account a now).
Definition special (x : special_authority) : bool := match x with no_special_authority => false | _ => true end.
Definition has_special_authority (a : account_object) : bool :=
  special (owner_special_authority a) || special (active_special_authority a).

Section Checks.
(** ** What a new or updated account refers to *)
Definition verify_authority_accounts (a : authority) : M database unit :=
  s ← get_state;
  _ ← require (num_auths a <=? maximum_authority_membership (parameters (gpo s))) "Maximum authority membership exceeded";
  for_each (account_auths a) (fun acnt =>
    require (is_some (accounts s !! acnt.1)) "Account specified in authority does not exist").
(** [find] in the indexes by vote, which order identifiers by their instance. *)
Definition same_vote (x y : Z) : bool := vote_instance x =? vote_instance y.
Definition votable {A} (vote : A -> Z) (m : gmap Z A) (id : Z) : bool :=
  existsb (fun kx => same_vote (vote kx.2) id) (map_to_list m).
Definition votable_by_type (s : database) (id : Z) : result unit :=
  if vote_type id =? committee_vote then fc_assert (votable committee_vote_id (committee_members s) id) "committee_idx.find(id)"
  else if vote_type id =? witness_vote then fc_assert (votable witness_vote_id (witnesses s) id) "witness_idx.find(id)"
  else if vote_type id =? worker_vote then fc_assert (votable vote_for (workers s) id) "approve_worker_idx.find( id )"
  else Throw "Invalid Vote Type".
Definition verify_account_votes (options : account_options) : M database unit :=
  s ← get_state;
  let chain_params := parameters (gpo s) in
  _ ← require (num_witness options <=? maximum_witness_count chain_params) "Voted for more witnesses than currently allowed";
  _ ← require (num_committee options <=? maximum_committee_count chain_params) "Voted for more committee members than currently allowed";
  let max_vote_id := next_available_vote_id (gpo s) in
  _ ← for_each (account_votes options) (fun id => require (vote_instance id <? max_vote_id) "id < max_vote_id");
  let has_worker_votes := existsb (fun id => vote_type id =? worker_vote) (account_votes options) in
  _ ← when (has_worker_votes && (HARDFORK_607_TIME <=? head_block_time s))
        (for_each (account_votes options) (fun id =>
           when (vote_type id =? worker_vote)
             (require (negb (votable vote_against (workers s) id)) "against_worker_idx.find( id )")));
  when (HARDFORK_CORE_143_TIME <=? head_block_time s)
    (for_each (account_votes options) (fun id => lift (votable_by_type s id))).
Definition evaluate_special_authority (a : special_authority) : M database unit :=
  match a with
  | no_special_authority => mret tt
  | top_holders_special_authority asset _ => _ ← get asset_object asset; mret tt
  end.
Definition evaluate_buyback_account_options (bbo : buyback_account_options) : M database unit :=
  now ← gets head_block_time;
  _ ← require (HARDFORK_538_TIME <=? now) "head_block_time >= HARDFORK_538_TIME";
  a ← get asset_object (asset_to_buy bbo);
  _ ← require (issuer a =? asset_to_buy_issuer bbo) "Incorrect asset issuer specified in buyback_account_options";
  _ ← require (negb (is_some (buyback_account a))) "Cannot create buyback for asset which already has buyback";
  require (Z.of_nat (size (markets bbo)) <? GRAPHENE_DEFAULT_MAX_BUYBACK_MARKETS) "Too many buyback markets".
Definition on_some {A} (o : option A) (f : A -> M database unit) : M database unit :=
  match o with Some x => f x | None => mret tt end.
(** The extensions that the hard forks brought. *)
Definition special_authorities_allowed (null_ext : bool) (owner active : option special_authority) (now : Z) : M database unit :=
  _ ← when (now <? HARDFORK_516_TIME) (require (negb (is_some owner) && negb (is_some active)) "special authorities before HARDFORK_516_TIME");
  when (now <? HARDFORK_599_TIME)
    (require (negb null_ext && negb (is_some owner) && negb (is_some active)) "extensions before HARDFORK_599_TIME").
End Checks.

Section Evaluators.
Context `{SafeOps, U128Ops, TimeOps}.

(** ** [account_create_evaluator] *)
Definition account_create_evaluate (g : generic_evaluator) (op : account_create_operation) : M database unit :=
  now ← gets head_block_time;
  _ ← special_authorities_allowed (na_null_ext op) (na_owner_special_authority op) (na_active_special_authority op) now;
  _ ← when (now <? HARDFORK_599_TIME) (require (negb (is_some (na_buyback_options op))) "buyback_options before HARDFORK_599_TIME");
  _ ← (if now <? HARDFORK_CORE_KARMA_2_TIME
       then require (negb (is_some (na_credit_referrer op))) "Operation has an extension which requires hardfork HARDFORK_KARMA_CORE_2."
       else require (is_some (na_credit_referrer op)) "credit_referrer");
  proxy ← find account_object (voting_account (na_options op));
  _ ← require (is_some proxy) "Invalid proxy account specified.";
  payer ← deref account_object (fee_paying_account g);
  _ ← require (is_lifetime_member payer) "Only Lifetime members may register an account.";
  ref ← get account_object (na_referrer op);
  _ ← require (is_member ref now) "The referrer must be either a lifetime or annual subscriber.";
  _ ← verify_authority_accounts (na_owner op);
  _ ← verify_authority_accounts (na_active op);
  _ ← on_some (na_owner_special_authority op) evaluate_special_authority;
  _ ← on_some (na_active_special_authority op) evaluate_special_authority;
  _ ← on_some (na_buyback_options op) evaluate_buyback_account_options;
  _ ← verify_account_votes (na_options op);
  s ← get_state;
  when (negb (String.eqb (na_name op) ""))
    (require (negb (existsb (fun kx => String.eqb (account_name kx.2) (na_name op)) (map_to_list (accounts s)))) "current_account_itr").

(** The percentage, as meant before a fork. *)
Definition new_referrer_percent (op : account_create_operation) (now : Z) : Z :=
  if (now <=? HARDFORK_453_TIME) && negb (na_referrer op =? na_registrar op)
     && negb (na_referrer_percent op =? 0) && (na_referrer_percent op <=? 0x100)
  then Z.min (wrap 16 (na_referrer_percent op * 100)) GRAPHENE_100_PERCENT
  else na_referrer_percent op.
Definition new_account (op : account_create_operation) (ref : account_object) (cr stats now : Z) (p : chain_parameters)
  : account_object :=
  mk_account 0 (na_registrar op) (na_referrer op) (lifetime_referrer ref)
    (network_percent_of_fee p) (lifetime_referrer_percent_of_fee p) (new_referrer_percent op now) stats ∅ ∅ None
    ((fun b => {[asset_to_buy b]} ∪ markets b) <$> na_buyback_options op)
    (na_owner op) (na_active op) (na_name op) (float_of (double_of_Z 1)) cr (time_add now (days 375)) (na_options op)
    (default no_special_authority (na_owner_special_authority op))
    (default no_special_authority (na_active_special_authority op)) 0 ∅ ∅
    (mk_personal "" "" "" "" "" "" "") (mk_bank "" "" "" "") (mk_additional "" "" "" "" "" "" "").
Definition update_dgp (f : dynamic_global_property_object -> dynamic_global_property_object) : M database unit :=
  update (fun s => set_dgp (f (dgp s)) s).
Definition update_gpo (f : global_property_object -> global_property_object) : M database unit :=
  update (fun s => set_gpo (f (gpo s)) s).
(** [current_fees->get<account_create_operation>().basic_fee <<= bits]. *)
Definition with_flat_fee (n : Z) (k : fee_parameters) : fee_parameters :=
  mk_fee_parameters n (price_per_kbyte k) (symbol3 k) (symbol4 k) (long_symbol k) (premium_fee k)
    (membership_annual_fee k) (membership_lifetime_fee k).
Definition account_create_tag : Z := 5.
Definition set_account_fee (f : fee_parameters -> result fee_parameters) (p : chain_parameters) : result chain_parameters :=
  k ← of_option (fee_table (current_fees p) !! account_create_tag) "itr != parameters.end()";
  k' ← f k;
  Ok (with_current_fees (mk_fee_schedule (<[account_create_tag := k']> (fee_table (current_fees p))) (scale (current_fees p))) p).
Definition shift_fee_left (bits : Z) (k : fee_parameters) : result fee_parameters :=
  if bits <? 64 then Ok (with_flat_fee (wrap 64 (Z.shiftl (flat_fee k) bits)) k) else Throw undefined_shift.
(** The fee for registering rises with the accounts of the interval. *)
Definition scale_account_fee : M database unit :=
  _ ← update_dgp (fun d => with_accounts_registered_this_interval (wrap 32 (accounts_registered_this_interval d + 1)) d);
  s ← get_state;
  let p := parameters (gpo s) in
  _ ← require (negb (accounts_per_fee_scale p =? 0)) undefined_modulo;
  when (accounts_registered_this_interval (dgp s) mod accounts_per_fee_scale p =? 0)
    (p' ← lift (set_account_fee (shift_fee_left (account_fee_scale_bitshifts p)) p);
     update_gpo (with_parameters p')).
Definition set_buyback_account (id : Z) (o : asset_object) : asset_object :=
  mk_asset_object (symbol o) (precision o) (issuer o) (options o) (dynamic_asset_data_id o) (bitasset_data_id o) (Some id).
Definition account_create_apply (g : generic_evaluator) (_ : unit) (_ : Z) (op : account_create_operation)
  : M database Z :=
  s ← get_state;
  let now := head_block_time s in
  let id := next_instance 2 s in
  ref ← get account_object (na_referrer op);
  cr ← (if HARDFORK_CORE_KARMA_2_TIME <=? now then lift (of_option (na_credit_referrer op) dangling) else mret (na_referrer op));
  stats ← create (mk_statistics 0 0 0 0);
  _ ← create (mk_karma_history id [mk_karma_entry now KARMA_BONUS_FOR_ACCOUNT_CREATE "Account created."]);
  new_acnt ← create (new_account op ref cr stats now (parameters (gpo s)));
  _ ← scale_account_fee;
  _ ← when (is_some (na_owner_special_authority op) || is_some (na_active_special_authority op))
        (_ ← create (mk_special_authority new_acnt); mret tt);
  _ ← on_some (na_buyback_options op) (fun b =>
        _ ← create (mk_buyback (asset_to_buy b));
        _ ← get asset_object (asset_to_buy b);
        modify (asset_to_buy b) (fun o => Ok (set_buyback_account new_acnt o)));
  mret new_acnt.
#[export] Instance account_create_evaluator : Evaluator account_create_operation unit Z := {
  fee_payer := na_registrar;
  op_fee := na_fee;
  validate := account_create_validate;
  do_evaluate := account_create_evaluate;
  pay_fee := default_pay_fee;
  do_apply := account_create_apply;
}.

(** ** [account_update_evaluator] *)
Definition account_update_evaluate (g : generic_evaluator) (op : account_update_operation) : M database unit :=
  now ← gets head_block_time;
  _ ← special_authorities_allowed (nu_null_ext op) (nu_owner_special_authority op) (nu_active_special_authority op) now;
  _ ← on_some (nu_owner op) verify_authority_accounts;
  _ ← on_some (nu_active op) verify_authority_accounts;
  _ ← on_some (nu_owner_special_authority op) evaluate_special_authority;
  _ ← on_some (nu_active_special_authority op) evaluate_special_authority;
  _ ← get account_object (nu_account op);
  on_some (nu_new_options op) verify_account_votes.
Definition update_personal (o : personal_info (option string)) (p : personal_info string) : personal_info string :=
  mk_personal (default (login p) (login o)) (default (email p) (email o)) (default (firstName p) (firstName o))
    (default (lastName p) (lastName o)) (default (facebook p) (facebook o)) (default (mobile p) (mobile o))
    (default (taxResidence p) (taxResidence o)).
Definition update_bank (o : bank_account (option string)) (p : bank_account string) : bank_account string :=
  mk_bank (default (bankName p) (bankName o)) (default (bankSwift p) (bankSwift o)) (default (bankAccount p) (bankAccount o))
    (default (bankBenificiary p) (bankBenificiary o)).
Definition update_additional (o : additional_info (option string)) (p : additional_info string) : additional_info string :=
  mk_additional (default (about p) (about o)) (default (companyName p) (companyName o))
    (default (companyActivity p) (companyActivity o)) (default (companyVat p) (companyVat o))
    (default (companyWebsite p) (companyWebsite o)) (default (companyYoutube p) (companyYoutube o))
    (default (companyPdf p) (companyPdf o)).
(** Setting an optional field. *)
Definition set_if {A B} (o : option A) (f : A -> B -> B) (b : B) : B := match o with Some x => f x b | None => b end.
Definition update_account (op : account_update_operation) (a : account_object) : account_object :=
  let a := with_ai (update_additional (nu_additional op) (ai a))
             (with_ba (update_bank (nu_bank op) (ba a)) (with_pi (update_personal (nu_personal op) (pi a)) a)) in
  let a := set_if (nu_owner op) (fun x a => with_top_n_control_flags 0 (with_owner_authority x a)) a in
  let a := set_if (nu_active op) (fun x a => with_top_n_control_flags 0 (with_active_authority x a)) a in
  let a := set_if (nu_new_options op) with_account_opts a in
  let a := set_if (nu_owner_special_authority op) (fun x a => with_top_n_control_flags 0 (with_owner_special_authority x a)) a in
  set_if (nu_active_special_authority op) (fun x a => with_top_n_control_flags 0 (with_active_special_authority x a)) a.
Definition find_special_authority (account : Z) (s : database) : iterator :=
  first_with (fun x => special_account x =? account) (map_to_list (special_authorities s)).
Definition account_update_apply (g : generic_evaluator) (_ : unit) (_ : Z) (op : account_update_operation)
  : M database unit :=
  a ← deref account_object (nu_account op);
  _ ← modify (nu_account op) (fun a => Ok (update_account op a));
  let sa_before := has_special_authority a in
  let sa_after := has_special_authority (update_account op a) in
  if sa_before && negb sa_after then
    sa_it ← gets (find_special_authority (nu_account op));
    id ← lift (of_option sa_it dangling);
    remove special_authority_object id
  else when (negb sa_before && sa_after) (_ ← create (mk_special_authority (nu_account op)); mret tt).
#[export] Instance account_update_evaluator : Evaluator account_update_operation unit unit := {
  fee_payer := nu_account;
  op_fee := nu_fee;
  validate := account_update_validate;
  do_evaluate := account_update_evaluate;
  pay_fee := default_pay_fee;
  do_apply := account_update_apply;
}.

(** ** [account_whitelist_evaluator] *)
Definition white_listed : Z := 1.
Definition black_listed : Z := 2.
Definition account_whitelist_evaluate (g : generic_evaluator) (op : account_whitelist_operation) : M database unit :=
  _ ← get account_object (account_to_list op);
  s ← get_state;
  when (negb (allow_non_member_whitelists (parameters (gpo s))))
    (a ← get account_object (authorizing_account op); require (is_lifetime_member a) "is_lifetime_member()").
Definition put (b : bool) (x : Z) (l : gset Z) : gset Z := if b then {[x]} ∪ l else l ∖ {[x]}.
Definition list_account (op : account_whitelist_operation) (a : account_object) : account_object :=
  with_blacklisting_accounts (put (has_flag (new_listing op) black_listed) (authorizing_account op) (blacklisting_accounts a))
    (with_whitelisting_accounts (put (has_flag (new_listing op) white_listed) (authorizing_account op) (whitelisting_accounts a)) a).
Definition track_listing (op : account_whitelist_operation) (a : account_object) : account_object :=
  with_blacklisted_accounts (put (has_flag (new_listing op) black_listed) (account_to_list op) (blacklisted_accounts a))
    (with_whitelisted_accounts (put (has_flag (new_listing op) white_listed) (account_to_list op) (whitelisted_accounts a)) a).
Definition account_whitelist_apply (g : generic_evaluator) (_ : unit) (_ : Z) (op : account_whitelist_operation)
  : M database unit :=
  _ ← modify (account_to_list op) (fun a => Ok (list_account op a));
  _ ← get account_object (authorizing_account op);
  modify (authorizing_account op) (fun a => Ok (track_listing op a)).
#[export] Instance account_whitelist_evaluator : Evaluator account_whitelist_operation unit unit := {
  fee_payer := authorizing_account;
  op_fee := nw_fee;
  validate := account_whitelist_validate;
  do_evaluate := account_whitelist_evaluate;
  pay_fee := default_pay_fee;
  do_apply := account_whitelist_apply;
}.

(** ** [account_upgrade_evaluator] *)
Definition account_upgrade_evaluate (g : generic_evaluator) (op : account_upgrade_operation) : M database unit :=
  a ← get account_object (account_to_upgrade op);
  require (negb (is_lifetime_member a)) "!account->is_lifetime_member()".
Definition make_lifetime_member (id : Z) (a : account_object) : account_object :=
  with_lifetime_referrer_fee_percentage (wrap 16 (GRAPHENE_100_PERCENT - network_fee_percentage a))
    (with_lifetime_referrer id (with_registrar id (with_referrer id
       (with_membership_expiration_date time_point_sec_maximum a)))).
(** The lambda works on the account in place, while the fees of the account are
    paid out. *)
Definition account_upgrade_apply (g : generic_evaluator) (_ : unit) (_ : Z) (op : account_upgrade_operation)
  : M database unit :=
  let id := account_to_upgrade op in
  a ← deref account_object id;
  now ← gets head_block_time;
  if upgrade_to_lifetime_member op then
    _ ← get account_statistics_object (statistics a);
    _ ← process_fees (statistics a) id;
    modify id (fun a => Ok (make_lifetime_member id a))
  else if is_annual_member a now then
    _ ← require (now <=? HARDFORK_613_TIME) "head_block_time <= HARDFORK_613_TIME";
    _ ← require (membership_expiration_date a - now <? days 3650) "May not extend annual membership more than a decade into the future.";
    modify id (fun a => Ok (with_membership_expiration_date (time_add (membership_expiration_date a) (days 365)) a))
  else
    _ ← require (now <=? HARDFORK_613_TIME) "head_block_time <= HARDFORK_613_TIME";
    _ ← get account_statistics_object (statistics a);
    _ ← process_fees (statistics a) id;
    modify id (fun a => Ok (with_membership_expiration_date (time_add now (days 365)) (with_referrer id a))).
#[export] Instance account_upgrade_evaluator : Evaluator account_upgrade_operation unit unit := {
  fee_payer := account_to_upgrade;
  op_fee := ng_fee;
  validate := account_upgrade_validate;
  do_evaluate := account_upgrade_evaluate;
  pay_fee := default_pay_fee;
  do_apply := account_upgrade_apply;
}.
End Evaluators.
End AccountEvaluator.
