(* ===== verification/MemberEvaluator.v ===== *)
(** * Witnesses, committee members, workers, custom operations and genesis
    balances ([witness_evaluator.cpp], [committee_member_evaluator.cpp],
    [worker_evaluator.cpp], [custom_evaluator.hpp], [balance_evaluator.cpp], with
    the operations' [validate] and [chain_parameters::validate])

    The evaluators as instances of [Evaluator]. *)
From Stdlib Require Import ZArith Lia String.
From stdpp Require Import base gmap sets list strings.
From S2P Require Import Prelude External Asset Vesting Authority Float Chain Balance Accounting Market Evaluator MarketEvaluator Transfers AccountOps AccountEvaluator.

Module MemberEvaluator.
Import Asset Vesting Authority Float Chain Balance Accounting Market Evaluator MarketEvaluator Transfers AccountOps AccountEvaluator.

(** The further unique indexes of the classes, by account and by vote. *)
#[export] Instance witness_unique : UniqueKey witness_object := fun a b =>
  (witness_account a =? witness_account b) || same_vote (witness_vote_id a) (witness_vote_id b).
#[export] Instance committee_member_unique : UniqueKey committee_member_object := fun a b =>
  (committee_member_account a =? committee_member_account b) || same_vote (committee_vote_id a) (committee_vote_id b).
#[export] Instance worker_unique : UniqueKey worker_object := fun a b =>
  same_vote (vote_for a) (vote_for b) || same_vote (vote_against a) (vote_against b).

Definition GRAPHENE_MAX_URL_LENGTH : nat := 127.
Definition GRAPHENE_MAX_WORKER_NAME_LENGTH : nat := 63.
Definition GRAPHENE_MIN_BLOCK_INTERVAL : Z := 1.
Definition GRAPHENE_MAX_BLOCK_INTERVAL : Z := 30.
Definition GRAPHENE_MIN_TRANSACTION_SIZE_LIMIT : Z := 1024.
Definition GRAPHENE_MIN_BLOCK_SIZE_LIMIT : Z := GRAPHENE_MIN_TRANSACTION_SIZE_LIMIT * 5.

(** ** Validation *)
Definition url_ok (url : string) : result unit :=
  fc_assert (String.length url <? GRAPHENE_MAX_URL_LENGTH)%nat "url.size() < GRAPHENE_MAX_URL_LENGTH".
Definition witness_create_validate (op : witness_create_operation) : result unit :=
  _ ← fee_ok (wc_fee op); url_ok (wc_url op).
Definition witness_update_validate (op : witness_update_operation) : result unit :=
  _ ← fee_ok (wu_fee op); if_some (wu_new_url op) url_ok.
Definition committee_member_create_validate (op : committee_member_create_operation) : result unit :=
  _ ← fee_ok (mc_fee op); url_ok (mc_url op).
Definition committee_member_update_validate (op : committee_member_update_operation) : result unit :=
  _ ← fee_ok (mu_fee op); if_some (mu_new_url op) url_ok.
Definition worker_create_validate (op : worker_create_operation) : result unit :=
  _ ← fee_ok (wk_fee op);
  _ ← fc_assert (wk_work_begin_date op <? wk_work_end_date op) "work_end_date > work_begin_date";
  _ ← fc_assert (0 <? wk_daily_pay op) "daily_pay > 0";
  _ ← fc_assert (wk_daily_pay op <? GRAPHENE_MAX_SHARE_SUPPLY) "daily_pay < GRAPHENE_MAX_SHARE_SUPPLY";
  _ ← fc_assert (String.length (wk_name op) <? GRAPHENE_MAX_WORKER_NAME_LENGTH)%nat "name.size() < GRAPHENE_MAX_WORKER_NAME_LENGTH";
  url_ok (wk_url op).
Definition custom_validate (op : custom_operation) : result unit :=
  fc_assert (0 <? amount (ct_fee op)) "fee.amount > 0".
Definition balance_claim_validate (op : balance_claim_operation) : result unit :=
  _ ← fc_assert (bool_decide (gb_fee op = mk_asset 0 core_asset)) "fee == asset()";
  fc_assert (negb (balance_owner_key op =? 0)) "balance_owner_key != public_key_type()".

(** [chain_parameters::validate]; [fee_schedule::validate] checks nothing. *)
Definition chain_parameters_validate (p : chain_parameters) : result unit :=
  _ ← fc_assert (reserve_percent_of_fee p <=? GRAPHENE_100_PERCENT) "reserve_percent_of_fee";
  _ ← fc_assert (network_percent_of_fee p <=? GRAPHENE_100_PERCENT) "network_percent_of_fee";
  _ ← fc_assert (lifetime_referrer_percent_of_fee p <=? GRAPHENE_100_PERCENT) "lifetime_referrer_percent_of_fee";
  _ ← fc_assert (network_percent_of_fee p + lifetime_referrer_percent_of_fee p <=? GRAPHENE_100_PERCENT) "network_percent_of_fee + lifetime_referrer_percent_of_fee";
  _ ← fc_assert (GRAPHENE_MIN_BLOCK_INTERVAL <=? block_interval p) "block_interval >= GRAPHENE_MIN_BLOCK_INTERVAL";
  _ ← fc_assert (block_interval p <=? GRAPHENE_MAX_BLOCK_INTERVAL) "block_interval <= GRAPHENE_MAX_BLOCK_INTERVAL";
  _ ← fc_assert (0 <? block_interval p) "block_interval > 0";
  _ ← fc_assert (block_interval p <? maintenance_interval p) "Maintenance interval must be longer than block interval";
  _ ← fc_assert (maintenance_interval p mod block_interval p =? 0) "Maintenance interval must be a multiple of block interval";
  _ ← fc_assert (GRAPHENE_MIN_TRANSACTION_SIZE_LIMIT <=? maximum_transaction_size p) "Transaction size limit is too low";
  _ ← fc_assert (GRAPHENE_MIN_BLOCK_SIZE_LIMIT <=? maximum_block_size p) "Block size limit is too low";
  _ ← fc_assert (block_interval p <? maximum_time_until_expiration p) "Maximum transaction expiration time must be greater than a block interval";
  _ ← fc_assert (block_interval p <? wrap 32 (maximum_proposal_lifetime p - committee_proposal_review_period p))
        "Committee proposal review period must be less than the maximum proposal lifetime";
  if (length (extensions p) =? 0)%nat then Ok tt
  else
    let c := get_credit_options (extensions p) in
    _ ← fc_assert (0 <? seconds_per_day c) "Seconds_per_day interval must be greater than zero";
    _ ← fc_assert (0 <=? max_credit_expiration_days c) "Max credit expiration days interval must be greater or equal than zero";
    _ ← fc_assert (0 <? min_witnesses_for_exchange_rate c) "Min witnesses for set exchange rate must be greater than zero";
    _ ← fc_assert (0 <? exchange_rate_set_min_interval c) "Exchange rate set min interval must be greater than zero";
    _ ← fc_assert (0 <? exchange_rate_set_max_interval c) "Exchange rate set max interval must be greater than zero";
    _ ← fc_assert (exchange_rate_set_min_interval c <=? exchange_rate_set_max_interval c)
          "Exchange rate min interval must be less or equal than exchange rate max interval";
    let b := get_bonus_options (extensions p) in
    fc_assert (fle (fadd (creditor_referrer_bonus b) (borrower_referrer_bonus b)) (karma_account_bonus b))
      "The sum of creditor and borrower referrer bonuses must be less or equal than karma account bonus".
Definition update_global_parameters_validate (op : committee_member_update_global_parameters_operation) : result unit :=
  _ ← fee_ok (gp_fee op); chain_parameters_validate (new_parameters op).

Section Evaluators.
Context `{SafeOps, U128Ops}.

(** ** Witnesses and committee members *)
Definition lifetime_member (account : Z) : M database unit :=
  a ← get account_object account; require (is_lifetime_member a) "is_lifetime_member()".
(** The lambda that takes the next vote identifier. *)
Definition next_vote (type : Z) : M database Z :=
  s ← get_state;
  let r := get_next_vote_id type (gpo s) in
  _ ← update (set_gpo (snd r));
  mret (fst r).
Definition witness_create_evaluate (g : generic_evaluator) (op : witness_create_operation) : M database unit :=
  lifetime_member (wc_witness_account op).
Definition witness_create_apply (g : generic_evaluator) (_ : unit) (_ : Z) (op : witness_create_operation) : M database Z :=
  vote ← next_vote witness_vote;
  create (mk_witness (wc_witness_account op) 0 (block_signing_key op) None 0 0 vote 0 (wc_url op)).
#[export] Instance witness_create_evaluator : Evaluator witness_create_operation unit Z := {
  fee_payer := wc_witness_account;
  op_fee := wc_fee;
  validate := witness_create_validate;
  do_evaluate := witness_create_evaluate;
  pay_fee := default_pay_fee;
  do_apply := witness_create_apply;
}.
Definition witness_update_evaluate (g : generic_evaluator) (op : witness_update_operation) : M database unit :=
  w ← get witness_object (wu_witness op);
  require (witness_account w =? wu_witness_account op) "witness_account == op.witness_account".
Definition witness_update_apply (g : generic_evaluator) (_ : unit) (_ : Z) (op : witness_update_operation) : M database unit :=
  _ ← get witness_object (wu_witness op);
  modify (wu_witness op) (fun w => Ok (set_if (new_signing_key op) with_signing_key (set_if (wu_new_url op) with_witness_url w))).
#[export] Instance witness_update_evaluator : Evaluator witness_update_operation unit unit := {
  fee_payer := wu_witness_account;
  op_fee := wu_fee;
  validate := witness_update_validate;
  do_evaluate := witness_update_evaluate;
  pay_fee := default_pay_fee;
  do_apply := witness_update_apply;
}.
Definition committee_member_create_evaluate (g : generic_evaluator) (op : committee_member_create_operation) : M database unit :=
  lifetime_member (mc_committee_member_account op).
Definition committee_member_create_apply (g : generic_evaluator) (_ : unit) (_ : Z) (op : committee_member_create_operation)
  : M database Z :=
  vote ← next_vote committee_vote;
  create (mk_committee_member (mc_committee_member_account op) vote 0 (mc_url op)).
#[export] Instance committee_member_create_evaluator : Evaluator committee_member_create_operation unit Z := {
  fee_payer := mc_committee_member_account;
  op_fee := mc_fee;
  validate := committee_member_create_validate;
  do_evaluate := committee_member_create_evaluate;
  pay_fee := default_pay_fee;
  do_apply := committee_member_create_apply;
}.
Definition committee_member_update_evaluate (g : generic_evaluator) (op : committee_member_update_operation) : M database unit :=
  m ← get committee_member_object (mu_committee_member op);
  require (committee_member_account m =? mu_committee_member_account op) "committee_member_account == op.committee_member_account".
Definition with_committee_url (x : string) (m : committee_member_object) : committee_member_object :=
  mk_committee_member (committee_member_account m) (committee_vote_id m) (committee_votes m) x.
Definition committee_member_update_apply (g : generic_evaluator) (_ : unit) (_ : Z) (op : committee_member_update_operation)
  : M database unit :=
  _ ← get committee_member_object (mu_committee_member op);
  modify (mu_committee_member op) (fun m => Ok (set_if (mu_new_url op) with_committee_url m)).
#[export] Instance committee_member_update_evaluator : Evaluator committee_member_update_operation unit unit := {
  fee_payer := mu_committee_member_account;
  op_fee := mu_fee;
  validate := committee_member_update_validate;
  do_evaluate := committee_member_update_evaluate;
  pay_fee := default_pay_fee;
  do_apply := committee_member_update_apply;
}.

(** ** The parameters of the chain: only in a proposal *)
Definition is_bonus_extension (e : parameter_extension) : bool := match e with bonus_extension _ => true | _ => false end.
Definition update_global_parameters_evaluate (g : generic_evaluator) (op : committee_member_update_global_parameters_operation)
  : M database unit :=
  _ ← require (_is_proposed_trx (trx_state g)) "trx_state->_is_proposed_trx";
  s ← get_state;
  if head_block_time s <? HARDFORK_CORE_KARMA_2_TIME
  then require (forallb (fun e => negb (is_bonus_extension e)) (extensions (new_parameters op)))
         "Operation has an extension which requires hardfork HARDFORK_KARMA_CORE_2."
  else
    let name := special_account_name (get_bonus_options (extensions (new_parameters op))) in
    require (existsb (fun kx => String.eqb (account_name kx.2) name) (map_to_list (accounts s))) "No special account found".
Definition update_global_parameters_apply (g : generic_evaluator) (_ : unit) (_ : Z)
    (op : committee_member_update_global_parameters_operation) : M database unit :=
  update_gpo (with_pending_parameters (Some (new_parameters op))).
#[export] Instance update_global_parameters_evaluator
  : Evaluator committee_member_update_global_parameters_operation unit unit := {
  fee_payer _ := 0;
  op_fee := gp_fee;
  validate := update_global_parameters_validate;
  do_evaluate := update_global_parameters_evaluate;
  pay_fee := default_pay_fee;
  do_apply := update_global_parameters_apply;
}.

(** ** Workers *)
Definition worker_create_evaluate (g : generic_evaluator) (op : worker_create_operation) : M database unit :=
  _ ← lifetime_member (wk_owner op);
  now ← gets head_block_time;
  require (now <=? wk_work_begin_date op) "work_begin_date >= head_block_time".
(** [worker_init_visitor], on the default of the worker's type. *)
Definition init_worker (owner : Z) (i : worker_initializer) : M database worker_type :=
  match i with
  | refund_worker_initializer => mret (refund_worker_type 0)
  | burn_worker_initializer => mret (burn_worker_type 0)
  | vesting_balance_worker_initializer pay_vesting_period_days =>
      now ← gets head_block_time;
      id ← create (mk_vbo owner (mk_asset 0 core_asset)
                     (cdd_policy (mk_cdd (wrap 32 (days pay_vesting_period_days)) 0 0 now)));
      mret (vesting_balance_worker_type id)
  end.
Definition worker_create_apply (g : generic_evaluator) (_ : unit) (_ : Z) (op : worker_create_operation) : M database Z :=
  for_id ← next_vote worker_vote;
  against_id ← next_vote worker_vote;
  w ← init_worker (wk_owner op) (initializer op);
  create (mk_worker (wk_owner op) (wk_work_begin_date op) (wk_work_end_date op) (wk_daily_pay op) w (wk_name op) (wk_url op)
            for_id against_id 0 0).
#[export] Instance worker_create_evaluator : Evaluator worker_create_operation unit Z := {
  fee_payer := wk_owner;
  op_fee := wk_fee;
  validate := worker_create_validate;
  do_evaluate := worker_create_evaluate;
  pay_fee := default_pay_fee;
  do_apply := worker_create_apply;
}.

(** ** Custom operations *)
#[export] Instance custom_evaluator : Evaluator custom_operation unit unit := {
  fee_payer := ct_payer;
  op_fee := ct_fee;
  validate := custom_validate;
  do_evaluate _ _ := mret tt;
  pay_fee := default_pay_fee;
  do_apply _ _ _ _ := mret tt;
}.
End Evaluators.

(** ** Balances of the genesis *)
Section Balances.
Context `{SafeOps, U128Ops, AddressOps}.

(** The asset is compared unless signatures are skipped; what follows fails for
    another asset in any case. *)
Definition balance_claim_evaluate (g : generic_evaluator) (op : balance_claim_operation) : M database unit :=
  b ← get balance_object (balance_to_claim op);
  let key := balance_owner_key op in
  _ ← require ((address key =? balance_owner b) || (pts_address key false 56 =? balance_owner b)
               || (pts_address key true 56 =? balance_owner b) || (pts_address key false 0 =? balance_owner b)
               || (pts_address key true 0 =? balance_owner b)) "Balance owner key mismatch";
  _ ← require (asset_id (total_claimed op) =? asset_id (balance_amount b)) "total_claimed.asset_id == asset_type()";
  match balance_policy b with
  | Some q =>
      now ← gets head_block_time;
      allowed ← lift (linear_is_withdraw_allowed q (mk_ctx (balance_amount b) now (total_claimed op)));
      _ ← require allowed "Attempted to claim from a vesting balance";
      require (days 1 <=? now - last_claim_date b) "Genesis vesting balances may not be claimed more than once per day."
  | None => require (bool_decide (total_claimed op = balance_amount b)) "total_claimed == balance"
  end.
Definition claim_from (now : Z) (x : asset) (b : balance_object) : result balance_object :=
  rest ← asset_sub (balance_amount b) x;
  Ok (mk_balance_object (balance_owner b) rest (balance_policy b) now).
Definition balance_claim_apply (g : generic_evaluator) (_ : unit) (_ : Z) (op : balance_claim_operation) : M database unit :=
  b ← deref balance_object (balance_to_claim op);
  now ← gets head_block_time;
  partial ← lift (match balance_policy b with Some _ => asset_lt (total_claimed op) (balance_amount b) | None => Ok false end);
  _ ← (if (partial : bool) then modify (balance_to_claim op) (claim_from now (total_claimed op))
       else remove balance_object (balance_to_claim op));
  adjust_balance (deposit_to_account op) (total_claimed op).
#[export] Instance balance_claim_evaluator : Evaluator balance_claim_operation unit unit := {
  fee_payer := deposit_to_account;
  op_fee := gb_fee;
  validate := balance_claim_validate;
  do_evaluate := balance_claim_evaluate;
  pay_fee := default_pay_fee;
  do_apply := balance_claim_apply;
}.
End Balances.
End MemberEvaluator.
