(* ===== verification/Votes.v ===== *)
(** * Elections ([db_maint.cpp], [vote_count.hpp])

    At a maintenance interval the stake of every account is counted for what the
    account, or its proxy, votes for; the witnesses and committee members with
    the most votes become active, and the authorities of the accounts they
    control are written anew. *)
From Stdlib Require Import ZArith Lia String.
From stdpp Require Import base gmap sets list strings sorting.
From S2P Require Import Prelude External Asset Vesting Authority Chain Balance AccountOps AccountEvaluator.

Module Votes.
Import Asset Vesting Authority Chain Balance AccountOps AccountEvaluator.

Definition GRAPHENE_PROXY_TO_SELF_ACCOUNT : Z := 5.
Definition GRAPHENE_DEFAULT_MIN_COMMITTEE_MEMBER_COUNT : nat := 11.
Definition undefined_index : string := "undefined: index out of the range of a vector".
Definition undefined_front : string := "undefined: front of an empty vector".
Definition undefined_msb : string := "undefined: most significant bit of zero".
Definition undefined_overflow : string := "undefined: signed overflow".

(** The sum of two [int64_t], and an unsigned one as an [int64_t]. *)
Definition int64_add (a b : Z) : result Z :=
  if bool_decide (in_int64 (a + b)) then Ok (a + b) else Throw undefined_overflow.
Definition as_int64 (n : Z) : Z := if n <? 2 ^ 63 then n else n - 2 ^ 64.

(** ** [struct vote_counter] *)
Record vote_counter : Type := mk_counter {
  last_votes : Z;
  total_votes : Z;
  bitshift : Z;
  counted_auths : list (Z * Z);    (* [auth.account_auths], the only part used *)
}.
Definition new_counter : vote_counter := mk_counter (2 ^ 64 - 1) 0 (-1) [].
(** [account_auths[ k ] = w]. *)
Fixpoint add_authority (k w : Z) (l : list (Z * Z)) : list (Z * Z) :=
  match l with
  | [] => [(k, w)]
  | (j, x) :: l' => if k <? j then (k, w) :: l else if k =? j then (k, w) :: l' else (j, x) :: add_authority k w l'
  end.
Definition vote_counter_add (who votes : Z) (c : vote_counter) : result vote_counter :=
  if votes =? 0 then Ok c
  else
    _ ← fc_assert (votes <=? last_votes c) "votes <= last_votes";
    let shift := if bitshift c =? -1 then Z.max (Z.log2 votes - 15) 0 else bitshift c in
    let scaled_votes := Z.max (Z.shiftr votes shift) 1 in
    _ ← fc_assert (scaled_votes <=? 2 ^ 16 - 1) "scaled_votes <= numeric_limits<weight_type>::max()";
    let total := wrap 64 (total_votes c + scaled_votes) in
    _ ← fc_assert (total <=? 2 ^ 32 - 1) "total_votes <= numeric_limits<uint32_t>::max()";
    Ok (mk_counter votes total shift (add_authority who scaled_votes (counted_auths c))).
Definition vote_counter_finish (c : vote_counter) (out_auth : authority) : authority :=
  if total_votes c =? 0 then out_auth
  else mk_authority (Z.shiftr (total_votes c) 1 + 1) (counted_auths c) [] [].
Definition vote_counter_is_empty (c : vote_counter) : bool := total_votes c =? 0.
Fixpoint count_votes (c : vote_counter) (l : list (Z * Z)) : result vote_counter :=
  match l with
  | [] => Ok c
  | (who, votes) :: l' => c' ← vote_counter_add who votes c; count_votes c' l'
  end.

(** ** The authority of those elected *)
(** Before a hard fork: [weights], a map, then its entries in sixteen bits. *)
Definition emplace (m : gmap Z Z) (x : Z * Z) : gmap Z Z :=
  match m !! x.1 with Some _ => m | None => <[x.1 := x.2]> m end.
Section Elected.
Context `{IndexOps}.
Definition weighed_authority (l : list (Z * Z)) (a : authority) : result authority :=
  let total := foldl (fun t x => wrap 64 (t + x.2)) 0 l in
  _ ← fc_assert (0 <? total) undefined_msb;
  let bits_to_drop := Z.max (Z.log2 total - 15) 0 in
  let auths := (fun x => (x.1, wrap 16 (Z.max (Z.shiftr x.2 bits_to_drop) 1)))
                 <$> ordered (fun x y => x.1 <? y.1) (map_to_list (foldl emplace ∅ l)) in
  let threshold := foldl (fun t x => wrap 32 (t + x.2)) 0 auths in
  Ok (mk_authority (threshold / 2 + 1) auths [] (address_auths a)).
Definition counted_authority (l : list (Z * Z)) (a : authority) : result authority :=
  c ← count_votes new_counter l; Ok (vote_counter_finish c a).
Definition elected_authority (now : Z) (l : list (Z * Z)) (a : authority) : result authority :=
  if now <? HARDFORK_533_TIME then weighed_authority l a else counted_authority l a.
End Elected.

(** ** Counting the votes: the buffers of [database] and [vote_tally_helper] *)
Record vote_tally : Type := mk_tally {
  _vote_tally_buffer : list Z;
  _witness_count_histogram_buffer : list Z;
  _committee_count_histogram_buffer : list Z;
  _total_voting_stake : Z;
}.
(** The buffers are empty before; [resize] fills them with zeros. *)
Definition new_tally (g : global_property_object) : vote_tally :=
  mk_tally (replicate (Z.to_nat (next_available_vote_id g)) 0)
    (replicate (Z.to_nat (maximum_witness_count (parameters g) / 2 + 1)) 0)
    (replicate (Z.to_nat (maximum_committee_count (parameters g) / 2 + 1)) 0) 0.
(** [v[ n ] += x], when there is such an element. *)
Definition bump (x : Z) (n : nat) (v : list Z) : list Z := alter (fun y => wrap 64 (y + x)) n v.
Definition tally_votes (stake : Z) (votes : list Z) (v : list Z) : list Z :=
  foldl (fun v id => bump stake (Z.to_nat (vote_instance id)) v) v votes.
Definition tally_count (stake num maximum : Z) (v : list Z) : list Z :=
  if num <=? maximum then bump stake (Nat.min (Z.to_nat (num / 2)) (length v - 1)) v else v.
Definition cast_votes (p : chain_parameters) (stake : Z) (o : account_options) (t : vote_tally) : vote_tally :=
  mk_tally (tally_votes stake (account_votes o) (_vote_tally_buffer t))
    (tally_count stake (num_witness o) (maximum_witness_count p) (_witness_count_histogram_buffer t))
    (tally_count stake (num_committee o) (maximum_committee_count p) (_committee_count_histogram_buffer t))
    (wrap 64 (_total_voting_stake t + stake)).

(** An object that is voted for, its vote identifier and its votes. *)
Record candidate (A : Type) : Type := mk_candidate {
  candidate_id : Z;
  candidate_of : A;
  candidate_vote : Z;
  candidate_votes : Z;
}.
Arguments mk_candidate {A}.
Arguments candidate_id {A}.
Arguments candidate_of {A}.
Arguments candidate_vote {A}.
Arguments candidate_votes {A}.

Section Tally.
Context `{SafeOps, U128Ops, IndexOps}.
Definition voting_stake (account : Z) (a : account_object) : M database Z :=
  stats ← get account_statistics_object (statistics a);
  cashback ← match cashback_vb a with
             | Some vb => v ← get vesting_balance_object vb; mret (amount (vb_balance v))
             | None => mret 0
             end;
  bal ← gets (get_balance account core_asset);
  n ← lift (int64_add (total_core_in_orders stats) cashback);
  n ← lift (int64_add n (amount bal));
  mret (wrap 64 n).
Definition tally_account (account : Z) (t : vote_tally) : M database vote_tally :=
  a ← deref account_object account;
  s ← get_state;
  let props := parameters (gpo s) in
  if count_non_member_votes props || is_member a (head_block_time s) then
    opinion_account ← (if voting_account (account_opts a) =? GRAPHENE_PROXY_TO_SELF_ACCOUNT then mret a
                       else get account_object (voting_account (account_opts a)));
    stake ← voting_stake account a;
    mret (cast_votes props stake (account_opts opinion_account) t)
  else mret t.
(** [process_fees_helper]. *)
Definition process_account_fees (account : Z) : M database unit :=
  a ← deref account_object account;
  _ ← get account_statistics_object (statistics a);
  process_fees (statistics a) account.
Fixpoint perform_account_maintenance (l : list Z) (t : vote_tally) : M database vote_tally :=
  match l with
  | [] => mret t
  | account :: l' =>
      t' ← tally_account account t;
      _ ← process_account_fees account;
      perform_account_maintenance l' t'
  end.
(** The traversal by name; what it changes of an account is not its name. *)
Definition accounts_by_name (s : database) : list Z :=
  fst <$> ordered (fun x y => String.ltb (account_name x.2) (account_name y.2)) (map_to_list (accounts s)).
Definition by_id {A} (m : gmap Z A) : list (Z * A) := ordered (fun x y => x.1 <? y.1) (map_to_list m).

(** ** [sort_votable_objects] *)
Definition vote_at (t : vote_tally) (vote : Z) : result Z :=
  of_option (_vote_tally_buffer t !! Z.to_nat (vote_instance vote)) undefined_index.
(** More votes first, among equal ones the lower vote identifier. *)
Definition more_votes (x y : Z * Z) : bool :=
  if as_int64 x.2 =? as_int64 y.2 then vote_instance x.1 <? vote_instance y.1
  else as_int64 y.2 <? as_int64 x.2.
Fixpoint candidates {A} (vote : A -> Z) (t : vote_tally) (l : list (Z * A)) : result (list (candidate A)) :=
  match l with
  | [] => Ok []
  | (id, x) :: l' =>
      n ← vote_at t (vote x);
      cs ← candidates vote t l';
      Ok (mk_candidate id x (vote x) n :: cs)
  end.
Definition outvotes {A} (x y : candidate A) : bool :=
  more_votes (candidate_vote x, candidate_votes x) (candidate_vote y, candidate_votes y).
Definition sort_votable_objects {A} `{Object A} (vote : A -> Z) (count : nat) (t : vote_tally)
  : M database (list (candidate A)) :=
  s ← get_state;
  refs ← lift (candidates vote t (by_id (table s)));
  _ ← require (negb (Nat.eqb (length refs) 0)) undefined_front;
  mret (take count (sort_by outvotes refs)).

(** ** The numbers of those elected *)
(** The loop over the histogram: the least count such that more than the target
    voted for a count up to it.  The tally of witnesses is a [share_type], that of
    committee members an unsigned integer. *)
Fixpoint count_stake (below : Z -> bool) (add : Z -> Z -> result Z) (tally : Z) (n : nat) (l : list Z) : result nat :=
  match l with
  | [] => Ok n
  | x :: l' => if below tally then tally' ← add tally x; count_stake below add tally' (S n) l' else Ok n
  end.
Definition stake_target (t : vote_tally) (histogram : list Z) : result Z :=
  none ← of_option (head histogram) "_count_histogram_buffer.size() > 0";
  Ok (as_int64 (wrap 64 (_total_voting_stake t - none) / 2)).
Definition count_witnesses (target : Z) (histogram : list Z) : result nat :=
  if 0 <? target
  then count_stake (fun tally => tally <=? target) (fun tally x => safe_add tally (as_int64 x)) 0 0 (tail histogram)
  else Ok 0%nat.
Definition count_members (target : Z) (histogram : list Z) : result nat :=
  count_stake (fun tally => as_int64 tally <=? target) (fun tally x => Ok (wrap 64 (tally + x))) 0 0 (tail histogram).
Definition weight_of {A} (account : A -> Z) (c : candidate A) : Z * Z := (account (candidate_of c), candidate_votes c).

(** ** [update_active_witnesses] *)
Definition update_witness_votes (t : vote_tally) : M database unit :=
  s ← get_state;
  for_each (by_id (witnesses s)) (fun x =>
    modify x.1 (fun w => n ← vote_at t (witness_vote_id w); Ok (with_witness_votes n w))).
Definition update_active_witnesses (t : vote_tally) : M database unit :=
  target ← lift (stake_target t (_witness_count_histogram_buffer t));
  witness_count ← lift (count_witnesses target (_witness_count_histogram_buffer t));
  s ← get_state;
  wits ← sort_votable_objects witness_vote_id
           (Nat.max (witness_count * 2 + 1) (Z.to_nat (min_witness_count (chain_properties s)))) t;
  _ ← update_witness_votes t;
  _ ← get account_object GRAPHENE_WITNESS_ACCOUNT;
  _ ← modify GRAPHENE_WITNESS_ACCOUNT (fun a =>
        au ← elected_authority (head_block_time s) (weight_of witness_account <$> wits) (active_authority a);
        Ok (with_active_authority au a));
  update_gpo (with_active_witnesses (ordered Z.ltb (candidate_id <$> wits))).

(** ** [update_active_committee_members] *)
(** The mistake of counting with the stake of those who vote for witnesses. *)
Definition committee_count (t : vote_tally) (now : Z) : result nat :=
  let histogram := _committee_count_histogram_buffer t in
  target ← stake_target t histogram;
  old_target ← stake_target t (_witness_count_histogram_buffer t);
  count ← (if 0 <? target then count_members target histogram else Ok 0%nat);
  if negb (target =? old_target) && (0 <? old_target) && (now <? HARDFORK_CORE_353_TIME) then
    old_count ← count_members old_target histogram;
    Ok (if negb (Nat.eqb old_count count)
           && (Nat.ltb GRAPHENE_DEFAULT_MIN_COMMITTEE_MEMBER_COUNT old_count
               || Nat.ltb GRAPHENE_DEFAULT_MIN_COMMITTEE_MEMBER_COUNT count)
        then old_count else count)
  else Ok count.
Definition with_committee_votes (n : Z) (m : committee_member_object) : committee_member_object :=
  mk_committee_member (committee_member_account m) (committee_vote_id m) n (committee_url m).
Definition update_active_committee_members (t : vote_tally) : M database unit :=
  s ← get_state;
  count ← lift (committee_count t (head_block_time s));
  members ← sort_votable_objects committee_vote_id
              (Nat.max (count * 2 + 1) (Z.to_nat (min_committee_member_count (chain_properties s)))) t;
  _ ← for_each members (fun m =>
        modify (candidate_id m) (fun x => n ← vote_at t (committee_vote_id x); Ok (with_committee_votes n x)));
  _ ← when (negb (Nat.eqb (length members) 0))
        (_ ← get account_object GRAPHENE_COMMITTEE_ACCOUNT;
         _ ← modify GRAPHENE_COMMITTEE_ACCOUNT (fun a =>
               au ← elected_authority (head_block_time s) (weight_of committee_member_account <$> members) (active_authority a);
               Ok (with_active_authority au a));
         _ ← get account_object GRAPHENE_RELAXED_COMMITTEE_ACCOUNT;
         committee ← get account_object GRAPHENE_COMMITTEE_ACCOUNT;
         modify GRAPHENE_RELAXED_COMMITTEE_ACCOUNT (fun a => Ok (with_active_authority (active_authority committee) a)));
  update_gpo (with_active_committee_members (candidate_id <$> members)).

(** ** [update_worker_votes] *)
(** The code goes through the workers by account; each takes its own votes only. *)
Definition with_worker_votes (for_votes against_votes : Z) (w : worker_object) : worker_object :=
  mk_worker (worker_account w) (work_begin_date w) (work_end_date w) (daily_pay w) (worker w) (worker_name w)
    (worker_url w) (vote_for w) (vote_against w) for_votes against_votes.
Definition update_worker_votes (t : vote_tally) : M database unit :=
  s ← get_state;
  let allow_negative_votes := head_block_time s <? HARDFORK_607_TIME in
  for_each (by_id (workers s)) (fun x =>
    modify x.1 (fun w =>
      n ← vote_at t (vote_for w);
      m ← (if allow_negative_votes then vote_at t (vote_against w) else Ok 0);
      Ok (with_worker_votes n m w))).

(** ** [update_top_n_authorities] *)
Definition top_n_control_owner : Z := 1.
Definition top_n_control_active : Z := 2.
(** The balances of an asset, the largest first, then by owner. *)
Definition holders (a : Z) (s : database) : list (Z * Z) :=
  (fun x => (x.1.1, x.2))
    <$> ordered (fun x y => if x.2 =? y.2 then x.1.1 <? y.1.1 else y.2 <? x.2)
          (filter (fun x => x.1.2 = a) (map_to_list (account_balances s))).
(** The loop over the holders; it ends when none is needed any more. *)
Fixpoint top_holders (self : Z) (needed : nat) (l : list (Z * Z)) : list (Z * Z) :=
  match needed, l with
  | O, _ | _, [] => []
  | S needed', (owner, n) :: l' =>
      if owner =? self then top_holders self needed l' else (owner, n) :: top_holders self needed' l'
  end.
Definition set_top_n (is_owner : bool) (c : vote_counter) (a : account_object) : account_object :=
  let a' := if is_owner then with_owner_authority (vote_counter_finish c (owner_authority a)) a
            else with_active_authority (vote_counter_finish c (active_authority a)) a in
  if vote_counter_is_empty c then a'
  else with_top_n_control_flags
         (Z.lor (top_n_control_flags a') (if is_owner then top_n_control_owner else top_n_control_active)) a'.
Definition update_top_n (account : Z) (is_owner : bool) (auth : special_authority) : M database unit :=
  match auth with
  | no_special_authority => mret tt
  | top_holders_special_authority asset num_top_holders =>
      if num_top_holders =? 0 then mret tt
      else
        bals ← gets (holders asset);
        c ← lift (count_votes new_counter ((fun x => (x.1, wrap 64 x.2)) <$> top_holders account (Z.to_nat num_top_holders) bals));
        modify account (fun a => Ok (set_top_n is_owner c a))
  end.
Definition visit_special_authority (account : Z) : M database unit :=
  acct ← get account_object account;
  _ ← when (special (owner_special_authority acct)) (update_top_n account true (owner_special_authority acct));
  acct ← deref account_object account;
  when (special (active_special_authority acct)) (update_top_n account false (active_special_authority acct)).
Definition update_top_n_authorities : M database unit :=
  s ← get_state;
  for_each (by_id (special_authorities s)) (fun x => visit_special_authority (special_account x.2)).
End Tally.
End Votes.
