(* ===== verification/Elections.v ===== *)
(** * Elections: theorems ([db_maint.cpp], [vote_count.hpp])

    Those elected are the ones with the most votes, as many as the stake asks
    for, and an authority that is written from their votes takes a majority of
    the weight. *)
From Stdlib Require Import ZArith Lia String.
From stdpp Require Import base gmap sets list strings sorting.
From S2P Require Import Prelude External Asset Vesting Authority Chain Balance Accounting AccountOps AccountEvaluator Votes.

Module Elections.
Import Asset Vesting Authority Chain Balance Accounting AccountOps AccountEvaluator Votes.

(** ** The order of the votes *)
Lemma outvotes_weak_order {A} : weak_order (@outvotes A).
Proof.
  unfold weak_order, outvotes, more_votes. cbn.
  split; intros *; repeat match goal with |- context [?x =? ?y] => destruct (Z.eqb_spec x y) end; rewrite ?Z.ltb_lt, ?Z.ltb_ge; lia.
Qed.

(** ** Prefix sums *)
Definition sum_of (l : list Z) : Z := foldr Z.add 0 l.
Lemma sum_of_cons x l : sum_of (x :: l) = x + sum_of l.
Proof. done. Qed.
Section Counting.
Context `{SafeLaws}.
Lemma count_stake_least target tally n l m :
  count_stake (fun t => t <=? target) (fun t x => safe_add t (as_int64 x)) tally n l = Ok m ->
  exists k, m = (n + k)%nat /\ (k <= length l)%nat
    /\ (forall j, (j < k)%nat -> tally + sum_of (take j (as_int64 <$> l)) <= target)
    /\ (k = length l \/ target < tally + sum_of (take k (as_int64 <$> l))).
Proof.
  revert tally n. induction l as [|x l IH]; intros tally n; cbn [count_stake].
  - intros E. run_ok1. exists 0%nat. split_and!; [lia|done|intros j Hj; lia|by left].
  - destruct (Z.leb_spec tally target) as [Hle|Hgt]; intros E.
    + run_ok1. apply safe_add_spec in Hrun as [-> _]. apply IH in E as (k & -> & Hk & Hlt & Hend).
      exists (S k). split_and!; [lia|cbn; lia| |].
      * intros [|j] Hj; [cbn; lia|]. specialize (Hlt j). rewrite fmap_cons, firstn_cons, sum_of_cons. lia.
      * destruct Hend as [->|Hend]; [by left|right]. rewrite fmap_cons, firstn_cons, sum_of_cons. lia.
    + run_ok1. exists 0%nat. split_and!; [lia|lia|intros j Hj; lia|right; cbn; lia].
Qed.
End Counting.
(** The number of seats asked for: the least count that more than half of the
    stake which asks for any asks for, or less. *)
Definition asked_for (target : Z) (histogram : list Z) (k : nat) : Prop :=
  (target <= 0 /\ k = 0%nat)
  \/ (0 < target /\ (forall j, (j < k)%nat -> sum_of (take j (as_int64 <$> tail histogram)) <= target)
      /\ (k = length (tail histogram) \/ target < sum_of (take k (as_int64 <$> tail histogram)))).
Lemma count_witnesses_asked `{SafeLaws} target histogram k :
  count_witnesses target histogram = Ok k -> asked_for target histogram k.
Proof.
  unfold count_witnesses. destruct (Z.ltb_spec 0 target) as [Hp|Hn]; intros E.
  - apply count_stake_least in E as (j & -> & Hj & Hlt & Hend). right. cbn in *. by split_and!.
  - run_ok1. left. by split; [lia|].
Qed.

(** ** Those elected *)
Section Elected.
Context `{IndexLaws}.
Lemma candidates_Ok {A} (vote : A -> Z) t l cs :
  candidates vote t l = Ok cs ->
  Forall2 (fun x c => candidate_id c = x.1 /\ candidate_of c = x.2 /\ candidate_vote c = vote x.2
                      /\ vote_at t (vote x.2) = Ok (candidate_votes c)) l cs.
Proof.
  revert cs. induction l as [|[id x] l IH]; intros cs; cbn [candidates]; intros E; [run_ok1; by subst|].
  repeat run_ok1. subst. constructor; [done|]. by apply IH.
Qed.
Lemma by_id_perm {A} (m : gmap Z A) : by_id m ≡ₚ map_to_list m.
Proof. unfold by_id. apply ordered_perm. Qed.
Lemma by_id_lookup {A} (m : gmap Z A) id x : (id, x) ∈ by_id m <-> m !! id = Some x.
Proof. rewrite by_id_perm. apply elem_of_map_to_list. Qed.
Lemma by_id_NoDup {A} (m : gmap Z A) : NoDup (by_id m).*1.
Proof. rewrite by_id_perm. apply NoDup_fst_map_to_list. Qed.
Lemma by_id_length {A} (m : gmap Z A) : length (by_id m) = size m.
Proof. by rewrite by_id_perm, length_map_to_list. Qed.

(** What [sort_votable_objects] returns: a table's objects with the most votes. *)
Record most_voted {A} (vote : A -> Z) (t : vote_tally) (m : gmap Z A) (count : nat) (cs : list (candidate A)) : Prop := {
  mv_count : length cs = Nat.min count (size m);
  mv_distinct : NoDup (candidate_id <$> cs);
  mv_members : forall c, c ∈ cs -> m !! candidate_id c = Some (candidate_of c) /\ candidate_vote c = vote (candidate_of c)
                                   /\ vote_at t (candidate_vote c) = Ok (candidate_votes c);
  mv_sorted : StronglySorted (fun x y => outvotes y x = false) cs;
  mv_best : forall c id x n, c ∈ cs -> m !! id = Some x -> id ∉ (candidate_id <$> cs) -> vote_at t (vote x) = Ok n ->
              more_votes (vote x, n) (candidate_vote c, candidate_votes c) = false;
}.
Lemma sort_votable_objects_Ok {A} `{Object A} (vote : A -> Z) count t s cs s' :
  sort_votable_objects vote count t s = Ok (cs, s') ->
  s' = s /\ table s <> ∅ /\ most_voted vote t (table s) count cs.
Proof.
  unfold sort_votable_objects. intros E. repeat run_ok1. subst. apply candidates_Ok in Hval.
  match goal with R : list (candidate A) |- _ => rename R into refs end.
  assert (Hids : candidate_id <$> refs = (by_id (table s)).*1).
  { clear -Hval. induction Hval as [|x c l cs Hx _ IH]; cbn; [done|]. destruct Hx as [Hi _]. by rewrite Hi, IH. }
  assert (Hin : forall c, c ∈ refs -> table s !! candidate_id c = Some (candidate_of c) /\ candidate_vote c = vote (candidate_of c)
                          /\ vote_at t (candidate_vote c) = Ok (candidate_votes c)).
  { intros c Hc. apply list_elem_of_lookup in Hc as [i Hc].
    destruct (Forall2_lookup_r _ _ _ _ _ Hval Hc) as ([id x] & Hx & Hi & Ho & Hv & Hn). cbn in *. subst.
    rewrite Hv. split_and!; [|done..]. apply by_id_lookup, list_elem_of_lookup. by exists i. }
  pose proof (sort_by_perm outvotes refs) as Hperm.
  pose proof (take_drop count (sort_by outvotes refs)) as Htd.
  split; [done|]. split.
  { intros E0. apply Forall2_length in Hval. rewrite by_id_length, E0, map_size_empty in Hval. by rewrite <- Hval in Hreq. }
  assert (Hsub : forall c, c ∈ take count (sort_by outvotes refs) -> c ∈ refs).
  { intros c Hc. rewrite <- Hperm, <- Htd. apply elem_of_app. by left. }
  pose proof (sort_by_sorted outvotes refs outvotes_weak_order) as Hsort.
  split.
  - rewrite length_take, Hperm. f_equal. apply Forall2_length in Hval. by rewrite <- Hval, by_id_length.
  - assert (Hnd : NoDup (candidate_id <$> sort_by outvotes refs)) by (rewrite Hperm, Hids; apply by_id_NoDup).
    rewrite <- Htd, fmap_app in Hnd. by apply NoDup_app in Hnd as [? _].
  - intros c Hc. by apply Hin, Hsub.
  - rewrite <- Htd in Hsort. by eapply StronglySorted_app_1_l.
  - intros c id x n Hc Hx Hout Hn.
    assert (Hr : id ∈ candidate_id <$> refs).
    { rewrite Hids. apply list_elem_of_fmap. exists (id, x). split; [done|]. by apply by_id_lookup. }
    apply list_elem_of_fmap in Hr as (d & -> & Hd). destruct (Hin d Hd) as (Hd1 & Hd2 & Hd3).
    assert (candidate_of d = x) as <- by congruence. rewrite Hd2 in Hd3. assert (n = candidate_votes d) as -> by congruence.
    rewrite <- Hperm, <- Htd in Hd. apply elem_of_app in Hd as [Hd|Hd].
    { destruct Hout. apply list_elem_of_fmap. by exists d. }
    rewrite <- Htd in Hsort. rewrite <- Hd2. by apply (StronglySorted_app_1_elem_of _ _ _ _ _ Hsort Hc Hd).
Qed.

(** A list of the objects elected: as many as there are seats and candidates, each
    outvoted by none that is not elected. *)
Record elected {A} (vote : A -> Z) (t : vote_tally) (m : gmap Z A) (seats : nat) (l : list Z) : Prop := {
  el_count : length l = Nat.min seats (size m);
  el_distinct : NoDup l;
  el_best : forall i, i ∈ l -> exists x n, m !! i = Some x /\ vote_at t (vote x) = Ok n
              /\ forall j y k, m !! j = Some y -> j ∉ l -> vote_at t (vote y) = Ok k -> more_votes (vote y, k) (vote x, n) = false;
}.
Lemma most_voted_elected {A} (vote : A -> Z) t m count cs l :
  most_voted vote t m count cs -> l ≡ₚ candidate_id <$> cs -> elected vote t m count l.
Proof.
  intros [Hc Hd Hm _ Hb] Hp. split; [by rewrite Hp, length_fmap|by rewrite Hp|].
  intros i Hi. rewrite Hp in Hi. apply list_elem_of_fmap in Hi as (c & -> & Hi). destruct (Hm c Hi) as (Hx & Hv & Hn).
  exists (candidate_of c), (candidate_votes c). rewrite <- Hv. split_and!; [done|done|].
  intros j y k Hy Hj Hk. rewrite Hp in Hj. by eapply Hb.
Qed.

Lemma update_witness_votes_frame t s u s' :
  update_witness_votes t s = Ok (u, s') -> exists m, s' = set_witnesses m s.
Proof.
  unfold update_witness_votes. intros E. do 2 run_ok1. revert E.
  apply (for_each_ind (fun s s' => exists m, s' = set_witnesses m s)).
  - intros t1. exists (witnesses t1). by destruct t1.
  - intros s1 s2 s3 [m ->] [n ->]. by exists n.
  - intros x s1 s2 v _ E. op_ok. subst. by eexists.
Qed.
End Elected.

(** ** The weights of an authority *)
Definition scaled (shift v : Z) : Z := Z.max (Z.shiftr v shift) 1.
Lemma weights_of_cons x l : weights (x :: l) = x.2 + weights l.
Proof. done. Qed.
Lemma add_authority_weights k w l : k ∉ l.*1 -> weights (add_authority k w l) = weights l + w.
Proof.
  induction l as [|[j x] l IH]; cbn [add_authority]; [cbn; lia|]. intros Hk%not_elem_of_cons. cbn in Hk.
  destruct (Z.ltb_spec k j); [rewrite weights_of_cons; cbn; lia|]. destruct (Z.eqb_spec k j) as [->|]; [by destruct Hk|].
  rewrite !weights_of_cons, IH by apply Hk. cbn. lia.
Qed.
Lemma add_authority_elem k w l x : k ∉ l.*1 -> x ∈ add_authority k w l <-> x = (k, w) \/ x ∈ l.
Proof.
  induction l as [|[j y] l IH]; cbn; [intros _; by rewrite list_elem_of_singleton, elem_of_nil; naive_solver|].
  intros Hk%not_elem_of_cons. cbn in Hk.
  destruct (Z.ltb_spec k j); [by rewrite elem_of_cons|]. destruct (Z.eqb_spec k j) as [->|]; [by destruct Hk|].
  rewrite !elem_of_cons, IH by apply Hk. naive_solver.
Qed.
(** What a counter holds after counting the votes [l]. *)
Record counted (l : list (Z * Z)) (c : vote_counter) : Prop := {
  co_shift : -1 <= bitshift c;
  co_none : bitshift c = -1 -> counted_auths c = [];
  co_total : total_votes c = weights (counted_auths c) /\ 0 <= total_votes c < 2 ^ 32;
  co_auths : forall who w, (who, w) ∈ counted_auths c <-> exists v, (who, v) ∈ l /\ v <> 0 /\ w = scaled (bitshift c) v;
  co_range : Forall (fun x => 1 <= x.2 < 2 ^ 16) (counted_auths c);
}.
Lemma counted_new : counted [] new_counter.
Proof. split; cbn; try done. intros who w. split; [by intros ?%not_elem_of_nil|]. by intros (v & Hv%not_elem_of_nil & _). Qed.
Lemma counted_add l who v c c' :
  who ∉ l.*1 -> 0 <= v -> counted l c -> vote_counter_add who v c = Ok c' -> counted (l ++ [(who, v)]) c'.
Proof.
  intros Hw Hv [Hs Hn [Ht Hr] Ha Hg]. unfold vote_counter_add. destruct (Z.eqb_spec v 0) as [->|Hv0]; intros E.
  - run_ok1. subst c'. split; try done. intros who' w. rewrite Ha. split; intros (x & Hx & Hx0 & ->); exists x; split_and!; try done.
    + apply elem_of_app. by left.
    + apply elem_of_app in Hx as [?|Hx]; [done|]. apply list_elem_of_singleton in Hx. naive_solver.
  - repeat run_ok1. subst c'.
    set (sh := if bitshift c =? -1 then Z.max (Z.log2 v - 15) 0 else bitshift c) in *.
    assert (Hsh : bitshift c = sh \/ (bitshift c = -1 /\ 0 <= sh))
      by (unfold sh; destruct (Z.eqb_spec (bitshift c) (-1)); [right; split; [done|lia]|by left]).
    assert (Hnot : who ∉ (counted_auths c).*1).
    { intros ([who' w] & -> & Hx)%list_elem_of_fmap. apply Ha in Hx as (x & Hx & _). apply Hw, list_elem_of_fmap. by exists (who', x). }
    repeat match goal with Hb : (_ <=? _) = true |- _ => apply Z.leb_le in Hb end.
    change (Z.max (Z.shiftr v sh) 1) with (scaled sh v) in *.
    assert (H1 : 1 <= scaled sh v) by (unfold scaled; lia).
    rewrite wrap_id in * by lia.
    split; cbn [bitshift counted_auths total_votes].
    + lia.
    + intros E0. destruct Hsh as [Hsh|[_ ?]]; [|lia]. unfold sh in E0. destruct (Z.eqb_spec (bitshift c) (-1)); lia.
    + rewrite add_authority_weights by done. split; lia.
    + intros who' w. rewrite (add_authority_elem _ _ _ _ Hnot). split.
      * intros [[= -> ->]|Hx]; [exists v; split_and!; [|done|done]; apply elem_of_app; right; by apply list_elem_of_singleton|].
        destruct Hsh as [Hsh|[Hsh _]]; [|rewrite (Hn Hsh) in Hx; by apply not_elem_of_nil in Hx].
        apply Ha in Hx as (x & Hx & Hx0 & ->). exists x. rewrite Hsh. split_and!; [|done|done]. apply elem_of_app. by left.
      * intros (x & Hx & Hx0 & ->). apply elem_of_app in Hx as [Hx|Hx].
        -- right. destruct Hsh as [Hsh|[Hsh _]]; [apply Ha; exists x; by rewrite Hsh|].
           exfalso. assert (He : (who', scaled (bitshift c) x) ∈ counted_auths c) by (apply Ha; by exists x).
           rewrite (Hn Hsh) in He. by apply not_elem_of_nil in He.
        -- apply list_elem_of_singleton in Hx as [= -> ->]. by left.
    + apply Forall_forall. intros x. rewrite (add_authority_elem _ _ _ _ Hnot). rewrite Forall_forall in Hg.
      intros [->|Hx]; [cbn; lia|by apply Hg].
Qed.
Lemma count_votes_counted l l' c c' :
  NoDup (l ++ l').*1 -> Forall (fun x => 0 <= x.2) l' -> counted l c -> count_votes c l' = Ok c' -> counted (l ++ l') c'.
Proof.
  revert l c. induction l' as [|[who v] l' IH]; intros l c Hd Hv Hc; cbn [count_votes]; intros E.
  - run_ok1. subst. by rewrite app_nil_r.
  - run_ok1. apply Forall_cons in Hv as [Hv0 Hv].
    replace (l ++ (who, v) :: l') with ((l ++ [(who, v)]) ++ l') in * by by rewrite <- app_assoc.
    eapply IH; [done|done| |exact E]. eapply counted_add; [|exact Hv0|exact Hc|done].
    rewrite !fmap_app, <- app_assoc in Hd. apply NoDup_app in Hd as (_ & Hd & _). intros Hin. apply (Hd who Hin). by left.
Qed.

Section Theorems.
Context `{SafeLaws, IndexLaws}.
(** C17: an authority written from votes: exactly those with votes are in it, with
    weights between 1 and 2^16 - 1 that are the votes divided by a power of two;
    its threshold takes more than half of the weight, and all of them together
    reach it; two groups without a common member never both do. *)
Theorem majority_needed l a a' :
  counted_authority l a = Ok a' -> NoDup l.*1 -> Forall (fun x => 0 <= x.2) l -> Exists (fun x => x.2 <> 0) l ->
  (exists shift, 0 <= shift /\ forall who w, (who, w) ∈ account_auths a' <-> exists v, (who, v) ∈ l /\ v <> 0 /\ w = scaled shift v)
  /\ Forall (fun x => 1 <= x.2 < 2 ^ 16) (account_auths a') /\ key_auths a' = [] /\ address_auths a' = []
  /\ weights (account_auths a') < 2 * weight_threshold a' /\ is_impossible a' = false.
Proof.
  unfold counted_authority. intros E Hd Hv He. repeat run_ok1.
  match goal with Hc : count_votes _ _ = Ok _ |- _ => apply (count_votes_counted [] l) in Hc as [Hs Hn [Ht Hr] Ha Hg]; [|done|done|apply counted_new] end.
  apply Exists_exists in He as ([who v] & Hin & Hv0). cbn in Hv0.
  match goal with c : vote_counter |- _ => assert (Hw : (who, scaled (bitshift c) v) ∈ counted_auths c) by (apply Ha; by exists v);
    rename c into cc end.
  assert (Hpos : 1 <= weights (counted_auths cc)).
  { clear -Hw Hg. induction (counted_auths cc) as [|x m IH]; [by apply not_elem_of_nil in Hw|]. apply Forall_cons in Hg as [Hx Hg].
    assert (0 <= weights m) by (clear -Hg; induction Hg; rewrite ?weights_of_cons; cbn in *; lia). rewrite weights_of_cons. lia. }
  assert (Hs0 : 0 <= bitshift cc).
  { destruct (Z.eq_dec (bitshift cc) (-1)) as [E1|]; [|lia]. rewrite (Hn E1) in Hw. by apply not_elem_of_nil in Hw. }
  subst a'. unfold vote_counter_finish. destruct (Z.eqb_spec (total_votes cc) 0) as [E0|_]; [lia|]. cbn [account_auths key_auths address_auths weight_threshold].
  pose proof (Z.shiftr_div_pow2 (total_votes cc) 1) as Hsr. change (2 ^ 1) with 2 in Hsr.
  split; [exists (bitshift cc); split; [exact Hs0|exact Ha]|]. rewrite <- Ht.
  split_and!; [exact Hg|done|done|rewrite Hsr by lia; div_lia|].
  unfold is_impossible. cbn [account_auths key_auths address_auths weight_threshold]. change (weights []) with 0.
  rewrite <- Ht. apply Z.ltb_ge. rewrite Hsr by lia. div_lia.
Qed.

(** C14: the active witnesses after an election are those with the most votes, ties
    going to the lower vote identifier: no witness left out has more votes than one
    of them. There are twice as many and one as the stake of the voters asks for,
    at least the number the genesis fixes, and all the witnesses when there are
    fewer.  The authority of the witness account, and of no other account, is
    written: it is that of the accounts of just these witnesses, each with the votes
    the tally has for it, counted from the one with the most votes on. *)
Theorem witnesses_elected t s u s' :
  update_active_witnesses t s = Ok (u, s') ->
  exists none k au cs a,
    head (_witness_count_histogram_buffer t) = Some none
    /\ asked_for (as_int64 (wrap 64 (_total_voting_stake t - none) / 2)) (_witness_count_histogram_buffer t) k
    /\ elected witness_vote_id t (witnesses s)
         (Nat.max (k * 2 + 1) (Z.to_nat (min_witness_count (chain_properties s)))) (active_witnesses (gpo s'))
    /\ active_witnesses (gpo s') ≡ₚ candidate_id <$> cs
    /\ (forall c, c ∈ cs -> witnesses s !! candidate_id c = Some (candidate_of c)
                            /\ vote_at t (witness_vote_id (candidate_of c)) = Ok (candidate_votes c))
    /\ StronglySorted (fun x y => outvotes y x = false) cs
    /\ accounts s !! GRAPHENE_WITNESS_ACCOUNT = Some a
    /\ elected_authority (head_block_time s)
         ((fun c => (witness_account (candidate_of c), candidate_votes c)) <$> cs) (active_authority a) = Ok au
    /\ accounts s' = <[GRAPHENE_WITNESS_ACCOUNT := with_active_authority au a]> (accounts s).
Proof.
  unfold update_active_witnesses, stake_target. intros E. repeat run_ok1.
  match goal with Hc : count_witnesses _ _ = Ok _ |- _ => apply count_witnesses_asked in Hc end.
  match goal with Hs : sort_votable_objects _ _ _ _ = Ok _ |- _ => apply sort_votable_objects_Ok in Hs as (-> & _ & Hmv) end.
  match goal with Hf : update_witness_votes _ _ = Ok _ |- _ => apply update_witness_votes_frame in Hf as [m ->] end.
  op_ok. unfold update_gpo in E. repeat run_ok1. subst. cbn in Lk, Lk0 |- *.
  match goal with Hh : head _ = Some ?n, Ha : asked_for _ _ ?k, He : elected_authority _ _ _ = Ok ?au |- _ =>
    exists n, k, au end.
  match goal with Hm : most_voted _ _ _ _ ?cs |- _ => exists cs end. eexists. split_and!; try done.
  - eapply most_voted_elected; [exact Hmv|]. apply ordered_perm.
  - apply ordered_perm.
  - intros c Hc. destruct (mv_members _ _ _ _ _ Hmv c Hc) as (Hx & Hv & Hn). by rewrite <- Hv.
  - apply Hmv.
Qed.
End Theorems.
End Elections.
