(* ===== verification/Budget.v ===== *)
(** * The budget ([db_maint.cpp], [worker_evaluator.cpp])

    At the end of a maintenance interval a part of the reserve of the core asset
    is set aside for the witnesses until the next one and paid to the workers;
    what was not spent before returns to the reserve. *)
From Stdlib Require Import ZArith Lia String.
From stdpp Require Import base gmap sets list strings sorting.
From S2P Require Import Prelude External Asset Vesting Authority Chain Balance AccountOps AccountEvaluator Votes.

Module Budget.
Import Asset Vesting Authority Chain Balance AccountOps AccountEvaluator Votes.

Definition GRAPHENE_CORE_ASSET_CYCLE_RATE : Z := 17.
Definition GRAPHENE_CORE_ASSET_CYCLE_RATE_BITS : Z := 32.
#[export] Instance budget_record_unique : UniqueKey budget_record_object := fun _ _ => false.

(** ** Workers ([worker_object.hpp]) *)
Definition is_active (w : worker_object) (now : Z) : bool := (work_begin_date w <=? now) && (now <=? work_end_date w).
Definition approving_stake (w : worker_object) : result Z :=
  int64_add (as_int64 (total_votes_for w)) (- as_int64 (total_votes_against w)).
Definition set_worker (x : worker_type) (w : worker_object) : worker_object :=
  mk_worker (worker_account w) (work_begin_date w) (work_end_date w) (daily_pay w) x (worker_name w)
    (worker_url w) (vote_for w) (vote_against w) (total_votes_for w) (total_votes_against w).

Section Budgets.
Context `{SafeOps, U128Ops, IndexOps}.

(** [pay_worker] of the type of the worker. *)
Definition pay_worker (id pay : Z) : M database unit :=
  w ← deref worker_object id;
  match worker w with
  | refund_worker_type total_burned =>
      n ← lift (safe_add total_burned pay);
      core ← get asset_object core_asset;
      dyn ← dynamic_of core;
      _ ← modify dyn (sub_supply pay);
      modify id (fun w => Ok (set_worker (refund_worker_type n) w))
  | vesting_balance_worker_type balance =>
      now ← gets head_block_time;
      _ ← get vesting_balance_object balance;
      modify balance (fun b => deposit b now (mk_asset pay core_asset))
  | burn_worker_type total_burned =>
      n ← lift (safe_add total_burned pay);
      _ ← adjust_balance GRAPHENE_NULL_ACCOUNT (mk_asset pay core_asset);
      modify id (fun w => Ok (set_worker (burn_worker_type n) w))
  end.

(** ** [pay_workers] *)
(** The workers at work that more stake approves than disapproves, with that stake. *)
Fixpoint active_workers (now : Z) (l : list (Z * worker_object)) : result (list (Z * Z)) :=
  match l with
  | [] => Ok []
  | (id, w) :: l' =>
      if is_active w now then
        stake ← approving_stake w;
        ws ← active_workers now l';
        Ok (if 0 <? stake then (id, stake) :: ws else ws)
      else active_workers now l'
  end.
Definition more_approved (x y : Z * Z) : bool := if x.2 =? y.2 then x.1 <? y.1 else y.2 <? x.2.
Definition microseconds (seconds : Z) : Z := seconds * 1000000.
(** The pay since the last budget. *)
Definition requested_pay (daily since : Z) : result Z :=
  if since =? days 1 then Ok daily
  else n ← u128_ratio daily (microseconds since) (microseconds (days 1)); Ok (as_int64 n).
Fixpoint pay_each (l : list Z) (budget : Z) : M database Z :=
  match l with
  | [] => mret budget
  | id :: l' =>
      if 0 <? budget then
        w ← deref worker_object id;
        s ← get_state;
        requested ← lift (requested_pay (daily_pay w) (head_block_time s - last_budget_time (dgp s)));
        let actual_pay := Z.min budget requested in
        _ ← pay_worker id actual_pay;
        budget' ← lift (safe_sub budget actual_pay);
        pay_each l' budget'
      else mret budget
  end.
Definition pay_workers (budget : Z) : M database Z :=
  s ← get_state;
  ws ← lift (active_workers (head_block_time s) (by_id (workers s)));
  pay_each (fst <$> sort_by more_approved ws) budget.

(** ** [initialize_budget_record] *)
(** [asset_object::reserved]. *)
Definition reserved (o : asset_object) (d : asset_dynamic_data_object) : result Z :=
  safe_sub (max_supply (options o)) (current_supply d).
(** A fraction of the reserve for each second, rounded up. *)
Definition cycled (reserve dt : Z) : result Z :=
  let n := u128_mul (u128_mul (u128 reserve) dt) GRAPHENE_CORE_ASSET_CYCLE_RATE in
  budget ← u128_div (u128_add n (2 ^ GRAPHENE_CORE_ASSET_CYCLE_RATE_BITS - 1)) (2 ^ GRAPHENE_CORE_ASSET_CYCLE_RATE_BITS);
  if budget <? u128 reserve then to_uint64 budget else Ok reserve.
Definition initialize_budget_record (now : Z) (s : database) (core : asset_object) (core_dd : asset_dynamic_data_object)
  : result budget_record :=
  initial ← reserved core core_dd;
  let fees := accumulated_fees core_dd in
  let unused := witness_budget (dgp s) in
  let last := last_budget_time (dgp s) in
  if (last =? 0) || (now <=? last) then Ok (mk_budget_record 0 initial fees unused 0 0 0 0 0 0)
  else
    reserve ← safe_add initial fees;
    reserve ← safe_add reserve unused;
    total ← cycled reserve (now - last);
    Ok (mk_budget_record (now - last) initial fees unused 0 total 0 0 0 0).

(** ** [process_budget] *)
Definition witness_budget_of (pay_per_block blocks : Z) : Z := as_int64 (wrap 64 (pay_per_block * blocks)).
Definition worker_budget_of (per_day seconds available : Z) : result Z :=
  n ← u128_div (u128_mul (u128 per_day) seconds) (60 * 60 * 24);
  if u128 available <=? n then Ok available else to_uint64 n.
Definition supply_change (witness_budget worker_budget leftover fees unused : Z) : result Z :=
  n ← safe_add witness_budget worker_budget;
  n ← safe_sub n leftover;
  n ← safe_sub n fees;
  safe_sub n unused.
Definition settle_budget (delta : Z) (expected : Z -> result Z) (d : asset_dynamic_data_object)
  : result asset_dynamic_data_object :=
  n ← safe_add (current_supply d) delta;
  e ← expected (accumulated_fees d);
  _ ← fc_assert (delta =? e) "rec.supply_delta";
  Ok (mk_dynamic_data n (confidential_supply d) 0 (fee_pool d)).
Definition process_budget : M database unit :=
  s ← get_state;
  core ← get asset_object core_asset;
  let dyn := dynamic_asset_data_id core in
  core_dd ← get asset_dynamic_data_object dyn;
  let p := parameters (gpo s) in
  let now := head_block_time s in
  let time_to_maint := next_maintenance_time (dgp s) - now in
  _ ← require (0 <? time_to_maint) "time_to_maint > 0";
  _ ← require (0 <? block_interval p) "gpo.parameters.block_interval > 0";
  let blocks_to_maint := (time_to_maint + block_interval p - 1) / block_interval p in
  rec ← lift (initialize_budget_record now s core core_dd);
  let available_funds := total_budget rec in
  let requested := witness_budget_of (witness_pay_per_block p) blocks_to_maint in
  let for_witnesses := Z.min requested available_funds in
  available_funds ← lift (safe_sub available_funds for_witnesses);
  for_workers ← lift (worker_budget_of (worker_budget_per_day p) time_to_maint available_funds);
  available_funds ← lift (safe_sub available_funds for_workers);
  leftover ← pay_workers for_workers;
  available_funds ← lift (safe_add available_funds leftover);
  delta ← lift (supply_change for_witnesses for_workers leftover (from_accumulated_fees rec) (from_unused_witness_budget rec));
  unused ← gets (fun s => witness_budget (dgp s));
  _ ← modify dyn (settle_budget delta (fun fees => supply_change for_witnesses for_workers leftover fees unused));
  _ ← update_dgp (fun d => with_last_budget_time now (with_witness_budget for_witnesses d));
  _ ← create (mk_budget_record_object now
        (mk_budget_record (time_since_last_budget rec) (from_initial_reserve rec) (from_accumulated_fees rec)
           (from_unused_witness_budget rec) requested (total_budget rec) for_witnesses for_workers leftover delta));
  mret tt.
End Budgets.
End Budget.
