(* ===== verification/AssetEvaluator.v ===== *)
(** * The evaluators of the operations on assets ([asset_evaluator.cpp])

    Creating, issuing, reserving and updating assets, their fee pools and
    fees, price feeds and settlements, as instances of [Evaluator].  Their laws
    and properties are in [AssetLaws]. *)
From Stdlib Require Import ZArith Lia String Ascii.
From stdpp Require Import base gmap sets list strings.
From S2P Require Import Prelude External Asset Vesting Chain Balance Accounting Market Evaluator MarketEvaluator AssetObject Transfers AssetOps.

Module AssetEvaluator.
Import Asset Vesting Chain Balance Accounting Market Evaluator MarketEvaluator AssetObject Transfers AssetOps.

(** [by_symbol] is the only further unique index of the three classes. *)
#[export] Instance asset_unique : UniqueKey asset_object := fun a b => String.eqb (symbol a) (symbol b).
#[export] Instance dynamic_data_unique : UniqueKey asset_dynamic_data_object := fun _ _ => false.
#[export] Instance bitasset_unique : UniqueKey asset_bitasset_data_object := fun _ _ => false.

Definition HARDFORK_385_TIME : Z := 1445558400.
Definition HARDFORK_409_TIME : Z := 1446652800.
Definition HARDFORK_CORE_429_TIME : Z := 1512747600.

(** [std::string::find( '.' )] and [rfind( '.' )], with the prefix before. *)
Definition prefix_before_first_dot (s : string) : option string :=
  match String.index 0 "." s with Some n => Some (String.substring 0 n s) | None => None end.
Fixpoint prefix_before_last_dot (s : string) : option string :=
  match s with
  | EmptyString => None
  | String c s' =>
      match prefix_before_last_dot s' with
      | Some p => Some (String c p)
      | None => if Ascii.eqb c dot then Some EmptyString else None
      end
  end.

Section Evaluators.
Context `{SafeOps, U128Ops, RationalOps, IndexOps, NthOps, TimeOps}.

(** [asset_indx.find( symbol )]. *)
Definition find_symbol (sym : string) (s : database) : iterator :=
  first_with (fun o => String.eqb (symbol o) sym) (map_to_list (assets s)).
(** The loops that look every account of a set up. *)
Definition accounts_exist (l : gset Z) : M database unit :=
  for_each (elements l) (fun id => _ ← get account_object id; mret tt).
Definition size_at_most (l : gset Z) (n : Z) : bool := Z.of_nat (size l) <=? n.
(** [asset_object::validate], with new options. *)
Definition asset_object_validate (market_issued : bool) (o : asset_options) : result unit :=
  if market_issued then Ok tt
  else
    _ ← fc_assert (negb (has_flag (flags o) disable_force_settle || has_flag (flags o) global_settle)) "flags";
    fc_assert (negb (has_flag (issuer_permissions o) disable_force_settle
                     || has_flag (issuer_permissions o) global_settle)) "issuer_permissions".
Definition not_backed_by_core : string :=
  "May not create a blockchain-controlled market asset which is not backed by CORE.".

(** ** [asset_create_evaluator] *)
(** The part of the symbol before a dot names an asset of the same issuer. *)
Definition parent_issuer (issuer_id : Z) (sym : string) : M database unit :=
  itr ← gets (find_symbol sym);
  _ ← require (match itr with Some _ => true | None => false end) "prefix has not been registered";
  p ← at_itr asset_object itr;
  require (issuer (snd p) =? issuer_id) "may only be created by issuer of the prefix".
Definition check_prefix (op : asset_create_operation) : M database unit :=
  now ← gets head_block_time;
  if HARDFORK_385_TIME <? now then
    if now <=? HARDFORK_409_TIME then
      match prefix_before_first_dot (ac_symbol op) with
      | Some _ => parent_issuer (ac_issuer op) (ac_symbol op)
      | None => mret tt
      end
    else
      match prefix_before_last_dot (ac_symbol op) with
      | Some prefix => parent_issuer (ac_issuer op) prefix
      | None => mret tt
      end
  else mret tt.
Definition check_backing (op : asset_create_operation) (b : bitasset_options) : M database unit :=
  let backing := short_backing_asset b in
  o ← get asset_object backing;
  _ ← (if is_market_issued o then
         bid ← bitasset_of backing;
         d ← deref asset_bitasset_data_object bid;
         let backing_backing := short_backing_asset (bitasset_opts d) in
         oo ← get asset_object backing_backing;
         _ ← require (negb (is_market_issued oo)) "May not create a bitasset backed by a bitasset backed by a bitasset.";
         require (negb (ac_issuer op =? GRAPHENE_COMMITTEE_ACCOUNT) || (backing_backing =? core_asset)) not_backed_by_core
       else
         require (negb (ac_issuer op =? GRAPHENE_COMMITTEE_ACCOUNT) || (backing =? core_asset)) not_backed_by_core);
  interval ← gets (fun s => block_interval (parameters (gpo s)));
  require ((interval <? feed_lifetime_sec b) && (interval <? force_settlement_delay_sec b)) "block_interval".
Definition asset_create_evaluate (g : generic_evaluator) (op : asset_create_operation) : M database unit :=
  max_auths ← gets (fun s => maximum_asset_whitelist_authorities (parameters (gpo s)));
  _ ← require (size_at_most (whitelist_authorities (common_options op)) max_auths) "whitelist_authorities";
  _ ← require (size_at_most (blacklist_authorities (common_options op)) max_auths) "blacklist_authorities";
  _ ← accounts_exist (whitelist_authorities (common_options op));
  _ ← accounts_exist (blacklist_authorities (common_options op));
  itr ← gets (find_symbol (ac_symbol op));
  _ ← require (bool_decide (itr = None)) "asset_symbol_itr == asset_indx.end()";
  _ ← check_prefix op;
  _ ← match ac_bitasset_opts op with Some b => check_backing op b | None => mret tt end;
  _ ← when (ac_prediction_market op)
        (b ← lift (of_option (ac_bitasset_opts op) "op.bitasset_opts");
         o ← get asset_object (short_backing_asset b);
         require (ac_precision op =? precision o) "op.precision == backing precision");
  now ← gets head_block_time;
  when (now <=? HARDFORK_CORE_429_TIME)
    (require (asset_id (ac_fee op) =? core_asset) "Can only pay fee in BTS since block #21040000").
Definition with_core_fee (n : Z) (g : generic_evaluator) : generic_evaluator :=
  mk_evaluator (fee_from_account g) n (fee_paying_account g) (fee_asset g) (trx_state g).
(** Half of the fee is paid, rounded up; what is paid is returned. *)
Definition asset_create_pay_fee (trx : transaction_evaluation_state) (g : generic_evaluator)
  : M database Z :=
  paid ← lift (safe_sub (core_fee_paid g) (Z.quot (core_fee_paid g) 2));
  _ ← generic_pay_fee trx (with_core_fee paid g);
  mret paid.
Definition set_new_asset_rate (next : Z) (o : asset_options) : asset_options :=
  let p := options_core_exchange_rate o in
  let p' := if asset_id (base p) =? 0
            then mk_price (base p) (mk_asset (amount (quote p)) next)
            else mk_price (mk_asset (amount (base p)) next) (quote p) in
  mk_asset_options (max_supply o) (market_fee_percent o) (max_market_fee o) (issuer_permissions o) (flags o)
    p' (whitelist_authorities o) (blacklist_authorities o) (whitelist_markets o) (blacklist_markets o).
Definition new_bitasset (op : asset_create_operation) (b : bitasset_options) : asset_bitasset_data_object :=
  mk_bitasset_data b ∅ default_feed 0 (ac_prediction_market op) 0 null_price 0.
Definition asset_create_apply (g : generic_evaluator) (_ : unit) (paid : Z) (op : asset_create_operation)
  : M database Z :=
  now ← gets head_block_time;
  let fee_is_odd := Z.odd (core_fee_paid g) in
  let hf_429 := fee_is_odd && (HARDFORK_CORE_429_TIME <? now) in
  pool ← lift (safe_sub paid (if hf_429 then 1 else 0));
  dyn_asset ← create (mk_dynamic_data 0 0 0 pool);
  _ ← when (fee_is_odd && negb hf_429)
        (core ← get asset_object core_asset;
         core_dd ← dynamic_of core;
         modify core_dd (add_supply 1));
  bit_asset ← match ac_bitasset_opts op with
              | Some b => id ← create (new_bitasset op b); mret (Some id)
              | None => mret None
              end;
  next_asset_id ← gets (next_instance 3);
  create (mk_asset_object (ac_symbol op) (ac_precision op) (ac_issuer op)
            (set_new_asset_rate next_asset_id (common_options op)) dyn_asset bit_asset None).
#[export] Instance asset_create_evaluator : Evaluator asset_create_operation unit Z := {
  fee_payer := ac_issuer;
  op_fee := ac_fee;
  validate := asset_create_validate;
  do_evaluate := asset_create_evaluate;
  pay_fee := asset_create_pay_fee;
  do_apply := asset_create_apply;
}.

(** ** Issuing and reserving; the evaluators keep the dynamic data's identifier. *)
Definition asset_issue_evaluate (g : generic_evaluator) (op : asset_issue_operation) : M database Z :=
  now ← gets head_block_time;
  let x := asset_id (asset_to_issue op) in
  a ← get asset_object x;
  _ ← require (ai_issuer op =? issuer a) "o.issuer == a.issuer";
  _ ← require (negb (is_market_issued a)) "Cannot manually issue a market-issued asset.";
  to_account ← get account_object (issue_to_account op);
  _ ← require (is_authorized_asset now to_account x a) "is_authorized_asset( d, *to_account, a )";
  dyn ← dynamic_of a;
  d ← deref asset_dynamic_data_object dyn;
  n ← lift (safe_add (current_supply d) (amount (asset_to_issue op)));
  _ ← require (n <=? max_supply (options a)) "current_supply + amount <= max_supply";
  mret dyn.
Definition asset_issue_apply (g : generic_evaluator) (dyn : Z) (_ : Z) (op : asset_issue_operation)
  : M database unit :=
  _ ← adjust_balance (issue_to_account op) (asset_to_issue op);
  modify dyn (add_supply (amount (asset_to_issue op))).
#[export] Instance asset_issue_evaluator : Evaluator asset_issue_operation Z unit := {
  fee_payer := ai_issuer;
  op_fee := ai_fee;
  validate := asset_issue_validate;
  do_evaluate := asset_issue_evaluate;
  pay_fee := default_pay_fee;
  do_apply := asset_issue_apply;
}.

Definition asset_reserve_evaluate (g : generic_evaluator) (op : asset_reserve_operation) : M database Z :=
  now ← gets head_block_time;
  let x := asset_id (amount_to_reserve op) in
  a ← get asset_object x;
  _ ← require (negb (is_market_issued a)) "Cannot reserve because it is a market-issued asset";
  from_acct ← get account_object (payer op);
  _ ← require (is_authorized_asset now from_acct x a) "is_authorized_asset( d, *from_account, a )";
  dyn ← dynamic_of a;
  d ← deref asset_dynamic_data_object dyn;
  n ← lift (safe_sub (current_supply d) (amount (amount_to_reserve op)));
  _ ← require (0 <=? n) "current_supply - amount >= 0";
  mret dyn.
Definition asset_reserve_apply (g : generic_evaluator) (dyn : Z) (_ : Z) (op : asset_reserve_operation)
  : M database unit :=
  neg ← lift (asset_neg (amount_to_reserve op));
  _ ← adjust_balance (payer op) neg;
  modify dyn (sub_supply (amount (amount_to_reserve op))).
#[export] Instance asset_reserve_evaluator : Evaluator asset_reserve_operation Z unit := {
  fee_payer := payer;
  op_fee := ar_fee;
  validate := asset_reserve_validate;
  do_evaluate := asset_reserve_evaluate;
  pay_fee := default_pay_fee;
  do_apply := asset_reserve_apply;
}.

(** ** Fee pools and accumulated fees *)
Definition fund_fee_pool_evaluate (g : generic_evaluator) (op : asset_fund_fee_pool_operation) : M database Z :=
  a ← get asset_object (fp_asset op); dynamic_of a.
Definition add_to_pool (x : Z) (d : asset_dynamic_data_object) : result asset_dynamic_data_object :=
  n ← safe_add (fee_pool d) x;
  Ok (mk_dynamic_data (current_supply d) (confidential_supply d) (accumulated_fees d) n).
Definition fund_fee_pool_apply (g : generic_evaluator) (dyn : Z) (_ : Z) (op : asset_fund_fee_pool_operation)
  : M database unit :=
  neg ← lift (safe_neg (fp_amount op));
  _ ← adjust_balance (from_account op) (mk_asset neg core_asset);
  modify dyn (add_to_pool (fp_amount op)).
#[export] Instance fund_fee_pool_evaluator : Evaluator asset_fund_fee_pool_operation Z unit := {
  fee_payer := from_account;
  op_fee := fp_fee;
  validate := asset_fund_fee_pool_validate;
  do_evaluate := fund_fee_pool_evaluate;
  pay_fee := default_pay_fee;
  do_apply := fund_fee_pool_apply;
}.

Definition claim_fees_evaluate (g : generic_evaluator) (op : asset_claim_fees_operation) : M database unit :=
  now ← gets head_block_time;
  _ ← require (HARDFORK_413_TIME <? now) "db().head_block_time() > HARDFORK_413_TIME";
  a ← get asset_object (asset_id (amount_to_claim op));
  require (issuer a =? cf_issuer op) "Asset fees may only be claimed by the issuer".
Definition sub_accumulated (x : Z) (d : asset_dynamic_data_object) : result asset_dynamic_data_object :=
  n ← safe_sub (accumulated_fees d) x;
  Ok (mk_dynamic_data (current_supply d) (confidential_supply d) n (fee_pool d)).
Definition claim_fees_apply (g : generic_evaluator) (_ : unit) (_ : Z) (op : asset_claim_fees_operation)
  : M database unit :=
  a ← get asset_object (asset_id (amount_to_claim op));
  dyn ← dynamic_of a;
  addo ← deref asset_dynamic_data_object dyn;
  _ ← require (amount (amount_to_claim op) <=? accumulated_fees addo) "Attempt to claim more fees than have accumulated";
  _ ← modify dyn (sub_accumulated (amount (amount_to_claim op)));
  adjust_balance (cf_issuer op) (amount_to_claim op).
#[export] Instance claim_fees_evaluator : Evaluator asset_claim_fees_operation unit unit := {
  fee_payer := cf_issuer;
  op_fee := cf_fee;
  validate := asset_claim_fees_validate;
  do_evaluate := claim_fees_evaluate;
  pay_fee := default_pay_fee;
  do_apply := claim_fees_apply;
}.
End Evaluators.
End AssetEvaluator.
