(* ===== verification/AssetText.v ===== *)
(** * Amounts as text and as floating point ([asset_object.cpp])

    [amount_to_string], [amount_from_string] and [amount_to_real]. *)
From Stdlib Require Import ZArith Lia String Ascii.
From stdpp Require Import base gmap sets list strings.
From S2P Require Import Prelude External ObjectId Asset Vesting Float Chain.

Module AssetText.
Import Asset Vesting Float Chain.

Section Text.
Context `{SafeOps, Int64TextOps}.

(** The loop [scaled_precision *= 10]. *)
Fixpoint scale_up (n : nat) (scaled : Z) : result Z :=
  match n with O => Ok scaled | S n' => s ← safe_mul scaled 10; scale_up n' s end.
(** [s.erase( 0, 1 )]. *)
Definition erase_first (s : string) : string := match s with String _ s' => s' | EmptyString => EmptyString end.
Definition amount_to_string (p amount : Z) : result string :=
  scaled ← scale_up (Z.to_nat p) 1;
  let r := int64_to_string (Z.quot amount scaled) in
  let decimals := Z.rem amount scaled in
  Ok (if decimals =? 0 then r else (r ++ "." ++ erase_first (int64_to_string (scaled + decimals)))%string).
Definition amount_to_real (o : asset_object) (amount : Z) : result double :=
  t ← amount_to_string (precision o) amount; Ok (read_double t).

(** [std::stoll]: a sign and at least one digit; the rest is not read. *)
Fixpoint digits_prefix (acc : Z) (l : list ascii) : Z :=
  match l with
  | [] => acc
  | c :: l' => match digit c with Some d => digits_prefix (10 * acc + d) l' | None => acc end
  end.
Definition starts_with_digit (l : list ascii) : bool :=
  match l with c :: _ => match digit c with Some _ => true | None => false end | [] => false end.
Definition unsigned_digits (l : list ascii) : result Z :=
  _ ← fc_assert (starts_with_digit l) "stoll"; Ok (digits_prefix 0 l).
Definition stoll (s : string) : result Z :=
  n ← match list_ascii_of_string s with
      | "-"%char :: l => n ← unsigned_digits l; Ok (- n)
      | l => unsigned_digits l
      end;
  _ ← fc_assert (bool_decide (in_int64 n)) "stoll"; Ok n.
(** The loop over the characters. *)
Fixpoint scan (l : list ascii) (negative_found decimal_found : bool) : result (bool * bool) :=
  match l with
  | [] => Ok (negative_found, decimal_found)
  | c :: l' =>
      if match digit c with Some _ => true | None => false end then scan l' negative_found decimal_found
      else if Ascii.eqb c "-" && negb negative_found then scan l' true decimal_found
      else if Ascii.eqb c "." && negb decimal_found then scan l' negative_found true
      else Throw "amount_string"
  end.
(** [while( rhs.size() < n ) rhs += '0']. *)
Definition pad (n : nat) (s : string) : string := (s ++ string_of_list_ascii (repeat "0"%char (n - String.length s)))%string.
Definition amount_from_string (p : Z) (amount_string : string) : result Z :=
  found ← scan (list_ascii_of_string amount_string) false false;
  let '(negative_found, decimal_found) := found in
  scaled ← scaled_precision p;
  let decimal_pos := ObjectId.find amount_string dot 0 in
  lhs ← ObjectId.substr amount_string (if (negative_found : bool) then 1 else 0) decimal_pos;
  satoshis ← (if (String.length lhs =? 0)%nat then Ok 0
              else n ← stoll lhs; m ← safe_mul n scaled; safe_add 0 m);
  satoshis ← (if (decimal_found : bool) then
                let max_rhs_size := Z.to_nat p in      (* the digits of [scaled] after the first *)
                rhs ← ObjectId.substr amount_string (decimal_pos + 1) ObjectId.npos;
                _ ← fc_assert (String.length rhs <=? max_rhs_size)%nat "rhs.size() <= max_rhs_size";
                let rhs := pad max_rhs_size rhs in
                if (String.length rhs =? 0)%nat then Ok satoshis else n ← stoll rhs; safe_add satoshis n
              else Ok satoshis);
  _ ← fc_assert (satoshis <=? GRAPHENE_MAX_SHARE_SUPPLY) "satoshis <= GRAPHENE_MAX_SHARE_SUPPLY";
  if (negative_found : bool) then safe_mul satoshis (-1) else Ok satoshis.
End Text.

(** ** Reading back *)
Lemma read_digits_value s acc n : digits_value acc (list_ascii_of_string s) = Some n -> read_digits s acc = (n, O).
Proof.
  revert acc. induction s as [|c s IH]; intros acc; cbn; [by intros [= ->]|].
  destruct (digit c); [apply IH|done].
Qed.
Lemma read_double_digits s n :
  s <> ""%string -> digits_value 0 (list_ascii_of_string s) = Some n -> read_double s = decimal n O.
Proof.
  destruct s as [|c s]; [done|]. intros _ E. unfold read_double.
  destruct (Ascii.eqb_spec c "-") as [->|_]; [done|]. by rewrite (read_digits_value _ _ _ E).
Qed.
Lemma amount_to_real_0 `{SafeOps, Int64TextLaws} o d : amount_to_real o 0 = Ok d -> d = dzero.
Proof.
  unfold amount_to_real, amount_to_string. intros E. repeat inv_ok1.
  assert (Hq : forall x, Z.quot 0 x = 0) by (by intros []). assert (Hr : forall x, Z.rem 0 x = 0) by (by intros []).
  rewrite Hq.
  rewrite (read_double_digits _ 0); [done|apply int64_text_nonempty|by apply int64_text_value].
Qed.
End AssetText.
