(* ===== verification/ExchangeRate.v ===== *)
(** * Exchange rates ([exchange_rate_object.cpp], [exchange_rate_evaluator.cpp])

    Active witnesses publish what an asset is worth in core; when enough of them
    have, the median becomes the rate, and votes that stay too few are dropped.
    The chain has one exchange rate object, the first of its index. *)
From Stdlib Require Import ZArith Lia String.
From stdpp Require Import base gmap sets list strings sorting.
From S2P Require Import Prelude External Asset Vesting Authority Float Chain Balance Accounting Market Evaluator MarketEvaluator AssetObject Transfers AssetOps AssetEvaluator.

Module ExchangeRate.
Import Asset Vesting Authority Float Chain Balance Accounting Market Evaluator MarketEvaluator AssetObject Transfers AssetOps AssetEvaluator.

Definition GRAPHENE_SYMBOL : string := "KRM".
#[export] Instance exchange_rate_unique : UniqueKey exchange_rate_object := fun _ _ => false.

(** What the platform makes of incrementing the iterator of an erased element,
    which the loop over the intervals does: the element it then stands on, of
    those that are left.  The language leaves it undefined. *)
Class EraseOps : Type := next_of_erased : string -> list string -> option string.

(** The keys of a [std::map], ascending. *)
Definition keys {A} (m : gmap string A) : list string := merge_sort String.le ((map_to_list m).*1).

Section ExchangeRate.
Context `{SafeOps, U128Ops, IndexOps, EraseOps}.

(** ** [exchange_rate_object] *)
Definition set_current (m : gmap string (gmap Z double)) (e : exchange_rate_object) : exchange_rate_object :=
  mk_exchange_rate m (current_exchange_rate_interval e) (last_exchange_rate e).
Definition set_intervals (m : gmap string (Z * Z)) (e : exchange_rate_object) : exchange_rate_object :=
  mk_exchange_rate (current_exchange_rate e) m (last_exchange_rate e).
Definition set_last (m : gmap string double) (e : exchange_rate_object) : exchange_rate_object :=
  mk_exchange_rate (current_exchange_rate e) (current_exchange_rate_interval e) m.
(** [current_exchange_rate[symbol]]. *)
Definition votes (sym : string) (e : exchange_rate_object) : gmap Z double :=
  default ∅ (current_exchange_rate e !! sym).
Definition voted (sym : string) (e : exchange_rate_object) : list double := (map_to_list (votes sym e)).*2.
Definition at_index (l : list double) (i : Z) : result double :=
  if i <? 0 then Throw dangling else of_option (l !! Z.to_nat i) dangling.
(** [vec_size / 2 - 1] is an unsigned number. *)
Definition median (currency : list double) : result double :=
  let currency := std_sort currency in
  let vec_size := Z.of_nat (length currency) in
  if Z.odd vec_size then at_index currency (vec_size / 2)
  else
    x ← at_index currency (wrap 32 (vec_size / 2 - 1));
    y ← at_index currency (vec_size / 2);
    Ok (ddiv (dadd x y) (double_of_Z 2)).
(** The clock counts in 32 bits. *)
Definition elapsed (now t : Z) : Z := wrap 32 (now - t).
(** The body of the loop for a symbol: the object, and whether its interval was erased. *)
Definition process_rate (o : credit_options) (now : Z) (sym : string) (e : exchange_rate_object)
  : result (exchange_rate_object * bool) :=
  match current_exchange_rate_interval e !! sym with
  | None => Throw dangling
  | Some (start, last_check) =>
      if exchange_rate_set_min_interval o <=? elapsed now last_check then
        let e := set_current (<[sym := votes sym e]> (current_exchange_rate e)) e in
        let enough := min_witnesses_for_exchange_rate o <=? Z.of_nat (size (votes sym e)) in
        e' ← (if enough then
               m ← median (voted sym e); Ok (set_last (<[sym := m]> (last_exchange_rate e)) e)
             else Ok (set_intervals (<[sym := (start, now)]> (current_exchange_rate_interval e)) e));
        if enough || (exchange_rate_set_max_interval o <=? elapsed now start) then
          Ok (set_intervals (delete sym (current_exchange_rate_interval e'))
                (set_current (<[sym := (∅ : gmap Z double)]> (current_exchange_rate e')) e'), true)
        else Ok (e', false)
      else Ok (e, false)
  end.
Fixpoint next_key (sym : string) (l : list string) : option string :=
  match l with [] => None | k :: l' => if String.eqb k sym then head l' else next_key sym l' end.
(** [for( it = begin(); it != end(); it++ )].  When the body erased the element the
    iterator stands on, incrementing it is undefined; [next_of_erased], a parameter
    of the model, says where the platform goes on, and nothing is assumed of it. *)
Fixpoint process_rates (fuel : nat) (o : credit_options) (now : Z) (it : option string) (e : exchange_rate_object)
  : result exchange_rate_object :=
  match it with
  | None => Ok e
  | Some sym =>
      match fuel with
      | O => Throw out_of_fuel
      | S fuel' =>
          r ← process_rate o now sym e;
          let l := keys (current_exchange_rate_interval (fst r)) in
          process_rates fuel' o now (if (snd r : bool) then next_of_erased sym l else next_key sym l) (fst r)
      end
  end.
(** A step erases an interval or moves forward. *)
Definition process_fuel (e : exchange_rate_object) : nat :=
  let n := size (current_exchange_rate_interval e) in S n * S n.
Definition process (e : exchange_rate_object) (s : database) : result exchange_rate_object :=
  process_rates (process_fuel e) (get_credit_options (extensions (parameters (gpo s)))) (head_block_time s)
    (head (keys (current_exchange_rate_interval e))) e.

(** [*e.begin()] of the index. *)
Definition exchange_rate_id (s : database) : result Z :=
  of_option (fst <$> head (ordered (fun x y => x.1 <? y.1) (map_to_list (exchange_rates s)))) dangling.
Definition process_exchange_rates : M database unit :=
  s ← get_state;
  id ← lift (exchange_rate_id s);
  modify id (fun e => process e s).
Definition get_exchange_rate_by_symbol (sym : string) : M database double :=
  s ← get_state;
  id ← lift (exchange_rate_id s);
  e ← deref exchange_rate_object id;
  lift (of_option (last_exchange_rate e !! sym) "Exchange rate has not been set").

(** ** [exchange_rate_set_evaluator] *)
Definition exchange_rate_set_validate (op : exchange_rate_set_operation) : result unit :=
  _ ← fc_assert (0 <? Z.of_nat (length (er_exchange_rate op))) "No one asset value is set!";
  fc_assert (forallb (fun x => dlt dzero x.2) (er_exchange_rate op)) "Exchange rate must be greater then zero!".
Definition witness_by_account (account : Z) (s : database) : option Z :=
  first_with (fun w => witness_account w =? account) (map_to_list (witnesses s)).
Definition check_rate (x : string * double) : M database unit :=
  itr ← gets (find_symbol x.1);
  _ ← require (negb (String.eqb x.1 GRAPHENE_SYMBOL)) "It is forbidden to set exchange rate for core asset";
  _ ← require (bool_decide (itr <> None)) "Could not find asset matching";
  require (dlt dzero x.2) "Exchange rate must be greater then zero!".
Definition exchange_rate_set_evaluate (g : generic_evaluator) (op : exchange_rate_set_operation) : M database unit :=
  s ← get_state;
  w ← lift (of_option (witness_by_account (er_witness op) s) "Only witness can set exchange rate!");
  _ ← require (bool_decide (w ∈ active_witnesses (gpo s))) "Only active witness can set exchange rate!";
  for_each (er_exchange_rate op) check_rate.
Definition set_rate (now witness : Z) (x : string * double) (e : exchange_rate_object) : exchange_rate_object :=
  let e := set_current (<[x.1 := <[witness := x.2]> (votes x.1 e)]> (current_exchange_rate e)) e in
  match current_exchange_rate_interval e !! x.1 with
  | Some _ => e
  | None => set_intervals (<[x.1 := (now, now)]> (current_exchange_rate_interval e)) e
  end.
Definition exchange_rate_set_apply (g : generic_evaluator) (_ : unit) (_ : Z) (op : exchange_rate_set_operation)
  : M database unit :=
  s ← get_state;
  id ← lift (exchange_rate_id s);
  modify id (fun e => Ok (fold_left (fun e x => set_rate (head_block_time s) (er_witness op) x e) (er_exchange_rate op) e)).
#[export] Instance exchange_rate_set_evaluator : Evaluator exchange_rate_set_operation unit unit := {
  fee_payer := er_witness;
  op_fee := er_fee;
  validate := exchange_rate_set_validate;
  do_evaluate := exchange_rate_set_evaluate;
  pay_fee := default_pay_fee;
  do_apply := exchange_rate_set_apply;
}.
End ExchangeRate.
End ExchangeRate.
