(* ===== verification/Credit.v ===== *)
(** * Credits ([credit_object.cpp], [credit_evaluator.cpp],
    [account_object.cpp])

    A borrower asks for a loan, with a deposit or without; a creditor accepts;
    every month the chain moves the payment to the creditor, or starts the grace
    period, and after it settles from the deposit or closes the credit.
    A credit with a deposit is also closed when the deposit lost its value.
    The history a credit keeps as text and as JSON is left out: nothing reads it.
    Dates with months are those of the date library, a parameter. *)
From Stdlib Require Import ZArith Lia String SpecFloat.
From stdpp Require Import base gmap sets list strings.
From S2P Require Import Prelude External Asset Vesting Authority Float Chain Balance Accounting Market Evaluator MarketEvaluator AssetText ExchangeRate.

Module Credit.
Import Asset Vesting Authority Float Chain Balance Accounting Market Evaluator MarketEvaluator AssetText ExchangeRate.

(** [boost::gregorian::month_iterator]: the day [n] months after a day, both
    counted from the epoch of the clock. *)
Class CalendarOps : Type := add_months : Z -> Z -> Z.
(** The identifier made from the instance of a credit and its time. *)
Class UuidOps : Type := uuid_of : Z -> Z -> string.

#[export] Instance credit_unique : UniqueKey credit_object := fun _ _ => false.

Definition DEPOSIT_PERSENT : Z := 300.
Definition KARMA_MIN_VALUE : double := dzero.
Definition KARMA_MAX_VALUE : double := decimal 5 0.
Definition KARMA_BONUS_FOR_MONTHLY_PAYMENT : double := decimal 5 2.
Definition KARMA_BONUS_FOR_CREDIT_PAYMENT : double := decimal 2 1.
Definition KARMA_PENALTY_FOR_MONTHLY_DELAY : double := decimal (-1) 1.
Definition KARMA_PENALTY_FOR_CREDIT_DEFAULT : double := decimal (-5) 1.
Definition SPECIAL_CONVERSION_ACCOUNT : string := "karma".

(** The fields a credit's life changes. *)
Definition with_deposit (x : asset) (c : credit_object) : credit_object :=
  let b := borrower_of c in
  mk_credit (object_uuid c) (status c)
    (mk_borrower (credit_borrower b) (loan_memo b) (loan_asset b) (loan_persent b) (loan_period b) x (collateral_free b))
    (request_creation_time c) (creditor_of c) (request_approvation_time c) (settle_month_elapsed c)
    (expired_time_start c) (comments c).
Definition with_status (x : e_credit_object_status) (c : credit_object) : credit_object :=
  mk_credit (object_uuid c) x (borrower_of c) (request_creation_time c) (creditor_of c)
    (request_approvation_time c) (settle_month_elapsed c) (expired_time_start c) (comments c).
Definition with_elapsed (n : Z) (c : credit_object) : credit_object :=
  mk_credit (object_uuid c) (status c) (borrower_of c) (request_creation_time c) (creditor_of c)
    (request_approvation_time c) n (expired_time_start c) (comments c).
Definition with_expired (t : Z) (c : credit_object) : credit_object :=
  mk_credit (object_uuid c) (status c) (borrower_of c) (request_creation_time c) (creditor_of c)
    (request_approvation_time c) (settle_month_elapsed c) t (comments c).
Definition with_comments (m : gmap string Z) (c : credit_object) : credit_object :=
  mk_credit (object_uuid c) (status c) (borrower_of c) (request_creation_time c) (creditor_of c)
    (request_approvation_time c) (settle_month_elapsed c) (expired_time_start c) m.
Definition approve (creditor : creditor_info) (now : Z) (c : credit_object) : credit_object :=
  mk_credit (object_uuid c) in_progress (borrower_of c) (request_creation_time c) creditor now 0
    (expired_time_start c) (comments c).
Definition loan_id (c : credit_object) : Z := asset_id (loan_asset (borrower_of c)).
Definition deposit_of (c : credit_object) : asset := deposit_asset (borrower_of c).
Definition deposit_id (c : credit_object) : Z := asset_id (deposit_of c).
Definition borrower_id (c : credit_object) : Z := credit_borrower (borrower_of c).
Definition creditor_id (c : credit_object) : Z := creditor_account (creditor_of c).
Definition payment (c : credit_object) : double := monthly_payment (creditor_of c).

(** Products of 32-bit unsigned numbers. *)
Definition mul32 (a b : Z) : Z := wrap 32 (a * b).

Section Credit.
Context `{SafeOps, U128Ops, IndexOps, Int64TextOps, MathOps, CalendarOps, UuidOps}.

(** ** Karma ([account_object::update_karma], [update_account_karma]) *)
Definition update_karma (amount : float32) (a : account_object) : account_object :=
  let k := fadd (karma a) amount in
  let k := if dlt (double_of k) KARMA_MIN_VALUE then float_of KARMA_MIN_VALUE else k in
  let k := if dlt KARMA_MAX_VALUE (double_of k) then float_of KARMA_MAX_VALUE else k in
  with_karma k a.
Definition add_history_entry (e : karma_history_entry) (h : account_history_of_karma_object) : account_history_of_karma_object :=
  mk_karma_history (karma_account h) (karma_history h ++ [e]).
Definition karma_histories (s : database) : list (Z * account_history_of_karma_object) :=
  ordered (fun x y => x.1 <? y.1) (map_to_list (account_histories_of_karma s)).
Definition update_account_karma (account : Z) (amount : float32) (info : string) : M database unit :=
  _ ← get account_object account;
  _ ← modify account (fun a => Ok (update_karma amount a));
  s ← get_state;
  for_each (karma_histories s) (fun kh =>
    when (karma_account kh.2 =? account)
      (modify kh.1 (fun h => Ok (add_history_entry (mk_karma_entry (head_block_time s) amount info) h)))).

(** ** Amounts *)
Definition power_of_ten (p : Z) : double := pow (double_of_Z 10) (double_of_Z p).
(** [asset( x * pow( 10, o.precision ), id )]. *)
Definition asset_of (x : double) (o : asset_object) (id : Z) : result asset :=
  n ← int64_of (dmul x (power_of_ten (precision o))); Ok (mk_asset n id).
Definition balance_real (account id : Z) (o : asset_object) (s : database) : result double :=
  amount_to_real o (amount (get_balance account id s)).
Definition calculate_monthly_payment (loan_sum annual_loan_rate : double) (loan_period_in_moths : Z) : double :=
  let p := ddiv (ddiv annual_loan_rate (double_of_Z 12)) (double_of_Z 100) in
  let n := double_of_Z loan_period_in_moths in
  let t := dsub (pow (dadd (double_of_Z 1) p) n) (double_of_Z 1) in
  dmul loan_sum (dadd p (ddiv p t)).
Definition account_by_name (name : string) (s : database) : option Z :=
  first_with (fun a => String.eqb (account_name a) name) (map_to_list (accounts s)).

(** ** Settling *)
Definition settle_monthly_payment (c : credit_object) : M database credit_object :=
  loan ← get asset_object (loan_id c);
  _ ← get asset_object (deposit_id c);
  tmp ← lift (asset_of (payment c) loan (loan_id c));
  neg ← lift (asset_neg tmp);
  _ ← adjust_balance (borrower_id c) neg;
  _ ← adjust_balance (creditor_id c) tmp;
  _ ← update_account_karma (borrower_id c) (float_of KARMA_BONUS_FOR_MONTHLY_PAYMENT) "Settle monthly payment complete normal.";
  mret (with_expired 0 c).
Definition complete_credit_operation_ubnormal (c : credit_object) : M database credit_object :=
  _ ← get asset_object (deposit_id c);
  loan ← get asset_object (loan_id c);
  s ← get_state;
  loan_left_on_borrower_account ← lift (balance_real (borrower_id c) (loan_id c) loan s);
  loan_asset_to_creditor ← lift (asset_of loan_left_on_borrower_account loan (loan_id c));
  neg ← lift (asset_neg loan_asset_to_creditor);
  _ ← adjust_balance (borrower_id c) neg;
  _ ← adjust_balance (creditor_id c) loan_asset_to_creditor;
  _ ← update_account_karma (borrower_id c) (float_of KARMA_PENALTY_FOR_CREDIT_DEFAULT) "Credit complete ubnormal.";
  mret (with_status complete_ubnormal c).
(** The conversion of a deposit through the special account, under the condition
    that what the borrower paid and what the creditor receives differ in kind. *)
Definition convert_deposit (from_borrower to_creditor from_deposit : asset) (deposit loan : asset_object)
    (deposit_exchange_rate loan_exchange_rate : double) : M database unit :=
  when (negb (asset_id from_borrower =? asset_id to_creditor))
    (s ← get_state;
     karma_id ← lift (of_option (account_by_name SPECIAL_CONVERSION_ACCOUNT s) dangling);
     _ ← adjust_balance karma_id from_deposit;
     d ← lift (amount_to_real deposit (amount from_deposit));
     let loan_need_to_be_balanced := ddiv (dmul d deposit_exchange_rate) loan_exchange_rate in
     _ ← get asset_dynamic_data_object (dynamic_asset_data_id loan);
     modify (dynamic_asset_data_id loan) (fun x =>
       n ← int64_of (dmul loan_need_to_be_balanced (power_of_ten (precision loan))); add_supply n x)).
(** What settling takes from the borrower and the deposit and gives the creditor. *)
Definition move_settlement (from_borrower to_creditor from_deposit : asset) (deposit loan : asset_object)
    (deposit_exchange_rate loan_exchange_rate : double) (c : credit_object) : M database credit_object :=
  neg ← lift (asset_neg from_borrower);
  _ ← adjust_balance (borrower_id c) neg;
  _ ← adjust_balance (creditor_id c) to_creditor;
  left_ ← lift (asset_sub (deposit_of c) from_deposit);
  _ ← convert_deposit from_borrower to_creditor from_deposit deposit loan deposit_exchange_rate loan_exchange_rate;
  mret (with_deposit left_ c).
Definition settle_from_deposit (c : credit_object) : M database credit_object :=
  deposit ← get asset_object (deposit_id c);
  loan ← get asset_object (loan_id c);
  deposit_left ← lift (amount_to_real deposit (amount (deposit_of c)));
  if deq deposit_left dzero then complete_credit_operation_ubnormal c
  else
    deposit_exchange_rate ← get_exchange_rate_by_symbol (symbol deposit);
    loan_exchange_rate ← get_exchange_rate_by_symbol (symbol loan);
    s ← get_state;
    loan_left ← lift (balance_real (borrower_id c) (loan_id c) loan s);
    let debt_in_deposit := ddiv (dmul (dsub (payment c) loan_left) loan_exchange_rate) deposit_exchange_rate in
    from_borrower ← lift (asset_of loan_left loan (loan_id c));
    from_deposit ← lift (asset_of debt_in_deposit deposit (deposit_id c));
    to_creditor ← lift (asset_of (payment c) loan (loan_id c));
    let fail := dlt deposit_left debt_in_deposit in
    paid ← (if fail then
              let loan_from_all_deposit := ddiv (dmul deposit_left deposit_exchange_rate) loan_exchange_rate in
              to_creditor ← lift (asset_of (dadd loan_from_all_deposit loan_left) loan (loan_id c));
              from_deposit ← lift (asset_of deposit_left deposit (deposit_id c));
              mret (to_creditor, from_deposit)
            else mret (to_creditor, from_deposit));
    c ← move_settlement from_borrower (fst paid) (snd paid) deposit loan deposit_exchange_rate loan_exchange_rate c;
    if fail then complete_credit_operation_ubnormal c else mret (with_expired 0 c).
Definition complete_credit_operation (c : credit_object) : M database credit_object :=
  _ ← get asset_object (deposit_id c);
  _ ← adjust_balance (borrower_id c) (deposit_of c);
  _ ← update_account_karma (borrower_id c) (float_of KARMA_BONUS_FOR_CREDIT_PAYMENT) "Credit complete normal.";
  mret (with_status complete_normal (with_deposit (mk_asset 0 (deposit_id c)) c)).
Definition credit_parameters (s : database) : credit_options := get_credit_options (extensions (parameters (gpo s))).
Definition check_expired_pay_time (c : credit_object) : M database credit_object :=
  s ← get_state;
  let max_days := max_credit_expiration_days (credit_parameters s) in
  if (expired_time_start c =? 0) && negb (max_days =? 0) then
    loan ← get asset_object (loan_id c);
    _ ← lift (asset_of (payment c) loan (loan_id c));
    _ ← update_account_karma (borrower_id c) (float_of KARMA_PENALTY_FOR_MONTHLY_DELAY)
          "Settle monthly payment complete ubnormal: insufficient balance.";
    mret (with_expired (head_block_time s) c)
  else
    let max_credit_expiration_time := mul32 max_days (seconds_per_day (credit_parameters s)) in
    if max_credit_expiration_time <=? elapsed (head_block_time s) (expired_time_start c) then
      if collateral_free (borrower_of c) then complete_credit_operation_ubnormal c else settle_from_deposit c
    else mret c.
Definition on_next_month (c : credit_object) : M database credit_object :=
  _ ← get account_object (borrower_id c);
  loan ← get asset_object (loan_id c);
  payment ← lift (asset_of (payment c) loan (loan_id c));
  s ← get_state;
  sufficient_balance ← lift (asset_ge (get_balance (borrower_id c) (loan_id c) s) payment);
  c ← (if (sufficient_balance : bool) then settle_monthly_payment c else check_expired_pay_time c);
  if bool_decide (status c = complete_ubnormal) then mret c
  else if expired_time_start c =? 0 then mret (with_elapsed (wrap 32 (settle_month_elapsed c + 1)) c)
  else mret c.
(** The stop-loss order; [true] when the deposit is still worth enough. *)
Definition check_deposit_quotes (c : credit_object) : M database (credit_object * bool) :=
  deposit ← get asset_object (deposit_id c);
  loan ← get asset_object (loan_id c);
  deposit_exchange_rate ← get_exchange_rate_by_symbol (symbol deposit);
  loan_exchange_rate ← get_exchange_rate_by_symbol (symbol loan);
  deposit_left ← lift (amount_to_real deposit (amount (deposit_of c)));
  loan_sum ← lift (amount_to_real loan (amount (loan_asset (borrower_of c))));
  let deposit_in_core := dmul deposit_left deposit_exchange_rate in
  let loan_in_core := dmul loan_sum loan_exchange_rate in
  if dlt (dmul (ddiv loan_in_core (double_of_Z 100)) (double_of_Z (DEPOSIT_PERSENT / 2))) deposit_in_core then mret (c, true)
  else
    s ← get_state;
    let loan_for_return := dmul (payment c) (double_of_Z (wrap 32 (loan_period (borrower_of c) - settle_month_elapsed c))) in
    loan_left ← lift (balance_real (borrower_id c) (loan_id c) loan s);
    ideal ← lift (asset_of loan_for_return loan (loan_id c));
    paid ← (if dlt loan_left loan_for_return then
              from_borrower ← lift (asset_of loan_left loan (loan_id c));
              let debt_in_deposit := ddiv (dmul (dsub loan_for_return loan_left) loan_exchange_rate) deposit_exchange_rate in
              from_deposit ← lift (asset_of debt_in_deposit deposit (deposit_id c));
              if dlt deposit_left debt_in_deposit then
                let loan_from_all_deposit := ddiv (dmul deposit_left deposit_exchange_rate) loan_exchange_rate in
                to_creditor ← lift (asset_of (dadd loan_from_all_deposit loan_left) loan (loan_id c));
                from_deposit ← lift (asset_of deposit_left deposit (deposit_id c));
                mret (from_borrower, to_creditor, from_deposit)
              else mret (from_borrower, ideal, from_deposit)
            else mret (ideal, ideal, mk_asset 0 (deposit_id c)));
    c ← move_settlement (fst (fst paid)) (snd (fst paid)) (snd paid) deposit loan deposit_exchange_rate loan_exchange_rate c;
    _ ← adjust_balance (borrower_id c) (deposit_of c);
    mret (with_status complete_ubnormal (with_deposit (mk_asset 0 (deposit_id c)) c), false).

(** ** The life of a credit *)
Definition day_of (t : Z) : Z := t / 86400.
(** The seconds from the acceptance to the next pay day. *)
Definition next_pay_total_secs (c : credit_object) (s : database) : Z :=
  let start_day := day_of (request_approvation_time c) in
  let pay_day := add_months (start_day - 1) (settle_month_elapsed c + 1) in
  mul32 (pay_day - start_day) (seconds_per_day (credit_parameters s)).
Definition process_credit (c : credit_object) : M database credit_object :=
  if bool_decide (status c = in_progress) then
    checked ← (if collateral_free (borrower_of c) then mret (c, true) else check_deposit_quotes c);
    if snd checked : bool then
      let c := fst checked in
      s ← get_state;
      if (next_pay_total_secs c s <=? head_block_time s - request_approvation_time c) || negb (expired_time_start c =? 0) then
        c ← on_next_month c;
        if loan_period (borrower_of c) <=? settle_month_elapsed c then complete_credit_operation c else mret c
      else mret c
    else mret (fst checked)
  else mret c.
(** [modify( *itr, []( credit_object& b ) { b.process( this ); } )]. *)
Definition process_one (id : Z) : M database unit :=
  c ← deref credit_object id;
  c' ← process_credit c;
  modify id (fun _ => Ok c').
Definition credit_queue (s : database) : list Z :=
  fst <$> ordered (fun x y => request_creation_time x.2 <? request_creation_time y.2) (map_to_list (credits s)).
Definition process_credit_stories : M database unit :=
  s ← get_state; for_each (credit_queue s) process_one.
End Credit.

(** What the credits and the exchange rates use of the platform. *)
Class CreditOps : Type := {
  #[global] credit_text :: Int64TextOps;
  #[global] credit_math :: MathOps;
  #[global] credit_calendar :: CalendarOps;
  #[global] credit_uuid :: UuidOps;
  #[global] credit_erase :: EraseOps;
}.
Class CreditOpsLaws `{CreditOps} : Prop := { #[global] credit_text_laws :: Int64TextLaws }.

(** ** A platform for concrete runs *)
Module RefCredit.
Import Ref.
(** Whole powers, by repeated multiplication. *)
Definition whole_power (x y : double) : double :=
  match int64_of y with
  | Ok n => if 0 <=? n then Nat.iter (Z.to_nat n) (dmul x) (double_of_Z 1) else S754_nan
  | Throw _ => S754_nan
  end.
(** The Gregorian calendar: the year, month and day of a day counted from
    1970-01-01, and back. *)
Definition civil (day : Z) : Z * Z * Z :=
  let z := day + 719468 in
  let era := z / 146097 in
  let doe := z mod 146097 in
  let yoe := (doe - doe / 1460 + doe / 36524 - doe / 146096) / 365 in
  let doy := doe - (365 * yoe + yoe / 4 - yoe / 100) in
  let mp := (5 * doy + 2) / 153 in
  let m := if mp <? 10 then mp + 3 else mp - 9 in
  (yoe + era * 400 + (if m <=? 2 then 1 else 0), m, doy - (153 * mp + 2) / 5 + 1).
Definition from_civil (y m d : Z) : Z :=
  let y := if m <=? 2 then y - 1 else y in
  let era := y / 400 in
  let yoe := y mod 400 in
  let doy := (153 * (if 2 <? m then m - 3 else m + 9) + 2) / 5 + d - 1 in
  era * 146097 + (yoe * 365 + yoe / 4 - yoe / 100 + doy) - 719468.
Definition days_in_month (y m : Z) : Z :=
  let (y', m') := if m =? 12 then (y + 1, 1) else (y, m + 1) in from_civil y' m' 1 - from_civil y m 1.
(** The last day of a month goes to the last day. *)
Definition month_later (day n : Z) : Z :=
  let '(y, m, d) := civil day in
  let k := 12 * y + (m - 1) + n in
  let '(y', m') := (k / 12, k mod 12 + 1) in
  let len := days_in_month y' m' in
  from_civil y' m' (if d =? days_in_month y m then len else Z.min d len).
#[export] Instance credit_ops : CreditOps := {
  credit_text := int64_text_ops;
  credit_math := whole_power;
  credit_calendar := month_later;
  credit_uuid := fun id _ => int64_text_ops id;
  credit_erase := fun sym l => list_find (fun k => String.ltb sym k = true) l ≫= fun x => Some x.2;
}.
#[export] Instance credit_laws : CreditOpsLaws.
Proof. split. exact int64_text_laws. Qed.
Example month_ends : from_civil 2000 2 29 = 11016 /\ month_later 11016 1 = from_civil 2000 3 31 /\ month_later (from_civil 2019 12 15) 2 = from_civil 2020 2 15.
Proof. vm_compute. done. Qed.
End RefCredit.
End Credit.
