(* ===== verification/CreditEvaluator.v ===== *)
(** * The operations on credits ([credit_evaluator.cpp],
    [protocol/credit.cpp])

    Requesting, accepting, cancelling, commenting and paying back a credit, as
    instances of [Evaluator].  A credit is found by its identifier text. *)
From Stdlib Require Import ZArith Lia String.
From stdpp Require Import base gmap sets list strings.
From S2P Require Import Prelude External Asset Vesting Authority Float Chain Balance Accounting Market Evaluator MarketEvaluator AssetText ExchangeRate Credit.

Module CreditEvaluator.
Import Asset Vesting Authority Float Chain Balance Accounting Market Evaluator MarketEvaluator AssetText ExchangeRate Credit.

(** The validation of the five operations. *)
Definition positive_fee (fee : asset) : result unit := fc_assert (0 <? amount fee) "fee.amount > 0".

Section Evaluators.
Context `{SafeOps, U128Ops, IndexOps, CreditOps}.

Definition bonus_parameters (s : database) : credit_referrer_bonus_options :=
  get_bonus_options (extensions (parameters (gpo s))).
(** [for( itr = by_uuid.begin(); ... ) if( itr->object_uuid == uuid ) ... break;]. *)
Definition find_credit (uuid : string) (s : database) : option Z :=
  first_with (fun c => String.eqb (object_uuid c) uuid)
    (ordered (fun x y => String.ltb (object_uuid x.2) (object_uuid y.2)) (map_to_list (credits s))).
Definition credit_with (uuid : string) : M database (Z * credit_object) :=
  s ← get_state;
  id ← lift (of_option (find_credit uuid s) "credit request not found!");
  c ← deref credit_object id;
  mret (id, c).

(** ** [credit_request_evaluator] *)
Definition nonzero (d : double) : bool := negb (deq d dzero).
Definition credit_request_evaluate (g : generic_evaluator) (op : credit_request_operation) : M database unit :=
  _ ← get account_object (cr_borrower op);
  deposit ← get asset_object (asset_id (cr_deposit_asset op));
  loan ← get asset_object (asset_id (cr_loan_asset op));
  deposit_sum ← lift (amount_to_real deposit (amount (cr_deposit_asset op)));
  _ ← require (negb (dlt deposit_sum dzero)) "deposit can't be < 0";
  loan_sum ← lift (amount_to_real loan (amount (cr_loan_asset op)));
  _ ← require (negb (dlt loan_sum dzero)) "loan can't be < 0";
  deposit_in_core ← (if nonzero deposit_sum then
                       rate ← get_exchange_rate_by_symbol (symbol deposit); mret (dmul deposit_sum rate)
                     else mret dzero);
  loan_exchange_rate ← get_exchange_rate_by_symbol (symbol loan);
  let loan_in_core := dmul loan_sum loan_exchange_rate in
  _ ← require (negb (cr_loan_period op =? 0)) "Loan period can't be 0";
  _ ← require (negb (cr_loan_persent op =? 0)) "Loan persent can't be 0";
  if nonzero deposit_sum then
    _ ← require (negb (dlt deposit_in_core (dmul (ddiv loan_in_core (double_of_Z 100)) (double_of_Z DEPOSIT_PERSENT))))
          "Deposit less % of credit";
    s ← get_state;
    require (amount (cr_deposit_asset op) <=? amount (get_balance (cr_borrower op) (asset_id (cr_deposit_asset op)) s))
      "Insufficient Balance"
  else
    s ← get_state;
    when (HARDFORK_CORE_KARMA_2_TIME <=? head_block_time s)
      (require (bool_decide (account_by_name (special_account_name (bonus_parameters s)) s <> None)) "No special account found").
Definition new_credit (op : credit_request_operation) (instance now : Z) (free : bool) : credit_object :=
  mk_credit (uuid_of instance now) wating_for_acceptance
    (mk_borrower (cr_borrower op) (cr_loan_memo op) (cr_loan_asset op) (double_of_Z (cr_loan_persent op))
       (cr_loan_period op) (cr_deposit_asset op) free)
    now (mk_creditor 0 "" dzero) 0 0 0 ∅.
Definition credit_request_apply (g : generic_evaluator) (_ : unit) (_ : Z) (op : credit_request_operation) : M database Z :=
  s ← get_state;
  deposit ← get asset_object (asset_id (cr_deposit_asset op));
  deposit_sum ← lift (amount_to_real deposit (amount (cr_deposit_asset op)));
  _ ← get account_object (cr_borrower op);
  id ← create (new_credit op (next_instance (type_id (A := credit_object)) s) (head_block_time s) (negb (nonzero deposit_sum)));
  neg ← lift (asset_neg (cr_deposit_asset op));
  _ ← adjust_balance (cr_borrower op) neg;
  mret id.
#[export] Instance credit_request_evaluator : Evaluator credit_request_operation unit Z := {
  fee_payer := cr_borrower;
  op_fee := cr_fee;
  validate op := positive_fee (cr_fee op);
  do_evaluate := credit_request_evaluate;
  pay_fee := default_pay_fee;
  do_apply := credit_request_apply;
}.

(** ** [credit_approve_evaluator] *)
Definition no_evaluation {Op : Type} (g : generic_evaluator) (op : Op) : M database unit := mret tt.
(** [int64_t * double / 100]. *)
Definition percent_of (n : Z) (p : double) (id : Z) : result asset :=
  x ← int64_of (ddiv (dmul (double_of_Z n) p) (double_of_Z 100)); Ok (mk_asset x id).
Definition referrer_percent (account : Z) (bonus : float32) : M database double :=
  s ← get_state;
  a ← get account_object account;
  mret (if head_block_time s <? credit_referrer_expiration_date a then double_of bonus else dzero).
(** The bonuses of the special account and of the referrers come out of the loan. *)
Definition pay_loan (c : credit_object) : M database unit :=
  s ← get_state;
  let loan := loan_asset (borrower_of c) in
  if HARDFORK_CORE_KARMA_2_TIME <=? head_block_time s then
    let bo := bonus_parameters s in
    special_account_id ← lift (of_option (account_by_name (special_account_name bo) s) dangling);
    creditor_percent ← referrer_percent (creditor_id c) (creditor_referrer_bonus bo);
    borrower_percent ← referrer_percent (borrower_id c) (borrower_referrer_bonus bo);
    let special_account_percent := dsub (dsub (double_of (karma_account_bonus bo)) borrower_percent) creditor_percent in
    for_creditor ← lift (percent_of (amount loan) creditor_percent (loan_id c));
    for_borrower ← lift (percent_of (amount loan) borrower_percent (loan_id c));
    to_special ← lift (percent_of (amount loan) special_account_percent (loan_id c));
    creditor ← get account_object (creditor_id c);
    _ ← adjust_balance (credit_referrer creditor) for_creditor;
    borrower ← get account_object (borrower_id c);
    _ ← adjust_balance (credit_referrer borrower) for_borrower;
    _ ← adjust_balance special_account_id to_special;
    rest ← lift (asset_sub loan for_creditor);
    rest ← lift (asset_sub rest for_borrower);
    rest ← lift (asset_sub rest to_special);
    adjust_balance (borrower_id c) rest
  else adjust_balance (borrower_id c) loan.
Definition credit_approve_apply (g : generic_evaluator) (_ : unit) (_ : Z) (op : credit_approve_operation) : M database Z :=
  x ← credit_with (ca_credit_request_uuid op);
  let id := fst x in
  let c := snd x in
  _ ← require (bool_decide (status c = wating_for_acceptance)) "credit request allready accepted!";
  _ ← get account_object (ca_creditor op);
  loan ← get asset_object (loan_id c);
  s ← get_state;
  _ ← require (amount (loan_asset (borrower_of c)) <=? amount (get_balance (ca_creditor op) (loan_id c) s)) "Insufficient Balance";
  loan_sum ← lift (amount_to_real loan (amount (loan_asset (borrower_of c))));
  let monthly := calculate_monthly_payment loan_sum (loan_persent (borrower_of c)) (loan_period (borrower_of c)) in
  let c := approve (mk_creditor (ca_creditor op) (ca_credit_memo op) monthly) (head_block_time s) c in
  _ ← modify id (fun _ => Ok c);
  neg ← lift (asset_neg (loan_asset (borrower_of c)));
  _ ← adjust_balance (creditor_id c) neg;
  _ ← pay_loan c;
  mret id.
#[export] Instance credit_approve_evaluator : Evaluator credit_approve_operation unit Z := {
  fee_payer := ca_creditor;
  op_fee := ca_fee;
  validate op := positive_fee (ca_fee op);
  do_evaluate := no_evaluation;
  pay_fee := default_pay_fee;
  do_apply := credit_approve_apply;
}.

(** ** [credit_request_cancel_evaluator], [comment_credit_request_evaluator] *)
(** Both return an identifier they never set. *)
Definition no_object_id : Z := 0.
Definition credit_cancel_apply (g : generic_evaluator) (_ : unit) (_ : Z) (op : credit_request_cancel_operation) : M database Z :=
  x ← credit_with (cc_credit_request_uuid op);
  let id := fst x in
  let c := snd x in
  _ ← require (cc_borrower op =? borrower_id c) "Only owner can cancel the credit request!";
  _ ← require (bool_decide (status c = wating_for_acceptance)) "credit request allready accepted!";
  _ ← adjust_balance (borrower_id c) (deposit_of c);
  _ ← remove credit_object id;
  mret no_object_id.
#[export] Instance credit_cancel_evaluator : Evaluator credit_request_cancel_operation unit Z := {
  fee_payer := cc_borrower;
  op_fee := cc_fee;
  validate op := positive_fee (cc_fee op);
  do_evaluate := no_evaluation;
  pay_fee := default_pay_fee;
  do_apply := credit_cancel_apply;
}.
Definition comment_credit_apply (g : generic_evaluator) (_ : unit) (_ : Z) (op : comment_credit_request_operation) : M database Z :=
  x ← credit_with (cm_credit_request_uuid op);
  let id := fst x in
  let c := snd x in
  _ ← require (bool_decide (status c = wating_for_acceptance)) "credit request allready accepted!";
  _ ← modify id (fun c => Ok (with_comments (<[cm_credit_memo op := cm_creditor op]> (comments c)) c));
  mret no_object_id.
#[export] Instance comment_credit_evaluator : Evaluator comment_credit_request_operation unit Z := {
  fee_payer := cm_creditor;
  op_fee := cm_fee;
  validate op := positive_fee (cm_fee op);
  do_evaluate := no_evaluation;
  pay_fee := default_pay_fee;
  do_apply := comment_credit_apply;
}.

(** ** [settle_credit_operation_evaluator] *)
Definition settle_sum (c : credit_object) (loan : asset_object) : result double :=
  if settle_month_elapsed c =? 0 then
    loan_sum ← amount_to_real loan (amount (loan_asset (borrower_of c)));
    Ok (dadd (ddiv (loan_persent (borrower_of c)) (double_of_Z 12)) loan_sum)
  else Ok (dmul (payment c) (double_of_Z (wrap 32 (loan_period (borrower_of c) - settle_month_elapsed c)))).
Definition settle_credit_apply (g : generic_evaluator) (_ : unit) (_ : Z) (op : settle_credit_operation) : M database Z :=
  x ← credit_with (sc_credit_request_uuid op);
  let id := fst x in
  let c := snd x in
  loan ← get asset_object (loan_id c);
  _ ← get account_object (sc_borrower op);
  _ ← require (bool_decide (status c = in_progress)) "credit request don't accepted!";
  _ ← require (sc_borrower op =? borrower_id c) "Only owner can settle the credit operation!";
  sum ← lift (settle_sum c loan);
  settle ← lift (asset_of sum loan (loan_id c));
  s ← get_state;
  _ ← require (amount settle <=? amount (get_balance (sc_borrower op) (loan_id c) s)) "Insufficient Balance";
  neg ← lift (asset_neg settle);
  _ ← adjust_balance (borrower_id c) neg;
  _ ← adjust_balance (creditor_id c) settle;
  _ ← get asset_object (deposit_id c);
  _ ← adjust_balance (borrower_id c) (deposit_of c);
  _ ← update_account_karma (borrower_id c) (float_of KARMA_BONUS_FOR_CREDIT_PAYMENT) "Credit complete forced.";
  _ ← modify id (fun _ => Ok (with_status complete_normal (with_deposit (mk_asset 0 (deposit_id c)) c)));
  mret no_object_id.
#[export] Instance settle_credit_evaluator : Evaluator settle_credit_operation unit Z := {
  fee_payer := sc_borrower;
  op_fee := sc_fee;
  validate op := positive_fee (sc_fee op);
  do_evaluate := no_evaluation;
  pay_fee := default_pay_fee;
  do_apply := settle_credit_apply;
}.
End Evaluators.
End CreditEvaluator.
