(* ===== verification/BitassetEvaluator.v ===== *)
(** * The evaluators of asset options, price feeds and settlements
    ([asset_evaluator.cpp])

    The operations that change what an existing asset may do and, for
    market-issued assets, its feeds, its forced settlements and its global
    settlement.  Their laws and properties are in [AssetLaws]. *)
From Stdlib Require Import ZArith Lia String Ascii.
From stdpp Require Import base gmap sets list strings.
From S2P Require Import Prelude External Asset Vesting Authority Chain Balance Accounting Market Evaluator MarketEvaluator AssetObject Transfers AssetOps AssetEvaluator.

Module BitassetEvaluator.
Import Asset Vesting Authority Chain Balance Accounting Market Evaluator MarketEvaluator AssetObject Transfers AssetOps AssetEvaluator.

Section Evaluators.
Context `{SafeOps, U128Ops, RationalOps, IndexOps, NthOps, TimeOps}.

(** The index [by_expiration] of the settlements: asset, date, identifier. *)
Definition settlement_asset_id (f : force_settlement_object) : Z := asset_id (settlement_balance f).
Definition settlement_before (x y : Z * force_settlement_object) : bool :=
  if settlement_asset_id x.2 <? settlement_asset_id y.2 then true
  else if settlement_asset_id y.2 <? settlement_asset_id x.2 then false
  else if settlement_date x.2 <? settlement_date y.2 then true
  else if settlement_date y.2 <? settlement_date x.2 then false else x.1 <? y.1.
Definition settlement_book (s : database) : list (Z * force_settlement_object) :=
  ordered settlement_before (map_to_list (force_settlements s)).
Definition settlement_lower_bound (x : Z) (s : database) : iterator :=
  first_with (fun f => x <=? settlement_asset_id f) (settlement_book s).
(** The index [by_collateral] of the positions. *)
Definition by_collateral (x y : Z * call_order_object) : bool :=
  let p := mk_price (get_collateral x.2) (get_debt x.2) in
  let q := mk_price (get_collateral y.2) (get_debt y.2) in
  if price_lt p q then true else if price_lt q p then false else x.1 <? y.1.
Definition collateral_lower_bound (p : price) (s : database) : iterator :=
  first_with (fun c => negb (price_lt (mk_price (get_collateral c) (get_debt c)) p))
    (ordered by_collateral (map_to_list (call_orders s))).

(** ** [asset_update_evaluator] *)
(** A market-issued asset of the committee must be backed by core. *)
Definition backed_by_core (mia : Z) : M database unit :=
  bid ← bitasset_of mia;
  d ← deref asset_bitasset_data_object bid;
  let backing := short_backing_asset (bitasset_opts d) in
  o ← get asset_object backing;
  if is_market_issued o then
    bid' ← bitasset_of backing;
    d' ← deref asset_bitasset_data_object bid';
    let backing_backing := short_backing_asset (bitasset_opts d') in
    _ ← get asset_object backing_backing;
    require (backing_backing =? core_asset) not_backed_by_core
  else require (backing =? core_asset) not_backed_by_core.
Definition asset_update_evaluate (g : generic_evaluator) (op : asset_update_operation) : M database unit :=
  a ← get asset_object (asset_to_update op);
  _ ← lift (asset_object_validate (is_market_issued a) (new_options op));
  _ ← match new_issuer op with
      | Some n =>
          _ ← exists_object account_object n "d.find_object(*o.new_issuer)";
          when (is_market_issued a && (n =? GRAPHENE_COMMITTEE_ACCOUNT)) (backed_by_core (asset_to_update op))
      | None => mret tt
      end;
  now ← gets head_block_time;
  restricted ← (if now <? HARDFORK_572_TIME then mret true
                else dyn ← dynamic_of a;
                     d ← deref asset_dynamic_data_object dyn; mret (negb (current_supply d =? 0)));
  _ ← when restricted
        (require (Z.ldiff (issuer_permissions (new_options op)) (issuer_permissions (options a)) =? 0)
           "Cannot reinstate previously revoked issuer permissions on an asset.");
  _ ← require (Z.ldiff (Z.lxor (flags (new_options op)) (flags (options a))) (issuer_permissions (options a)) =? 0)
        "Flag change is forbidden by issuer permissions";
  _ ← require (au_issuer op =? issuer a) "o.issuer == a.issuer";
  max_auths ← gets (fun s => maximum_asset_whitelist_authorities (parameters (gpo s)));
  _ ← require (size_at_most (whitelist_authorities (new_options op)) max_auths) "whitelist_authorities";
  _ ← accounts_exist (whitelist_authorities (new_options op));
  _ ← require (size_at_most (blacklist_authorities (new_options op)) max_auths) "blacklist_authorities";
  accounts_exist (blacklist_authorities (new_options op)).
(** The loop that cancels the open settlements of the asset. *)
Fixpoint cancel_settlements (fuel : nat) (x : Z) : M database unit :=
  itr ← gets (settlement_lower_bound x);
  match itr with
  | None => mret tt
  | Some id =>
      f ← deref force_settlement_object id;
      if settlement_asset_id f =? x then
        match fuel with
        | O => throw out_of_fuel
        | S fuel' => _ ← cancel_settlement id true; cancel_settlements fuel' x
        end
      else mret tt
  end.
Definition set_options (op : asset_update_operation) (a : asset_object) : asset_object :=
  mk_asset_object (symbol a) (precision a) (default (issuer a) (new_issuer op)) (new_options op)
    (dynamic_asset_data_id a) (bitasset_data_id a) (buyback_account a).
Definition asset_update_apply (g : generic_evaluator) (_ : unit) (_ : Z) (op : asset_update_operation)
  : M database unit :=
  a ← deref asset_object (asset_to_update op);
  fuel ← gets (fun s => S (size (force_settlements s)));
  _ ← when (has_flag (flags (new_options op)) disable_force_settle && can_force_settle a)
        (cancel_settlements fuel (asset_to_update op));
  modify (asset_to_update op) (fun a => Ok (set_options op a)).
#[export] Instance asset_update_evaluator : Evaluator asset_update_operation unit unit := {
  fee_payer := au_issuer;
  op_fee := au_fee;
  validate := asset_update_validate;
  do_evaluate := asset_update_evaluate;
  pay_fee := default_pay_fee;
  do_apply := asset_update_apply;
}.

(** ** [asset_update_bitasset_evaluator]; [bitasset_to_update] is kept by its identifier. *)
Definition update_bitasset_evaluate (g : generic_evaluator) (op : asset_update_bitasset_operation)
  : M database Z :=
  a ← get asset_object (ub_asset op);
  _ ← require (is_market_issued a) "Cannot update BitAsset-specific settings on a non-BitAsset.";
  bid ← bitasset_of (ub_asset op);
  b ← deref asset_bitasset_data_object bid;
  _ ← require (negb (has_settlement b)) "Cannot update a bitasset after a settlement has executed";
  _ ← when (negb (short_backing_asset (ub_options op) =? short_backing_asset (bitasset_opts b)))
        (dyn ← dynamic_of a;
         d ← deref asset_dynamic_data_object dyn;
         _ ← require (current_supply d =? 0) "current_supply == 0";
         _ ← exists_object asset_object (short_backing_asset (ub_options op)) "d.find_object(short_backing_asset)";
         when (issuer a =? GRAPHENE_COMMITTEE_ACCOUNT) (backed_by_core (ub_asset op)));
  _ ← require (ub_issuer op =? issuer a) "o.issuer == a.issuer";
  mret bid.
Definition set_bitasset_options (o : bitasset_options) (b : asset_bitasset_data_object)
  : asset_bitasset_data_object :=
  mk_bitasset_data o (feeds b) (current_feed b) (current_feed_publication_time b) (is_prediction_market b)
    (force_settled_volume b) (swan_price b) (settlement_fund b).
Definition update_bitasset_apply (g : generic_evaluator) (bid : Z) (_ : Z) (op : asset_update_bitasset_operation)
  : M database unit :=
  b ← deref asset_bitasset_data_object bid;
  let should_update_feeds := negb (minimum_feeds (ub_options op) =? minimum_feeds (bitasset_opts b)) in
  now ← gets head_block_time;
  modify bid (fun b =>
    let b' := set_bitasset_options (ub_options op) b in
    if should_update_feeds then update_median_feeds now b' else Ok b').
#[export] Instance update_bitasset_evaluator : Evaluator asset_update_bitasset_operation Z unit := {
  fee_payer := ub_issuer;
  op_fee := ub_fee;
  validate := asset_update_bitasset_validate;
  do_evaluate := update_bitasset_evaluate;
  pay_fee := default_pay_fee;
  do_apply := update_bitasset_apply;
}.

(** ** Price feeds *)
Definition update_producers_evaluate (g : generic_evaluator) (op : asset_update_feed_producers_operation)
  : M database Z :=
  max_pub ← gets (fun s => maximum_asset_feed_publishers (parameters (gpo s)));
  _ ← require (size_at_most (new_feed_producers op) max_pub) "new_feed_producers.size()";
  _ ← accounts_exist (new_feed_producers op);
  a ← get asset_object (uf_asset op);
  _ ← require (is_market_issued a) "Cannot update feed producers on a non-BitAsset.";
  _ ← require (negb (has_flag (flags (options a)) committee_fed_asset)) "Cannot set feed producers on a committee-fed asset.";
  _ ← require (negb (has_flag (flags (options a)) witness_fed_asset)) "Cannot set feed producers on a witness-fed asset.";
  bid ← bitasset_of (uf_asset op);
  _ ← require (issuer a =? uf_issuer op) "a.issuer == o.issuer";
  mret bid.
Definition set_feeds (m : gmap Z (Z * price_feed)) (b : asset_bitasset_data_object) : asset_bitasset_data_object :=
  mk_bitasset_data (bitasset_opts b) m (current_feed b) (current_feed_publication_time b)
    (is_prediction_market b) (force_settled_volume b) (swan_price b) (settlement_fund b).
(** The feeds of the publishers who are kept, and empty ones for the new. *)
Definition new_feeds (producers : gset Z) (m : gmap Z (Z * price_feed)) : gmap Z (Z * price_feed) :=
  filter (fun kx => kx.1 ∈ producers) m
  ∪ set_to_map (fun id => (id, (0, default_feed))) producers.
Definition update_producers_apply (g : generic_evaluator) (bid : Z) (_ : Z)
    (op : asset_update_feed_producers_operation) : M database unit :=
  now ← gets head_block_time;
  _ ← modify bid (fun a => update_median_feeds now (set_feeds (new_feeds (new_feed_producers op) (feeds a)) a));
  _ ← get asset_object (uf_asset op);
  _ ← check_call_orders (uf_asset op) true false;
  mret tt.
#[export] Instance update_producers_evaluator : Evaluator asset_update_feed_producers_operation Z unit := {
  fee_payer := uf_issuer;
  op_fee := uf_fee;
  validate := asset_update_feed_producers_validate;
  do_evaluate := update_producers_evaluate;
  pay_fee := default_pay_fee;
  do_apply := update_producers_apply;
}.

Definition fed_by (account id : Z) : M database unit :=
  a ← get account_object account;
  require (existsb (fun x => x.1 =? id) (account_auths (active_authority a))) "active.account_auths.count(o.publisher)".
Definition publish_feed_evaluate (g : generic_evaluator) (op : asset_publish_feed_operation) : M database unit :=
  let f := feed op in
  a ← get asset_object (pf_asset op);
  _ ← require (is_market_issued a) "base.is_market_issued()";
  bid ← bitasset_of (pf_asset op);
  bitasset ← deref asset_bitasset_data_object bid;
  now ← gets head_block_time;
  _ ← when (is_prediction_market bitasset || (now <=? HARDFORK_CORE_216_TIME))
        (require (negb (has_settlement bitasset)) "No further feeds may be published after a settlement event");
  _ ← require (asset_id (quote (settlement_price f)) =? short_backing_asset (bitasset_opts bitasset))
        "o.feed.settlement_price.quote.asset_id == short_backing_asset";
  _ ← (if HARDFORK_480_TIME <? now then
         when (negb (is_null (core_exchange_rate f)))
           (require (asset_id (quote (core_exchange_rate f)) =? core_asset) "core_exchange_rate.quote.asset_id == asset_id_type()")
       else
         when (negb (is_null (settlement_price f)) && negb (is_null (core_exchange_rate f)))
           (require (asset_id (quote (settlement_price f)) =? asset_id (quote (core_exchange_rate f)))
              "settlement_price.quote.asset_id == core_exchange_rate.quote.asset_id"));
  if has_flag (flags (options a)) witness_fed_asset then fed_by GRAPHENE_WITNESS_ACCOUNT (publisher op)
  else if has_flag (flags (options a)) committee_fed_asset then fed_by GRAPHENE_COMMITTEE_ACCOUNT (publisher op)
  else require (match feeds bitasset !! publisher op with Some _ => true | None => false end)
         "bitasset.feeds.count(o.publisher)".
(** [price_feed::operator==]; the core exchange rate does not count. *)
Definition feed_eqb (a b : price_feed) : bool :=
  price_eqb (settlement_price a) (settlement_price b)
  && (maintenance_collateral_ratio a =? maintenance_collateral_ratio b)
  && (maximum_short_squeeze_ratio a =? maximum_short_squeeze_ratio b).
(** The positions of a settled asset are revived when the fund covers the debt. *)
Definition may_revive (mia bid : Z) : M database unit :=
  a ← deref asset_object mia;
  dyn ← dynamic_of a;
  d ← deref asset_dynamic_data_object dyn;
  b ← deref asset_bitasset_data_object bid;
  covered ← (if is_null (settlement_price (current_feed b)) then mret false
             else if current_supply d =? 0 then mret true
             else
               p ← lift (call_price (mk_asset (current_supply d) mia)
                           (mk_asset (settlement_fund b) (short_backing_asset (bitasset_opts b)))
                           (maintenance_collateral_ratio (current_feed b)));
               mret (price_lt (price_inv p) (settlement_price (current_feed b))));
  when covered (revive_bitasset mia).
Definition publish_feed_apply (g : generic_evaluator) (_ : unit) (_ : Z) (op : asset_publish_feed_operation)
  : M database unit :=
  _ ← get asset_object (pf_asset op);
  bid ← bitasset_of (pf_asset op);
  old ← deref asset_bitasset_data_object bid;
  now ← gets head_block_time;
  _ ← modify bid (fun a => update_median_feeds now (set_feeds (<[publisher op := (now, feed op)]> (feeds a)) a));
  bad ← deref asset_bitasset_data_object bid;
  when (negb (feed_eqb (current_feed old) (current_feed bad)))
    (_ ← when (has_settlement bad) (may_revive (pf_asset op) bid);
     _ ← check_call_orders (pf_asset op) true false; mret tt).
#[export] Instance publish_feed_evaluator : Evaluator asset_publish_feed_operation unit unit := {
  fee_payer := publisher;
  op_fee := pf_fee;
  validate := asset_publish_feed_validate;
  do_evaluate := publish_feed_evaluate;
  pay_fee := default_pay_fee;
  do_apply := publish_feed_apply;
}.

(** ** Settlement *)
Definition global_settle_evaluate (g : generic_evaluator) (op : asset_global_settle_operation) : M database unit :=
  let x := asset_to_settle op in
  a ← get asset_object x;
  _ ← require (is_market_issued a) "asset_to_settle->is_market_issued()";
  _ ← require (can_global_settle a) "asset_to_settle->can_global_settle()";
  _ ← require (issuer a =? gs_issuer op) "asset_to_settle->issuer == op.issuer";
  dyn ← dynamic_of a;
  d ← deref asset_dynamic_data_object dyn;
  _ ← require (0 <? current_supply d) "current_supply > 0";
  bid ← bitasset_of x;
  b ← deref asset_bitasset_data_object bid;
  lo ← lift (price_min (short_backing_asset (bitasset_opts b)) x);
  itr ← gets (collateral_lower_bound lo);
  p ← at_itr call_order_object itr;
  let least_collateralized_short := snd (p : Z * call_order_object) in
  value ← lift (asset_mul (get_debt least_collateralized_short) (settle_price op));
  enough ← lift (asset_le value (get_collateral least_collateralized_short));
  require enough "Cannot force settle at supplied price: least collateralized short lacks sufficient collateral to settle.".
Definition global_settle_apply (g : generic_evaluator) (_ : unit) (_ : Z) (op : asset_global_settle_operation)
  : M database unit :=
  _ ← get asset_object (asset_to_settle op);
  globally_settle_asset (asset_to_settle op) (settle_price op).
#[export] Instance global_settle_evaluator : Evaluator asset_global_settle_operation unit unit := {
  fee_payer := gs_issuer;
  op_fee := gs_fee;
  validate := asset_global_settle_validate;
  do_evaluate := global_settle_evaluate;
  pay_fee := default_pay_fee;
  do_apply := global_settle_apply;
}.

Definition settle_evaluate (g : generic_evaluator) (op : asset_settle_operation) : M database unit :=
  let x := asset_id (as_amount op) in
  a ← get asset_object x;
  _ ← require (is_market_issued a) "asset_to_settle->is_market_issued()";
  bid ← bitasset_of x;
  bitasset ← deref asset_bitasset_data_object bid;
  now ← gets head_block_time;
  _ ← require (can_force_settle a || has_settlement bitasset) "asset_to_settle->can_force_settle() || bitasset.has_settlement()";
  _ ← (if is_prediction_market bitasset then
         require (has_settlement bitasset) "global settlement must occur before force settling a prediction market"
       else
         when (is_null (settlement_price (current_feed bitasset))
               && ((now <=? HARDFORK_CORE_216_TIME) || negb (has_settlement bitasset)))
           (throw "Cannot force settle with no price feed."));
  _ ← get account_object (as_account op);
  bal ← gets (get_balance (as_account op) x);
  enough ← lift (asset_ge bal (as_amount op));
  require enough "d.get_balance(account, asset) >= op.amount".
Definition sub_fund (n : Z) (b : asset_bitasset_data_object) : result asset_bitasset_data_object :=
  fund ← safe_sub (settlement_fund b) n; Ok (set_swan (swan_price b) fund b).
(** The result is the settled amount or the identifier of the settlement. *)
Definition settle_apply (g : generic_evaluator) (_ : unit) (_ : Z) (op : asset_settle_operation)
  : M database (asset + Z) :=
  let x := asset_id (as_amount op) in
  neg ← lift (asset_neg (as_amount op));
  _ ← adjust_balance (as_account op) neg;
  bid ← bitasset_of x;
  bitasset ← deref asset_bitasset_data_object bid;
  if has_settlement bitasset then
    a ← deref asset_object x;
    dyn ← dynamic_of a;
    mia_dyn ← deref asset_dynamic_data_object dyn;
    r ← lift (asset_mul (as_amount op) (swan_price bitasset));
    settled ← (if amount (as_amount op) =? current_supply mia_dyn
               then mret (mk_asset (settlement_fund bitasset) (asset_id r))
               else _ ← require (amount r <=? settlement_fund bitasset) "settled_amount.amount <= settlement_fund"; mret r);
    _ ← modify bid (sub_fund (amount settled));
    _ ← adjust_balance (as_account op) settled;
    _ ← modify dyn (sub_supply (amount (as_amount op)));
    mret (inl settled)
  else
    now ← gets head_block_time;
    id ← create (mk_settlement (as_account op) (as_amount op)
                   (time_add now (force_settlement_delay_sec (bitasset_opts bitasset))));
    mret (inr id).
#[export] Instance settle_evaluator : Evaluator asset_settle_operation unit (asset + Z) := {
  fee_payer := as_account;
  op_fee := as_fee;
  validate := asset_settle_validate;
  do_evaluate := settle_evaluate;
  pay_fee := default_pay_fee;
  do_apply := settle_apply;
}.
End Evaluators.
End BitassetEvaluator.
