(* ===== verification/AssetLaws.v ===== *)
(** * The operations on assets keep the supply

    The evaluators of [AssetEvaluator] and [BitassetEvaluator] satisfy
    [EvaluatorLaws].  Changing the backing asset of a market-issued asset and
    creating an asset are treated apart: the former relies on there being no
    position when the supply is zero, the latter on fresh identifiers. *)
From Stdlib Require Import ZArith Lia String.
From stdpp Require Import base gmap sets list strings.
From S2P Require Import Prelude External Asset Vesting Chain Balance Accounting Market MarketSupply Evaluator MarketEvaluator MarketLaws AssetObject Transfers TransferLaws AssetOps AssetEvaluator BitassetEvaluator.

Module AssetLaws.
Import Asset Vesting Chain Balance Accounting Market MarketSupply Evaluator MarketEvaluator MarketLaws AssetObject Transfers TransferLaws AssetOps AssetEvaluator BitassetEvaluator.

Ltac use_default_laws :=
  match goal with |- EvaluatorLaws ?Op ?E ?R ?t =>
    refine (default_laws (Op := Op) (E := E) (R := R) t eq_refl _ _) end.

Ltac reads_ok := repeat match goal with
  | Hr : get _ _ _ = Ok _ |- _ => apply get_Ok in Hr as [? ->]
  | Hr : deref _ _ _ = Ok _ |- _ => apply deref_Ok in Hr as [? ->]
  | Hr : dynamic_of _ _ = Ok _ |- _ => apply dynamic_of_Ok in Hr as (-> & -> & _)
  end.

Section Reads.
Context `{SafeLaws, U128Laws, RationalLaws, IndexLaws, NthLaws, TimeLaws}.

Lemma accounts_exist_pure l s u s' : accounts_exist l s = Ok (u, s') -> s' = s.
Proof.
  unfold accounts_exist. apply (for_each_ind (fun s s' => s' = s)); [done|congruence|].
  intros x s1 s2 v _ E. op_ok. done.
Qed.
Lemma backed_by_core_pure mia s u s' : backed_by_core mia s = Ok (u, s') -> s' = s.
Proof.
  unfold backed_by_core. intros E. pure_ok.
  match goal with Hi : (if ?b then _ else _) _ = Ok _ |- _ => destruct b; by pure_ok end.
Qed.
End Reads.

(** Evaluations change nothing. *)
Ltac pure_run :=
  repeat first
    [ progress pure_ok
    | match goal with
      | Hx : exists_object _ _ _ _ = Ok _ |- _ => apply exists_object_pure in Hx as ->
      | Hx : accounts_exist _ _ = Ok _ |- _ => apply accounts_exist_pure in Hx as ->
      | Hx : backed_by_core _ _ = Ok _ |- _ => apply backed_by_core_pure in Hx as ->
      | Hx : when _ _ ?s = Ok (_, ?t) |- _ =>
          let E := fresh in
          assert (t = s) as E by (revert Hx; apply when_pure; intros Hx; pure_run; done); clear Hx; subst t
      | Hx : (if ?b then _ else _) ?s = Ok (_, ?t) |- _ =>
          let E := fresh in assert (t = s) as E by (destruct b; pure_run; done); clear Hx; subst t
      | Hx : match ?o with Some _ => _ | None => _ end ?s = Ok (_, ?t) |- _ =>
          let E := fresh in assert (t = s) as E by (destruct o; pure_run; done); clear Hx; subst t
      end ].


Ltac negs := repeat match goal with
  | Hn : asset_neg _ = Ok _ |- _ => apply asset_neg_Ok in Hn as ->
  | Hn : safe_neg _ = Ok _ |- _ => apply safe_neg_spec in Hn as [-> _]
  end.

Section Laws.
Context `{SafeLaws, U128Laws, RationalLaws, IndexLaws, NthLaws, TimeLaws}.

(** ** Issuing, reserving, pools and fees *)
(** Changing the dynamic data of the asset [x]. *)
Lemma dynamic_step x o f s u s' :
  chain_wf s -> assets s !! x = Some o -> modify (dynamic_asset_data_id o) f s = Ok (u, s') ->
  exists d d', asset_dynamic_data s !! dynamic_asset_data_id o = Some d /\ f d = Ok d' /\
    (dynamic_ok d' ->
     step (fun a => if_asset a x ((confidential_supply d' + accumulated_fees d' - current_supply d')
                                  - (confidential_supply d + accumulated_fees d - current_supply d))
                    + if_asset a core_asset (fee_pool d' - fee_pool d)) s s').
Proof.
  intros Hw Hx E. op_ok. eexists _, _. split_and!; [exact Lk|exact Fn|]. intros Hd.
  specialize (St (fun _ => Hd)). eapply step_ext; [|exact St]. intros y. cbn. unfold w_dynamic.
  rewrite !(dyn_of_eqb _ _ _ _ Hw Hx). unfold if_asset. destruct (x =? y), (core_asset =? y); lia.
Qed.
Lemma add_supply_Ok n d d' : add_supply n d = Ok d' -> d' = set_supply (current_supply d + n) d /\ dynamic_ok d'.
Proof.
  unfold add_supply. intros E. run_ok1. apply safe_add_spec in Hrun as [-> Hi]. injection E as <-.
  split; [done|]. unfold dynamic_ok, in_int64, int64_max in *. cbn. lia.
Qed.

(** What the evaluation hands to [do_apply]. *)
Definition dynamic_id (x dyn : Z) (s : database) : Prop :=
  exists o, assets s !! x = Some o /\ dyn = dynamic_asset_data_id o.
Lemma issue_evaluate_Ok g op s e s' :
  asset_issue_evaluate g op s = Ok (e, s') -> s' = s /\ dynamic_id (asset_id (asset_to_issue op)) e s.
Proof. unfold asset_issue_evaluate. intros E. pure_run. split; [done|]. by eexists. Qed.
Lemma reserve_evaluate_Ok g op s e s' :
  asset_reserve_evaluate g op s = Ok (e, s') -> s' = s /\ dynamic_id (asset_id (amount_to_reserve op)) e s.
Proof. unfold asset_reserve_evaluate. intros E. pure_run. split; [done|]. by eexists. Qed.
Lemma fund_evaluate_Ok g op s e s' :
  fund_fee_pool_evaluate g op s = Ok (e, s') -> s' = s /\ dynamic_id (fp_asset op) e s.
Proof. unfold fund_fee_pool_evaluate. intros E. pure_run. split; [done|]. by eexists. Qed.

Ltac dynamic_change Hw :=
  match goal with
  | L : assets ?s = assets ?s0, X : assets ?s0 !! _ = Some ?o, S : step _ ?s ?t,
    M : modify (dynamic_asset_data_id ?o) _ ?t = Ok _ |- _ =>
      rewrite <- L, <- (step_assets _ _ _ S) in X;
      apply (dynamic_step _ _ _ _ _ _ (step_wf _ _ _ S Hw) X) in M as (? & ? & ? & ? & ?)
  end.

#[export] Instance asset_issue_laws
  : EvaluatorLaws asset_issue_operation Z unit (fun op => int64_amount (ai_fee op)).
Proof.
  use_default_laws.
  - intros g op s e s' E. by apply issue_evaluate_Ok in E as [-> _].
  - cbn. intros g op e d s0 s r s' _ _ [_ (o & Ho & ->)]%issue_evaluate_Ok [Ha _] _ Hw E.
    apply step_conserves. unfold asset_issue_apply in E. run_ok1. op_ok1. dynamic_change Hw.
    match goal with F : add_supply _ _ = Ok _ |- _ => apply add_supply_Ok in F as [-> Hd] end.
    match goal with S : _ -> step _ _ _ |- _ => specialize (S Hd) end.
    eapply step_ext; [|compose_steps]. intros y. cbv beta. weigh.
Qed.
#[export] Instance asset_reserve_laws
  : EvaluatorLaws asset_reserve_operation Z unit (fun op => int64_amount (ar_fee op)).
Proof.
  use_default_laws.
  - intros g op s e s' E. by apply reserve_evaluate_Ok in E as [-> _].
  - cbn. intros g op e d s0 s r s' _ _ [_ (o & Ho & ->)]%reserve_evaluate_Ok [Ha _] _ Hw E.
    apply step_conserves. unfold asset_reserve_apply in E. do 3 run_ok1. op_ok1. negs. dynamic_change Hw.
    match goal with F : sub_supply _ _ = Ok _ |- _ =>
      pose proof (sub_supply_dynamic_ok _ _ _ F) as Hd; apply sub_supply_Ok in F as -> end.
    match goal with S : _ -> step _ _ _ |- _ => specialize (S Hd) end.
    eapply step_ext; [|compose_steps]. intros y. cbv beta. weigh.
Qed.
#[export] Instance fund_fee_pool_laws
  : EvaluatorLaws asset_fund_fee_pool_operation Z unit (fun op => int64_amount (fp_fee op)).
Proof.
  use_default_laws.
  - intros g op s e s' E. by apply fund_evaluate_Ok in E as [-> _].
  - cbn. intros g op e d s0 s r s' _ _ [_ (o & Ho & ->)]%fund_evaluate_Ok [Ha _] _ Hw E.
    apply step_conserves. unfold fund_fee_pool_apply in E. do 3 run_ok1. op_ok1. negs. dynamic_change Hw.
    match goal with F : add_to_pool _ _ = Ok _, L : asset_dynamic_data _ !! _ = Some _ |- _ =>
      unfold add_to_pool in F; repeat run_ok1; subst;
      assert (Hd := wf_dynamic _ (step_wf _ _ _ St Hw) _ _ L) end.
    match goal with F : safe_add _ _ = Ok _ |- _ => apply safe_add_spec in F as [-> _] end.
    match goal with S : _ -> step _ _ _ |- _ => specialize (S Hd) end.
    eapply step_ext; [|compose_steps]. intros y. cbv beta. weigh.
Qed.
#[export] Instance claim_fees_laws
  : EvaluatorLaws asset_claim_fees_operation unit unit (fun op => int64_amount (cf_fee op)).
Proof.
  use_default_laws.
  - cbn. unfold claim_fees_evaluate. intros g op s e s' E. by pure_run.
  - cbn. intros g op e d s0 s r s' _ _ _ _ _ Hw E. apply step_conserves. unfold claim_fees_apply in E.
    do 7 first [run_ok1 | op_ok1]. reads_ok.
    match goal with L : table ?t !! _ = Some ?o, M : modify (dynamic_asset_data_id ?o) _ ?t = Ok _ |- _ =>
      apply (dynamic_step _ _ _ _ _ _ Hw L) in M as (d0 & d1 & Hd0 & Hf & Hs) end.
    unfold sub_accumulated in Hf. repeat run_ok1. subst d1.
    match goal with F : safe_sub _ _ = Ok _ |- _ => apply safe_sub_spec in F as [-> _] end.
    specialize (Hs (wf_dynamic _ Hw _ _ Hd0)).
    eapply step_ext; [|compose_steps]. intros y. cbv beta. weigh.
Qed.

(** ** Options *)
Lemma price_validate_valid p :
  amount (base p) < 2 ^ 63 -> amount (quote p) < 2 ^ 63 -> price_validate p = Ok tt -> valid_price p.
Proof.
  intros Hb Hq E. unfold price_validate in E. repeat run_ok1.
  rewrite ?Z.ltb_lt, negb_true_iff, Z.eqb_neq in *. split; unfold pos_int64; done || lia.
Qed.
(** The fields of the options are of their types. *)
Definition options_typed (o : asset_options) : Prop :=
  0 <= market_fee_percent o /\ int64_amount (base (options_core_exchange_rate o))
  /\ int64_amount (quote (options_core_exchange_rate o)).
Lemma options_validate_Ok o :
  options_typed o -> asset_options_validate o = Ok tt ->
  0 <= market_fee_percent o <= GRAPHENE_100_PERCENT /\ 0 <= max_market_fee o <= GRAPHENE_MAX_SHARE_SUPPLY
  /\ valid_price (options_core_exchange_rate o).
Proof.
  intros (Hp & Hb%int64_amount_lt & Hq%int64_amount_lt) E. unfold asset_options_validate in E. repeat run_ok1.
  repeat match goal with u : () |- _ => destruct u end.
  rewrite ?andb_true_iff, ?Z.leb_le in *. split_and!; try lia. by apply price_validate_valid.
Qed.

(** Replacing an asset by one with the same dynamic and market data. *)
Lemma set_asset_conserves x a a' s :
  assets s !! x = Some a -> dynamic_asset_data_id a' = dynamic_asset_data_id a ->
  bitasset_data_id a' = bitasset_data_id a -> options_ok a' ->
  conserves (fun _ => 0) s (set_assets (<[x := a']> (assets s)) s).
Proof.
  intros Ha Hdyn Hbit Hok.
  assert (Hd : forall y, dyn_of (<[x := a']> (assets s)) y = dyn_of (assets s) y).
  { intros y. unfold dyn_of. destruct (decide (y = x)) as [->|]; [by rewrite lookup_insert_eq, Ha; cbn; rewrite Hdyn|].
    by rewrite lookup_insert_ne. }
  assert (Hback : forall D C, backed s D C -> backed (set_assets (<[x := a']> (assets s)) s) D C).
  { intros D C [[oD HoD] HD]. split.
    { cbn. rewrite lookup_insert_is_Some'. right. by eexists. }
    intros o b d Ho Hb Hd'. cbn in *. destruct (decide (D = x)) as [->|].
    - rewrite lookup_insert_eq in Ho. injection Ho as <-. rewrite Hbit in Hb. exact (HD _ _ _ Ha Hb Hd').
    - rewrite lookup_insert_ne in Ho by done. by eapply HD. }
  split.
  - intros Hw. pose proof Hw as []. split; try done.
    + by apply map_Forall_insert_2.
    + intros y z d. cbn. rewrite !Hd. apply (wf_dyn s Hw).
    + intros k c Hc. apply Hback. exact (wf_call_backed s Hw _ _ Hc).
    + intros k c Hc. apply Hback. exact (wf_bid_backed s Hw _ _ Hc).
    + apply map_Forall_insert_2; [|exact (wf_not_own s Hw)]. intros b d Hb Hd'. rewrite Hbit in Hb.
      by eapply (wf_not_own s Hw _ _ Ha).
    + apply map_Forall_insert_2; [|exact (wf_records s Hw)].
      destruct (wf_records s Hw _ _ Ha). split; cbn; [by rewrite Hdyn|by rewrite Hbit].
    + cbn. by rewrite Hd.
  - intros y. unfold surplus. cbn. rewrite Z.add_0_r. do 5 f_equal. apply sum_map_ext.
    intros k d _. unfold w_dynamic. by rewrite Hd.
  - done.
Qed.

Lemma cancel_settlements_step fuel x s u s' :
  cancel_settlements fuel x s = Ok (u, s') -> step (fun _ => 0) s s'.
Proof.
  revert s. induction fuel as [|fuel IH]; intros s; cbn [cancel_settlements]; intros E; do 2 run_ok1;
    (destruct (settlement_lower_bound x s) as [id|]; [|run_ok1; apply step_refl]); run_ok1; reads_ok;
    branch E; try (run_ok1; apply step_refl); try by run_ok1.
  run_ok1. apply IH in E.
  match goal with Hc : cancel_settlement _ _ _ = Ok _ |- _ => apply cancel_settlement_step in Hc end.
  eapply step_ext; [|eapply step_trans; eassumption]. intros y. cbv beta. lia.
Qed.

#[export] Instance asset_update_laws
  : EvaluatorLaws asset_update_operation unit unit
      (fun op => int64_amount (au_fee op) /\ options_typed (new_options op)).
Proof.
  use_default_laws.
  - cbn. unfold asset_update_evaluate. intros g op s e s' E.
    by pure_run.
  - cbn. intros g op e d s0 s r s' Hv [_ Ht] _ _ _ Hw E. unfold asset_update_apply in E. repeat run_ok1. reads_ok.
    assert (Hok : options_ok (set_options op a)).
    { unfold asset_update_validate in Hv. repeat run_ok1.
      repeat match goal with u : () |- _ => destruct u end.
      match goal with V : asset_options_validate _ = Ok _ |- _ =>
        apply options_validate_Ok in V as (? & ? & [? ? _]); [|done] end.
      unfold pos_int64 in *. split_and!; cbn; lia. }
    match goal with Hc : when _ (cancel_settlements ?n ?x) _ = Ok (_, ?t) |- _ =>
      assert (S1 : step (fun _ => 0) s t) by (apply when_Ok in Hc as [[_ Hc]|[_ ->]];
        [by apply cancel_settlements_step in Hc|apply step_refl]) end.
    apply modify_Ok in E as (a' & b' & La & [= <-] & ->).
    apply step_conserves in S1 as S1'. eapply conserves_ext; [|eapply conserves_trans; [exact S1'|]].
    2: { eapply set_asset_conserves; [exact La|done..|exact Hok]. }
    done.
Qed.

(** ** Feeds *)
Lemma when_conserves b m s u s' :
  (m s = Ok (u, s') -> conserves (fun _ => 0) s s') -> when b m s = Ok (u, s') -> conserves (fun _ => 0) s s'.
Proof. intros Hm [[_ E]|[_ ->]]%when_Ok; [auto|apply step_conserves, step_refl]. Qed.
Lemma conserves_0_trans s1 s2 s3 :
  conserves (fun _ => 0) s1 s2 -> conserves (fun _ => 0) s2 s3 -> conserves (fun _ => 0) s1 s3.
Proof. intros H12 H23. eapply conserves_ext; [|eapply conserves_trans; eassumption]. done. Qed.

Lemma feeds_ok_new producers b : feeds_ok b -> feeds_ok (set_feeds (new_feeds producers (feeds b)) b).
Proof.
  intros Hf id x. cbn. unfold new_feeds. rewrite lookup_union_Some_raw. intros [Hx|[_ Hx]].
  - apply map_lookup_filter_Some in Hx as [Hx _]. exact (Hf _ _ Hx).
  - apply lookup_set_to_map in Hx as (y & _ & [= _ <-]); [|done]. apply default_feed_ok.
Qed.
Lemma feeds_ok_insert id t f b : feed_ok f -> feeds_ok b -> feeds_ok (set_feeds (<[id := (t, f)]> (feeds b)) b).
Proof. intros Hf Hb. by apply map_Forall_insert_2. Qed.

(** A bitasset whose feeds are replaced and whose median is taken. *)
Lemma median_row s bid b b0 b' now :
  chain_wf s -> bitasset_data s !! bid = Some b -> feeds_ok b0 ->
  short_backing_asset (bitasset_opts b0) = short_backing_asset (bitasset_opts b) ->
  settlement_fund b0 = settlement_fund b -> swan_price b0 = swan_price b ->
  update_median_feeds now b0 = Ok b' -> row_ok s bid b' /\ forall a, weight s a bid b' = weight s a bid b.
Proof.
  intros Hw Hb Hf Ho Hfund Hsw E. pose proof (update_median_feeds_ok _ _ _ Hf E) as Hok.
  apply update_median_feeds_Ok in E as (f & t & -> & _).
  pose proof (wf_bitassets s Hw _ _ Hb) as (_ & Hb1 & Hb2 & Hb3).
  split.
  - split; [split_and!; cbn; [exact Hok|lia|lia|unfold no_swan; cbn; rewrite Hfund, Hsw; exact Hb2|]|].
    { unfold swan_ok, no_swan in *. cbn. by rewrite Hsw, Ho. }
    exists b. split_and!; [done|by cbn; rewrite Ho|]. intros _. exact Hf.
  - intros a. cbn. unfold w_bitasset. cbn. by rewrite Ho, Hfund.
Qed.

Lemma update_producers_bid g op s e s' :
  update_producers_evaluate g op s = Ok (e, s') -> s' = s.
Proof. unfold update_producers_evaluate. intros E. by pure_run. Qed.
#[export] Instance update_producers_laws
  : EvaluatorLaws asset_update_feed_producers_operation Z unit (fun op => int64_amount (uf_fee op)).
Proof.
  use_default_laws.
  - cbn. intros g op s e s' E. by eapply update_producers_bid.
  - cbn. intros g op e d s0 s r s' _ _ _ _ _ Hw E. unfold update_producers_apply in E.
    apply step_conserves. op_ok.
    destruct (median_row s e o _ o' _ Hw Lk (feeds_ok_new _ _ (wf_feeds s Hw _ _ Lk)) eq_refl eq_refl eq_refl Fn)
      as [Hrow Hwt].
    specialize (St (fun _ => Hrow)).
    match goal with Hc : check_call_orders _ _ _ ?t = Ok _ |- _ =>
      apply check_call_orders_quiet in Hc as [[S2 _] _]; [|exact (step_wf _ _ _ St Hw)] end.
    eapply step_ext; [|eapply step_trans; [exact St|exact S2]]. intros y. cbv beta. rewrite Hwt. lia.
Qed.

Definition feed_typed (f : price_feed) : Prop :=
  (int64_amount (base (settlement_price f)) /\ int64_amount (quote (settlement_price f)))
  /\ int64_amount (base (core_exchange_rate f)) /\ int64_amount (quote (core_exchange_rate f)).
Lemma publish_validate_ok op :
  feed_typed (feed op) -> asset_publish_feed_validate op = Ok tt -> feed_ok (feed op).
Proof.
  intros [[Hb%int64_amount_lt Hq%int64_amount_lt] [Hcb%int64_amount_lt Hcq%int64_amount_lt]] E.
  unfold asset_publish_feed_validate in E. repeat run_ok1.
  repeat match goal with u : () |- _ => destruct u end.
  match goal with V : feed_validate _ = Ok _ |- _ => unfold feed_validate in V; repeat run_ok1 end.
  repeat match goal with Hn : negb (is_null ?p) = true |- _ => apply negb_true_iff in Hn; rewrite Hn in * end.
  repeat match goal with u : () |- _ => destruct u end. rewrite ?Z.leb_le in *.
  match goal with V : price_validate (core_exchange_rate _) = Ok _ |- _ =>
    apply price_validate_valid in V as [? ? _]; [|done..] end. unfold pos_int64 in *.
  split_and!; try lia. right. by apply price_validate_valid.
Qed.

Lemma may_revive_conserves mia bid s u s' :
  chain_wf s -> may_revive mia bid s = Ok (u, s') -> conserves (fun _ => 0) s s'.
Proof.
  intros Hw E. unfold may_revive in E. repeat run_ok1. reads_ok.
  match goal with Hc : (if ?b then _ else _) ?t = Ok (_, ?t') |- _ =>
    assert (t' = t) as -> by (destruct b; [by pure_ok|]; match goal with Hi : (if ?c then _ else _) t = _ |- _ =>
      destruct c; by pure_ok end) end.
  eapply when_conserves; [|exact E]. intros Hr. apply step_conserves. by eapply revive_step.
Qed.

#[export] Instance publish_feed_laws
  : EvaluatorLaws asset_publish_feed_operation unit unit
      (fun op => int64_amount (pf_fee op) /\ feed_typed (feed op)).
Proof.
  use_default_laws.
  - cbn. unfold publish_feed_evaluate. intros g op s e s' E. unfold fed_by in E.
    by pure_run.
  - cbn. intros g op e d s0 s r s' Hv [_ Ht] _ _ _ Hw E. unfold publish_feed_apply in E.
    pose proof (publish_validate_ok _ Ht Hv) as Hf. repeat run_ok1. reads_ok. pure_ok.
    match goal with F : update_median_feeds _ (set_feeds _ ?b) = Ok ?b', L : table ?t !! ?i = Some ?b |- _ =>
      destruct (median_row t i b _ b' _ Hw L (feeds_ok_insert (publisher op) (head_block_time t) _ _ Hf (wf_feeds t Hw _ _ L))
                  eq_refl eq_refl eq_refl F) as [Hrow Hwt] end.
    specialize (St (fun _ => Hrow)).
    match type of St with step _ _ ?t => assert (S0 : conserves (fun _ => 0) s t) end.
    { apply step_conserves. eapply step_ext; [|exact St]. intros y. cbv beta. rewrite Hwt. lia. }
    apply (conserves_0_trans _ _ _ S0). apply step_wf in St; [|done].
    eapply when_conserves; [|exact E]. intros Hr. repeat run_ok1.
    match goal with Hm : when _ (may_revive _ _) ?t = Ok (_, ?t') |- _ =>
      assert (S1 : conserves (fun _ => 0) t t');
        [eapply when_conserves; [|exact Hm]; intros; by eapply may_revive_conserves|] end.
    apply (conserves_0_trans _ _ _ S1).
    match goal with Hc : check_call_orders _ _ _ _ = Ok _ |- _ =>
      apply check_call_orders_quiet in Hc as [[S2 _] _]; [by apply step_conserves|by apply S1] end.
Qed.

(** ** Settlement *)
Definition settle_price_typed (p : price) : Prop :=
  0 <= amount (base p) < 2 ^ 63 /\ 0 <= amount (quote p) < 2 ^ 63.
Lemma settled_price_weak s op g e s' :
  map_Forall (fun _ => call_ok) (call_orders s) -> settle_price_typed (settle_price op) ->
  global_settle_evaluate g op s = Ok (e, s') -> s' = s /\ weak_price (settle_price op).
Proof.
  intros Hw [Hb Hq] E. unfold global_settle_evaluate in E. pure_run.
  repeat match goal with x : _ * _ |- _ => destruct x end. cbn in *. pure_run.
  match goal with Hi : at_itr _ _ _ = Ok _ |- _ => apply at_itr_Ok in Hi as (-> & _ & Hc) end.
  split; [done|]. split; [done|done|]. intros Eid. cbn in Hc.
  destruct (Hw _ _ Hc) as (_ & _ & [_ _ Hne]).
  match goal with Hm : asset_mul _ _ = Ok ?v, Hl : asset_le ?v _ = Ok _ |- _ =>
    apply asset_le_Ok in Hl as [Hl _]; unfold asset_mul in Hm; cbn in Hm, Hl end.
  apply Hne. unfold debt_type in *. rewrite <- Eid in *.
  destruct (Z.eqb_spec (asset_id (quote (order_call_price c))) (asset_id (base (settle_price op))));
    [|destruct (Z.eqb_spec (asset_id (quote (order_call_price c))) (asset_id (base (settle_price op)))); [done|discriminate]].
  run_ok1. run_ok1. subst. cbn in *. congruence.
Qed.
#[export] Instance global_settle_laws
  : EvaluatorLaws asset_global_settle_operation unit unit
      (fun op => int64_amount (gs_fee op) /\ settle_price_typed (settle_price op)).
Proof.
  use_default_laws.
  - cbn. unfold global_settle_evaluate. intros g op s e s' E. pure_run.
    repeat match goal with x : _ * _ |- _ => destruct x end. cbn in *. pure_run.
    match goal with Hi : at_itr _ _ _ = Ok _ |- _ => by apply at_itr_Ok in Hi as (-> & _ & Hc) end.
  - cbn. intros g op e d s0 s r s' _ [_ Ht] Hev [_ Hc] _ Hw E. unfold global_settle_apply in E.
    run_ok1. reads_ok. apply step_conserves.
    apply globally_settle_step in E as [S _]; [exact S|exact Hw|].
    apply settled_price_weak in Hev as [_ Hp]; [exact Hp| |exact Ht]. rewrite <- Hc. apply (wf_calls s Hw).
Qed.

(** What is paid for [n] of a settled asset [x]. *)
Lemma settled_amount s x o b d n r :
  chain_wf s -> assets s !! x = Some o -> bitasset_data_id o = Some b -> bitasset_data s !! b = Some d ->
  has_settlement d = true -> 0 <= n < 2 ^ 63 -> asset_mul (mk_asset n x) (swan_price d) = Ok r ->
  asset_id r = short_backing_asset (bitasset_opts d) /\ 0 <= amount r.
Proof.
  intros Hw Ho Hb Hd Hs Hn E. pose proof (wf_bitassets s Hw _ _ Hd) as (_ & _ & _ & [Hnull|(Hbase & Hq & Hid & _)]).
  - exfalso. unfold has_settlement in Hs. rewrite Hnull in Hs. unfold is_null, price_eqb in Hs.
    by rewrite !Z.eqb_refl in Hs.
  - pose proof (wf_not_own s Hw _ _ Ho _ _ Hb Hd) as Hne. unfold asset_mul in E. cbn in E.
    destruct (x =? asset_id (base (swan_price d))).
    + run_ok1. run_ok1. subst r. split; [exact Hid|]. cbn.
      assert (0 < amount (base (swan_price d))).
      { unfold mul_div in Hrun. apply result_bind_Ok in Hrun as (? & Hp & _). apply fc_assert_Ok in Hp.
        by apply Z.ltb_lt in Hp. }
      eapply mul_div_nonneg; [..|exact Hrun]; lia.
    + destruct (Z.eqb_spec x (asset_id (quote (swan_price d)))); [congruence|done].
Qed.

Lemma redeem_step s x o b d y m acc u1 s1 u2 s2 u3 s3 :
  chain_wf s -> assets s !! x = Some o -> bitasset_data_id o = Some b -> bitasset_data s !! b = Some d ->
  has_settlement d = true -> asset_id y = short_backing_asset (bitasset_opts d) ->
  0 <= amount y <= settlement_fund d -> modify b (sub_fund (amount y)) s = Ok (u1, s1) ->
  adjust_balance acc y s1 = Ok (u2, s2) -> modify (dynamic_asset_data_id o) (sub_supply m) s2 = Ok (u3, s3) ->
  step (fun a => if_asset a x m) s s3.
Proof.
  intros Hw Ho Hb Hd Hs Hid Hy E1 E2 E3. apply modify_step in E1 as (z & z' & Lk & Fn & Es & St).
  match goal with L : table s !! b = Some ?z |- _ => assert (z = d) as -> by (cbn in L; congruence) end.
  unfold sub_fund in Fn. run_ok1. injection Fn as <-.
  match goal with F : safe_sub _ _ = Ok _ |- _ => apply safe_sub_spec in F as [-> _] end.
  pose proof (wf_bitassets s Hw _ _ Hd) as (Hf & Hr & _ & Hsw).
  assert (Hnn : swan_price d <> null_price).
  { intros Hn. unfold has_settlement in Hs. rewrite Hn in Hs. unfold is_null, price_eqb in Hs.
    by rewrite !Z.eqb_refl in Hs. }
  assert (Hrow : row_ok s b (set_swan (swan_price d) (settlement_fund d - amount y) d)).
  { split; [split_and!; cbn; [exact Hf|lia|lia| |exact Hsw]|by exists d].
    intros [Hb0 Hq0]. cbn in *. exfalso. destruct Hsw as [?|(_ & _ & _ & Hne)]; [done|congruence]. }
  specialize (St (fun _ => Hrow)). op_ok1.
  assert (Hw2 := step_wf _ _ _ St0 (step_wf _ _ _ St Hw)).
  assert (Ho2 : assets s2 !! x = Some o) by by rewrite (step_assets _ _ _ St0), (step_assets _ _ _ St).
  apply (dynamic_step _ _ _ _ _ _ Hw2 Ho2) in E3 as (d0 & d1 & Hd0 & Hf0 & S).
  pose proof (sub_supply_dynamic_ok _ _ _ Hf0) as Hok. apply sub_supply_Ok in Hf0 as ->. specialize (S Hok).
  eapply step_ext; [|compose_steps]. intros a. cbv beta. cbn. unfold w_bitasset. cbn. rewrite <- Hid. weigh.
Qed.

#[export] Instance settle_laws
  : EvaluatorLaws asset_settle_operation unit (asset + Z)
      (fun op => int64_amount (as_fee op) /\ int64_amount (as_amount op)).
Proof.
  use_default_laws.
  - cbn. unfold settle_evaluate. intros g op s e s' E. by pure_run.
  - cbn. intros g op e d s0 s r s' Hv [_ Ht%int64_amount_lt] _ _ _ Hw E. unfold settle_apply in E.
    apply step_conserves. do 2 run_ok1. run_ok1. op_ok1. negs.
    unfold asset_settle_validate in Hv. repeat run_ok1. apply Z.leb_le in Hv.
    pose proof (step_wf _ _ _ St Hw) as Hw1.
    match goal with Hb : bitasset_of _ _ = Ok _ |- _ => apply bitasset_of_Ok in Hb as (-> & o & b & Ho & Hbid & Hb) end.
    reads_ok. branch E.
    + repeat run_ok1. reads_ok. negs.
      match goal with Hm : asset_mul _ (swan_price ?d) = Ok ?r, L : table ?t !! ?i = Some ?d, Hi : (if _ then _ else _) _ = Ok (?y, ?t') |- _ =>
        destruct (settled_amount t _ _ _ _ (amount (as_amount op)) r Hw1 Ho Hbid L Heqb0 (conj Hv Ht)) as [Hrid Hr0];
        [by destruct (as_amount op)|];
        assert (Hset : t' = t /\ asset_id y = asset_id r /\ 0 <= amount y <= settlement_fund d) end.
      { pose proof (wf_bitassets _ Hw1 _ _ H11) as (_ & ? & _). branch Hrun5; repeat run_ok1; subst; cbn;
          rewrite ?Z.leb_le in *; split_and!; done || lia. }
      destruct Hset as (-> & Hid8 & Hn8). rewrite Hrid in Hid8. assert (a4 = o) as -> by (cbn in *; congruence).
      eapply step_ext; [|eapply step_trans; [exact St|]].
      2: { eapply redeem_step; eauto. }
      intros y. cbv beta. weigh.
    + op_ok. specialize (St0 (fun _ => conj Hv Ht)).
      eapply step_ext; [|eapply step_trans; [exact St|exact St0]]. intros y. cbv beta. negs. weigh.
Qed.
End Laws.
End AssetLaws.
