(* ===== verification/AssetTheorems.v ===== *)
(** * Assets: creation, supply, permissions

    Creating an asset keeps every supply, since the records of the new asset
    are fresh; changing the options of a bitasset does when it keeps its backing
    asset.  Then the properties of the operations on assets that their issuers
    and holders rely on. *)
From Stdlib Require Import ZArith Lia String Ascii.
From stdpp Require Import base gmap sets list strings.
From S2P Require Import Prelude External Asset Vesting Authority Chain Balance Accounting Market MarketSupply Evaluator MarketEvaluator MarketLaws AssetObject Transfers TransferLaws AssetOps AssetEvaluator BitassetEvaluator AssetLaws Scenario.

Module AssetTheorems.
Import Asset Vesting Authority Chain Balance Accounting Market MarketSupply Evaluator MarketEvaluator MarketLaws AssetObject Transfers TransferLaws AssetOps AssetEvaluator BitassetEvaluator AssetLaws Scenario.

Section Create.
Context `{SafeLaws, U128Laws, RationalLaws, IndexLaws, NthLaws, TimeLaws}.

(** ** Fresh records *)
Lemma create_id `{Object A, UniqueKey A} (o : A) s id s' :
  create o s = Ok (id, s') -> id = next_instance type_id s.
Proof. unfold create. intros E. by repeat run_ok1. Qed.
Lemma new_bitasset_conserves id b n s :
  bitasset_data s !! id = None -> bitasset_ok b -> feeds_ok b -> settlement_fund b = 0 ->
  conserves (fun _ => 0) s (set_next_instances n (set_bitasset_data (<[id := b]> (bitasset_data s)) s)).
Proof.
  intros Hid Hb Hf Hz. split.
  - intros Hw. apply wf_next.
    assert (Hne : forall x o i, assets s !! x = Some o -> bitasset_data_id o = Some i -> i <> id).
    { intros x o i Ho Hi ->. destruct (wf_records s Hw _ _ Ho) as [_ Hr]. destruct (Hr _ Hi). congruence. }
    assert (Hback : forall D C, backed s D C -> backed (set_bitasset_data (<[id := b]> (bitasset_data s)) s) D C).
    { intros D C [He HD]. split; [done|]. intros o i d Ho Hi. cbn. rewrite lookup_insert_ne by (by apply not_eq_sym; eauto).
      by apply (HD o). }
    pose proof Hw as []. split; try done; try by apply map_Forall_insert_2.
    + intros k c Hc. by apply Hback, (wf_call_backed s Hw _ _ Hc).
    + intros k c Hc. by apply Hback, (wf_bid_backed s Hw _ _ Hc).
    + intros x o Ho i d Hi. cbn. rewrite lookup_insert_ne by (by apply not_eq_sym; eauto). by apply (wf_not_own s Hw _ _ Ho i).
    + intros x o Ho. destruct (wf_records s Hw _ _ Ho) as [? Hr]. split; [done|]. intros i Hi. cbn.
      rewrite lookup_insert_is_Some'. right. auto.
  - intros a. rewrite surplus_next. unfold surplus. cbn. rewrite (sum_map_insert_new _ _ _ _ Hid).
    unfold w_bitasset at 1, if_asset at 1. rewrite Hz. case_match; lia.
  - done.
Qed.

Lemma new_asset_conserves x a d n s :
  assets s !! x = None -> options_ok a ->
  asset_dynamic_data s !! dynamic_asset_data_id a = Some d ->
  confidential_supply d + accumulated_fees d - current_supply d = 0 ->
  (forall y o, assets s !! y = Some o -> dynamic_asset_data_id o <> dynamic_asset_data_id a) ->
  (forall i, bitasset_data_id a = Some i ->
     exists b, bitasset_data s !! i = Some b /\ short_backing_asset (bitasset_opts b) <> x) ->
  conserves (fun _ => 0) s (set_next_instances n (set_assets (<[x := a]> (assets s)) s)).
Proof.
  intros Hx Hok Hd Hz Hfresh Hbit.
  assert (Hdyn : forall y, dyn_of (<[x := a]> (assets s)) y
            = if y =? x then Some (dynamic_asset_data_id a) else dyn_of (assets s) y).
  { intros y. unfold dyn_of. destruct (Z.eqb_spec y x) as [->|]; [by rewrite lookup_insert_eq|].
    by rewrite lookup_insert_ne. }
  assert (Hno : forall y, dyn_of (assets s) y <> Some (dynamic_asset_data_id a)).
  { intros y. unfold dyn_of. destruct (assets s !! y) eqn:E; cbn; [|done]. intros [= Ed]. by eapply Hfresh. }
  split.
  - intros Hw. apply wf_next.
    assert (Hback : forall D C, backed s D C -> backed (set_assets (<[x := a]> (assets s)) s) D C).
    { intros D C [[o Ho] HD]. assert (D <> x) by congruence. split; cbn; rewrite lookup_insert_ne by done; [by eexists|done]. }
    pose proof Hw as []. split; try done; try by apply map_Forall_insert_2.
    + intros y z k. cbn. rewrite !Hdyn. destruct (Z.eqb_spec y x) as [Ey|], (Z.eqb_spec z x) as [Ez|]; [congruence|..].
      * intros [= <-] E. by apply Hno in E.
      * intros E [= <-]. by apply Hno in E.
      * apply (wf_dyn s Hw).
    + intros k c Hc. by apply Hback, (wf_call_backed s Hw _ _ Hc).
    + intros k c Hc. by apply Hback, (wf_bid_backed s Hw _ _ Hc).
    + apply map_Forall_insert_2; [|exact (wf_not_own s Hw)]. intros i b Hi Hb.
      destruct (Hbit _ Hi) as (b' & Hb' & Hne). cbn in *. congruence.
    + apply map_Forall_insert_2; [|exact (wf_records s Hw)]. split; [by eexists|]. intros i Hi.
      destruct (Hbit _ Hi) as (b' & Hb' & _). by eexists.
    + cbn. rewrite Hdyn. destruct (Z.eqb_spec core_asset x) as [<-|]; [|done].
      pose proof (wf_core s Hw) as Hc. unfold dyn_of in Hc. by rewrite Hx in Hc.
  - intros y. rewrite surplus_next. unfold surplus. cbn. rewrite Z.add_0_r. do 5 f_equal. apply sum_map_ext.
    intros k o Hk. unfold w_dynamic. rewrite Hdyn. destruct (Z.eqb_spec y x) as [->|]; [|done].
    unfold dyn_of. rewrite Hx. cbn. case_bool_decide as E; [|done]. injection E as <-.
    assert (o = d) as -> by congruence. rewrite Hz. by rewrite bool_decide_eq_false_2.
  - done.
Qed.

(** ** [asset_create_evaluator] *)
(** The core of an odd fee that is neither paid nor put into the pool. *)
Definition odd_share (g : generic_evaluator) : Z := if Z.odd (core_fee_paid g) then 1 else 0.
Lemma bitasset_create_Ok x (op : asset_create_operation) s r s' :
  (forall b, ac_bitasset_opts op = Some b -> short_backing_asset b <> x) ->
  match ac_bitasset_opts op with
  | Some b => id ← create (new_bitasset op b); mret (Some id)
  | None => mret None
  end s = Ok (r, s') ->
  conserves (fun _ => 0) s s' /\ assets s' = assets s /\ asset_dynamic_data s' = asset_dynamic_data s
  /\ forall i, r = Some i -> exists b, bitasset_data s' !! i = Some b /\ short_backing_asset (bitasset_opts b) <> x.
Proof.
  intros Hx E. destruct (ac_bitasset_opts op) as [b|]; repeat run_ok1; subst.
  - match goal with Hc : create _ _ = Ok _ |- _ => apply create_Ok in Hc as [Hid ->] end. cbn in *. split_and!; try done.
    + apply new_bitasset_conserves; [done| |by apply map_Forall_empty|done].
      split_and!; cbn; try lia; [apply default_feed_ok|by left].
    + intros i [= <-]. exists (new_bitasset op b). rewrite lookup_insert_eq. split; [done|]. by apply Hx.
  - split_and!; try done. by apply step_conserves, step_refl.
Qed.

Lemma set_new_asset_rate_ok n o a :
  options_typed o -> asset_options_validate o = Ok tt -> options a = set_new_asset_rate n o -> options_ok a.
Proof.
  intros Ht Hv Ea. apply options_validate_Ok in Hv as (? & ? & [Hb Hq _]); [|done]. unfold pos_int64 in *.
  unfold options_ok. rewrite Ea. unfold set_new_asset_rate. cbn.
  destruct (asset_id (base (options_core_exchange_rate o)) =? 0); cbn; lia.
Qed.
Lemma asset_create_apply_conserves g u paid op s id s' :
  chain_wf s -> asset_options_validate (common_options op) = Ok tt -> options_typed (common_options op) ->
  (forall b, ac_bitasset_opts op = Some b -> is_Some (assets s !! short_backing_asset b)) ->
  asset_create_apply g u paid op s = Ok (id, s') ->
  conserves (fun a => if_asset a core_asset (paid - odd_share g)) s s'.
Proof.
  intros Hw Hv Ht Hback E. unfold asset_create_apply in E. repeat run_ok1.
  set (hf := Z.odd (core_fee_paid g) && (HARDFORK_CORE_429_TIME <? head_block_time s)) in *.
  match goal with Hs : safe_sub _ _ = Ok ?x |- _ => apply safe_sub_spec in Hs as [-> _] end.
  match goal with
    Hc : create _ s = Ok (?n, ?t), Hk : when _ _ ?t = Ok (_, ?t2), Hm : match _ with _ => _ end ?t2 = Ok (?i, ?t3) |- _ =>
    rename n into dyn, t into sA, t2 into sB, t3 into sC, i into bit, Hc into E1, Hk into E2, Hm into E3 end.
  pose proof E1 as [Hdyn _]%create_Ok. apply create_step in E1 as (_ & Es1 & S1). specialize (S1 (fun _ => eq_refl)).
  cbn in Hdyn.
  assert (Hfresh : forall y o, assets s !! y = Some o -> dynamic_asset_data_id o <> dyn).
  { intros y o Ho <-. destruct (wf_records s Hw _ _ Ho) as [[d Hd] _]. congruence. }
  assert (W1 : forall a, weight s a dyn (mk_dynamic_data 0 0 0 (paid - (if hf then 1 else 0)))
             = if_asset a core_asset (paid - (if hf then 1 else 0))).
  { intros y. cbn. unfold w_dynamic. case_bool_decide; cbn; lia. }
  pose proof (step_wf _ _ _ S1 Hw) as Hw1.
  assert (S2 : step (fun a => if_asset a core_asset (if Z.odd (core_fee_paid g) && negb hf then -1 else 0)) sA sB
              /\ asset_dynamic_data sB !! dyn = Some (mk_dynamic_data 0 0 0 (paid - (if hf then 1 else 0)))).
  { assert (Hd1 : asset_dynamic_data sA !! dyn = Some (mk_dynamic_data 0 0 0 (paid - (if hf then 1 else 0))))
      by (rewrite Es1; cbn; by rewrite lookup_insert_eq).
    apply when_Ok in E2 as [[Hb Hc]|[Hb ->]]; rewrite Hb.
    - repeat run_ok1. reads_ok.
      match goal with L : table sA !! core_asset = Some ?o, Hm : modify _ _ sA = Ok _ |- _ =>
        pose proof Hm as Hm'; apply (dynamic_step _ _ _ _ _ _ Hw1 L) in Hm as (d0 & d1 & Hd0 & Hf0 & S);
        apply modify_Ok in Hm' as (? & ? & _ & _ & ->);
        assert (Hne : dynamic_asset_data_id o <> dyn) by (apply (Hfresh core_asset); rewrite Es1 in L; exact L) end.
      apply add_supply_Ok in Hf0 as [-> Hok]. specialize (S Hok). split.
      + eapply step_ext; [|exact S]. intros y. cbn. unfold if_asset. destruct (core_asset =? y); lia.
      + cbn. by rewrite lookup_insert_ne.
    - split; [|done]. eapply step_ext; [|apply step_refl]. intros y. unfold if_asset. by destruct (core_asset =? y). }
  destruct S2 as [S2 Hd2].
  assert (Ea2 : assets sB = assets s) by (rewrite (step_assets _ _ _ S2); exact (step_assets _ _ _ S1)).
  pose proof (create_id _ _ _ _ E) as Eid. apply create_Ok in E as [Hid ->]. cbn in Hid, Eid.
  apply (bitasset_create_Ok (next_instance 3 sC)) in E3 as (C3 & Ea3 & Ed3 & Hb3).
  2: { intros b Hb Hx. destruct (Hback _ Hb) as [o Ho].
       assert (assets sC = assets sB) as Ex by (destruct (ac_bitasset_opts op); repeat run_ok1; subst;
         [match goal with Hc : create _ _ = Ok _ |- _ => apply create_Ok in Hc as [_ ->]; done end|done]).
       rewrite Ex, Ea2, Eid, <- Hx in Hid. congruence. }
  eapply conserves_ext; [|eapply conserves_trans; [apply (step_conserves _ _ _ S1)|
    eapply conserves_trans; [apply (step_conserves _ _ _ S2)|eapply conserves_trans; [exact C3|]]]].
  2: { eapply new_asset_conserves; [exact Hid| |cbn; rewrite Ed3; exact Hd2|done| |rewrite Eid; exact Hb3].
       - by eapply set_new_asset_rate_ok.
       - intros y o. cbn. rewrite Ea3, Ea2. apply Hfresh. }
  intros y. cbv beta. rewrite W1. unfold odd_share, if_asset. subst hf.
  destruct (core_asset =? y), (Z.odd (core_fee_paid g)), (HARDFORK_CORE_429_TIME <? head_block_time s); cbn; lia.
Qed.

Lemma check_prefix_pure op s u s' : check_prefix op s = Ok (u, s') -> s' = s.
Proof.
  unfold check_prefix, parent_issuer. intros E. repeat run_ok1.
  repeat match type of E with
    | (if ?b then _ else _) _ = _ => destruct b
    | match ?o with Some _ => _ | None => _ end _ = _ => destruct o
    end; repeat run_ok1; try done;
    match goal with Hi : at_itr _ _ _ = Ok (?p, _) |- _ => destruct p as [i o]; by apply at_itr_Ok in Hi as (-> & _) end.
Qed.
Lemma check_backing_Ok op b s u s' :
  check_backing op b s = Ok (u, s') -> s' = s /\ is_Some (assets s !! short_backing_asset b).
Proof.
  unfold check_backing. intros E. run_ok1. reads_ok. split; [|by eexists]. by pure_run.
Qed.
Lemma asset_create_evaluate_Ok g op s u s' :
  asset_create_evaluate g op s = Ok (u, s') ->
  s' = s /\ forall b, ac_bitasset_opts op = Some b -> is_Some (assets s !! short_backing_asset b).
Proof.
  unfold asset_create_evaluate. intros E. repeat run_ok1.
  repeat match goal with
  | Hx : accounts_exist _ _ = Ok _ |- _ => apply accounts_exist_pure in Hx as ->
  | Hx : check_prefix _ _ = Ok _ |- _ => apply check_prefix_pure in Hx as ->
  end.
  match goal with Hb : match ac_bitasset_opts op with _ => _ end s = Ok (_, ?t) |- _ =>
    assert (t = s /\ forall b, ac_bitasset_opts op = Some b -> is_Some (assets s !! short_backing_asset b)) as [-> Hk];
      [|clear Hb] end.
  { destruct (ac_bitasset_opts op) as [b|]; [|run_ok1; by split].
    match goal with Hb : check_backing _ _ _ = Ok _ |- _ => apply check_backing_Ok in Hb as [-> ?] end.
    split; [done|]. by intros ? [= <-]. }
  split; [|exact Hk]. by pure_run.
Qed.

#[export] Instance asset_create_laws
  : EvaluatorLaws asset_create_operation unit Z
      (fun op => int64_amount (ac_fee op) /\ options_typed (common_options op)).
Proof.
  split.
  - cbn. intros g op s e s' [-> _]%asset_create_evaluate_Ok. done.
  - cbn. intros trx g op e s0 m d s1 r s' Hsk Hw Hc Hv [_ Ht] [_ He]%asset_create_evaluate_Ok Hp Ha.
    unfold asset_create_pay_fee in Hp. repeat run_ok1.
    match goal with Hs : safe_sub _ _ = Ok ?p |- _ => apply safe_sub_spec in Hs as [-> _] end.
    match goal with Hp : generic_pay_fee _ _ _ = Ok _ |- _ => apply generic_pay_fee_step in Hp as [[m' E1] S1]; [|done] end.
    apply asset_create_apply_conserves in Ha; [|exact (step_wf _ _ _ S1 Hw)| |exact Ht|].
    2: { unfold asset_create_validate in Hv. repeat run_ok1. by repeat match goal with u : () |- _ => destruct u end. }
    2: { intros b Hb. rewrite E1. by apply He. }
    eapply conserves_ext; [|eapply conserves_trans; [apply (step_conserves _ _ _ S1)|exact Ha]].
    intros y. cbn. unfold odd_share, if_asset. destruct (core_asset =? y); [|lia].
    rewrite Z.quot_div_nonneg by lia. pose proof (Z.div_mod (core_fee_paid g) 2). rewrite Zodd_mod.
    pose proof (Z.mod_pos_bound (core_fee_paid g) 2). destruct (Z.eqb_spec (core_fee_paid g mod 2) 1); lia.
Qed.

(** ** [asset_update_bitasset_evaluator], when the backing asset stays *)
Definition keeps_backing (op : asset_update_bitasset_operation) (s : database) : Prop :=
  forall o i b, assets s !! ub_asset op = Some o -> bitasset_data_id o = Some i -> bitasset_data s !! i = Some b ->
    short_backing_asset (ub_options op) = short_backing_asset (bitasset_opts b).
Lemma update_bitasset_evaluate_Ok g op s bid s' :
  update_bitasset_evaluate g op s = Ok (bid, s') ->
  s' = s /\ exists o b, assets s !! ub_asset op = Some o /\ bitasset_data_id o = Some bid /\ bitasset_data s !! bid = Some b.
Proof.
  unfold update_bitasset_evaluate. intros E. repeat run_ok1. reads_ok.
  match goal with Hb : bitasset_of _ _ = Ok _ |- _ => apply bitasset_of_Ok in Hb as (-> & o & d & Ho & Hi & Hd) end.
  reads_ok. split; [by pure_run|]. by exists o, d.
Qed.
Lemma update_bitasset_apply_conserves g op bid paid s o b r s' :
  chain_wf s -> assets s !! ub_asset op = Some o -> bitasset_data_id o = Some bid -> bitasset_data s !! bid = Some b ->
  short_backing_asset (ub_options op) = short_backing_asset (bitasset_opts b) ->
  update_bitasset_apply g bid paid op s = Ok (r, s') -> conserves (fun _ => 0) s s'.
Proof.
  intros Hw Ho Hi Hb Hback E. unfold update_bitasset_apply in E. repeat run_ok1. reads_ok.
  apply modify_step in E as (x & x' & Lk & Fn & Es & St). assert (x = b) as -> by (cbn in *; congruence).
  assert (a = b) as -> by (cbn in *; congruence).
  assert (Hrow : row_ok s bid x' /\ forall y, weight s y bid x' = weight s y bid b).
  { destruct (negb _).
    - exact (median_row s bid b (set_bitasset_options (ub_options op) b) x' _ Hw Hb (wf_feeds s Hw _ _ Hb) Hback eq_refl eq_refl Fn).
    - injection Fn as <-. pose proof (wf_bitassets s Hw _ _ Hb) as (Hf & Hr & Hn & Hs). split.
      + split; [|exists b; by split]. refine (conj Hf (conj Hr (conj Hn _))). unfold swan_ok in *. cbn. by rewrite Hback.
      + intros y. cbn. unfold w_bitasset. cbn. by rewrite Hback. }
  destruct Hrow as [Hrow Hwt]. specialize (St (fun _ => Hrow)). apply step_conserves.
  eapply step_ext; [|exact St]. intros y. cbv beta. rewrite Hwt. lia.
Qed.
End Create.
End AssetTheorems.
