(* ===== verification/FeeLaws.v ===== *)
(** * Cashback and fees of accounts: laws ([db_balance.cpp],
    [account_object.cpp])

    Depositing pay and cashback, and paying an account's fees out, add to what is
    accounted for exactly what was deposited: nothing of a fee is lost or made in
    its split between the network, the lifetime referrer, the referrer and the
    registrar. *)
From Stdlib Require Import ZArith Lia String.
From stdpp Require Import base gmap sets list strings.
From S2P Require Import Prelude External Asset Vesting Chain Balance Accounting Market MarketSupply Evaluator MarketEvaluator MarketLaws AssetObject Transfers AssetOps AssetEvaluator BitassetEvaluator AssetLaws.

Module FeeLaws.
Import Asset Vesting Chain Balance Accounting Market MarketSupply Evaluator MarketEvaluator MarketLaws AssetObject Transfers AssetOps AssetEvaluator BitassetEvaluator AssetLaws.

Ltac reads_ok := repeat (run_ok1 || match goal with
  | Hg : get _ _ _ = Ok _ |- _ => apply get_Ok in Hg as [? ->]
  | Hg : deref _ _ _ = Ok _ |- _ => apply deref_Ok in Hg as [? ->] end).

(** [n] core is added, and the statistics of the accounts are left alone. *)
Definition pays (n : Z) (s s' : database) : Prop :=
  step (fun a => if_asset a core_asset n) s s' /\ account_statistics s' = account_statistics s.
Lemma pays_0 s : pays 0 s s.
Proof. split; [|done]. eapply step_ext; [|apply step_refl]. intros a. unfold if_asset. by case_match. Qed.
Lemma pays_trans m n s1 s2 s3 : pays m s1 s2 -> pays n s2 s3 -> pays (m + n) s1 s3.
Proof.
  intros [S1 E1] [S2 E2]. split; [|congruence]. eapply step_ext; [|eapply step_trans; [exact S1|exact S2]].
  intros a. cbv beta. unfold if_asset. case_match; lia.
Qed.
Lemma pays_wf n s s' : pays n s s' -> chain_wf s -> chain_wf s'.
Proof. intros [S _]. apply (step_wf _ _ _ S). Qed.

Section Laws.
Context `{SafeLaws, U128Laws, RationalLaws, IndexLaws, NthLaws, TimeLaws}.

Lemma deposit_lazy_vesting_pays vb amt period owner vesting s o s' :
  deposit_lazy_vesting vb amt period owner vesting s = Ok (o, s') -> pays amt s s'.
Proof.
  unfold deposit_lazy_vesting. destruct (Z.eqb_spec amt 0) as [->|_]; [intros E; run_ok1; apply pays_0|].
  intros E. run_ok1. run_ok1. run_ok1.
  match goal with Hr : _ s = Ok (?x, ?t) |- _ => assert (t = s) as -> by (destruct vb; op_ok; done); clear Hr; destruct x as [vbid|] end.
  - op_ok. split; [|by subst]. eapply step_ext; [|exact St]. intros y.
    destruct vesting; unfold deposit, deposit_vested in Fn; repeat run_ok1; subst o';
      match goal with Ha : asset_add _ _ = Ok _ |- _ => apply asset_add_Ok in Ha as [Hid ->] end;
      cbn [asset_id amount vb_balance weight vesting_counted] in *; unfold w_vesting, asset_in, if_asset;
      cbn [asset_id amount vb_balance]; rewrite Hid; case_match; lia.
  - op_ok. split; [|by subst]. eapply step_ext; [|exact St]. intros y. cbn. unfold w_vesting, asset_in. cbn. done.
Qed.
Lemma deposit_cashback_pays account amt vesting s u s' :
  chain_wf s -> deposit_cashback account amt vesting s = Ok (u, s') -> pays amt s s'.
Proof.
  intros Hw. unfold deposit_cashback. destruct (Z.eqb_spec amt 0) as [->|_]; [intros E; run_ok1; apply pays_0|].
  destruct (blockchain_account account); intros E.
  - do 2 run_ok1. apply get_Ok in Hrun as [Ho ->]. apply dynamic_of_Ok in Hrun0 as (-> & -> & _).
    split; [|by op_ok1; subst].
    apply (dynamic_step core_asset _ _ _ _ _ Hw Ho) in E as (d & d' & Hd & Hf & S).
    eapply step_ext; [|apply S; by eapply sub_supply_dynamic_ok]. intros y. cbv beta. apply sub_supply_Ok in Hf as ->.
    cbn. unfold if_asset. case_match; lia.
  - reads_ok. match goal with Hd : deposit_lazy_vesting _ _ _ _ _ _ = Ok (?x, _) |- _ =>
      apply deposit_lazy_vesting_pays in Hd as P; destruct x as [vbid|] end; [|by run_ok1]. replace amt with (amt + 0) by lia. eapply pays_trans; [exact P|].
    op_ok. split; [|by subst]. eapply step_ext; [|exact St]. intros y. cbn. unfold if_asset. by case_match.
Qed.
Lemma deposit_witness_pay_pays wit amt s u s' :
  deposit_witness_pay wit amt s = Ok (u, s') -> pays amt s s'.
Proof.
  unfold deposit_witness_pay. destruct (Z.eqb_spec amt 0) as [->|_]; [intros E; run_ok1; apply pays_0|].
  intros E. reads_ok. match goal with Hd : deposit_lazy_vesting _ _ _ _ _ _ = Ok (?x, _) |- _ =>
    apply deposit_lazy_vesting_pays in Hd as P; destruct x as [vbid|] end; [|by run_ok1]. replace amt with (amt + 0) by lia. eapply pays_trans; [exact P|].
  op_ok. split; [|by subst]. eapply step_ext; [|exact St]. intros y. cbn. unfold if_asset. by case_match.
Qed.
Lemma add_accumulated_pays n s u s' :
  chain_wf s -> modify 0 (add_accumulated n) s = Ok (u, s') -> pays n s s'.
Proof.
  intros Hw E. pose proof (wf_core s Hw) as Hc. unfold dyn_of in Hc. apply fmap_Some in Hc as (o & Ho & Hd).
  split; [|by op_ok1; subst].
  assert (E' : modify (dynamic_asset_data_id o) (add_accumulated n) s = Ok (u, s')) by (by rewrite <- Hd).
  clear E. rename E' into E. apply (dynamic_step core_asset _ _ _ _ _ Hw Ho) in E as (d & d' & Hl & Hf & S).
  unfold add_accumulated in Hf. run_ok1. apply safe_add_spec in Hrun as [-> _]. injection Hf as <-.
  eapply step_ext; [|apply S; exact (wf_dynamic s Hw _ _ Hl)]. intros y. cbv beta. cbn. unfold if_asset. case_match; lia.
Qed.
Lemma set_referrer_pays b id f s u s' :
  when b (@modify account_object _ id f) s = Ok (u, s') -> pays 0 s s'.
Proof.
  intros [[_ E]|[_ ->]]%when_Ok; [|apply pays_0]. op_ok. split; [|by subst].
  eapply step_ext; [|exact St]. intros y. cbn. unfold if_asset. by case_match.
Qed.
(** The network's cut, the lifetime referrer's and those of the referrer and the
    registrar are the whole fee. *)
Lemma pay_out_fees_pays account total vesting s u s' :
  chain_wf s -> pay_out_fees account total vesting s = Ok (u, s') -> pays total s s'.
Proof.
  intros Hw. unfold pay_out_fees. intros E. reads_ok.
  apply set_referrer_pays in Hrun2 as P0. pose proof (pays_wf _ _ _ P0 Hw) as W0.
  apply add_accumulated_pays in Hrun9 as P1; [|done]. pose proof (pays_wf _ _ _ P1 W0) as W1.
  apply deposit_cashback_pays in Hrun13 as P2; [|done]. pose proof (pays_wf _ _ _ P2 W1) as W2.
  apply deposit_cashback_pays in Hrun15 as P3; [|done]. pose proof (pays_wf _ _ _ P3 W2) as W3.
  apply deposit_cashback_pays in E as P4; [|done].
  repeat match goal with Hs : safe_sub _ _ = Ok _ |- _ => apply safe_sub_spec in Hs as [-> _] end.
  replace total with (0 + (a4 + (a5 + (a10 + (total - a4 - a5 - a10))))) by lia.
  do 4 (eapply pays_trans; [eassumption|]). exact P4.
Qed.
(** Paying an account's fees out leaves no pending fee, and changes what is
    accounted for by nothing. *)
Lemma process_fees_step stats account s u s' :
  chain_wf s -> process_fees stats account s = Ok (u, s') -> step (fun _ => 0) s s'.
Proof.
  intros Hw. unfold process_fees. intros E. reads_ok.
  apply when_Ok in E as [[_ E]|[_ ->]]; [|apply step_refl]. reads_ok.
  apply pay_out_fees_pays in Hrun as [S1 E1]; [|done]. pose proof (step_wf _ _ _ S1 Hw) as W1.
  apply pay_out_fees_pays in Hrun1 as [S2 E2]; [|done]. op_ok1. repeat run_ok1.
  repeat match goal with Hs : safe_add _ _ = Ok _ |- _ => apply safe_add_spec in Hs as [-> _] end.
  eapply step_ext; [|eapply step_trans; [exact S1|eapply step_trans; [exact S2|exact St]]].
  intros y. assert (L1 : account_statistics s !! stats = Some o) by (rewrite <- E1, <- E2; exact Lk).
  assert (L2 : account_statistics s0 !! stats = Some o) by (rewrite <- E2; exact Lk).
  cbn in H11, H12. assert (a = o /\ a1 = o) as [-> ->] by (split; congruence).
  subst o'. cbn [weight statistics_counted]. unfold w_statistics, if_asset. cbn [pending_fees pending_vested_fees]. case_match; lia.
Qed.
End Laws.
End FeeLaws.
