(* ===== verification/AccountLaws.v ===== *)
(** * Accounts, members and genesis balances: laws *)
From Stdlib Require Import ZArith Lia String.
From stdpp Require Import base gmap sets list strings.
From S2P Require Import Prelude External Asset Vesting Authority Float Chain Balance Accounting Market MarketSupply Evaluator MarketEvaluator MarketLaws AssetObject Transfers TransferLaws AssetOps AssetEvaluator BitassetEvaluator AssetLaws FeeLaws AccountOps AccountEvaluator MemberEvaluator.

Module AccountLaws.
Import Asset Vesting Authority Float Chain Balance Accounting Market MarketSupply Evaluator MarketEvaluator MarketLaws AssetObject Transfers TransferLaws AssetOps AssetEvaluator BitassetEvaluator AssetLaws FeeLaws AccountOps AccountEvaluator MemberEvaluator.

(** ** Runs that change nothing *)
Definition pure {A} (m : M database A) : Prop := forall s r s', m s = Ok (r, s') -> s' = s.
Lemma pure_for_each {A} (l : list A) (f : A -> M database unit) : (forall x, pure (f x)) -> pure (for_each l f).
Proof.
  intros Hf s u s'. apply (for_each_ind (fun s s' => s' = s)); [done|intros; congruence|].
  intros x s1 s2 v _ E. by apply (Hf x) in E.
Qed.
Lemma pure_when b (m : M database unit) : pure m -> pure (when b m).
Proof. intros Hm s u s' [[_ E]|[_ ->]]%when_Ok; [by eapply Hm|done]. Qed.
Lemma pure_on_some {A} (o : option A) f : (forall x, pure (f x)) -> pure (on_some o f).
Proof. intros Hf s u s'. destruct o; cbn; [apply Hf|intros E; by run_ok1]. Qed.
Lemma pure_bind {A B} (m : M database A) (f : A -> M database B) : pure m -> (forall x, pure (f x)) -> pure (m ≫= f).
Proof. intros Hm Hf s r s' E. run_ok1. apply Hm in Hrun as ->. by eapply Hf. Qed.
Lemma pure_require b msg : pure (require b msg).
Proof. intros s r s' E. by run_ok1. Qed.
Lemma pure_lift {A} (r : result A) : pure (lift r).
Proof. intros s x s' E. by run_ok1. Qed.
Lemma pure_ret {A} (x : A) : pure (mret x).
Proof. intros s y s' E. by run_ok1. Qed.
Lemma pure_gets {A} (f : database -> A) : pure (gets f).
Proof. intros s y s' E. by run_ok1. Qed.
Lemma pure_get_state : pure get_state.
Proof. intros s y s' E. by run_ok1. Qed.
Lemma pure_get {A} `{Object A} id : pure (get A id).
Proof. intros s y s' E. unfold get, find in E. by repeat run_ok1. Qed.
Lemma pure_deref {A} `{Object A} id : pure (deref A id).
Proof. intros s y s' E. unfold deref, find in E. by repeat run_ok1. Qed.
Lemma pure_find {A} `{Object A} id : pure (find A id).
Proof. intros s y s' E. unfold find in E. by repeat run_ok1. Qed.
Create HintDb pure.
#[export] Hint Resolve pure_require pure_lift pure_ret pure_gets pure_get_state pure_get pure_deref pure_find : pure.
Ltac solve_pure :=
  repeat (intros; first
    [ done | apply pure_bind; [solve [auto with pure nocore | solve_pure]|] | apply pure_when | apply pure_on_some | apply pure_for_each
    | progress auto with pure nocore
    | match goal with |- pure (match ?x with _ => _ end) => destruct x end ]).

Lemma verify_authority_accounts_pure a : pure (verify_authority_accounts a).
Proof. unfold verify_authority_accounts. solve_pure. Qed.
Lemma verify_account_votes_pure o : pure (verify_account_votes o).
Proof. unfold verify_account_votes. solve_pure. Qed.
Lemma evaluate_special_authority_pure a : pure (evaluate_special_authority a).
Proof. unfold evaluate_special_authority. solve_pure. Qed.
Lemma evaluate_buyback_pure b : pure (evaluate_buyback_account_options b).
Proof. unfold evaluate_buyback_account_options. solve_pure. Qed.
Lemma special_allowed_pure n o a t : pure (special_authorities_allowed n o a t).
Proof. unfold special_authorities_allowed. solve_pure. Qed.
#[export] Hint Resolve verify_authority_accounts_pure verify_account_votes_pure evaluate_special_authority_pure
  evaluate_buyback_pure special_allowed_pure : pure.

(** ** Steps on the properties of the chain *)
Lemma update_gpo_step f s u s' : update_gpo f s = Ok (u, s') -> step (fun _ => 0) s s'.
Proof.
  unfold update_gpo. intros E. run_ok1. subst. split; [by intros []|done| |done].
  intros a. unfold surplus. cbn. lia.
Qed.
Lemma next_vote_step type s id s' : next_vote type s = Ok (id, s') -> step (fun _ => 0) s s'.
Proof.
  unfold next_vote. intros E. repeat run_ok1. subst. split; [by intros []|done| |done].
  intros a. unfold surplus. cbn. lia.
Qed.
Lemma update_dgp_step f s u s' :
  (forall d, witness_budget (f d) = witness_budget d /\ head_block_number (f d) = head_block_number d
             /\ head_block_id (f d) = head_block_id d /\ time (f d) = time d) ->
  update_dgp f s = Ok (u, s') -> step (fun _ => 0) s s'.
Proof.
  intros Hf. unfold update_dgp. intros E. run_ok1. subst. destruct (Hf (dgp s)) as (Hb & Hn & Hi & Ht).
  split; [by intros []|done| |].
  - intros a. unfold surplus. cbn. rewrite Hb. lia.
  - split_and!; try done. unfold head_of, head_block_time. cbn. by rewrite Hn, Hi, Ht.
Qed.

Section Laws.
Context `{SafeLaws, U128Laws, RationalLaws, IndexLaws, NthLaws, TimeLaws, AddressOps}.

Ltac use_default_laws :=
  match goal with |- EvaluatorLaws ?Op ?E ?R ?t =>
    refine (default_laws (Op := Op) (E := E) (R := R) t eq_refl _ _) end.

(** A new object that holds nothing. *)
Lemma create_neutral {A} `{Counted A, UniqueKey A} (o : A) s id s' :
  (forall s a id, weight s a id o = 0) -> (forall s id, row_ok s id o) ->
  create o s = Ok (id, s') -> step (fun _ => 0) s s'.
Proof.
  intros Hz Hr (_ & _ & S)%create_step. eapply step_ext; [|apply S; intros; apply Hr]. intros y. apply Hz.
Qed.
Lemma modify_neutral {A} `{Counted A} id (f : A -> result A) s u s' :
  (forall s a id o o', f o = Ok o' -> weight s a id o' = weight s a id o) ->
  (forall s id o o', f o = Ok o' -> row_ok s id o -> row_ok s id o') ->
  modify id f s = Ok (u, s') -> step (fun _ => 0) s s'.
Proof.
  intros Hz Hr (o & o' & Ho & Hf & _ & S)%modify_step. eapply step_ext; [|apply S; intros Hw].
  - intros y. cbv beta. rewrite (Hz _ _ _ _ _ Hf). lia.
  - eapply Hr; [exact Hf|]. by eapply wf_lookup.
Qed.
Ltac new_neutral := match goal with Hc : create _ _ = Ok _ |- _ => apply create_neutral in Hc; done end.

(** ** Accounts *)
Lemma account_create_pure g op : pure (account_create_evaluate g op).
Proof. unfold account_create_evaluate. solve_pure. Qed.
Lemma account_update_pure g op : pure (account_update_evaluate g op).
Proof. unfold account_update_evaluate. solve_pure. Qed.
Lemma account_whitelist_pure g op : pure (account_whitelist_evaluate g op).
Proof. unfold account_whitelist_evaluate. solve_pure. Qed.
Lemma account_upgrade_pure g op : pure (account_upgrade_evaluate g op).
Proof. unfold account_upgrade_evaluate. solve_pure. Qed.
Lemma scale_account_fee_step s u s' : scale_account_fee s = Ok (u, s') -> step (fun _ => 0) s s'.
Proof.
  unfold scale_account_fee. intros E. repeat run_ok1. apply update_dgp_step in Hrun; [|done].
  eapply step_ext; [|eapply step_trans; [exact Hrun|]]; [done|].
  apply when_Ok in E as [[_ E]|[_ ->]]; [|apply step_refl]. repeat run_ok1. by apply update_gpo_step in E.
Qed.
Lemma on_some_conserves {A} (o : option A) f s u s' :
  (forall x u s', f x s = Ok (u, s') -> conserves (fun _ => 0) s s') -> on_some o f s = Ok (u, s') -> conserves (fun _ => 0) s s'.
Proof. intros Hf. destruct o; cbn; [apply Hf|]. intros E. run_ok1. apply step_conserves, step_refl. Qed.
Lemma set_buyback_conserves x id s u s' :
  chain_wf s -> modify x (fun o => Ok (set_buyback_account id o)) s = Ok (u, s') -> conserves (fun _ => 0) s s'.
Proof.
  intros Hw (o & o' & Ho & [= <-] & ->)%modify_Ok. apply (set_asset_conserves x o); [done..|].
  exact (wf_options s Hw _ _ Ho).
Qed.
#[export] Instance account_create_laws
  : EvaluatorLaws account_create_operation unit Z (fun op => int64_amount (na_fee op)).
Proof.
  use_default_laws.
  - intros g op. apply account_create_pure.
  - intros g op e d s0 s r s' _ _ _ _ _ Hw E. change (account_create_apply g e d op s = Ok (r, s')) in E.
    unfold account_create_apply in E. repeat run_ok1.
    match goal with Hg : get account_object _ _ = Ok _ |- _ => apply pure_get in Hg as -> end.
    match goal with Hi : (if ?b then _ else _) ?t = Ok (_, ?t') |- _ =>
      assert (t' = t) as -> by (destruct b; by repeat run_ok1); clear Hi end.
    apply create_neutral in Hrun2; [|by intros; cbn; unfold w_statistics, if_asset; case_match|done].
    apply create_neutral in Hrun3; [|done..]. apply create_neutral in Hrun4; [|done..]. apply scale_account_fee_step in Hrun5.
    assert (N : conserves (fun _ => 0) s s7) by (do 3 (eapply conserves_0_trans; [apply step_conserves; eassumption|]); by apply step_conserves).
    apply (when_conserves _ _ _ a6 s8) in Hrun6; [|intros E; run_ok1; run_ok1; apply step_conserves; new_neutral].
    pose proof (conserves_0_trans _ _ _ N Hrun6) as N'. eapply conserves_0_trans; [exact N'|].
    destruct (na_buyback_options op) as [b|]; cbn in Hrun7; [|run_ok1; apply step_conserves, step_refl].
    do 2 run_ok1. match goal with Hg : get _ _ _ = Ok _ |- _ => apply pure_get in Hg as -> end.
    match goal with Hc : create _ _ = Ok _ |- _ => apply create_neutral in Hc as S; [|done..] end.
    eapply conserves_0_trans; [apply step_conserves, S|].
    apply (set_buyback_conserves _ _ _ _ _ (step_wf _ _ _ S (cons_wf _ _ _ N' Hw)) Hrun7).
Qed.
#[export] Instance account_update_laws
  : EvaluatorLaws account_update_operation unit unit (fun op => int64_amount (nu_fee op)).
Proof.
  use_default_laws.
  - intros g op. apply account_update_pure.
  - cbn. intros g op e d s0 s r s' _ _ _ _ _ Hw E. apply step_conserves. unfold account_update_apply in E.
    do 2 run_ok1. apply deref_Ok in Hrun as [_ ->]. apply modify_neutral in Hrun0; [|done..].
    eapply step_ext; [|eapply step_trans; [exact Hrun0|]]; [done|].
    destruct (has_special_authority a && _) in E.
    + repeat run_ok1. apply remove_step in E as (x & _ & _ & S). eapply step_ext; [|exact S]. done.
    + apply when_Ok in E as [[_ E]|[_ ->]]; [|apply step_refl]. repeat run_ok1. new_neutral.
Qed.
#[export] Instance account_whitelist_laws
  : EvaluatorLaws account_whitelist_operation unit unit (fun op => int64_amount (nw_fee op)).
Proof.
  use_default_laws.
  - intros g op. apply account_whitelist_pure.
  - cbn. intros g op e d s0 s r s' _ _ _ _ _ Hw E. apply step_conserves. unfold account_whitelist_apply in E.
    do 2 run_ok1. apply modify_neutral in Hrun; [|done..]. apply pure_get in Hrun0 as ->. apply modify_neutral in E; [|done..].
    eapply step_ext; [|eapply step_trans; [exact Hrun|exact E]]. done.
Qed.
#[export] Instance account_upgrade_laws
  : EvaluatorLaws account_upgrade_operation unit unit (fun op => int64_amount (ng_fee op)).
Proof.
  use_default_laws.
  - intros g op. apply account_upgrade_pure.
  - cbn. intros g op e d s0 s r s' _ _ _ _ _ Hw E. apply step_conserves. unfold account_upgrade_apply in E.
    do 2 run_ok1. run_ok1. apply deref_Ok in Hrun as [_ ->].
    assert (P : forall (t : account_object -> result account_object) u, (_ ← get account_statistics_object (statistics a);
                     _ ← process_fees (statistics a) (account_to_upgrade op);
                     modify (account_to_upgrade op) t) s = Ok (u, s') ->
                   step (fun _ => 0) s s').
    { intros f u Er. do 2 run_ok1. apply pure_get in Hrun as ->. apply process_fees_step in Hrun0; [|done].
      apply modify_neutral in Er; [|done..]. eapply step_ext; [|eapply step_trans; [exact Hrun0|exact Er]]. done. }
    destruct (upgrade_to_lifetime_member op); [exact (P _ _ E)|]. destruct (is_annual_member a _).
    + do 2 run_ok1. run_ok1. run_ok1. by apply modify_neutral in E.
    + run_ok1. apply pure_require in Hrun as ->. exact (P _ _ E).
Qed.

(** ** Members, parameters and workers *)
Lemma lifetime_member_pure account : pure (lifetime_member account).
Proof. unfold lifetime_member. solve_pure. Qed.
Hint Resolve lifetime_member_pure : pure.
Lemma witness_update_pure g op : pure (witness_update_evaluate g op).
Proof. unfold witness_update_evaluate. solve_pure. Qed.
Lemma committee_member_update_pure g op : pure (committee_member_update_evaluate g op).
Proof. unfold committee_member_update_evaluate. solve_pure. Qed.
Lemma update_global_parameters_pure g op : pure (update_global_parameters_evaluate g op).
Proof. unfold update_global_parameters_evaluate. solve_pure. Qed.
Lemma worker_create_pure g op : pure (worker_create_evaluate g op).
Proof. unfold worker_create_evaluate. solve_pure. Qed.
Ltac then_step S := eapply step_ext; [|eapply step_trans; [exact S|]]; [done|].
#[export] Instance witness_create_laws
  : EvaluatorLaws witness_create_operation unit Z (fun op => int64_amount (wc_fee op)).
Proof.
  use_default_laws.
  - intros g op. apply lifetime_member_pure.
  - cbn. intros g op e d s0 s r s' _ _ _ _ _ Hw E. apply step_conserves. unfold witness_create_apply in E.
    run_ok1. apply next_vote_step in Hrun. then_step Hrun. new_neutral.
Qed.
#[export] Instance witness_update_laws
  : EvaluatorLaws witness_update_operation unit unit (fun op => int64_amount (wu_fee op)).
Proof.
  use_default_laws.
  - intros g op. apply witness_update_pure.
  - cbn. intros g op e d s0 s r s' _ _ _ _ _ Hw E. apply step_conserves. unfold witness_update_apply in E.
    run_ok1. apply pure_get in Hrun as ->. by apply modify_neutral in E.
Qed.
#[export] Instance committee_member_create_laws
  : EvaluatorLaws committee_member_create_operation unit Z (fun op => int64_amount (mc_fee op)).
Proof.
  use_default_laws.
  - intros g op. apply lifetime_member_pure.
  - cbn. intros g op e d s0 s r s' _ _ _ _ _ Hw E. apply step_conserves. unfold committee_member_create_apply in E.
    run_ok1. apply next_vote_step in Hrun. then_step Hrun. new_neutral.
Qed.
#[export] Instance committee_member_update_laws
  : EvaluatorLaws committee_member_update_operation unit unit (fun op => int64_amount (mu_fee op)).
Proof.
  use_default_laws.
  - intros g op. apply committee_member_update_pure.
  - cbn. intros g op e d s0 s r s' _ _ _ _ _ Hw E. apply step_conserves. unfold committee_member_update_apply in E.
    run_ok1. apply pure_get in Hrun as ->. by apply modify_neutral in E.
Qed.
#[export] Instance update_global_parameters_laws
  : EvaluatorLaws committee_member_update_global_parameters_operation unit unit (fun op => int64_amount (gp_fee op)).
Proof.
  use_default_laws.
  - intros g op. apply update_global_parameters_pure.
  - cbn. intros g op e d s0 s r s' _ _ _ _ _ Hw E. by eapply step_conserves, update_gpo_step.
Qed.
#[export] Instance worker_create_laws
  : EvaluatorLaws worker_create_operation unit Z (fun op => int64_amount (wk_fee op)).
Proof.
  use_default_laws.
  - intros g op. apply worker_create_pure.
  - cbn. intros g op e d s0 s r s' _ _ _ _ _ Hw E. apply step_conserves. unfold worker_create_apply in E.
    do 3 run_ok1. apply next_vote_step in Hrun, Hrun0. then_step Hrun. then_step Hrun0.
    assert (S : step (fun _ => 0) s2 s3).
    { destruct (initializer op); cbn in Hrun1; [run_ok1; apply step_refl| |run_ok1; apply step_refl].
      repeat run_ok1. match goal with Hc : create _ _ = Ok _ |- _ => apply create_neutral in Hc; [done| |done] end.
      intros t y id. cbn. unfold w_vesting, asset_in, if_asset. cbn. by case_match. }
    then_step S. new_neutral.
Qed.
#[export] Instance custom_laws : EvaluatorLaws custom_operation unit unit (fun op => int64_amount (ct_fee op)).
Proof.
  use_default_laws.
  - intros g op s e s' E. cbn in E. by run_ok1.
  - cbn. intros g op e d s0 s r s' _ _ _ _ _ Hw E. run_ok1. apply step_conserves, step_refl.
Qed.

(** ** Genesis balances *)
Lemma balance_claim_pure g op : pure (balance_claim_evaluate g op).
Proof. unfold balance_claim_evaluate. solve_pure. Qed.
Lemma linear_allowed_le q ctx a :
  0 <= begin_balance q < 2 ^ 63 -> 0 <= vesting_duration_seconds q < 2 ^ 32 -> 0 <= amount (ctx_balance ctx) ->
  linear_get_allowed_withdraw q ctx = Ok a -> amount a <= amount (ctx_balance ctx).
Proof.
  intros Hb Hd Hc. unfold linear_get_allowed_withdraw. intros E. run_ok1. run_ok1. subst a. cbn [amount].
  destruct (Z.ltb_spec (begin_timestamp q) (now ctx)); [|by run_ok1; lia].
  destruct (_ <=? _); [|by run_ok1; lia]. repeat run_ok1.
  repeat match goal with Hs : safe_sub _ _ = Ok _ |- _ => apply safe_sub_spec in Hs as [-> _] end.
  enough (a <= begin_balance q) by lia. unfold linear_total_vested in Hrun0.
  destruct (Z.ltb_spec (now ctx - begin_timestamp q) (vesting_duration_seconds q)).
  - pose proof (ratio_le (begin_balance q) (now ctx - begin_timestamp q) (vesting_duration_seconds q)).
    rewrite u128_ratio_spec in Hrun0 by lia. injection Hrun0 as <-. lia.
  - injection Hrun0 as ->. lia.
Qed.
(** What is claimed without anything left is the whole balance. *)
Lemma claim_all g op s s' e b :
  map_Forall (fun _ => genesis_ok) (genesis_balances s) -> balance_claim_evaluate g op s = Ok (e, s') -> genesis_balances s !! balance_to_claim op = Some b ->
  (match balance_policy b with Some _ => asset_lt (total_claimed op) (balance_amount b) | None => Ok false end) = Ok false ->
  total_claimed op = balance_amount b.
Proof.
  intros Hw E Hb Hp. destruct (Hw _ _ Hb) as [Hpos Hq]. unfold balance_claim_evaluate in E.
  run_ok1. apply get_Ok in Hrun as [Hb' ->]. cbn in Hb'. assert (a = b) as -> by congruence. do 4 run_ok1.
  apply Z.eqb_eq in Hreq. destruct (balance_policy b) as [q|].
  - repeat run_ok1. destruct (Hq q eq_refl) as [Hbe Hdu]. unfold linear_is_withdraw_allowed in Hval.
    cbn [ctx_amount ctx_balance] in Hval. rewrite Hreq, Z.eqb_refl in Hval. run_ok1.
    apply linear_allowed_le in Hrun; [|done..]. cbn [ctx_balance] in Hrun.
    apply asset_le_Ok in Hval as [_ Hle]. apply asset_lt_Ok in Hp as [_ Hlt]. subst.
    symmetry in Hlt. apply Z.ltb_ge in Hlt. rewrite ?Z.leb_le in *.
    destruct (total_claimed op), (balance_amount b); cbn in *. f_equal; lia.
  - run_ok1. by match goal with Hr : bool_decide _ = true |- _ => apply bool_decide_eq_true in Hr end.
Qed.
#[export] Instance balance_claim_laws : EvaluatorLaws balance_claim_operation unit unit (fun op => int64_amount (gb_fee op)).
Proof.
  split; [intros g op; apply balance_claim_pure|].
  intros trx g op e s0 m d s1 r s' s Hsk Hw Hc Hv Ht He Hp Ha. apply default_pay_fee_step in Hp as [[m' ->] S1]; [|done].
  assert (S2 : step (fun _ => 0) (set_account_statistics m' s) s').
  { pose proof (step_wf _ _ _ S1 Hw) as Hw1. change (balance_claim_apply g e d op (set_account_statistics m' s) = Ok (r, s')) in Ha.
    unfold balance_claim_apply in Ha. run_ok1. apply deref_Ok in Hrun as [Lb ->]. cbn in Lb. repeat run_ok1.
    assert (S3 : step (fun y => - asset_in y (total_claimed op)) (set_account_statistics m' s) s3).
    { destruct a1.
      - apply modify_step in Hrun1 as (b & b' & Lb' & Hf & _ & S'). cbn in Lb'. assert (b = a) as -> by congruence.
        unfold claim_from in Hf. run_ok1. apply asset_sub_Ok in Hrun as [Hi ->]. injection Hf as <-.
        assert (Hlt : amount (total_claimed op) < amount (balance_amount a)).
        { destruct (balance_policy a) as [q|]; [|done]. apply asset_lt_Ok in Hval as [_ Hl]. by apply Z.ltb_lt. }
        eapply step_ext; [|apply S'].
        + intros y. cbn. unfold w_genesis, asset_in. cbn. rewrite <- Hi. unfold if_asset. destruct (asset_id (balance_amount a) =? y); lia.
        + intros _. split; [cbn; lia|]. exact (proj2 (wf_genesis s Hw _ _ Lb)).
      - apply remove_step in Hrun1 as (b & Lb' & _ & S'). cbn in Lb'. assert (b = a) as -> by congruence.
        eapply step_ext; [|exact S']. intros y. cbn. unfold w_genesis.
        by rewrite (claim_all g op s0 s0 e a (wf_genesis s Hw) He Lb Hval). }
    apply adjust_balance_step in Ha as [_ S]. eapply step_ext; [|eapply step_trans; [exact S3|exact S]].
    intros y. cbv beta. lia. }
  eapply conserves_ext; [|eapply conserves_trans; apply step_conserves; [exact S1|exact S2]]. intros y. cbv beta. lia.
Qed.
End Laws.
End AccountLaws.
