(* ===== verification/BudgetLaws.v ===== *)
(** * The budget: laws ([db_maint.cpp], [worker_evaluator.cpp])

    The pay of workers and the budget of the witnesses come out of the reserve of
    the core asset, at the rate the budget allows, and no share is made or lost. *)
From Stdlib Require Import ZArith Lia String.
From stdpp Require Import base gmap sets list strings sorting.
From S2P Require Import Prelude External Asset Vesting Authority Chain Balance Accounting Market MarketSupply AssetObject Evaluator MarketEvaluator MarketLaws Transfers AssetOps AssetEvaluator BitassetEvaluator AssetLaws FeeLaws AccountOps AccountEvaluator MemberEvaluator AccountLaws Votes Budget.

Module BudgetLaws.
Import Asset Vesting Authority Chain Balance Accounting Market MarketSupply AssetObject Evaluator MarketEvaluator MarketLaws Transfers AssetOps AssetEvaluator BitassetEvaluator AssetLaws FeeLaws AccountOps AccountEvaluator MemberEvaluator AccountLaws Votes Budget.

(** The record of the core asset's supply, in a well-formed state. *)
Definition core_data (s : database) (d : asset_dynamic_data_object) : Prop :=
  exists o, assets s !! core_asset = Some o /\ asset_dynamic_data s !! dynamic_asset_data_id o = Some d.
Lemma core_data_unique s d1 d2 : core_data s d1 -> core_data s d2 -> d1 = d2.
Proof. intros (o1 & H1 & E1) (o2 & H2 & E2). congruence. Qed.
(** [n] is paid to workers: it is added to the state; what those that refund it
    give back is taken from the supply. *)
Record paid (n : Z) (s s' : database) : Prop := {
  pd_step : step (fun a => if_asset a core_asset n) s s';
  pd_dgp : dgp s' = dgp s;
  pd_supply : 0 <= n -> forall d, core_data s d -> exists d', core_data s' d'
                /\ current_supply d' <= current_supply d /\ accumulated_fees d' = accumulated_fees d;
  pd_pay : forall i w', workers s' !! i = Some w' -> exists w, workers s !! i = Some w /\ daily_pay w' = daily_pay w;
}.
Lemma paid_0 s : paid 0 s s.
Proof.
  split; [|done|by intros _ d Hd; exists d|by intros i w Hw; exists w].
  eapply step_ext; [|apply step_refl]. intros a. unfold if_asset. by case_match.
Qed.
Lemma paid_trans m n s1 s2 s3 : 0 <= m -> 0 <= n -> paid m s1 s2 -> paid n s2 s3 -> paid (m + n) s1 s3.
Proof.
  intros Hm Hn [S1 D1 P1 W1] [S2 D2 P2 W2]. split; [|congruence| |].
  - eapply step_ext; [|eapply step_trans; [exact S1|exact S2]]. intros a. cbv beta. unfold if_asset. case_match; lia.
  - intros _ d Hd. destruct (P1 Hm d Hd) as (d1 & Hd1 & ? & ?). destruct (P2 Hn d1 Hd1) as (d2 & Hd2 & ? & ?).
    exists d2. split_and!; [done|lia|congruence].
  - intros i w Hw. destruct (W2 i w Hw) as (w1 & Hw1 & E1). destruct (W1 i w1 Hw1) as (w0 & Hw0 & E0). exists w0. split; congruence.
Qed.

Section Laws.
Context `{SafeLaws, U128Laws, IndexLaws}.

(** ** Paying a worker *)
Lemma set_worker_pay id x s u s' :
  modify id (fun w => Ok (set_worker x w)) s = Ok (u, s') ->
  step (fun _ => 0) s s' /\ exists w, workers s !! id = Some w /\ s' = set_workers (<[id := set_worker x w]> (workers s)) s.
Proof.
  intros (w & w' & Hw & [= <-] & -> & S)%modify_step. split; [|by exists w].
  eapply step_ext; [|apply S; done]. done.
Qed.
Lemma pay_step n s s1 s' : step (fun a => if_asset a core_asset n) s s1 -> step (fun _ => 0) s1 s' -> step (fun a => if_asset a core_asset n) s s'.
Proof. intros S1 S2. eapply step_ext; [|eapply step_trans; [exact S1|exact S2]]. intros a. cbv beta. lia. Qed.
Lemma pay_worker_paid id n s u s' : chain_wf s -> pay_worker id n s = Ok (u, s') -> paid n s s'.
Proof.
  intros Hw. unfold pay_worker. intros E. run_ok1. apply deref_Ok in Hrun as [Hl ->].
  match type of E with context [worker ?w] => destruct (worker w) as [tb|vb|tb] end; repeat run_ok1.
  - match goal with Hs : modify id _ _ = Ok _ |- _ => apply set_worker_pay in Hs as [S2 (w & Hw' & ->)] end.
    match goal with Hg : get _ _ _ = Ok _ |- _ => apply get_Ok in Hg as [Ho ->] end.
    match goal with Hd : dynamic_of _ _ = Ok _ |- _ => apply dynamic_of_Ok in Hd as (-> & -> & _) end.
    match goal with Hm : modify (dynamic_asset_data_id _) _ _ = Ok _ |- _ =>
      pose proof Hm as (d0 & d1 & Hd0 & Fn & Es & _)%modify_step;
      apply (dynamic_step core_asset _ _ _ _ _ Hw Ho) in Hm as (d & d' & Hd & Hf & S) end.
    assert (Hd' : d0 = d) by (cbn in *; congruence). subst d0.
    pose proof Hf as ->%sub_supply_Ok. split.
    + eapply pay_step; [|exact S2]. eapply step_ext; [|apply S; by eapply sub_supply_dynamic_ok].
      intros y. cbv beta. cbn. unfold if_asset. case_match; lia.
    + by subst.
    + intros Hn dd Hdd. assert (dd = d) as ->. { destruct Hdd as (o2 & Ho2 & Hd2). cbn in *. congruence. }
      eexists. split; [eexists; subst; cbn; split; [exact Ho|apply lookup_insert_eq]|].
      apply sub_supply_Ok in Fn as ->. cbn. lia.
    + subst. cbn in *. intros i w' Hi. destruct (decide (i = id)) as [->|Hne].
      * rewrite lookup_insert_eq in Hi. injection Hi as <-. by exists w.
      * rewrite lookup_insert_ne in Hi by done. by exists w'.
  - reads_ok. op_ok. split; [|by subst|intros _ d Hd; exists d; by subst|intros i w Hi; exists w; by subst].
    eapply step_ext; [|exact St]. intros y. unfold deposit in Fn. repeat run_ok1. subst.
    match goal with Ha : asset_add _ _ = Ok _ |- _ => apply asset_add_Ok in Ha as [Hid ->] end.
    cbn [asset_id amount vb_balance weight vesting_counted] in *. unfold w_vesting, asset_in, if_asset.
    cbn [asset_id amount vb_balance]. rewrite Hid. case_match; lia.
  - match goal with Hs : modify id _ _ = Ok _ |- _ => apply set_worker_pay in Hs as [S2 (w & Hw' & ->)] end.
    op_ok. split; [|by subst|intros _ d Hd; exists d; by subst|].
    + eapply pay_step; [|exact S2]. exact St.
    + subst. cbn in *. intros i w' Hi. destruct (decide (i = id)) as [->|Hne].
      * rewrite lookup_insert_eq in Hi. injection Hi as <-. by exists w.
      * rewrite lookup_insert_ne in Hi by done. by exists w'.
Qed.

(** ** The payroll *)
Lemma pay_each_step l budget s r s' :
  chain_wf s -> pay_each l budget s = Ok (r, s') ->
  step (fun a => if_asset a core_asset (budget - r)) s s' /\ dgp s' = dgp s.
Proof.
  revert budget s. induction l as [|id l IH]; intros budget s Hw; cbn [pay_each]; intros E.
  - run_ok1. split; [|done]. eapply step_ext; [|apply step_refl]. intros y. unfold if_asset. case_match; lia.
  - destruct (0 <? budget).
    + repeat run_ok1. match goal with Hd : deref _ _ _ = Ok _ |- _ => apply deref_Ok in Hd as [Hl ->] end.
      match goal with Hp : pay_worker _ _ _ = Ok _ |- _ => apply pay_worker_paid in Hp as [S1 D1 _ _]; [|done] end.
      match goal with Hs : safe_sub _ _ = Ok _ |- _ => apply safe_sub_spec in Hs as [-> _] end.
      apply IH in E as [S2 D2]; [|by apply (step_wf _ _ _ S1)]. split; [|congruence].
      eapply step_ext; [|eapply step_trans; [exact S1|exact S2]]. intros y. cbv beta. unfold if_asset. case_match; lia.
    + run_ok1. split; [|done]. eapply step_ext; [|apply step_refl]. intros y. unfold if_asset. case_match; lia.
Qed.
Lemma pay_workers_step budget s r s' :
  chain_wf s -> pay_workers budget s = Ok (r, s') ->
  step (fun a => if_asset a core_asset (budget - r)) s s' /\ dgp s' = dgp s.
Proof. unfold pay_workers. intros Hw E. repeat run_ok1. by eapply pay_each_step. Qed.
(** Within twenty-five years since the last budget the pay does not overflow. *)
Lemma requested_pay_nonneg daily since r :
  0 <= daily <= GRAPHENE_MAX_SHARE_SUPPLY -> 0 <= since <= days 9000 -> requested_pay daily since = Ok r -> 0 <= r.
Proof.
  intros Hd Hs. unfold requested_pay, microseconds, days, GRAPHENE_MAX_SHARE_SUPPLY in *. destruct (_ =? _); intros E; [injection E as <-; lia|].
  run_ok1. assert (Hle : daily * (since * 1000000) / (1 * 86400 * 1000000) <= 10 ^ 15 * 9000) by (apply Z.div_le_upper_bound; nia).
  assert (0 <= daily * (since * 1000000) / (1 * 86400 * 1000000)) by (apply Z.div_pos; nia).
  rewrite u128_ratio_spec in Hrun by lia. injection Hrun as <-. injection E as <-. unfold as_int64. case_match; lia.
Qed.
(** The pay of every worker is in the range its creation allows. *)
Definition worker_pays_ok (s : database) : Prop :=
  map_Forall (fun _ w => 0 <= daily_pay w <= GRAPHENE_MAX_SHARE_SUPPLY) (workers s).
Lemma paid_pays_ok n s s' : paid n s s' -> worker_pays_ok s -> worker_pays_ok s'.
Proof. intros [_ _ _ P] Hok i w' Hw. destruct (P i w' Hw) as (w & Hl & ->). by eapply Hok. Qed.
Lemma pay_each_paid l budget s r s' :
  chain_wf s -> 0 <= budget -> worker_pays_ok s -> 0 <= head_block_time s - last_budget_time (dgp s) <= days 9000 ->
  pay_each l budget s = Ok (r, s') -> 0 <= r <= budget /\ paid (budget - r) s s'.
Proof.
  revert budget s. induction l as [|id l IH]; intros budget s Hw Hb Hok Ht; cbn [pay_each]; intros E.
  - run_ok1. rewrite Z.sub_diag. split; [lia|apply paid_0].
  - destruct (Z.ltb_spec 0 budget) as [Hp|Hn].
    + repeat run_ok1. match goal with Hd : deref _ _ _ = Ok _ |- _ => apply deref_Ok in Hd as [Hl ->] end.
      match goal with Hq : requested_pay _ _ = Ok _ |- _ => apply requested_pay_nonneg in Hq; [|exact (Hok _ _ Hl)|exact Ht] end.
      match goal with Hp : pay_worker _ _ _ = Ok _ |- _ => apply pay_worker_paid in Hp as P1; [|done] end.
      match goal with Hs : safe_sub _ _ = Ok _ |- _ => apply safe_sub_spec in Hs as [-> _] end.
      pose proof (pd_dgp _ _ _ P1) as D1.
      apply IH in E as [Hr P2]; [|by apply (step_wf _ _ _ (pd_step _ _ _ P1))|lia|by eapply paid_pays_ok|unfold head_block_time in *; by rewrite D1].
      split; [lia|]. match goal with |- paid (budget - r) _ _ => match type of P1 with paid ?m _ _ =>
        replace (budget - r) with (m + (budget - m - r)) by lia end end.
      eapply paid_trans; [lia|lia|exact P1|exact P2].
    + run_ok1. rewrite Z.sub_diag. split; [lia|apply paid_0].
Qed.
Lemma pay_workers_paid budget s r s' :
  chain_wf s -> 0 <= budget -> worker_pays_ok s -> 0 <= head_block_time s - last_budget_time (dgp s) <= days 9000 ->
  pay_workers budget s = Ok (r, s') -> 0 <= r <= budget /\ paid (budget - r) s s'.
Proof. unfold pay_workers. intros Hw Hb Hok Ht E. repeat run_ok1. by eapply pay_each_paid. Qed.

(** ** The budget *)
Lemma supply_change_Ok w k r f b n : supply_change w k r f b = Ok n -> n = w + k - r - f - b.
Proof.
  unfold supply_change. intros E. repeat run_ok1.
  repeat match goal with
  | Hs : safe_add _ _ = Ok _ |- _ => apply safe_add_spec in Hs as [-> _]
  | Hs : safe_sub _ _ = Ok _ |- _ => apply safe_sub_spec in Hs as [-> _]
  end. lia.
Qed.
Lemma set_budget_step now n s u s' :
  update_dgp (fun d => with_last_budget_time now (with_witness_budget n d)) s = Ok (u, s') ->
  step (fun a => if_asset a core_asset (n - witness_budget (dgp s))) s s'.
Proof.
  unfold update_dgp. intros E. run_ok1. subst. split; [by intros []|done| |done].
  intros y. unfold surplus, if_asset. cbn. case_match; lia.
Qed.
Lemma settle_budget_Ok delta expected d d' :
  settle_budget delta expected d = Ok d' ->
  expected (accumulated_fees d) = Ok delta /\ dynamic_ok d'
  /\ d' = mk_dynamic_data (current_supply d + delta) (confidential_supply d) 0 (fee_pool d).
Proof.
  unfold settle_budget. intros E. repeat run_ok1. apply safe_add_spec in Hrun as [-> Hi].
  match goal with Hq : (_ =? _) = true |- _ => apply Z.eqb_eq in Hq; subst end. split_and!; [done| |done].
  unfold dynamic_ok, in_int64, int64_max in *. cbn. lia.
Qed.
(** Nothing is made or lost: what the witnesses and workers receive is taken from
    the fees, the unused budget and the supply. *)
Lemma process_budget_step s u s' : chain_wf s -> process_budget s = Ok (u, s') -> step (fun _ => 0) s s'.
Proof.
  intros Hw. unfold process_budget. intros E. repeat run_ok1.
  repeat match goal with Hg : get _ _ _ = Ok _ |- _ => apply get_Ok in Hg as [? ->] end.
  match goal with Hp : pay_workers _ _ = Ok _ |- _ => apply pay_workers_step in Hp as [S1 D1]; [|done] end.
  pose proof (step_wf _ _ _ S1 Hw) as Hw1. pose proof (step_assets _ _ _ S1) as A1.
  match goal with Ho : table s !! core_asset = Some ?o, Hm : modify (dynamic_asset_data_id ?o) _ ?s1 = Ok _ |- _ =>
    assert (Ho1 : assets s1 !! core_asset = Some o) by (rewrite A1; exact Ho);
    pose proof Hm as Hm';
    apply (dynamic_step core_asset _ _ _ _ _ Hw1 Ho1) in Hm as (d & d' & Hd & Hf & S2) end.
  apply settle_budget_Ok in Hf as (Hx & Hok & ->). specialize (S2 Hok).
  match goal with Hu : update_dgp _ _ = Ok _ |- _ => apply set_budget_step in Hu as S3 end.
  match goal with Hc : create _ _ = Ok _ |- _ => apply create_neutral in Hc as S4; [|done..] end.
  apply supply_change_Ok in Hx.
  match type of Hm' with modify _ _ _ = Ok (_, ?t) => assert (D2 : dgp t = dgp s) end.
  { op_ok. subst. cbn. done. }
  rewrite D2 in S3. rewrite D1 in Hx.
  eapply step_ext; [|eapply step_trans; [exact S1|eapply step_trans; [exact S2|eapply step_trans; [exact S3|exact S4]]]].
  intros y. cbn [confidential_supply accumulated_fees current_supply fee_pool]. cbv beta. unfold if_asset. case_match; lia.
Qed.

(** What is due at most: the reserve times the seconds since the last budget, at
    the rate of the cycle, rounded up. *)
Definition released (reserve dt : Z) : Z :=
  Z.min reserve ((reserve * dt * GRAPHENE_CORE_ASSET_CYCLE_RATE + (2 ^ GRAPHENE_CORE_ASSET_CYCLE_RATE_BITS - 1))
                 / 2 ^ GRAPHENE_CORE_ASSET_CYCLE_RATE_BITS).
Lemma cycled_released reserve dt n :
  0 <= reserve < 2 ^ 63 -> 0 <= dt < 2 ^ 32 -> cycled reserve dt = Ok n -> n = released reserve dt /\ 0 <= n <= reserve.
Proof.
  intros Hr Hd. unfold cycled, released, GRAPHENE_CORE_ASSET_CYCLE_RATE, GRAPHENE_CORE_ASSET_CYCLE_RATE_BITS. intros E.
  assert (Hb : 0 <= reserve * dt < 2 ^ 95) by (change (2 ^ 95) with (2 ^ 63 * 2 ^ 32); nia).
  rewrite !u128_id in E by lia. rewrite (u128_mul_spec reserve) in E by lia. rewrite u128_mul_spec, u128_add_spec, u128_div_spec in E by lia.
  set (q := (reserve * dt * 17 + (2 ^ 32 - 1)) / 2 ^ 32) in *.
  assert (Hq : 0 <= q) by (apply Z.div_pos; lia). run_ok1. match goal with Hx : Ok _ = Ok _ |- _ => injection Hx as <- end.
  destruct (Z.ltb_spec q reserve).
  - rewrite to_uint64_spec in E by lia. injection E as <-. lia.
  - injection E as <-. lia.
Qed.

(** The parameters and counters a budget is made from are in their ranges. *)
Record budget_ranges (s : database) (o : asset_object) (d : asset_dynamic_data_object) : Prop := {
  br_core : assets s !! core_asset = Some o /\ asset_dynamic_data s !! dynamic_asset_data_id o = Some d;
  br_supply : 0 <= current_supply d <= max_supply (options o);
  br_fees : 0 <= accumulated_fees d;
  br_unused : 0 <= witness_budget (dgp s);
  br_reserve : max_supply (options o) + accumulated_fees d + witness_budget (dgp s) < 2 ^ 63;
  br_times : 0 <= last_budget_time (dgp s) <= head_block_time s
             /\ head_block_time s - last_budget_time (dgp s) <= days 9000
             /\ next_maintenance_time (dgp s) - head_block_time s < 2 ^ 32;
  br_pay : 0 <= witness_pay_per_block (parameters (gpo s))
           /\ witness_pay_per_block (parameters (gpo s)) * (next_maintenance_time (dgp s) - head_block_time s) < 2 ^ 63;
  br_per_day : 0 <= worker_budget_per_day (parameters (gpo s)) < 2 ^ 63;
  br_workers : worker_pays_ok s;
}.
Lemma blocks_le t i : 0 < t -> 0 < i -> 0 <= (t + i - 1) / i <= t.
Proof. intros. split; [apply Z.div_pos; lia|]. apply Z.div_le_upper_bound; nia. Qed.
Lemma worker_budget_range per_day seconds available n :
  0 <= per_day < 2 ^ 63 -> 0 <= seconds < 2 ^ 32 -> 0 <= available < 2 ^ 63 ->
  worker_budget_of per_day seconds available = Ok n -> 0 <= n <= available.
Proof.
  intros Hp Hs Hav. unfold worker_budget_of. intros E.
  assert (Hb : 0 <= per_day * seconds < 2 ^ 95) by (change (2 ^ 95) with (2 ^ 63 * 2 ^ 32); nia).
  rewrite !u128_id, u128_mul_spec, u128_div_spec in E by lia. run_ok1.
  match goal with Hx : Ok _ = Ok _ |- _ => injection Hx as <- end.
  destruct (Z.leb_spec available (per_day * seconds / (60 * 60 * 24))); [injection E as <-; lia|].
  assert (0 <= per_day * seconds / (60 * 60 * 24)) by (apply Z.div_pos; lia).
  rewrite to_uint64_spec in E by lia. injection E as <-. lia.
Qed.
Lemma initialize_Ok now s o d r :
  budget_ranges s o d -> now = head_block_time s -> initialize_budget_record now s o d = Ok r ->
  from_accumulated_fees r = accumulated_fees d /\ from_unused_witness_budget r = witness_budget (dgp s)
  /\ 0 <= total_budget r <= (max_supply (options o) - current_supply d) + accumulated_fees d + witness_budget (dgp s)
  /\ total_budget r = if (last_budget_time (dgp s) =? 0) || (now <=? last_budget_time (dgp s)) then 0
       else released ((max_supply (options o) - current_supply d) + accumulated_fees d + witness_budget (dgp s))
              (now - last_budget_time (dgp s)).
Proof.
  intros [_ Hsup Hf Hu Hr (Hl & Hd & _) _ _ _] -> . unfold initialize_budget_record. intros E. run_ok1.
  unfold reserved in Hrun. apply safe_sub_spec in Hrun as [-> _].
  destruct (_ || _) eqn:Eb; [injection E as <-; cbn; split_and!; lia|]. repeat run_ok1. subst r.
  repeat match goal with Hs : safe_add _ _ = Ok _ |- _ => apply safe_add_spec in Hs as [-> _] end.
  match goal with Hc : cycled _ _ = Ok _ |- _ => apply cycled_released in Hc as [-> Hc]; [|lia|unfold days in *; lia] end.
  cbn. split_and!; try done; lia.
Qed.

(** C15: at most the share of the reserve that a budget releases is spent: what the
    witnesses receive until the next maintenance and what the workers are paid
    come to no more than the total, which is the part of the reserve due for the
    time since the last budget; so the supply stays within the maximal supply. The
    fees and the unused budget are back in the reserve. *)
Theorem budget_within_reserve s s' o d :
  chain_wf s -> budget_ranges s o d -> process_budget s = Ok (tt, s') ->
  exists r d',
    (exists id, budget_records s' !! id = Some (mk_budget_record_object (head_block_time s) r))
    /\ 0 <= witness_budget (dgp s') /\ 0 <= leftover_worker_funds r <= worker_budget r
    /\ witness_budget (dgp s') + (worker_budget r - leftover_worker_funds r) <= total_budget r
    /\ total_budget r = (if (last_budget_time (dgp s) =? 0) || (head_block_time s <=? last_budget_time (dgp s)) then 0
         else released (max_supply (options o) - current_supply d + accumulated_fees d + witness_budget (dgp s))
                (head_block_time s - last_budget_time (dgp s)))
    /\ core_data s' d' /\ accumulated_fees d' = 0 /\ current_supply d' <= max_supply (options o)
    /\ last_budget_time (dgp s') = head_block_time s.
Proof.
  intros Hw Hbr. unfold process_budget. intros E. repeat run_ok1.
  repeat match goal with Hg : get _ _ _ = Ok _ |- _ => apply get_Ok in Hg as [? ->] end.
  destruct (br_core _ _ _ Hbr) as [Ho Hd]. cbn [table asset_table dynamic_data_table] in *.
  match goal with Hx : assets s !! core_asset = Some ?x |- _ => tryif constr_eq x o then fail else
    assert (x = o) as -> by congruence end.
  match goal with Hx : asset_dynamic_data s !! _ = Some ?x |- _ => tryif constr_eq x d then fail else
    assert (x = d) as -> by congruence end.
  match goal with Hi : initialize_budget_record _ _ _ _ = Ok ?r |- _ =>
    rename r into rec; apply (initialize_Ok _ _ _ _ _ Hbr eq_refl) in Hi as (Hrf & Hru & Htot & Hrel) end.
  repeat match goal with
  | Hs : safe_add _ _ = Ok _ |- _ => apply safe_add_spec in Hs as [-> _]
  | Hs : safe_sub _ _ = Ok _ |- _ => apply safe_sub_spec in Hs as [-> _]
  | Hq : (0 <? _) = true |- _ => apply Z.ltb_lt in Hq
  end.
  destruct (br_times _ _ _ Hbr) as (Hl & Hday & Hnext). destruct (br_pay _ _ _ Hbr) as [Hp0 Hp1].
  pose proof (br_supply _ _ _ Hbr). pose proof (br_fees _ _ _ Hbr). pose proof (br_unused _ _ _ Hbr). pose proof (br_reserve _ _ _ Hbr).
  set (blocks := (next_maintenance_time (dgp s) - head_block_time s + block_interval (parameters (gpo s)) - 1) / block_interval (parameters (gpo s))) in *.
  assert (Hbl : 0 <= blocks <= next_maintenance_time (dgp s) - head_block_time s) by (by apply blocks_le).
  assert (Hwb : witness_budget_of (witness_pay_per_block (parameters (gpo s))) blocks = witness_pay_per_block (parameters (gpo s)) * blocks).
  { unfold witness_budget_of, as_int64. assert (0 <= witness_pay_per_block (parameters (gpo s)) * blocks < 2 ^ 63) by nia.
    rewrite wrap_id by lia. destruct (Z.ltb_spec (witness_pay_per_block (parameters (gpo s)) * blocks) (2 ^ 63)); lia. }
  assert (0 <= witness_pay_per_block (parameters (gpo s)) * blocks) by nia. rewrite Hwb in *.
  set (wb := Z.min (witness_pay_per_block (parameters (gpo s)) * blocks) (total_budget rec)) in *.
  match goal with Hk : worker_budget_of _ _ _ = Ok ?k |- _ => rename k into wk; apply worker_budget_range in Hk;
    [|exact (br_per_day _ _ _ Hbr)|lia|lia] end.
  match goal with Hp : pay_workers _ _ = Ok (?k, _) |- _ => rename k into left; apply pay_workers_paid in Hp as [Hleft Hpd];
    [|done|lia|exact (br_workers _ _ _ Hbr)|lia] end.
  destruct (pd_supply _ _ _ Hpd ltac:(lia) d ltac:(by exists o)) as (d1 & (o1 & Ho1 & Hd1) & Hs1 & Hf1).
  pose proof (step_assets _ _ _ (pd_step _ _ _ Hpd)) as A1. pose proof (pd_dgp _ _ _ Hpd) as D1.
  assert (o1 = o) as -> by congruence.
  match goal with Hx : supply_change _ _ _ _ _ = Ok _ |- _ => apply supply_change_Ok in Hx end.
  match goal with Hm : modify (dynamic_asset_data_id o) _ _ = Ok _ |- _ => apply modify_Ok in Hm as (d2 & d3 & Hd2 & Hf2 & ->) end.
  cbn [table dynamic_data_table] in Hd2. assert (d2 = d1) as -> by congruence.
  apply settle_budget_Ok in Hf2 as (_ & _ & ->). unfold update_dgp in *. repeat run_ok1. op_ok1. subst.
  eexists _, (mk_dynamic_data (current_supply d1 + _) (confidential_supply d1) 0 (fee_pool d1)).
  split; [eexists; cbn; by rewrite lookup_insert_eq|]. cbn. split_and!; try done; try lia.
  - exists o. cbn. split; [congruence|by rewrite lookup_insert_eq].
  - cbn. lia.
Qed.
End Laws.
End BudgetLaws.
