(* ===== verification/CreditLaws.v ===== *)
(** * Credits and the supply

    What each step in the life of a credit does to the surplus of every asset:
    payments, defaults and completed credits move shares between accounts and
    the deposit, and settling from a deposit does not balance. *)
From Stdlib Require Import ZArith Lia String Ascii.
From stdpp Require Import base gmap sets list strings.
From S2P Require Import Prelude External Asset Vesting Authority Float Chain Balance Accounting Market MarketSupply Evaluator MarketEvaluator MarketLaws Transfers TransferLaws AssetText ExchangeRate Credit CreditEvaluator.

Module CreditLaws.
Import Asset Vesting Authority Float Chain Balance Accounting Market MarketSupply Evaluator MarketEvaluator MarketLaws Transfers TransferLaws AssetText ExchangeRate Credit CreditEvaluator.

(** A step that leaves the credits alone: what a credit does while it is processed. *)
Definition moves (f : Z -> Z) (s s' : database) : Prop := step f s s' /\ credits s' = credits s.
Lemma moves_refl s : moves (fun _ => 0) s s.
Proof. split; [apply step_refl|done]. Qed.
Lemma moves_trans f g s1 s2 s3 : moves f s1 s2 -> moves g s2 s3 -> moves (fun a => f a + g a) s1 s3.
Proof. intros [S1 C1] [S2 C2]. split; [by eapply step_trans|congruence]. Qed.
Lemma moves_ext f g s s' : (forall a, f a = g a) -> moves f s s' -> moves g s s'.
Proof. intros E [S C]. split; [by eapply step_ext|done]. Qed.
Lemma moves_0_trans f s1 s2 s3 : moves (fun _ => 0) s1 s2 -> moves f s2 s3 -> moves f s1 s3.
Proof. intros M1 M2. eapply moves_ext; [|by eapply moves_trans]. done. Qed.
Lemma moves_wf f s s' : moves f s s' -> chain_wf s -> chain_wf s'.
Proof. intros [S _]. apply S. Qed.

Section Laws.
Context `{SafeLaws, U128Laws, TimeLaws, IndexLaws, CreditOpsLaws}.

(** ** Readings *)
Lemma exchange_rate_pure sym s r s' : get_exchange_rate_by_symbol sym s = Ok (r, s') -> s' = s.
Proof. unfold get_exchange_rate_by_symbol. intros E. by op_ok. Qed.
Lemma asset_of_Ok x o id a : asset_of x o id = Ok a -> asset_id a = id.
Proof. unfold asset_of. intros E. inv_ok1. by injection E as <-. Qed.
Lemma percent_of_Ok n p id a : percent_of n p id = Ok a -> asset_id a = id.
Proof. unfold percent_of. intros E. inv_ok1. by injection E as <-. Qed.
Lemma referrer_percent_pure a b s r s' : referrer_percent a b s = Ok (r, s') -> s' = s.
Proof. unfold referrer_percent. intros E. by op_ok. Qed.
Lemma credit_with_Ok uuid s x s' :
  credit_with uuid s = Ok (x, s') -> s' = s /\ credits s !! x.1 = Some x.2.
Proof. unfold credit_with. intros E. op_ok. done. Qed.

(** ** Karma and balances *)
Lemma adjust_balance_moves account delta s u s' :
  adjust_balance account delta s = Ok (u, s') -> moves (fun a => asset_in a delta) s s'.
Proof. intros [[m ->] S]%adjust_balance_step. by split. Qed.
Lemma modify_moves {A} `{Counted A} id (f : A -> result A) s u s' :
  (forall m t, credits (set_table m t) = credits t) -> (forall x y i, weight s x i y = 0) -> (forall i y, row_ok s i y) ->
  modify id f s = Ok (u, s') -> moves (fun _ => 0) s s'.
Proof.
  intros Hc Hz Hr (o & o' & _ & _ & -> & S)%modify_step. split; [|apply Hc].
  eapply step_ext; [|apply S; intros _; apply Hr]. intros a. cbv beta. rewrite !Hz. done.
Qed.
(** A change to a table that holds nothing. *)
Ltac uncounted Hm :=
  match type of Hm with @modify ?A _ _ _ _ = Ok _ => apply (modify_moves (A := A)) in Hm; [|done..] end.
Lemma update_account_karma_moves account d info s u s' :
  update_account_karma account d info s = Ok (u, s') -> moves (fun _ => 0) s s'.
Proof.
  unfold update_account_karma. intros E. repeat run_ok1. apply get_Ok in Hrun as [_ ->].
  uncounted Hrun0. eapply moves_0_trans; [exact Hrun0|].
  eapply (for_each_ind (moves (fun _ => 0))); [apply moves_refl| | |exact E].
  - intros. by eapply moves_0_trans.
  - intros x t t' v _ [[_ Em]|[_ ->]]%when_Ok; [by uncounted Em|apply moves_refl].
Qed.

(** ** The steps of a credit *)
Ltac credit_ok1 :=
  match goal with
  | H : adjust_balance _ _ _ = Ok _ |- _ => apply adjust_balance_moves in H
  | H : update_account_karma _ _ _ _ = Ok _ |- _ => apply update_account_karma_moves in H
  | H : get _ _ _ = Ok _ |- _ => apply get_Ok in H as [? ->]
  | H : get_exchange_rate_by_symbol _ _ = Ok _ |- _ => apply exchange_rate_pure in H as ->
  | H : asset_of _ _ _ = Ok _ |- _ => apply asset_of_Ok in H
  | H : asset_neg _ = Ok _ |- _ => apply asset_neg_Ok in H
  | H : asset_sub _ _ = Ok _ |- _ => apply asset_sub_Ok in H as [? H]
  end.
Ltac credit_ok := repeat first [run_ok1 | credit_ok1].
(** Compose the moves of a run and compare the sums. *)
Ltac sum_moves :=
  eapply moves_ext; [|repeat first [eassumption | eapply moves_refl | eapply moves_trans; [eassumption|]]];
  intros ?; cbv beta; subst; unfold w_credit, asset_in, if_asset in *; cbn in *; repeat case_match; try lia; try congruence.

Lemma settle_monthly_payment_moves c s c' s' :
  settle_monthly_payment c s = Ok (c', s') -> c' = with_expired 0 c /\ moves (fun _ => 0) s s'.
Proof. unfold settle_monthly_payment. intros E. credit_ok. split; [done|]. sum_moves. Qed.
Lemma complete_ubnormal_moves c s c' s' :
  complete_credit_operation_ubnormal c s = Ok (c', s') -> c' = with_status complete_ubnormal c /\ moves (fun _ => 0) s s'.
Proof. unfold complete_credit_operation_ubnormal. intros E. credit_ok. split; [done|]. sum_moves. Qed.
Lemma complete_credit_moves c s c' s' :
  complete_credit_operation c s = Ok (c', s') ->
  c' = with_status complete_normal (with_deposit (mk_asset 0 (deposit_id c)) c)
  /\ moves (fun a => asset_in a (deposit_of c)) s s'.
Proof. unfold complete_credit_operation. intros E. credit_ok. split; [done|]. sum_moves. Qed.
Lemma check_expired_moves c s c' s' :
  collateral_free (borrower_of c) = true -> check_expired_pay_time c s = Ok (c', s') ->
  (c' = c \/ c' = with_status complete_ubnormal c \/ c' = with_expired (head_block_time s) c) /\ moves (fun _ => 0) s s'.
Proof.
  intros Hf. unfold check_expired_pay_time. rewrite Hf. intros E. run_ok1. run_ok1. destruct (_ && _); [credit_ok; split; [auto|sum_moves]|].
  destruct (_ <=? _); [|credit_ok; split; [auto|apply moves_refl]].
  apply complete_ubnormal_moves in E as [-> S]. auto.
Qed.
(** Settling moves the loan asset from nowhere to the creditor and destroys what
    it takes from the deposit: both amounts are in the loan asset, so that the
    conversion is skipped. *)
Lemma move_settlement_moves fb tc fd deposit loan dr lr c s c' s' :
  asset_id fb = asset_id tc -> move_settlement fb tc fd deposit loan dr lr c s = Ok (c', s') ->
  asset_id (deposit_of c) = asset_id fd
  /\ c' = with_deposit (mk_asset (amount (deposit_of c) - amount fd) (deposit_id c)) c
  /\ moves (fun a => asset_in a tc - asset_in a fb) s s'.
Proof.
  intros Hid. unfold move_settlement. intros E. do 5 (first [run_ok1 | credit_ok1]).
  credit_ok. unfold convert_deposit in *. rewrite Hid, Z.eqb_refl in *. cbn [negb when] in *. credit_ok. subst.
  split_and!; [done|done|]. sum_moves.
Qed.

(** ** Credits without a deposit *)
Definition free (c : credit_object) : Prop := collateral_free (borrower_of c) = true /\ amount (deposit_of c) = 0.
Lemma on_next_month_moves c s c' s' :
  free c -> on_next_month c s = Ok (c', s') -> borrower_of c' = borrower_of c /\ moves (fun _ => 0) s s'.
Proof.
  intros [Hf Hd]. unfold on_next_month. intros E. credit_ok.
  match goal with Hc : (if _ then _ else _) s = Ok (?c1, ?t) |- _ =>
    assert (M1 : borrower_of c1 = borrower_of c /\ moves (fun _ => 0) s t) end.
  { match goal with Hc : (if ?b then _ else _) s = Ok _ |- _ => destruct b end.
    - match goal with Hc : settle_monthly_payment _ _ = Ok _ |- _ => by apply settle_monthly_payment_moves in Hc as [-> ?] end.
    - match goal with Hc : check_expired_pay_time _ _ = Ok _ |- _ => apply check_expired_moves in Hc as [[->|[->| ->]] ?]; [..|done] end; by split. }
  destruct M1 as [M1 M2]. case_bool_decide; [credit_ok; by subst|]. destruct (_ =? 0); credit_ok; by subst.
Qed.
Lemma process_credit_moves c s c' s' :
  credit_ok c -> process_credit c s = Ok (c', s') ->
  credit_ok c' /\ moves (fun a => w_credit a 0 c - w_credit a 0 c') s s'.
Proof.
  intros Hok. unfold process_credit. intros E. case_bool_decide as Hst; [|run_ok1; subst; split; [done|sum_moves]].
  assert (Hf : free c) by (apply Hok; by right). destruct Hf as [Hf Hd]. rewrite Hf in E. repeat run_ok1. cbn [fst snd] in E.
  assert (Hw : forall x d, borrower_of d = borrower_of c -> w_credit x 0 d = 0).
  { intros x d Hb. unfold w_credit, asset_in, if_asset, deposit_of in *. rewrite Hb. case_match; lia. }
  assert (Hcr : forall d, borrower_of d = borrower_of c -> credit_ok d) by (intros d Hb _; rewrite Hb; by split).
  do 2 run_ok1. destruct (_ || _); [|run_ok1; subst; split; [done|sum_moves]].
  run_ok1. apply on_next_month_moves in Hrun as [Hb Hm]; [|by split].
  destruct (_ <=? _).
  - apply complete_credit_moves in E as [-> M2]. split; [by intros [? | ?]|].
    eapply moves_ext; [|eapply moves_0_trans; [exact Hm|exact M2]]. intros x. cbv beta. rewrite (Hw x c) by done.
    unfold w_credit, deposit_of, asset_in, if_asset in *. cbn. rewrite Hb. repeat case_match; lia.
  - run_ok1. subst. split; [by apply Hcr|]. eapply moves_ext; [|exact Hm]. intros x. cbv beta. by rewrite !Hw.
Qed.
(** Writing back a credit that was processed. *)
Lemma write_credit_step id c c' f s0 s u s' :
  credits s0 !! id = Some c -> moves f s0 s -> credit_ok c' -> modify id (fun _ => Ok c') s = Ok (u, s') ->
  step (fun a => f a + (w_credit a id c' - w_credit a id c)) s0 s'.
Proof.
  intros Hc [S1 Hs] Hok (o & o' & Ho & [= <-] & _ & S2)%modify_step. cbn in Ho. rewrite Hs, Hc in Ho. injection Ho as <-.
  eapply step_trans; [exact S1|]. apply S2. by intros _.
Qed.
Lemma process_one_step id s u s' : chain_wf s -> process_one id s = Ok (u, s') -> step (fun _ => 0) s s'.
Proof.
  intros Hw. unfold process_one. intros E. repeat run_ok1. apply deref_Ok in Hrun as [Hc ->].
  apply process_credit_moves in Hrun0 as [Hok M]; [|exact (wf_credits s Hw _ _ Hc)].
  eapply step_ext; [|by eapply write_credit_step]. intros x. unfold w_credit. cbv beta. lia.
Qed.
(** The credits of a block leave every surplus as it was, while none of the
    open ones has a deposit. *)
Lemma process_credit_stories_step s u s' : chain_wf s -> process_credit_stories s = Ok (u, s') -> step (fun _ => 0) s s'.
Proof.
  intros Hw. unfold process_credit_stories. intros E. run_ok1. run_ok1.
  assert (Hl : forall l t t' v, chain_wf t -> for_each l process_one t = Ok (v, t') -> step (fun _ => 0) t t').
  { induction l as [|id l IH]; intros t t' v Ht El; cbn in El; [run_ok1; apply step_refl|].
    run_ok1. apply process_one_step in Hrun as S1; [|done]. eapply step_then; [exact S1|].
    eapply IH; [by apply (step_wf _ _ _ S1)|exact El]. }
  by eapply Hl.
Qed.

(** ** The operations *)
Ltac use_default_laws :=
  match goal with |- EvaluatorLaws ?Op ?E ?R ?t =>
    refine (default_laws (Op := Op) (E := E) (R := R) t eq_refl _ _) end.
Definition request_typed (op : credit_request_operation) : Prop :=
  int64_amount (cr_fee op) /\ amount (cr_deposit_asset op) = 0.
Lemma credit_request_pure g op s e s' : credit_request_evaluate g op s = Ok (e, s') -> s' = s.
Proof.
  unfold credit_request_evaluate. intros E. credit_ok.
  match goal with Hd : (if _ then _ else _) s = Ok (_, ?t) |- _ =>
    assert (t = s) as -> by (revert Hd; case_match; intros Hd; by credit_ok) end.
  repeat credit_ok1. case_match; credit_ok; [done|]. by apply when_Ok in E as [[_ E]|[_ ->]]; [apply require_Ok in E as [_ ->]|].
Qed.
Lemma new_credit_step (c : credit_object) s id s' :
  create c s = Ok (id, s') -> credit_ok c -> step (fun a => w_credit a 0 c) s s'.
Proof. intros (_ & _ & S)%create_step Hok. apply S. by intros _. Qed.
#[export] Instance credit_request_laws : EvaluatorLaws credit_request_operation unit Z request_typed.
Proof.
  use_default_laws; [exact credit_request_pure|].
  cbn. unfold credit_request_apply. intros g op e d s0 s r s' _ [_ Hd] _ _ _ _ E. apply step_conserves. credit_ok.
  match goal with Hr : amount_to_real _ _ = Ok _ |- _ => rewrite Hd in Hr; apply amount_to_real_0 in Hr as -> end.
  match goal with Hc : create _ _ = Ok (_, ?t), Hm : moves _ ?t _ |- _ => apply new_credit_step in Hc; [|by intros _]; destruct Hm as [Hm _] end.
  eapply step_ext; [|eapply step_trans; eassumption]. intros y. subst. unfold w_credit, asset_in, if_asset. cbn.
  case_match; lia.
Qed.
Lemma no_evaluation_pure {Op} g (op : Op) s e s' : no_evaluation g op s = Ok (e, s') -> s' = s.
Proof. unfold no_evaluation. intros E. by credit_ok. Qed.
Ltac credit_op := repeat first [run_ok1 | credit_ok1
  | match goal with H : credit_with _ _ = Ok _ |- _ => apply credit_with_Ok in H as [-> ?] end
  | match goal with H : referrer_percent _ _ _ = Ok _ |- _ => apply referrer_percent_pure in H as -> end
  | match goal with H : percent_of _ _ _ = Ok _ |- _ => apply percent_of_Ok in H end ].
Lemma pay_loan_moves c s u s' : pay_loan c s = Ok (u, s') -> moves (fun a => asset_in a (loan_asset (borrower_of c))) s s'.
Proof. unfold pay_loan. intros E. run_ok1. run_ok1. case_match; credit_op; sum_moves. Qed.
Lemma same_borrower_ok c c' : borrower_of c' = borrower_of c -> open_credit c -> credit_ok c -> credit_ok c'.
Proof. intros Hb Ho Hok _. rewrite Hb. by apply Hok. Qed.
#[export] Instance credit_approve_laws : EvaluatorLaws credit_approve_operation unit Z (fun op => int64_amount (ca_fee op)).
Proof.
  use_default_laws; [exact no_evaluation_pure|].
  cbn. unfold credit_approve_apply. intros g op e d s0 s r s' _ _ _ _ _ Hw E. apply step_conserves. credit_op.
  match goal with Hb : bool_decide _ = true |- _ => apply bool_decide_eq_true in Hb as Hst end.
  match goal with Hp : pay_loan _ _ = Ok _ |- _ => apply pay_loan_moves in Hp as [Hp _] end.
  match goal with Hc : credits s !! _ = Some ?c |- _ => rename Hc into Hl; assert (Hok : forall i, credit_ok (approve i (head_block_time s) c)) end.
  { intros i. eapply same_borrower_ok; [|by left|exact (wf_credits s Hw _ _ Hl)]. done. }
  match goal with Hm : modify _ _ s = Ok _ |- _ => pose proof (write_credit_step _ _ _ _ _ _ _ _ Hl (moves_refl s) (Hok _) Hm); clear Hm end.
  match goal with Hm : moves _ _ _ |- _ => destruct Hm as [Hm _] end.
  eapply step_ext; [|eapply step_trans; [eassumption|eapply step_trans; eassumption]]. intros y. subst.
  unfold w_credit, asset_in, if_asset. cbn. repeat case_match; lia.
Qed.
#[export] Instance credit_cancel_laws : EvaluatorLaws credit_request_cancel_operation unit Z (fun op => int64_amount (cc_fee op)).
Proof.
  use_default_laws; [exact no_evaluation_pure|].
  cbn. unfold credit_cancel_apply. intros g op e d s0 s r s' _ _ _ _ _ Hw E. apply step_conserves. credit_op.
  match goal with Hm : moves _ _ _, Hr : remove _ _ _ = Ok _, Hc : credits s !! _ = Some _ |- _ =>
    destruct Hm as [Hm Hs]; apply remove_step in Hr as (o & Ho & _ & S); cbn in Ho; rewrite Hs, Hc in Ho; injection Ho as <- end.
  eapply step_ext; [|eapply step_trans; eassumption]. intros y. cbn. unfold w_credit, deposit_of. lia.
Qed.
#[export] Instance comment_credit_laws : EvaluatorLaws comment_credit_request_operation unit Z (fun op => int64_amount (cm_fee op)).
Proof.
  use_default_laws; [exact no_evaluation_pure|].
  cbn. unfold comment_credit_apply. intros g op e d s0 s r s' _ _ _ _ _ Hw E. apply step_conserves. credit_op.
  match goal with Hm : modify _ _ s = Ok _ |- _ => apply modify_step in Hm as (c & c' & Hc & [= <-] & _ & S) end.
  eapply step_ext; [|apply S; intros _; exact (wf_credits s Hw _ _ Hc)]. intros y. cbv beta. cbn. unfold w_credit. cbn. lia.
Qed.
#[export] Instance settle_credit_laws : EvaluatorLaws settle_credit_operation unit Z (fun op => int64_amount (sc_fee op)).
Proof.
  use_default_laws; [exact no_evaluation_pure|].
  cbn. unfold settle_credit_apply. intros g op e d s0 s r s' _ _ _ _ _ Hw E. apply step_conserves. credit_op.
  match goal with Hm : modify _ _ ?t = Ok _, Hc : credits s !! _ = Some _ |- _ =>
    eapply (write_credit_step _ _ _ _ _ _ _ _ Hc) in Hm; [| |by intros [? | ?]];
      [|repeat first [eassumption | eapply moves_trans; [eassumption|]]] end.
  eapply step_ext; [|eassumption]. intros y. subst. unfold w_credit, deposit_of, asset_in, if_asset. cbn.
  repeat case_match; lia.
Qed.
End Laws.
End CreditLaws.
