(* ===== verification/CreditTheorems.v ===== *)
(** * The life of a credit

    What every month does to a credit without a deposit, as a step relation; how
    many payments complete it; what karma can become.  Then what settling from a
    deposit does to the supply, and that a small negative deposit is accepted. *)
From Stdlib Require Import ZArith Lia String SpecFloat.
From stdpp Require Import base gmap sets list strings.
From S2P Require Import Prelude External Asset Vesting Authority Float Chain Balance Accounting Market MarketSupply Evaluator MarketEvaluator MarketLaws Transfers TransferLaws AssetText ExchangeRate Credit CreditEvaluator CreditLaws Scenario.

Module CreditTheorems.
Import Asset Vesting Authority Float Chain Balance Accounting Market MarketSupply Evaluator MarketEvaluator MarketLaws Transfers TransferLaws AssetText ExchangeRate Credit CreditEvaluator CreditLaws Scenario.

(** ** Balances and karma after a step *)
Definition balance (owner id : Z) (s : database) : Z := amount (get_balance owner id s).
Definition gain (owner id : Z) (x : Z * asset) : Z :=
  if bool_decide (x.1 = owner) && (asset_id x.2 =? id) then amount x.2 else 0.
(** What everybody holds after the given amounts were added. *)
Definition paid_out (l : list (Z * asset)) (s s' : database) : Prop :=
  forall owner id, balance owner id s' = balance owner id s + foldr (fun x n => gain owner id x + n) 0 l.
(** The karma of an account after the given changes; nobody else's changes. *)
Definition karma_given (account : Z) (l : list float32) (s s' : database) : Prop :=
  exists a, accounts s !! account = Some a
    /\ accounts s' = <[account := fold_left (fun a d => update_karma d a) l a]> (accounts s).
(** Nothing but balances, accounts and the record of karma changes is touched. *)
Definition only_moved (s s' : database) : Prop :=
  exists b h, s' = set_account_histories_of_karma h (set_account_balances b (set_accounts (accounts s') s)).
Definition transferred (l : list (Z * asset)) (account : Z) (ks : list float32) (s s' : database) : Prop :=
  paid_out l s s' /\ karma_given account ks s s' /\ only_moved s s'.

(** ** Karma *)
(** Rounding a number never gives a NaN: the mantissa stays above or at zero. *)
Lemma shr_1_nonneg m : 0 <= shr_m m -> 0 <= shr_m (shr_1 m).
Proof. destruct m as [[|[p|p|]|[p|p|]] r s]; cbn; lia. Qed.
Lemma shr_nonneg m e n : 0 <= shr_m m -> 0 <= shr_m (fst (shr m e n)).
Proof.
  intros Hm. unfold shr. destruct n as [|p|p]; cbn [fst]; [done| |done].
  revert m Hm. induction p as [p IH|p IH|]; intros m Hm; cbn; [apply IH, IH, shr_1_nonneg, Hm|apply IH, IH, Hm|by apply shr_1_nonneg].
Qed.
Lemma round_not_nan p emax neg m e l : 0 <= m -> binary_round_aux p emax neg m e l <> S754_nan.
Proof.
  intros Hm. unfold binary_round_aux, shr_fexp.
  destruct (shr (shr_record_of_loc m l) e _) as [m1 e1] eqn:E1. assert (H1' : 0 <= shr_m m1).
  { change m1 with (fst (m1, e1)). rewrite <- E1. apply shr_nonneg. by destruct l as [|[]]. }
  destruct (shr _ e1 _) as [m2 e2] eqn:E2. assert (H2' : 0 <= shr_m m2).
  { change m2 with (fst (m2, e2)). rewrite <- E2. apply shr_nonneg. cbn. unfold round_nearest_even. repeat case_match; lia. }
  destruct (shr_m m2); [done|by case_match|lia].
Qed.
Lemma normalize_not_nan p emax m e z : binary_normalize p emax m e z <> S754_nan.
Proof.
  destruct m as [|m|m]; cbn; [done|..]; unfold binary_round; destruct (shl_align _ _ _); by apply round_not_nan.
Qed.
Definition finite (x : spec_float) : Prop := match x with S754_zero _ | S754_finite _ _ _ => True | _ => False end.
Lemma fadd_not_nan x y : finite x -> finite y -> fadd x y <> S754_nan.
Proof.
  unfold fadd. destruct x as [[]| | |], y as [[]| | |]; try done; cbn -[binary_normalize]; intros _ _; apply normalize_not_nan.
Qed.
Definition karma_ok (k : float32) : Prop :=
  dle KARMA_MIN_VALUE (double_of k) = true /\ dle (double_of k) KARMA_MAX_VALUE = true.
Lemma karma_finite k : karma_ok k -> finite k.
Proof. by destruct k as [|[]| |]; intros [L1 L2]. Qed.
Lemma double_not_nan k : k <> S754_nan -> double_of k <> S754_nan.
Proof. destruct k; cbn -[binary_normalize]; intros; try done. apply normalize_not_nan. Qed.
Lemma not_below x y : x <> S754_nan -> y <> S754_nan -> dlt x y = false -> dle y x = true.
Proof.
  unfold dlt, dle, SFltb, SFleb. destruct x as [[]|[]| |[] m e], y as [[]|[]| |[] n f]; cbn; try done; intros _ _;
    rewrite (Z.compare_antisym e f); destruct (e ?= f); cbn; try done;
    change (Pos.compare_cont Eq m n) with (Pos.compare m n); change (Pos.compare_cont Eq n m) with (Pos.compare n m);
    rewrite (Pos.compare_antisym m n); by destruct (Pos.compare m n).
Qed.
(** Karma stays between its bounds, whatever it changes by. *)
Theorem karma_bounded d a : karma_ok (karma a) -> finite d -> karma_ok (karma (update_karma d a)).
Proof.
  intros Hk Hd. unfold update_karma. cbn [karma]. pose proof (fadd_not_nan _ _ (karma_finite _ Hk) Hd) as Hn.
  set (k := fadd (karma a) d) in *. clearbody k.
  destruct (dlt (double_of k) KARMA_MIN_VALUE) eqn:E1; [by vm_compute|].
  destruct (dlt KARMA_MAX_VALUE (double_of k)) eqn:E2; [by vm_compute|].
  split; apply not_below; try done; by apply double_not_nan.
Qed.

Section Months.
Context `{SafeLaws, U128Laws, TimeLaws, IndexLaws, CreditOpsLaws}.

Lemma adjust_balance_exact account delta s u s' :
  adjust_balance account delta s = Ok (u, s') ->
  (exists m, s' = set_account_balances m s) /\ paid_out [(account, delta)] s s'.
Proof.
  intros E. assert (Hm : exists m, s' = set_account_balances m s
    /\ forall k, default 0 (m !! k) = default 0 (account_balances s !! k)
                 + (if bool_decide (k = (account, asset_id delta)) then amount delta else 0)).
  - unfold adjust_balance in E. destruct (Z.eqb_spec (amount delta) 0) as [E0|_].
    { run_ok1. exists (account_balances s). split; [by destruct s|]. intros k. rewrite E0. case_bool_decide; lia. }
    run_ok1. apply get_state_Ok in Hrun as [-> ->]. destruct (account_balances s !! (account, asset_id delta)) as [b|] eqn:Hb.
    + assert (s' = set_account_balances (<[(account, asset_id delta) := b + amount delta]> (account_balances s)) s) as ->.
      { run_ok1. destruct (amount delta <? 0); repeat run_ok1; subst;
          match goal with Hs : safe_add _ _ = Ok _ |- _ => by apply safe_add_spec in Hs as [-> _] end. }
      eexists. split; [done|]. intros k. case_bool_decide as Hk; [subst k; by rewrite lookup_insert_eq, Hb|].
      rewrite lookup_insert_ne by done. lia.
    + repeat run_ok1. subst. eexists. split; [done|]. intros k. case_bool_decide as Hk; [subst k; by rewrite lookup_insert_eq, Hb|].
      rewrite lookup_insert_ne by done. lia.
  - destruct Hm as (m & -> & Hm). split; [by eexists|]. intros owner id. unfold balance, get_balance, gain. cbn. rewrite Hm.
    f_equal. rewrite Z.add_0_r. repeat case_bool_decide; destruct (Z.eqb_spec (asset_id delta) id); cbn; try done; naive_solver.
Qed.
Lemma histories_loop account (e : karma_history_entry) l s s' u :
  for_each l (fun kh : Z * account_history_of_karma_object => when (karma_account kh.2 =? account)
    (modify kh.1 (fun h => Ok (add_history_entry e h)))) s = Ok (u, s') ->
  exists m, s' = set_account_histories_of_karma m s.
Proof.
  apply (for_each_ind (fun s s' => exists m, s' = set_account_histories_of_karma m s)).
  - intros t. exists (account_histories_of_karma t). by destruct t.
  - intros s1 s2 s3 [m ->] [m' ->]. by exists m'.
  - intros kh t t' w _ [[_ (h & h' & _ & _ & ->)%modify_Ok]|[_ ->]]%when_Ok; [by eexists|].
    exists (account_histories_of_karma t). by destruct t.
Qed.
Lemma update_account_karma_exact account d info s u s' :
  update_account_karma account d info s = Ok (u, s') -> transferred [] account [d] s s'.
Proof.
  unfold update_account_karma. intros E. repeat run_ok1. apply get_Ok in Hrun as [_ ->].
  apply modify_Ok in Hrun0 as (a' & a2 & Ha & [= <-] & ->). apply histories_loop in E as [m ->]. split_and!.
  - intros owner id. cbn. rewrite Z.add_0_r. done.
  - by exists a'.
  - by exists (account_balances s), m; destruct s.
Qed.
Lemma transferred_refl account s : is_Some (accounts s !! account) -> transferred [] account [] s s.
Proof.
  intros [a Ha]. split_and!; [intros ??; cbn; lia| |].
  - exists a. split; [done|]. cbn. by rewrite insert_id.
  - by exists (account_balances s), (account_histories_of_karma s); destruct s.
Qed.
Lemma transferred_trans l1 l2 account k1 k2 s1 s2 s3 :
  transferred l1 account k1 s1 s2 -> transferred l2 account k2 s2 s3 -> transferred (l1 ++ l2) account (k1 ++ k2) s1 s3.
Proof.
  intros (P1 & (a1 & A1 & E1) & (b1 & h1 & M1)) (P2 & (a2 & A2 & E2) & (b2 & h2 & M2)). split_and!.
  - intros owner id. rewrite P2, P1, foldr_app.
    assert (Hf : forall l n, foldr (fun x n => gain owner id x + n) n l = foldr (fun x n => gain owner id x + n) 0 l + n).
    { induction l as [|x l IH]; intros n; cbn; [lia|]. rewrite IH. lia. }
    rewrite (Hf l1 (foldr _ _ _)). lia.
  - exists a1. split; [done|]. rewrite E1, lookup_insert_eq in A2. injection A2 as <-. by rewrite E2, E1, insert_insert_eq, fold_left_app.
  - exists b2, h2. rewrite M2 at 1. by rewrite M1.
Qed.
Lemma adjust_transferred account delta who s u s' :
  is_Some (accounts s !! who) -> adjust_balance account delta s = Ok (u, s') -> transferred [(account, delta)] who [] s s'.
Proof.
  intros [a Ha] [[m ->] P]%adjust_balance_exact. split_and!; [done|exists a; split; [done|]; cbn; by rewrite insert_id|].
  by exists m, (account_histories_of_karma s); destruct s.
Qed.
Lemma transferred_account l account ks s s' : transferred l account ks s s' -> is_Some (accounts s' !! account).
Proof. intros (_ & (a & _ & ->) & _). rewrite lookup_insert_eq. by eexists. Qed.

(** ** A month of a credit *)
Definition less (x : asset) : asset := mk_asset (- amount x) (asset_id x).
(** From one to another. *)
Definition pay (from to : Z) (x : asset) : list (Z * asset) := [(from, less x); (to, x)].
Definition due (c : credit_object) (s : database) : Prop :=
  next_pay_total_secs c s <= head_block_time s - request_approvation_time c \/ expired_time_start c <> 0.
(** The payment of a month and what the borrower has, in the asset of the loan. *)
Definition month_payment (c : credit_object) (s : database) (x : asset) : Prop :=
  exists loan, assets s !! loan_id c = Some loan /\ asset_of (payment c) loan (loan_id c) = Ok x.
Definition all_left (c : credit_object) (s : database) (x : asset) : Prop :=
  exists loan d, assets s !! loan_id c = Some loan /\ balance_real (borrower_id c) (loan_id c) loan s = Ok d
    /\ asset_of d loan (loan_id c) = Ok x.
Definition grace_starts (c : credit_object) (s : database) : Prop :=
  expired_time_start c = 0 /\ max_credit_expiration_days (credit_parameters s) <> 0.
Definition grace_over (c : credit_object) (s : database) : Prop :=
  mul32 (max_credit_expiration_days (credit_parameters s)) (seconds_per_day (credit_parameters s))
  <= elapsed (head_block_time s) (expired_time_start c).
(** What a month brings: nothing yet, a payment, the last payment, the start of
    the grace period, another day of it, or the default. *)
Inductive month (c : credit_object) (s : database) : credit_object -> database -> Prop :=
| month_early : ~ due c s -> month c s c s
| month_paid x s' :
    due c s -> month_payment c s x -> amount x <= balance (borrower_id c) (loan_id c) s ->
    settle_month_elapsed c + 1 < loan_period (borrower_of c) ->
    transferred (pay (borrower_id c) (creditor_id c) x) (borrower_id c) [float_of KARMA_BONUS_FOR_MONTHLY_PAYMENT] s s' ->
    month c s (with_elapsed (settle_month_elapsed c + 1) (with_expired 0 c)) s'
| month_repaid x s' :
    due c s -> month_payment c s x -> amount x <= balance (borrower_id c) (loan_id c) s ->
    settle_month_elapsed c + 1 = loan_period (borrower_of c) ->
    transferred (pay (borrower_id c) (creditor_id c) x ++ [(borrower_id c, deposit_of c)]) (borrower_id c)
      [float_of KARMA_BONUS_FOR_MONTHLY_PAYMENT; float_of KARMA_BONUS_FOR_CREDIT_PAYMENT] s s' ->
    month c s (with_status complete_normal (with_deposit (mk_asset 0 (deposit_id c))
                 (with_elapsed (settle_month_elapsed c + 1) (with_expired 0 c)))) s'
| month_late x s' :
    due c s -> month_payment c s x -> balance (borrower_id c) (loan_id c) s < amount x -> grace_starts c s ->
    transferred [] (borrower_id c) [float_of KARMA_PENALTY_FOR_MONTHLY_DELAY] s s' ->
    month c s (with_expired (head_block_time s) c) s'
| month_grace x :
    due c s -> month_payment c s x -> balance (borrower_id c) (loan_id c) s < amount x -> ~ grace_starts c s ->
    ~ grace_over c s -> month c s c s
| month_default x y s' :
    due c s -> month_payment c s x -> balance (borrower_id c) (loan_id c) s < amount x -> ~ grace_starts c s ->
    grace_over c s -> all_left c s y ->
    transferred (pay (borrower_id c) (creditor_id c) y) (borrower_id c) [float_of KARMA_PENALTY_FOR_CREDIT_DEFAULT] s s' ->
    month c s (with_status complete_ubnormal c) s'.

(** A credit without a deposit whose months are counted. *)
Record running (c : credit_object) : Prop := {
  running_status : status c = in_progress;
  running_free : free c;
  running_months : 0 <= settle_month_elapsed c < loan_period (borrower_of c);
  running_period : loan_period (borrower_of c) < 2 ^ 32;
}.
Lemma monthly_payment_exact c s c' s' :
  is_Some (accounts s !! borrower_id c) -> settle_monthly_payment c s = Ok (c', s') ->
  c' = with_expired 0 c /\ exists x, month_payment c s x
    /\ transferred (pay (borrower_id c) (creditor_id c) x) (borrower_id c) [float_of KARMA_BONUS_FOR_MONTHLY_PAYMENT] s s'.
Proof.
  intros Ha. unfold settle_monthly_payment. intros E. repeat run_ok1.
  repeat match goal with G : get _ _ _ = Ok _ |- _ => apply get_Ok in G as [? ->] end. split; [done|].
  match goal with G : asset_neg _ = Ok _ |- _ => apply asset_neg_Ok in G as -> end.
  match goal with A1 : adjust_balance (borrower_id c) _ _ = _, A2 : adjust_balance (creditor_id c) _ _ = _, K : update_account_karma _ _ _ _ = _ |- _ =>
    apply (adjust_transferred _ _ (borrower_id c)) in A1 as T1; [|done];
    apply (adjust_transferred _ _ (borrower_id c)) in A2 as T2; [|by eapply transferred_account];
    apply update_account_karma_exact in K as T3 end.
  eexists. split; [eexists; by split|]. exact (transferred_trans _ _ _ _ _ _ _ _ T1 (transferred_trans _ _ _ _ _ _ _ _ T2 T3)).
Qed.
Lemma default_exact c s c' s' :
  is_Some (accounts s !! borrower_id c) -> complete_credit_operation_ubnormal c s = Ok (c', s') ->
  c' = with_status complete_ubnormal c /\ exists y, all_left c s y
    /\ transferred (pay (borrower_id c) (creditor_id c) y) (borrower_id c) [float_of KARMA_PENALTY_FOR_CREDIT_DEFAULT] s s'.
Proof.
  intros Ha. unfold complete_credit_operation_ubnormal. intros E. repeat run_ok1.
  repeat match goal with G : get _ _ _ = Ok _ |- _ => apply get_Ok in G as [? ->] end. split; [done|].
  match goal with G : asset_neg _ = Ok _ |- _ => apply asset_neg_Ok in G as -> end.
  match goal with A1 : adjust_balance (borrower_id c) _ _ = _, A2 : adjust_balance (creditor_id c) _ _ = _, K : update_account_karma _ _ _ _ = _ |- _ =>
    apply (adjust_transferred _ _ (borrower_id c)) in A1 as T1; [|done];
    apply (adjust_transferred _ _ (borrower_id c)) in A2 as T2; [|by eapply transferred_account];
    apply update_account_karma_exact in K as T3 end.
  eexists. split; [eexists _, _; by split_and!|]. exact (transferred_trans _ _ _ _ _ _ _ _ T1 (transferred_trans _ _ _ _ _ _ _ _ T2 T3)).
Qed.
Lemma completion_exact c s c' s' :
  is_Some (accounts s !! borrower_id c) -> complete_credit_operation c s = Ok (c', s') ->
  c' = with_status complete_normal (with_deposit (mk_asset 0 (deposit_id c)) c)
  /\ transferred [(borrower_id c, deposit_of c)] (borrower_id c) [float_of KARMA_BONUS_FOR_CREDIT_PAYMENT] s s'.
Proof.
  intros Ha. unfold complete_credit_operation. intros E. repeat run_ok1.
  repeat match goal with G : get _ _ _ = Ok _ |- _ => apply get_Ok in G as [? ->] end. split; [done|].
  match goal with A1 : adjust_balance (borrower_id c) _ _ = _, K : update_account_karma _ _ _ _ = _ |- _ =>
    apply (adjust_transferred _ _ (borrower_id c)) in A1 as T1; [|done]; apply update_account_karma_exact in K as T3 end.
  exact (transferred_trans _ _ _ _ _ _ _ _ T1 T3).
Qed.
Lemma check_expired_exact c s c' s' :
  free c -> is_Some (accounts s !! borrower_id c) -> check_expired_pay_time c s = Ok (c', s') ->
  (grace_starts c s /\ c' = with_expired (head_block_time s) c
     /\ transferred [] (borrower_id c) [float_of KARMA_PENALTY_FOR_MONTHLY_DELAY] s s')
  \/ (~ grace_starts c s /\ grace_over c s /\ c' = with_status complete_ubnormal c
      /\ exists y, all_left c s y
         /\ transferred (pay (borrower_id c) (creditor_id c) y) (borrower_id c) [float_of KARMA_PENALTY_FOR_CREDIT_DEFAULT] s s')
  \/ (~ grace_starts c s /\ ~ grace_over c s /\ c' = c /\ s' = s /\ expired_time_start c <> 0).
Proof.
  intros Hfree Ha. unfold check_expired_pay_time. rewrite (proj1 Hfree). intros E. do 2 run_ok1.
  match type of E with (if ?b then _ else _) _ = _ => destruct b eqn:Hg end.
  - apply andb_true_iff in Hg as [Hg1 Hg2]. apply negb_true_iff, Z.eqb_neq in Hg2. apply Z.eqb_eq in Hg1. repeat run_ok1.
    repeat match goal with G : get _ _ _ = Ok _ |- _ => apply get_Ok in G as [? ->] end. left. split_and!; [done|done|].
    by match goal with K : update_account_karma _ _ _ _ = _ |- _ => apply update_account_karma_exact in K end.
  - right. assert (Hns : ~ grace_starts c s).
    { intros [Hs1 Hs2]. apply andb_false_iff in Hg as [Hg|Hg]; [by apply Z.eqb_neq in Hg|]. by apply negb_false_iff, Z.eqb_eq in Hg. }
    match type of E with (if ?b then _ else _) _ = _ => destruct b eqn:Ho end.
    + apply Z.leb_le in Ho. apply default_exact in E as (-> & y & Hy & T1); [|done]. left. split_and!; try done. by exists y.
    + apply Z.leb_gt in Ho. right. apply M_ret_Ok in E as [Hc1 <-]. split_and!; [done|unfold grace_over; lia|done|done|].
      intros He. apply Hns. split; [done|]. intros Hz. rewrite Hz in Ho. unfold mul32 in Ho. rewrite Z.mul_0_l in Ho.
      change (wrap 32 0) with 0 in Ho. unfold elapsed, wrap in Ho.
      pose proof (Z.mod_pos_bound (head_block_time s - expired_time_start c) (2 ^ 32) ltac:(lia)). lia.
Qed.
(** C25: a month of a credit without a deposit is one of six things: not due yet;
    a payment from the borrower to the creditor, which is counted; the same, when
    as many months as agreed have passed, and the credit is complete; the start of
    the grace period, when the borrower cannot pay; a day of it; or, after it, the
    default, which hands over what the borrower has left.  No other balance and
    nobody else's account changes; of the borrower's account only the karma does,
    by the bonuses and penalties listed; and besides balances, that account and the
    record of karma changes, the state stays as it is. *)
Theorem credit_month c s c' s' :
  running c -> 0 < head_block_time s -> process_credit c s = Ok (c', s') -> month c s c' s'.
Proof.
  intros [Hst Hfree Hm Hper] Hnow. unfold process_credit. rewrite Hst. cbn [bool_decide decide_rel]. intros E.
  rewrite bool_decide_true in E by done. rewrite (proj1 Hfree) in E. do 2 run_ok1. cbn [fst snd] in E. do 2 run_ok1.
  match type of E with (if ?b then _ else _) _ = _ => destruct b eqn:Hdue end.
  2: { apply orb_false_iff in Hdue as [? Hd]. run_ok1. subst. apply month_early. intros [?|?]; [lia|]. by apply negb_false_iff, Z.eqb_eq in Hd. }
  assert (due c s) as Hd by (apply orb_true_iff in Hdue as [?|Hd]; [left; lia|right; by apply negb_true_iff, Z.eqb_neq in Hd]). clear Hdue.
  run_ok1. rename Hrun into En. unfold on_next_month in En. run_ok1. apply get_Ok in Hrun as [Hacc ->].
  assert (Ha : is_Some (accounts s !! borrower_id c)) by by eexists.
  do 2 run_ok1. apply get_Ok in Hrun as [Hloan ->]. do 4 run_ok1.
  apply lift_Ok in Hrun0 as [Hpay ->]. apply lift_Ok in Hrun1 as [Hge ->]. rename a2 into x, a5 into c1, s4 into s1.
  assert (Hx : month_payment c s x) by (by exists a1). pose proof (asset_ge_Ok _ _ _ Hge) as [_ Hle]. change (amount (get_balance (borrower_id c) (loan_id c) s)) with (balance (borrower_id c) (loan_id c) s) in Hle.
  destruct a4.
  - apply monthly_payment_exact in Hrun2 as (-> & y & Hy & T1); [|done].
    assert (y = x) as -> by (destruct Hy as (o & Ho & Hy); cbn in Hloan; congruence). symmetry in Hle. apply Z.leb_le in Hle.
    rewrite bool_decide_false in En by (cbn; congruence). cbn [with_expired expired_time_start] in En. rewrite Z.eqb_refl in En. run_ok1. subst.
    change (settle_month_elapsed (with_expired 0 c)) with (settle_month_elapsed c) in E. rewrite wrap_id in E by lia.
    cbn [with_elapsed with_expired borrower_of settle_month_elapsed] in E. destruct (Z.leb_spec (loan_period (borrower_of c)) (settle_month_elapsed c + 1)).
    + apply completion_exact in E as [-> T2]; [|by eapply (transferred_account _ (borrower_id c))].
      change (transferred [(borrower_id c, deposit_of c)] (borrower_id c) [float_of KARMA_BONUS_FOR_CREDIT_PAYMENT] s1 s') in T2.
      refine (month_repaid c s x s' Hd Hx Hle _ _); [lia|].
      exact (transferred_trans _ _ _ _ _ _ _ _ T1 T2).
    + run_ok1. subst. by apply (month_paid c s x).
  - symmetry in Hle. apply Z.leb_gt in Hle. assert (Hend : forall e, c1 = e -> status e = complete_ubnormal \/ expired_time_start e <> 0 ->
      settle_month_elapsed e < loan_period (borrower_of e) -> c' = e /\ s' = s1).
    { intros e -> Hcase Hlt. assert (a = e /\ s0 = s1) as [-> ->].
      { case_bool_decide; [by run_ok1|]. destruct Hcase as [?|He]; [done|]. rewrite (proj2 (Z.eqb_neq _ _) He) in En. by run_ok1. }
      rewrite (proj2 (Z.leb_gt _ _) Hlt) in E. by run_ok1. }
    apply check_expired_exact in Hrun2 as [(Hs & -> & T1)|[(Hs & Ho & -> & y & Hy & T1)|(Hs & Ho & -> & -> & Hne)]]; [..|done|done].
    + destruct (Hend _ eq_refl) as [-> ->]; [right; cbn; lia|cbn; lia|]. by apply (month_late c s x).
    + destruct (Hend _ eq_refl) as [-> ->]; [by left|cbn; lia|]. by apply (month_default c s x y).
    + destruct (Hend _ eq_refl) as [-> ->]; [by right|lia|]. by apply (month_grace c s x).
Qed.

(** ** From the acceptance to the end *)
(** The months of a credit, each in whatever state the chain is in then: the
    states before and after each. *)
Inductive months (c0 : credit_object) : list (database * database) -> credit_object -> Prop :=
| months_none : months c0 [] c0
| months_next l c c' s s' :
    months c0 l c -> 0 < head_block_time s -> process_credit c s = Ok (c', s') -> months c0 (l ++ [(s, s')]) c'.
(** What a month does to the balances: nothing; the payment of a month, which the
    borrower has; or, when the borrower has less, what is left. *)
Inductive event : Type := waits | pays (x : asset) | defaults (x : asset).
Definition happened (c : credit_object) (st : database * database) (e : event) : Prop :=
  match e with
  | waits => paid_out [] st.1 st.2
  | pays x => month_payment c st.1 x /\ amount x <= balance (borrower_id c) (loan_id c) st.1
              /\ paid_out (pay (borrower_id c) (creditor_id c) x) st.1 st.2
  | defaults x => all_left c st.1 x /\ paid_out (pay (borrower_id c) (creditor_id c) x) st.1 st.2
  end.
Definition is_payment (e : event) : bool := match e with pays _ => true | _ => false end.
Definition is_default (e : event) : bool := match e with defaults _ => true | _ => false end.
Definition number (p : event -> bool) (l : list event) : Z := Z.of_nat (length (List.filter p l)).
Lemma number_app p l e : number p (l ++ [e]) = number p l + (if p e then 1 else 0).
Proof. unfold number. rewrite List.filter_app, length_app. cbn. destruct (p e); cbn; lia. Qed.
(** The parties and the amounts are those agreed. *)
Definition agreed (c0 c : credit_object) : Prop := borrower_of c = borrower_of c0 /\ creditor_of c = creditor_of c0.
Lemma happened_agreed c0 c st e : agreed c0 c -> happened c st e -> happened c0 st e.
Proof.
  intros [Hb Hc]. unfold happened, month_payment, all_left, borrower_id, creditor_id, loan_id, payment. by rewrite Hb, Hc.
Qed.
Lemma transferred_paid l account ks s s' : transferred l account ks s s' -> paid_out l s s'.
Proof. by intros [? _]. Qed.
Lemma month_event c s c' s' :
  running c -> month c s c' s' ->
  exists e, happened c (s, s') e
  /\ ((running c' /\ agreed c c' /\ is_default e = false
       /\ settle_month_elapsed c' = settle_month_elapsed c + (if is_payment e then 1 else 0))
     \/ (status c' = complete_normal /\ is_payment e = true /\ settle_month_elapsed c + 1 = loan_period (borrower_of c))
     \/ (status c' = complete_ubnormal /\ is_default e = true)).
Proof.
  intros Hr M. pose proof Hr as [Hst Hfree Hm Hper]. assert (Hw : paid_out [] s s) by (intros ??; cbn; lia).
  destruct M.
  1, 5: exists waits; split; [done|]; left; split_and!; [done|done|done|cbn; lia].
  - exists (pays x). split; [split_and!; [done|done|by eapply transferred_paid]|]. left. split_and!; [split; cbn; try done; lia|done..].
  - exists (pays x). split; [|right; left; by split_and!]. split_and!; [done|done|].
    match goal with Hx : transferred _ _ _ _ _ |- _ => apply transferred_paid in Hx as Hp end.
    intros owner id. cbn [fst snd]. rewrite (Hp owner id), foldr_app. f_equal. cbn. unfold gain at 3. cbn. rewrite (proj2 Hfree). case_match; lia.
  - exists waits. split; [by eapply transferred_paid|]. left. split_and!; [split; cbn; done|done|done|cbn; lia].
  - exists (defaults y). split; [split; [done|by eapply transferred_paid]|]. right. right. by split.
Qed.
Lemma finished_stays c s c' s' :
  status c <> in_progress -> process_credit c s = Ok (c', s') -> c' = c /\ s' = s.
Proof. intros Hst. unfold process_credit. rewrite bool_decide_false by done. intros E. by run_ok1. Qed.
(** C26: a credit without a deposit is completed by exactly as many payments as months
    were agreed, each of them the agreed amount that the borrower has at that time
    and that goes from the borrower to the creditor.  Every other month leaves all
    balances as they are, except for the month of a default, which hands over what
    the borrower has left.  Until the last payment the credit is in progress, and
    its counter is the number of the payments; a default ends it before that.  A
    completed or defaulted credit stays so and moves nothing any more. *)
Theorem credit_completed c0 l c :
  running c0 -> settle_month_elapsed c0 = 0 -> months c0 l c ->
  exists events, Forall2 (happened c0) l events
  /\ ((status c = in_progress /\ settle_month_elapsed c = number is_payment events
         /\ number is_payment events < loan_period (borrower_of c0) /\ number is_default events = 0)
      \/ (status c = complete_normal /\ number is_payment events = loan_period (borrower_of c0) /\ number is_default events = 0)
      \/ (status c = complete_ubnormal /\ number is_payment events < loan_period (borrower_of c0) /\ number is_default events = 1)).
Proof.
  intros Hr H0' Hms.
  assert (Hg : exists events, Forall2 (happened c0) l events
    /\ ((running c /\ agreed c0 c /\ settle_month_elapsed c = number is_payment events /\ number is_default events = 0)
    \/ (status c = complete_normal /\ number is_payment events = loan_period (borrower_of c0) /\ number is_default events = 0)
    \/ (status c = complete_ubnormal /\ number is_payment events < loan_period (borrower_of c0) /\ number is_default events = 1))).
  { induction Hms as [|l c c' s s' Hms IH Ht E]; [exists []; split; [constructor|by left]|].
    destruct IH as (events & Hev & [(Hrc & Ha & He & Hd)|Hend]).
    - apply credit_month in E; [|done|done]. destruct (month_event _ _ _ _ Hrc E) as (e & Hh & Hcase).
      exists (events ++ [e]). split; [apply Forall2_app; [done|constructor; [by eapply happened_agreed|constructor]]|].
      rewrite !number_app. pose proof (running_months _ Hrc) as Hm. rewrite (proj1 Ha) in Hm.
      destruct Hcase as [(? & Ha' & -> & ?)|[(? & Hpay & Hlast)|(? & Hdef)]].
      + left. split_and!; [done| |lia|lia]. destruct Ha, Ha'. by split; etrans.
      + right. left. rewrite (proj1 Ha) in Hlast. destruct e; try done. cbn in *. split_and!; [done|lia..].
      + right. right. destruct e; try done. cbn in *. split_and!; [done|lia..].
    - apply finished_stays in E as [-> ->]; [|destruct Hend as [[-> _]|[-> _]]; done].
      exists (events ++ [waits]). split; [apply Forall2_app; [done|constructor; [intros ??; cbn; lia|constructor]]|].
      rewrite !number_app. cbn. rewrite !Z.add_0_r. by right. }
  destruct Hg as (events & Hev & [(Hrc & Ha & He & Hd)|Hend]); exists events; (split; [done|]); [left|by right].
  destruct Hrc as [? ? Hm ?]. rewrite (proj1 Ha) in Hm. split_and!; [done|done|lia|done].
Qed.

(** ** Settling from the deposit *)
(** Settling a payment from the deposit does not balance: both amounts it
    compares are in the asset of the loan, so the conversion is always skipped.
    What the creditor receives beyond what the borrower had left is created, and
    what is taken from the deposit is destroyed. *)
Theorem deposit_settlement c s c' s' :
  settle_from_deposit c s = Ok (c', s') -> status c' <> complete_ubnormal ->
  exists paid left_ taken,
    month_payment c s paid /\ all_left c s left_
    /\ deposit_of c' = mk_asset (amount (deposit_of c) - taken) (deposit_id c)
    /\ forall a, surplus a s' = surplus a s + if_asset a (loan_id c) (amount paid - amount left_).
Proof.
  unfold settle_from_deposit. intros E Hst. repeat run_ok1.
  repeat match goal with G : get _ _ _ = Ok _ |- _ => apply get_Ok in G as [? ->] end.
  match type of E with (if ?b then _ else _) _ = _ => destruct b end.
  { by apply complete_ubnormal_moves in E as [-> _]. }
  repeat run_ok1. repeat match goal with G : get_exchange_rate_by_symbol _ _ = Ok _ |- _ => apply exchange_rate_pure in G as -> end.
  match type of E with (if ?b then _ else _) _ = _ => destruct b end; [by apply complete_ubnormal_moves in E as [-> _]|].
  repeat run_ok1. match goal with Hm : move_settlement _ _ _ _ _ _ _ _ _ = Ok _ |- _ =>
    apply move_settlement_moves in Hm as (Hid & -> & [[_ _ Hs _] _]);
      [|cbn; match goal with X : asset_of _ _ _ = Ok a6, Y : asset_of _ _ _ = Ok a8 |- _ => apply asset_of_Ok in X, Y; congruence end] end.
  exists a8, a6, (amount a7). split_and!; [by eexists|by eexists _, _|done|].
  intros y. rewrite Hs. cbn.
  match goal with X : asset_of _ _ _ = Ok a6, Y : asset_of _ _ _ = Ok a8 |- _ => apply asset_of_Ok in X as X', Y as Y' end.
  unfold asset_in, if_asset. rewrite X', Y'. case_match; lia.
Qed.
End Months.

(** ** Concrete credits *)
Import Ref RefCredit.
Module CreditSample.
(** Bob borrows 12 core from alice for two months at ten per cent. *)
Definition loan12 : credit_object :=
  mk_credit "3" in_progress (mk_borrower bob "" (core 1200000) (double_of_Z 10) 2 (core 0) true) 1596000000
    (mk_creditor alice "" (calculate_monthly_payment (decimal 12 0) (double_of_Z 10) 2)) 1597000000 0 0 ∅.
Lemma loan12_running : running loan12.
Proof. by split; vm_compute. Qed.
(** The start, a month and two months after the loan, with ten million core
    units for bob. *)
Definition at_time (t : Z) (s : database) : database :=
  set_dgp (mk_dgp 100 null_block_id t 1 1600080000 500000 0 100 0 0 90 1599990000 0) s.
Lemma at_time_time t s : head_block_time (at_time t s) = t.
Proof. done. Qed.
Definition rich : database := set_account_balances (<[(bob, core_asset) := 10000000]> (account_balances start)) start.
Definition first_month : database := at_time 1599700000 rich.
Definition returned_credit (c : credit_object) (s : database) : option credit_object := returned (process_credit c s).
Definition after1 : credit_object := default loan12 (returned_credit loan12 first_month).
Definition second_month : database := at_time 1602400000 (after (process_credit loan12) first_month).
Definition after2 : credit_object := default loan12 (returned_credit after1 second_month).
Lemma month1 : process_credit loan12 first_month = Ok (after1, after (process_credit loan12) first_month).
Proof. refine (after_Ok (process_credit loan12) first_month after1 _). vm_compute. reflexivity. Qed.
Lemma month2 : process_credit after1 second_month = Ok (after2, after (process_credit after1) second_month).
Proof. refine (after_Ok (process_credit after1) second_month after2 _). vm_compute. reflexivity. Qed.
Definition two_months_states : list (database * database) :=
  [(first_month, after (process_credit loan12) first_month); (second_month, after (process_credit after1) second_month)].
Lemma two_months : months loan12 two_months_states after2.
Proof.
  assert (T1 : 0 < head_block_time first_month) by (unfold first_month, second_month; rewrite at_time_time; lia).
  assert (T2 : 0 < head_block_time second_month) by (unfold first_month, second_month; rewrite at_time_time; lia).
  exact (months_next loan12 _ after1 after2 _ _ (months_next loan12 [] loan12 after1 _ _ (months_none _) T1 month1) T2 month2).
Qed.
(** A dollar loan of ten, secured by a deposit of 1000 core, with too little left to pay. *)
Definition secured : credit_object :=
  mk_credit "4" in_progress (mk_borrower carol "" (usd 100000) (double_of_Z 10) 2 (core 100000000) false) 1596000000
    (mk_creditor alice "" (calculate_monthly_payment (decimal 10 0) (double_of_Z 10) 2)) 1597000000 0 1598000000 ∅.
Definition rated : database :=
  set_exchange_rates {[0 := mk_exchange_rate ∅ ∅ {["CORE" := double_of_Z 1; "USD" := double_of_Z 5]}]} start.
Definition settled : option credit_object := returned (settle_from_deposit secured rated).
End CreditSample.
Import CreditSample.

Lemma karma_bounded_witness :
  karma_ok (karma (update_karma (float_of KARMA_PENALTY_FOR_CREDIT_DEFAULT) (plain_account alice))).
Proof. refine (karma_bounded _ _ _ _); by vm_compute. Defined.
Lemma credit_month_witness : month loan12 first_month after1 (after (process_credit loan12) first_month).
Proof. refine (credit_month loan12 first_month after1 _ loan12_running _ month1). by vm_compute. Defined.
Lemma credit_completed_witness :
  status after2 = complete_normal
  /\ exists events, Forall2 (happened loan12) two_months_states events /\ number is_payment events = 2.
Proof.
  assert (Hs : status after2 = complete_normal) by (vm_compute; reflexivity).
  destruct (credit_completed loan12 two_months_states after2 loan12_running eq_refl two_months)
    as (events & Hev & [(Hp & _)|[(_ & Hn & _)|(Hp & _)]]); [congruence|exact (conj Hs (ex_intro _ events (conj Hev Hn)))|congruence].
Defined.
Lemma deposit_settlement_witness :
  exists c' paid left_ taken,
    settled = Some c' /\ month_payment secured rated paid /\ all_left secured rated left_
    /\ deposit_of c' = mk_asset (amount (deposit_of secured) - taken) (deposit_id secured)
    /\ forall a, surplus a (after (settle_from_deposit secured) rated)
                = surplus a rated + if_asset a USD (amount paid - amount left_).
Proof.
  destruct settled as [c'|] eqn:E; [|by vm_compute in E].
  destruct (deposit_settlement secured rated c' _ (after_Ok _ _ _ E)) as (p & l & t & Hx).
  - revert E. vm_compute. by intros [= <-].
  - exists c', p, l, t. exact (conj eq_refl Hx).
Defined.

(** A request by alice for a tenth of a core for two months, with a deposit of
    five hundred-thousandths below nothing. *)
Definition below_nothing : credit_request_operation := mk_credit_request (core 1) alice (core 10000) 2 10 "" (core (-5)).
Definition no_fee : generic_evaluator := mk_evaluator (core 0) 0 alice core_asset (mk_trx_state false false false).
Definition request_run : M database Z := e ← do_evaluate no_fee below_nothing; do_apply no_fee e 0 below_nothing.
(** A deposit of five hundred-thousandths below nothing is taken for one of
    almost a whole unit, since its text has lost the sign.  The request is
    accepted, and what should be withheld from the borrower is added. *)
Theorem negative_deposit_accepted :
  amount_to_real core_object (-5) = Ok (decimal 9995 4) /\ returned (request_run rated) = Some 0
  /\ balance alice core_asset (after request_run rated) = balance alice core_asset rated + 5.
Proof. split_and!; vm_compute; reflexivity. Qed.
End CreditTheorems.
