(* ===== verification/ExchangeRateLaws.v ===== *)
(** * Exchange rates: the loop ends, and what it publishes is a median *)
From Stdlib Require Import ZArith Lia String.
From stdpp Require Import base gmap sets list strings sorting.
From S2P Require Import Prelude External Asset Vesting Authority Float Chain Balance Accounting Market MarketSupply Evaluator MarketEvaluator MarketLaws AssetObject Transfers TransferLaws AssetOps AssetEvaluator ExchangeRate Scenario.

Module ExchangeRateLaws.
Import Asset Vesting Authority Float Chain Balance Accounting Market MarketSupply Evaluator MarketEvaluator MarketLaws AssetObject Transfers TransferLaws AssetOps AssetEvaluator ExchangeRate Scenario.

(** ** The keys of a map *)
Lemma keys_perm {A} (m : gmap string A) : keys m ≡ₚ (map_to_list m).*1.
Proof. apply merge_sort_Permutation. Qed.
Lemma elem_of_keys {A} (m : gmap string A) k : k ∈ keys m <-> is_Some (m !! k).
Proof.
  rewrite keys_perm, list_elem_of_fmap. split.
  - intros ([k' x] & -> & Hx%elem_of_map_to_list). by exists x.
  - intros [x Hx]. exists (k, x). by rewrite elem_of_map_to_list.
Qed.
Lemma NoDup_keys {A} (m : gmap string A) : NoDup (keys m).
Proof. rewrite keys_perm. apply NoDup_fst_map_to_list. Qed.
Lemma length_keys {A} (m : gmap string A) : length (keys m) = size m.
Proof. rewrite keys_perm, length_fmap. apply length_map_to_list. Qed.
Lemma keys_dom {A B} (m : gmap string A) (n : gmap string B) :
  (forall k, is_Some (m !! k) <-> is_Some (n !! k)) -> keys m = keys n.
Proof.
  intros Hd. apply (StronglySorted_unique String.le); [apply StronglySorted_merge_sort; apply _..|].
  apply NoDup_Permutation; [apply NoDup_keys..|]. intros k. by rewrite !elem_of_keys.
Qed.

(** The keys from a position on. *)
Fixpoint remaining (it : option string) (l : list string) : nat :=
  match it, l with
  | Some k, k' :: l' => if String.eqb k' k then length l else remaining it l'
  | _, _ => 0
  end.
Lemma remaining_le it l : (remaining it l <= length l)%nat.
Proof. destruct it as [k|]; induction l as [|k' l IH]; cbn; try lia. destruct (String.eqb k' k); cbn; lia. Qed.
Lemma remaining_next k l : NoDup l -> k ∈ l -> remaining (Some k) l = S (remaining (next_key k l) l).
Proof.
  induction l as [|k' l IH]; [by intros _ ?%not_elem_of_nil|]. intros [Hn Hl]%NoDup_cons Hk. cbn.
  destruct (String.eqb_spec k' k) as [->|Hne].
  - destruct l as [|k2 l]; cbn; [done|]. destruct (String.eqb_spec k k2) as [->|_]; [set_solver|].
    by rewrite String.eqb_refl.
  - assert (Hkl : k ∈ l) by set_solver. rewrite (IH Hl Hkl).
    assert (Hx : forall x, next_key k l = Some x -> x ∈ l).
    { clear. induction l as [|y l IH]; intros x; cbn; [done|]. destruct (String.eqb y k); [|intros ?%IH; set_solver].
      intros Hx. right. destruct l; [done|]. injection Hx as ->. by left. }
    destruct (next_key k l) as [x|]; [|by destruct l]. specialize (Hx x eq_refl).
    destruct (String.eqb_spec k' x) as [->|_]; [done|done].
Qed.

Section Loop.
Context `{SafeLaws, U128Laws, TimeLaws, IndexLaws, EraseOps}.

(** ** One symbol *)
Definition enough (o : credit_options) (sym : string) (e : exchange_rate_object) : bool :=
  min_witnesses_for_exchange_rate o <=? Z.of_nat (size (votes sym e)).
(** What a pass over a symbol does: nothing, a note that it was looked at, or the
    end of the vote, with a rate or without. *)
Inductive passed (o : credit_options) (now : Z) (sym : string) (e : exchange_rate_object) : exchange_rate_object -> bool -> Prop :=
| passed_by : passed o now sym e e false
| passed_waiting start last_check e' :
    current_exchange_rate_interval e !! sym = Some (start, last_check) ->
    exchange_rate_set_min_interval o <= elapsed now last_check -> enough o sym e = false ->
    e' = set_intervals (<[sym := (start, now)]> (current_exchange_rate_interval e))
           (set_current (<[sym := votes sym e]> (current_exchange_rate e)) e) ->
    passed o now sym e e' false
| passed_closed start last_check rates e' :
    current_exchange_rate_interval e !! sym = Some (start, last_check) ->
    exchange_rate_set_min_interval o <= elapsed now last_check ->
    (if enough o sym e then exists m, median (voted sym e) = Ok m /\ rates = <[sym := m]> (last_exchange_rate e)
     else rates = last_exchange_rate e) ->
    e' = mk_exchange_rate (<[sym := ∅]> (current_exchange_rate e)) (delete sym (current_exchange_rate_interval e)) rates ->
    passed o now sym e e' true.
Lemma process_rate_passed o now sym e e' b :
  process_rate o now sym e = Ok (e', b) ->
  is_Some (current_exchange_rate_interval e !! sym) /\ passed o now sym e e' b.
Proof.
  unfold process_rate. intros E. destruct (current_exchange_rate_interval e !! sym) as [[start check]|] eqn:Hi; [|done].
  split; [by eexists|]. destruct (Z.leb_spec (exchange_rate_set_min_interval o) (elapsed now check)) as [Hm|_];
    [|injection E as <- <-; constructor].
  assert (Hv : forall m, votes sym (set_current (<[sym := votes sym e]> m) e) = votes sym e)
    by (intros m; unfold votes at 1; cbn; by rewrite lookup_insert_eq).
  unfold voted in E. rewrite !Hv in E. fold (voted sym e) in E. fold (enough o sym e) in E.
  run_ok1. destruct (enough o sym e) eqn:He; cbn [orb] in E.
  - run_ok1. injection E as <- <-. eapply passed_closed; [exact Hi|exact Hm|rewrite He|].
    + by exists a0.
    + injection Hrun as <-. unfold set_intervals, set_current, set_last. cbn. by rewrite insert_insert_eq.
  - injection Hrun as <-. destruct (_ <=? _); injection E as <- <-.
    + eapply passed_closed; [exact Hi|exact Hm|by rewrite He|].
      unfold set_intervals, set_current. cbn. by rewrite insert_insert_eq, delete_insert_eq.
    + by eapply passed_waiting.
Qed.
Lemma process_rate_fuel o now sym e : process_rate o now sym e <> Throw out_of_fuel.
Proof.
  unfold process_rate. destruct (_ !! _) as [[]|]; [|done]. destruct (_ <=? _); [|done].
  assert (Hm : forall l, median l <> Throw out_of_fuel).
  { intros l. unfold median, at_index. repeat (case_match; cbn; try done); destruct (_ !! _); cbn; try done;
      destruct (_ !! _); done. }
  destruct (_ <=? _); cbn; [|by destruct (_ <=? _)].
  match goal with |- context [median ?l] => specialize (Hm l); destruct (median l) end; cbn; [done|]. congruence.
Qed.

(** ** The loop *)
Lemma process_rates_end fuel o now it e :
  let n := size (current_exchange_rate_interval e) in
  (n * S n + remaining it (keys (current_exchange_rate_interval e)) < fuel)%nat ->
  process_rates fuel o now it e <> Throw out_of_fuel.
Proof.
  revert it e. induction fuel as [|fuel IH]; intros it e n Hf; [lia|]. destruct it as [sym|]; cbn [process_rates]; [|done].
  destruct (process_rate o now sym e) as [[e' b]|msg] eqn:E; cbn.
  2: { intros [= ->]. by apply (process_rate_fuel o now sym e). }
  apply process_rate_passed in E as [Hs Hp]. apply elem_of_keys in Hs as Hk.
  pose proof (length_keys (current_exchange_rate_interval e)) as Hl. fold n in Hl.
  destruct b; apply IH.
  - inversion Hp as [| |start check rates ? Hi _ _ ->]; subst. cbn.
    rewrite map_size_delete_Some by done. fold n.
    pose proof (remaining_le (next_of_erased sym (keys (delete sym (current_exchange_rate_interval e))))
      (keys (delete sym (current_exchange_rate_interval e)))) as Hr.
    rewrite (length_keys (delete _ _)), map_size_delete_Some in Hr by done. fold n in Hr.
    assert (0 < n)%nat by (rewrite <- Hl; destruct (keys _); [set_solver|cbn; lia]). nia.
  - assert (Hd : keys (current_exchange_rate_interval e') = keys (current_exchange_rate_interval e)).
    { apply keys_dom. intros k. inversion Hp as [|start check ? Hi _ _ ->|]; subst; [done|]. cbn.
      rewrite lookup_insert_is_Some'. split; [|by right]. intros [<-|?]; [done|done]. }
    rewrite <- (length_keys (current_exchange_rate_interval e')), Hd, Hl.
    rewrite (remaining_next sym _ (NoDup_keys _) Hk) in Hf. lia.
Qed.
(** The exchange rates of a block are processed in a bounded number of steps,
    wherever the platform takes the iterator of an erased element. *)
Theorem exchange_rates_processed e s : process e s <> Throw out_of_fuel.
Proof.
  apply process_rates_end. unfold process_fuel. pose proof (length_keys (current_exchange_rate_interval e)) as Hl.
  pose proof (remaining_le (head (keys (current_exchange_rate_interval e))) (keys (current_exchange_rate_interval e))).
  set (n := size _) in *. nia.
Qed.

(** ** What is published *)
Definition published (o : credit_options) (now : Z) (e : exchange_rate_object) (sym : string) (r : double) : Prop :=
  exists start check, current_exchange_rate_interval e !! sym = Some (start, check)
    /\ exchange_rate_set_min_interval o <= elapsed now check /\ enough o sym e = true /\ median (voted sym e) = Ok r.
(** Where a symbol stands after some passes: its vote is open, or was closed with
    a new rate or without. *)
Definition stands (o : credit_options) (now : Z) (e0 e : exchange_rate_object) (sym : string) : Prop :=
  (votes sym e = votes sym e0 /\ last_exchange_rate e !! sym = last_exchange_rate e0 !! sym
   /\ match current_exchange_rate_interval e !! sym with
      | Some (start, check) => exists check0, current_exchange_rate_interval e0 !! sym = Some (start, check0)
          /\ (check = check0 \/ exchange_rate_set_min_interval o <= elapsed now check0)
      | None => current_exchange_rate_interval e0 !! sym = None
      end)
  \/ (votes sym e = ∅ /\ current_exchange_rate_interval e !! sym = None
      /\ (last_exchange_rate e !! sym = last_exchange_rate e0 !! sym
          \/ exists r, last_exchange_rate e !! sym = Some r /\ published o now e0 sym r)).
Lemma votes_other e sym k m i l :
  k <> sym -> votes sym (mk_exchange_rate (<[k := m]> (current_exchange_rate e)) i l) = votes sym e.
Proof. intros Hne. unfold votes. cbn. by rewrite lookup_insert_ne. Qed.
Lemma passed_stands o now k e0 e e' b sym :
  passed o now k e e' b -> stands o now e0 e sym -> stands o now e0 e' sym.
Proof.
  intros Hp Hst. destruct (decide (k = sym)) as [->|Hne].
  2: { inversion Hp as [|start check ? Hi _ _ ->|start check rates ? Hi _ Hr ->]; subst; [done| |];
       unfold stands, set_intervals, set_current in *; cbn in *; rewrite votes_other, ?lookup_insert_ne, ?lookup_delete_ne by done;
       [done|]. destruct (enough o k e); [destruct Hr as (m & _ & ->); rewrite lookup_insert_ne by done|subst rates]; done. }
  inversion Hp as [|start check ? Hi Hm He ->|start check rates ? Hi Hm Hr ->]; subst; [done| |];
    destruct Hst as [(Hv & Hl & Hint)|(_ & Hn & _)]; try congruence; rewrite Hi in Hint; destruct Hint as (check0 & Hi0 & Hc).
  - left. unfold votes at 1. cbn. rewrite !lookup_insert_eq. split_and!; [done|done|]. exists check0. split; [done|].
    right. destruct Hc as [<-|Hc]; done.
  - right. unfold votes at 1. cbn. rewrite lookup_insert_eq, lookup_delete_eq. split_and!; [done|done|].
    destruct (enough o sym e) eqn:He; [|subst rates; by left]. destruct Hr as (m & Hmed & ->). right. exists m.
    rewrite lookup_insert_eq. split; [done|]. exists start, check0. unfold enough, voted in *. rewrite Hv in *.
    split_and!; try done. destruct Hc as [<-|Hc]; done.
Qed.
Lemma process_rates_stands fuel o now it e0 e e' sym :
  process_rates fuel o now it e = Ok e' -> stands o now e0 e sym -> stands o now e0 e' sym.
Proof.
  revert it e. induction fuel as [|fuel IH]; intros [k|] e; cbn [process_rates]; try done; try (by intros [= <-]).
  intros E Hst. run_ok1. destruct a as [e1 b]. apply process_rate_passed in Hrun as [_ Hp].
  eapply IH; [exact E|]. by eapply passed_stands.
Qed.

(** ** The median *)
(** As many votes below the rate as above it. *)
Definition in_the_middle (r : double) (l : list double) : Prop :=
  exists lo hi, l ≡ₚ lo ++ r :: hi /\ length lo = length hi /\ Forall (fun x => below x r) lo /\ Forall (below r) hi.
Lemma sorted_around l i r :
  StronglySorted below l -> l !! i = Some r ->
  Forall (fun x => below x r) (take i l) /\ Forall (below r) (drop (S i) l).
Proof.
  revert i. induction l as [|x l IH]; intros i Hs Hi; [done|]. apply StronglySorted_inv in Hs as [Hs Hx].
  destruct i as [|i]; cbn in *; [injection Hi as ->; by split|]. apply IH in Hi as Hi'; [|done]. destruct Hi' as [H1' H2'].
  split; [|done]. constructor; [|done]. rewrite Forall_forall in Hx. by apply Hx, (list_elem_of_lookup_2 _ i).
Qed.
Lemma median_odd l r :
  Forall above_zero l -> Nat.Odd (length l) -> median l = Ok r -> in_the_middle r l.
Proof.
  intros Hl [k Hk] E. unfold median, at_index in E. pose proof (std_sort_perm l) as Hp.
  rewrite (Permutation_length Hp), Hk in E.
  rewrite (proj2 (Z.odd_spec _)) in E by (exists (Z.of_nat k); lia).
  replace (Z.of_nat (2 * k + 1) / 2) with (Z.of_nat k) in E by (apply (Z.div_unique_pos _ _ _ 1); lia).
  rewrite (proj2 (Z.ltb_ge _ _)) in E by lia. rewrite Nat2Z.id in E. destruct (std_sort l !! k) as [x|] eqn:Hx; [|done]. injection E as ->.
  destruct (sorted_around _ _ _ (std_sort_sorted l Hl) Hx) as [Hlo Hhi].
  exists (take k (std_sort l)), (drop (S k) (std_sort l)). rewrite (take_drop_middle _ _ _ Hx). split_and!; [done| |done|done].
  pose proof (Permutation_length Hp). rewrite length_take, length_drop. lia.
Qed.

(** C27: what processing the exchange rates does to a symbol, in whatever order the
    symbols are visited: its vote stays open with its rate as it was, or the vote
    is closed; a rate that was published then is the median of at least the least
    number of votes, looked at no more often than the interval allows - and when
    the votes are above zero and odd in number, it is one of them, with as many
    below as above. *)
Theorem published_rate e s e' sym :
  process e s = Ok e' ->
  let o := get_credit_options (extensions (parameters (gpo s))) in
  (votes sym e' = votes sym e /\ last_exchange_rate e' !! sym = last_exchange_rate e !! sym)
  \/ (votes sym e' = ∅ /\ current_exchange_rate_interval e' !! sym = None
      /\ (last_exchange_rate e' !! sym = last_exchange_rate e !! sym
          \/ exists r, last_exchange_rate e' !! sym = Some r /\ published o (head_block_time s) e sym r
               /\ (Forall above_zero (voted sym e) -> Nat.Odd (size (votes sym e)) -> in_the_middle r (voted sym e)))).
Proof.
  intros E o. unfold process in E. eapply (process_rates_stands _ _ _ _ e _ _ sym) in E.
  - destruct E as [(Hv & Hl & _)|(Hv & Hi & [Hl|(r & Hr & Hp)])]; [by left|right; by auto|right].
    split_and!; [done..|]. right. exists r. split_and!; [done..|]. intros Hz Ho.
    destruct Hp as (? & ? & _ & _ & _ & Hm). apply median_odd; [done| |done].
    unfold voted. by rewrite length_fmap, length_map_to_list.
  - left. split_and!; [done..|]. destruct (_ !! sym) as [[start check]|]; [|done]. exists check. by split; [|left].
Qed.

(** ** The books *)
Lemma modify_rates_step id f s u s' : @modify exchange_rate_object _ id f s = Ok (u, s') -> step (fun _ => 0) s s'.
Proof.
  intros (e & e' & _ & _ & _ & S)%modify_step. eapply step_ext; [|apply S; done]. done.
Qed.
Lemma process_exchange_rates_step s u s' : process_exchange_rates s = Ok (u, s') -> step (fun _ => 0) s s'.
Proof. unfold process_exchange_rates. intros E. repeat run_ok1. subst. by apply modify_rates_step in E. Qed.
Lemma check_rate_pure x s u s' : check_rate x s = Ok (u, s') -> s' = s.
Proof. unfold check_rate. intros E. by op_ok. Qed.
Lemma exchange_rate_set_pure g op s u s' : exchange_rate_set_evaluate g op s = Ok (u, s') -> s' = s.
Proof.
  unfold exchange_rate_set_evaluate. intros E. repeat run_ok1. subst.
  revert E. apply (for_each_ind (fun s s' => s' = s)); [done|congruence|]. intros. by eapply check_rate_pure.
Qed.
#[export] Instance exchange_rate_set_laws
  : EvaluatorLaws exchange_rate_set_operation unit unit (fun op => int64_amount (er_fee op)).
Proof.
  refine (default_laws (Op := exchange_rate_set_operation) (E := unit) (R := unit) _ eq_refl exchange_rate_set_pure _).
  cbn. unfold exchange_rate_set_apply. intros g op e d s0 s r s' _ _ _ _ _ _ E. apply step_conserves.
  repeat run_ok1. subst. by apply modify_rates_step in E.
Qed.
End Loop.

(** Seven witnesses value the dollar at one to seven core; the platform starts over
    at the first interval that is left. *)
#[local] Instance from_the_start : EraseOps := fun _ l => head l.
Definition seven_votes : exchange_rate_object :=
  mk_exchange_rate {["USD" := list_to_map ((fun i => (i, double_of_Z i)) <$> [1; 2; 3; 4; 5; 6; 7])]}
    {["USD" := (1599999900, 1599999900)]} ∅.
Definition seven_published : result exchange_rate_object := process seven_votes start.
Lemma seven_published_rate :
  match seven_published with
  | Ok e => last_exchange_rate e !! "USD" = Some (double_of_Z 4)
  | Throw _ => False
  end.
Proof. vm_compute. reflexivity. Qed.
Lemma published_rate_witness :
  exists e', seven_published = Ok e' /\ last_exchange_rate e' !! "USD" = Some (double_of_Z 4)
    /\ ((votes "USD" e' = votes "USD" seven_votes
         /\ last_exchange_rate e' !! "USD" = last_exchange_rate seven_votes !! "USD")
        \/ votes "USD" e' = ∅).
Proof.
  pose proof seven_published_rate as E. unfold seven_published in *.
  destruct (process seven_votes start) as [e'|] eqn:Ep; [|destruct E]. exists e'. split; [reflexivity|]. split; [exact E|].
  destruct (published_rate seven_votes start e' "USD" Ep) as [Hx|(Hv & _)]; [by left|by right].
Defined.
End ExchangeRateLaws.
