(* ===== verification/OperationRules.v ===== *)
(** * What an operation costs, must satisfy and requires ([operations.hpp],
    [operations.cpp], [fee_schedule.cpp], [protocol/*.cpp])

    The fee of an operation comes from the fee schedule of the chain; the sizes
    its data fees are charged for are those of the serialisation library, which
    is a parameter. *)
From Stdlib Require Import ZArith Lia String.
From stdpp Require Import base gmap sets list strings.
From S2P Require Import Prelude External Asset Vesting Authority Float Chain Balance Accounting Market Evaluator MarketEvaluator AssetObject Transfers AssetOps AssetEvaluator BitassetEvaluator ExchangeRate AccountOps AccountEvaluator MemberEvaluator Credit CreditEvaluator.

Module OperationRules.
Import Asset Vesting Authority Float Chain Balance Accounting Market Evaluator MarketEvaluator AssetObject Transfers AssetOps AssetEvaluator BitassetEvaluator ExchangeRate AccountOps AccountEvaluator MemberEvaluator Credit CreditEvaluator.

(** The serialised sizes data fees are charged for: of the memo, when there is
    one, of the optional memo, and of the operation. *)
Class PackOps : Type := {
  memo_size : operation -> option Z;
  packed_memo_size : operation -> Z;
  packed_size : operation -> Z;
}.

(** ** Fees *)
Definition GRAPHENE_BLOCKCHAIN_PRECISION : Z := 100000.
Definition only_fee (n : Z) : fee_parameters := mk_fee_parameters n 0 0 0 0 0 0 0.
Definition data_fee (n per_kbyte : Z) : fee_parameters := mk_fee_parameters n per_kbyte 0 0 0 0 0 0.
(** The initialisers of the [fee_parameters_type]s. *)
Definition default_parameters (op : operation) : fee_parameters :=
  let P := GRAPHENE_BLOCKCHAIN_PRECISION in
  match op with
  | op_transfer _ => data_fee (20 * P) (10 * P)
  | op_limit_order_create _ => only_fee (5 * P)
  | op_limit_order_cancel _ => only_fee 0
  | op_call_order_update _ => only_fee (20 * P)
  | op_asset_create _ => mk_fee_parameters 0 10 (500000 * P) (300000 * P) (5000 * P) 0 0 0
  | op_asset_update _ => data_fee (500 * P) 10
  | op_asset_update_bitasset _ => only_fee (500 * P)
  | op_asset_update_feed_producers _ => only_fee (500 * P)
  | op_asset_issue _ => data_fee (20 * P) P
  | op_asset_reserve _ => only_fee (20 * P)
  | op_asset_fund_fee_pool _ => only_fee P
  | op_asset_settle _ => only_fee (100 * P)
  | op_asset_global_settle _ => only_fee (500 * P)
  | op_asset_publish_feed _ => only_fee P
  | op_withdraw_permission_create _ => only_fee P
  | op_withdraw_permission_update _ => only_fee P
  | op_withdraw_permission_claim _ => data_fee (20 * P) 10
  | op_withdraw_permission_delete _ => only_fee 0
  | op_vesting_balance_create _ => only_fee P
  | op_vesting_balance_withdraw _ => only_fee (20 * P)
  | op_override_transfer _ => data_fee (20 * P) 10
  | op_asset_claim_fees _ => only_fee (20 * P)
  | op_bid_collateral _ => only_fee (20 * P)
  | op_credit_request _ | op_credit_approve _ | op_credit_request_cancel _ | op_comment_credit_request _
  | op_settle_credit _ | op_exchange_rate_set _ => data_fee P 10
  | op_account_create _ => mk_fee_parameters (5 * P) P 0 0 0 (2000 * P) 0 0
  | op_account_update _ => data_fee (20 * P) P
  | op_account_whitelist _ => only_fee 300000
  | op_account_upgrade _ => mk_fee_parameters 0 0 0 0 0 0 (2000 * P) (10000 * P)
  | op_witness_create _ | op_committee_member_create _ | op_worker_create _ => only_fee (5000 * P)
  | op_witness_update _ | op_committee_member_update _ => only_fee (20 * P)
  | op_committee_member_update_global_parameters _ => only_fee P
  | op_custom _ => data_fee P 10
  | op_balance_claim _ => only_fee 0
  | op_proposal_create _ | op_proposal_update _ => data_fee (20 * P) 10
  | op_proposal_delete _ => only_fee P
  end.

Section Rules.
Context `{SafeOps, U128Ops, RationalOps, IndexOps, NthOps, TimeOps, PackOps, CreditOps}.

(** ** [calculate_fee] *)
Definition calculate_data_fee (bytes per_kbyte : Z) : result Z :=
  r ← u128_div (u128_mul (u128 bytes) per_kbyte) 1024;
  _ ← fc_assert (r <=? GRAPHENE_MAX_SHARE_SUPPLY) "result <= GRAPHENE_MAX_SHARE_SUPPLY";
  to_uint64 r.
(** The members [calculate_fee] of the operations. *)
Definition memo_fee (op : operation) (k : fee_parameters) : result Z :=
  match memo_size op with
  | None => Ok (flat_fee k)
  | Some n => f ← calculate_data_fee n (price_per_kbyte k); safe_add (flat_fee k) f
  end.
Definition op_calculate_fee (op : operation) (k : fee_parameters) : result Z :=
  match op with
  | op_transfer _ | op_override_transfer _ | op_withdraw_permission_claim _ => memo_fee op k
  | op_asset_issue _ =>
      f ← calculate_data_fee (packed_memo_size op) (price_per_kbyte k); Ok (wrap 64 (flat_fee k + f))
  | op_asset_update _ | op_credit_request _ | op_credit_approve _ | op_credit_request_cancel _
  | op_comment_credit_request _ | op_settle_credit _ | op_exchange_rate_set _ | op_proposal_create _
  | op_proposal_update _ | op_custom _ =>
      f ← calculate_data_fee (packed_size op) (price_per_kbyte k); Ok (wrap 64 (flat_fee k + f))
  | op_asset_create o =>
      let core_fee_required :=
        match String.length (ac_symbol o) with
        | 3%nat => symbol3 k
        | 4%nat => symbol4 k
        | _ => long_symbol k
        end in
      f ← calculate_data_fee (packed_size op) (price_per_kbyte k); Ok (wrap 64 (core_fee_required + f))
  | op_account_create o =>
      let core_fee_required := if is_cheap_name (na_name o) then flat_fee k else premium_fee k in
      f ← calculate_data_fee (packed_size op) (price_per_kbyte k); Ok (wrap 64 (core_fee_required + f))
  | op_account_update o =>
      if is_some (nu_new_options o)
      then f ← calculate_data_fee (packed_size op) (price_per_kbyte k); safe_add (flat_fee k) f
      else Ok (flat_fee k)
  | op_account_upgrade o =>
      Ok (if upgrade_to_lifetime_member o then membership_lifetime_fee k else membership_annual_fee k)
  | op_balance_claim _ => Ok 0
  | _ => Ok (flat_fee k)
  end.
(** [calc_fee_visitor]: the parameters of the schedule, or the initial ones;
    bids without parameters pay the fee of a margin update. *)
Definition parameters_of (t : gmap Z fee_parameters) (op : operation) : fee_parameters :=
  match t !! which op with
  | Some k => k
  | None =>
      match op with
      | op_bid_collateral _ =>
          match t !! 3 with Some k => only_fee (flat_fee k) | None => default_parameters op end
      | _ => default_parameters op
      end
  end.
(** The loop that rounds the fee up. *)
Fixpoint round_up (fuel : nat) (rate : price) (base : asset) (r : asset) : result asset :=
  back ← asset_mul r rate;
  low ← asset_lt back base;
  if (low : bool) then
    match fuel with
    | O => Throw out_of_fuel
    | S fuel' => n ← safe_add (amount r) 1; round_up fuel' rate base (mk_asset n (asset_id r))
    end
  else Ok r.
Definition calculate_fee (fees : fee_schedule) (op : operation) (core_exchange_rate : price) : result asset :=
  base_value ← op_calculate_fee op (parameters_of (fee_table fees) op);
  scaled ← u128_div (u128_mul (u128 base_value) (scale fees)) GRAPHENE_100_PERCENT;
  _ ← fc_assert (scaled <=? GRAPHENE_MAX_SHARE_SUPPLY) "scaled <= GRAPHENE_MAX_SHARE_SUPPLY";
  n ← to_uint64 scaled;
  r ← asset_mul (mk_asset n core_asset) core_exchange_rate;
  r ← round_up 2 core_exchange_rate (mk_asset n core_asset) r;
  _ ← fc_assert (amount r <=? GRAPHENE_MAX_SHARE_SUPPLY) "result.amount <= GRAPHENE_MAX_SHARE_SUPPLY";
  Ok r.
(** [generic_evaluator::calculate_fee_for_operation]. *)
Definition calculate_fee_for_operation (op : operation) (s : database) : result Z :=
  f ← calculate_fee (current_fees (parameters (gpo s))) op (unit_price core_asset);
  Ok (amount f).

(** ** Validation *)
Definition validate_each (f : operation -> result unit) : list operation -> result unit :=
  fix each l := match l with [] => Ok tt | op :: l' => _ ← f op; each l' end.
Definition not_both (to_add to_remove : gset Z) : result unit :=
  fc_assert (bool_decide (to_add ## to_remove)) "Cannot add and remove approval at the same time.".
Definition proposal_update_validate (o : proposal_update_operation) : result unit :=
  _ ← fee_ok (pp_fee o);
  _ ← fc_assert (negb (bool_decide (active_approvals_to_add o = ∅) && bool_decide (active_approvals_to_remove o = ∅)
                 && bool_decide (owner_approvals_to_add o = ∅) && bool_decide (owner_approvals_to_remove o = ∅)
                 && bool_decide (key_approvals_to_add o = ∅) && bool_decide (key_approvals_to_remove o = ∅)))
        "no approvals to add or remove";
  _ ← not_both (active_approvals_to_add o) (active_approvals_to_remove o);
  _ ← not_both (owner_approvals_to_add o) (owner_approvals_to_remove o);
  not_both (key_approvals_to_add o) (key_approvals_to_remove o).
Fixpoint operation_validate (op : operation) : result unit :=
  match op with
  | op_transfer o => validate o
  | op_limit_order_create o => validate o
  | op_limit_order_cancel o => validate o
  | op_call_order_update o => validate o
  | op_asset_create o => validate o
  | op_asset_update o => validate o
  | op_asset_update_bitasset o => validate o
  | op_asset_update_feed_producers o => validate o
  | op_asset_issue o => validate o
  | op_asset_reserve o => validate o
  | op_asset_fund_fee_pool o => validate o
  | op_asset_settle o => validate o
  | op_asset_global_settle o => validate o
  | op_asset_publish_feed o => validate o
  | op_withdraw_permission_create o => validate o
  | op_withdraw_permission_update o => validate o
  | op_withdraw_permission_claim o => validate o
  | op_withdraw_permission_delete o => validate o
  | op_vesting_balance_create o => validate o
  | op_vesting_balance_withdraw o => validate o
  | op_override_transfer o => validate o
  | op_asset_claim_fees o => validate o
  | op_bid_collateral o => validate o
  | op_credit_request o => validate o
  | op_credit_approve o => validate o
  | op_credit_request_cancel o => validate o
  | op_comment_credit_request o => validate o
  | op_settle_credit o => validate o
  | op_exchange_rate_set o => validate o
  | op_account_create o => validate o
  | op_account_update o => validate o
  | op_account_whitelist o => validate o
  | op_account_upgrade o => validate o
  | op_witness_create o => validate o
  | op_witness_update o => validate o
  | op_committee_member_create o => validate o
  | op_committee_member_update o => validate o
  | op_committee_member_update_global_parameters o => validate o
  | op_worker_create o => validate o
  | op_custom o => validate o
  | op_balance_claim o => balance_claim_validate o
  | op_proposal_create o =>
      _ ← fc_assert (negb (length (proposed_ops o) =? 0)%nat) "!proposed_ops.empty()";
      validate_each operation_validate (proposed_ops o)
  | op_proposal_update o => proposal_update_validate o
  | op_proposal_delete o => fee_ok (px_fee o)
  end.
Fixpoint validate_operations (l : list operation) : result unit :=
  match l with
  | [] => Ok tt
  | op :: l' => _ ← operation_validate op; validate_operations l'
  end.
Lemma validate_each_operations l : validate_each operation_validate l = validate_operations l.
Proof. induction l as [|op l IH]; cbn; [done|]. by rewrite IH. Qed.
Definition operation_fee_payer (op : operation) : Z :=
  match op with
  | op_transfer o => fee_payer o
  | op_limit_order_create o => fee_payer o
  | op_limit_order_cancel o => fee_payer o
  | op_call_order_update o => fee_payer o
  | op_asset_create o => fee_payer o
  | op_asset_update o => fee_payer o
  | op_asset_update_bitasset o => fee_payer o
  | op_asset_update_feed_producers o => fee_payer o
  | op_asset_issue o => fee_payer o
  | op_asset_reserve o => fee_payer o
  | op_asset_fund_fee_pool o => fee_payer o
  | op_asset_settle o => fee_payer o
  | op_asset_global_settle o => fee_payer o
  | op_asset_publish_feed o => fee_payer o
  | op_withdraw_permission_create o => fee_payer o
  | op_withdraw_permission_update o => fee_payer o
  | op_withdraw_permission_claim o => fee_payer o
  | op_withdraw_permission_delete o => fee_payer o
  | op_vesting_balance_create o => fee_payer o
  | op_vesting_balance_withdraw o => fee_payer o
  | op_override_transfer o => fee_payer o
  | op_asset_claim_fees o => fee_payer o
  | op_bid_collateral o => fee_payer o
  | op_credit_request o => fee_payer o
  | op_credit_approve o => fee_payer o
  | op_credit_request_cancel o => fee_payer o
  | op_comment_credit_request o => fee_payer o
  | op_settle_credit o => fee_payer o
  | op_exchange_rate_set o => fee_payer o
  | op_account_create o => fee_payer o
  | op_account_update o => fee_payer o
  | op_account_whitelist o => fee_payer o
  | op_account_upgrade o => fee_payer o
  | op_witness_create o => fee_payer o
  | op_witness_update o => fee_payer o
  | op_committee_member_create o => fee_payer o
  | op_committee_member_update o => fee_payer o
  | op_committee_member_update_global_parameters o => fee_payer o
  | op_worker_create o => fee_payer o
  | op_custom o => fee_payer o
  | op_balance_claim o => deposit_to_account o
  | op_proposal_create o => pr_fee_paying_account o
  | op_proposal_update o => pp_fee_paying_account o
  | op_proposal_delete o => px_fee_paying_account o
  end.


(** ** Authorities ([operation_get_required_authorities]) *)
Definition op_required_active (op : operation) : gset Z :=
  {[operation_fee_payer op]} ∪
  match op with
  | op_proposal_update o => active_approvals_to_add o ∪ active_approvals_to_remove o
  | op_account_create o => match na_buyback_options o with Some b => {[asset_to_buy_issuer b]} | None => ∅ end
  | _ => ∅
  end.
(** [account_update_operation::is_owner_update]. *)
Definition is_owner_update (o : account_update_operation) : bool :=
  is_some (nu_owner o) || is_some (nu_owner_special_authority o).
Definition op_required_owner (op : operation) : gset Z :=
  match op with
  | op_proposal_update o => owner_approvals_to_add o ∪ owner_approvals_to_remove o
  | op_account_update o => if is_owner_update o then {[nu_account o]} else ∅
  | _ => ∅
  end.
(** The keys whose approval is added or taken back, all of them. *)
Definition op_required_other (op : operation) : list authority :=
  match op with
  | op_proposal_update o =>
      let l := elements (key_approvals_to_add o ∪ key_approvals_to_remove o) in
      [mk_authority (Z.of_nat (length l)) [] ((fun k => (k, 1)) <$> l) []]
  | op_balance_claim o => [mk_authority 1 [] [(balance_owner_key o, 1)] []]
  | _ => []
  end.
Definition required_active (l : list operation) : gset Z := ⋃ (op_required_active <$> l).
Definition required_owner (l : list operation) : gset Z := ⋃ (op_required_owner <$> l).
Definition required_other (l : list operation) : list authority := l ≫= op_required_other.
End Rules.
End OperationRules.
