(* ===== verification/Proposal.v ===== *)
(** * Proposals ([proposal_evaluator.cpp], [proposal_object.cpp],
    [db_block.cpp], [db_update.cpp])

    A proposal holds operations until the authorities they require have
    approved them; then, or when it expires, they are executed in a session of
    their own.  Executing operations is a parameter here, since executing an
    update can execute a proposal in turn; [Operations] ties the knot. *)
From Stdlib Require Import ZArith Lia String.
From stdpp Require Import base gmap sets list strings.
From S2P Require Import Prelude External Asset Vesting Authority Float Chain Balance Accounting Market Evaluator MarketEvaluator AssetObject Transfers AssetOps AssetEvaluator BitassetEvaluator ExchangeRate Credit CreditEvaluator OperationRules.

Module Proposal.
Import Asset Vesting Authority Float Chain Balance Accounting Market Evaluator MarketEvaluator AssetObject Transfers AssetOps AssetEvaluator BitassetEvaluator ExchangeRate Credit CreditEvaluator OperationRules.

#[export] Instance proposal_unique : UniqueKey proposal_object := fun _ _ => false.

(** The keys behind the signatures, and what an account's authorities are. *)
Definition authority_of (which : account_object -> authority) (s : database) (id : Z) : result (option authority) :=
  a ← of_option (accounts s !! id) "Unable to find Object"; Ok (Some (which a)).

(** [hf_429_visitor]. *)
Fixpoint hf_429_visitor (op : operation) : result unit :=
  match op with
  | op_bid_collateral _ => Throw "Not allowed until hardfork"
  | op_asset_create o => fc_assert (asset_id (ac_fee o) =? core_asset) "Can only pay fee in BTS since block #21040000"
  | op_proposal_create o => validate_each hf_429_visitor (proposed_ops o)
  | _ => Ok tt
  end.

Section Proposal.
Context `{SafeOps, U128Ops, RationalOps, IndexOps, NthOps, TimeOps, AddressOps, PackOps, CreditOps}.

(** ** [proposal_object] *)
Definition is_authorized_to_execute (p : proposal_object) (s : database) : bool :=
  is_ok (verify_required (authority_of active_authority s) (authority_of owner_authority s)
    (required_active (proposed_transaction p)) (required_owner (proposed_transaction p))
    (required_other (proposed_transaction p)) (available_key_approvals p)
    (Z.to_nat (max_authority_depth (parameters (gpo s)))) true
    (available_active_approvals p) (available_owner_approvals p)).

(** ** [proposal_create_evaluator] *)
Definition proposal_create_evaluate (g : generic_evaluator) (op : proposal_create_operation) : M database unit :=
  s ← get_state;
  let now := head_block_time s in
  let params := parameters (gpo s) in
  _ ← require (now <? pr_expiration_time op) "Proposal has already expired on creation.";
  _ ← require (pr_expiration_time op <=? time_add now (maximum_proposal_lifetime params))
        "Proposal expiration time is too far in the future.";
  _ ← require (match review_period_seconds op with Some r => r <? pr_expiration_time op - now | None => true end)
        "Proposal review period must be less than its overall lifetime.";
  let auths := required_active (proposed_ops op) ∪ required_owner (proposed_ops op) in
  _ ← require (length (required_other (proposed_ops op)) =? 0)%nat "other.size() == 0";
  _ ← when (bool_decide (GRAPHENE_COMMITTEE_ACCOUNT ∈ auths))
        (r ← lift (of_option (review_period_seconds op) "Review period not given");
         require (committee_proposal_review_period params <=? r) "Review period insufficient");
  _ ← require (0 <? Z.of_nat (length (proposed_ops op))) "A transaction must have at least one operation";
  _ ← lift (validate_operations (proposed_ops op));
  when (now <=? HARDFORK_CORE_429_TIME) (lift (hf_429_visitor (op_proposal_create op))).
Definition new_proposal (op : proposal_create_operation) : proposal_object :=
  let owner := required_owner (proposed_ops op) in
  mk_proposal (pr_expiration_time op)
    (match review_period_seconds op with Some r => Some (wrap 32 (pr_expiration_time op - r)) | None => None end)
    (proposed_ops op) (required_active (proposed_ops op) ∖ owner) ∅ owner ∅ ∅.
Definition proposal_create_apply (g : generic_evaluator) (_ : unit) (_ : Z) (op : proposal_create_operation) : M database Z :=
  create (new_proposal op).
#[export] Instance proposal_create_evaluator : Evaluator proposal_create_operation unit Z := {
  fee_payer := pr_fee_paying_account;
  op_fee := pr_fee;
  validate op := operation_validate (op_proposal_create op);
  do_evaluate := proposal_create_evaluate;
  pay_fee := default_pay_fee;
  do_apply := proposal_create_apply;
}.

(** ** [proposal_update_evaluator] *)
Definition all_in (ids available : gset Z) : bool := bool_decide (ids ⊆ available).
Definition proposal_update_evaluate (g : generic_evaluator) (op : proposal_update_operation) : M database unit :=
  p ← get proposal_object (pp_proposal op);
  now ← gets head_block_time;
  _ ← when (match review_period_time p with Some r => r <=? now | None => false end)
        (require (bool_decide (active_approvals_to_add op = ∅) && bool_decide (owner_approvals_to_add op = ∅))
           "This proposal is in its review period. No new approvals may be added.");
  _ ← require (all_in (active_approvals_to_remove op) (available_active_approvals p)) "active_approvals_to_remove";
  require (all_in (owner_approvals_to_remove op) (available_owner_approvals p)) "owner_approvals_to_remove".
Definition update_approvals (op : proposal_update_operation) (p : proposal_object) : proposal_object :=
  mk_proposal (expiration_time p) (review_period_time p) (proposed_transaction p) (required_active_approvals p)
    ((available_active_approvals p ∪ active_approvals_to_add op) ∖ active_approvals_to_remove op)
    (required_owner_approvals p)
    ((available_owner_approvals p ∪ owner_approvals_to_add op) ∖ owner_approvals_to_remove op)
    ((available_key_approvals p ∪ key_approvals_to_add op) ∖ key_approvals_to_remove op).
(** [execute] is [push_proposal]; a failure leaves the approvals. *)
Definition proposal_update_apply (execute : Z -> M database unit) (g : generic_evaluator) (_ : unit) (_ : Z)
    (op : proposal_update_operation) : M database unit :=
  let id := pp_proposal op in
  _ ← modify id (fun p => Ok (update_approvals op p));
  p ← deref proposal_object id;
  s ← get_state;
  match review_period_time p with
  | Some _ => mret tt
  | None => when (is_authorized_to_execute p s) (try_catch (execute id) (mret tt))
  end.
Definition proposal_update_evaluator (execute : Z -> M database unit) : Evaluator proposal_update_operation unit unit := {|
  fee_payer := pp_fee_paying_account;
  op_fee := pp_fee;
  validate := proposal_update_validate;
  do_evaluate := proposal_update_evaluate;
  pay_fee := default_pay_fee;
  do_apply := proposal_update_apply execute;
|}.

(** ** [proposal_delete_evaluator] *)
Definition proposal_delete_evaluate (g : generic_evaluator) (op : proposal_delete_operation) : M database unit :=
  p ← get proposal_object (px_proposal op);
  require (bool_decide (px_fee_paying_account op ∈
             (if using_owner_authority op then required_owner_approvals p else required_active_approvals p)))
    "Provided authority is not authoritative for this proposal.".
Definition proposal_delete_apply (g : generic_evaluator) (_ : unit) (_ : Z) (op : proposal_delete_operation) : M database unit :=
  remove proposal_object (px_proposal op).
#[export] Instance proposal_delete_evaluator : Evaluator proposal_delete_operation unit unit := {
  fee_payer := px_fee_paying_account;
  op_fee := px_fee;
  validate op := fee_ok (px_fee op);
  do_evaluate := proposal_delete_evaluate;
  pay_fee := default_pay_fee;
  do_apply := proposal_delete_apply;
}.

(** ** [push_proposal] *)
(** The operations are read from the proposal while they are executed, so it has
    to be there after each of them. *)
Definition execute_operations {A} (apply : operation -> M database A) (id : Z) (l : list operation) : M database unit :=
  for_each l (fun op => _ ← apply op; _ ← deref proposal_object id; mret tt).
Definition execute_proposal {A} (apply : operation -> M database A) (id : Z) : M database unit :=
  p ← deref proposal_object id;
  _ ← execute_operations apply id (proposed_transaction p);
  remove proposal_object id.
End Proposal.
End Proposal.
