(* ===== verification/Operations.v ===== *)
(** * Executing operations and transactions ([evaluator.hpp],
    [transaction.cpp], [db_block.cpp])

    Every operation runs through the evaluator registered for it; an update of a
    proposal can execute the proposal.  The hash of a transaction and the
    recovery of a key from a signature are parameters. *)
From Stdlib Require Import ZArith Lia String.
From stdpp Require Import base gmap sets list strings.
From S2P Require Import Prelude External Asset Vesting Authority Float Chain Balance Accounting Market Evaluator MarketEvaluator AssetObject Transfers AssetOps AssetEvaluator BitassetEvaluator ExchangeRate AccountOps AccountEvaluator MemberEvaluator Credit CreditEvaluator OperationRules Proposal.

Module Operations.
Import Asset Vesting Authority Float Chain Balance Accounting Market Evaluator MarketEvaluator AssetObject Transfers AssetOps AssetEvaluator BitassetEvaluator ExchangeRate AccountOps AccountEvaluator MemberEvaluator Credit CreditEvaluator.
Export OperationRules Proposal.

Inductive operation_result : Type :=
| void_result
| object_id_result (id : Z)
| asset_result (a : asset).

(** ** Transactions *)
(** [transaction::id()] and [fc::ecc::public_key( sig, sig_digest )]. *)
Class SignatureOps : Type := {
  transaction_id : signed_transaction -> Z;
  signature_key : signed_transaction -> Z -> result Z;
}.

(** [database::validation_steps]. *)
Definition skip_nothing : Z := 0.
Definition skip_witness_signature : Z := 2 ^ 0.
Definition skip_transaction_signatures : Z := 2 ^ 1.
Definition skip_transaction_dupe_check : Z := 2 ^ 2.
Definition skip_fork_db : Z := 2 ^ 3.
Definition skip_tapos_check : Z := 2 ^ 5.
Definition skip_authority_check : Z := 2 ^ 6.
Definition skip_merkle_check : Z := 2 ^ 7.
Definition skip_undo_history_check : Z := 2 ^ 9.
Definition skip_witness_schedule_check : Z := 2 ^ 10.

#[export] Instance transaction_unique : UniqueKey transaction_object := fun a b => trx_id a =? trx_id b.

Section Apply.
Context `{SafeOps, U128Ops, RationalOps, IndexOps, NthOps, TimeOps, AddressOps, PackOps, CreditOps, SignatureOps}.

(** [start_evaluate] of the evaluator registered for the operation. *)
Definition as_void {A} (m : M database A) : M database operation_result := _ ← m; mret void_result.
Definition as_object (m : M database Z) : M database operation_result := id ← m; mret (object_id_result id).
Definition as_asset (m : M database asset) : M database operation_result := a ← m; mret (asset_result a).
Definition as_settled (m : M database (asset + Z)) : M database operation_result :=
  r ← m; mret match r with inl a => asset_result a | inr id => object_id_result id end.
Definition evaluate_operation_with (execute : Z -> M database unit) (trx : transaction_evaluation_state) (op : operation)
  : M database operation_result :=
  s ← get_state;
  let fee := calculate_fee_for_operation op s in
  match op with
  | op_transfer o => as_void (start_evaluate trx fee o)
  | op_limit_order_create o => as_object (start_evaluate trx fee o)
  | op_limit_order_cancel o => as_asset (start_evaluate trx fee o)
  | op_call_order_update o => as_void (start_evaluate trx fee o)
  | op_asset_create o => as_object (start_evaluate trx fee o)
  | op_asset_update o => as_void (start_evaluate trx fee o)
  | op_asset_update_bitasset o => as_void (start_evaluate trx fee o)
  | op_asset_update_feed_producers o => as_void (start_evaluate trx fee o)
  | op_asset_issue o => as_void (start_evaluate trx fee o)
  | op_asset_reserve o => as_void (start_evaluate trx fee o)
  | op_asset_fund_fee_pool o => as_void (start_evaluate trx fee o)
  | op_asset_settle o => as_settled (start_evaluate trx fee o)
  | op_asset_global_settle o => as_void (start_evaluate trx fee o)
  | op_asset_publish_feed o => as_void (start_evaluate trx fee o)
  | op_withdraw_permission_create o => as_object (start_evaluate trx fee o)
  | op_withdraw_permission_update o => as_void (start_evaluate trx fee o)
  | op_withdraw_permission_claim o => as_void (start_evaluate trx fee o)
  | op_withdraw_permission_delete o => as_void (start_evaluate trx fee o)
  | op_vesting_balance_create o => as_object (start_evaluate trx fee o)
  | op_vesting_balance_withdraw o => as_void (start_evaluate trx fee o)
  | op_override_transfer o => as_void (start_evaluate trx fee o)
  | op_asset_claim_fees o => as_void (start_evaluate trx fee o)
  | op_bid_collateral o => as_void (start_evaluate trx fee o)
  | op_credit_request o => as_object (start_evaluate trx fee o)
  | op_credit_approve o => as_object (start_evaluate trx fee o)
  | op_credit_request_cancel o => as_object (start_evaluate trx fee o)
  | op_comment_credit_request o => as_object (start_evaluate trx fee o)
  | op_settle_credit o => as_object (start_evaluate trx fee o)
  | op_exchange_rate_set o => as_void (start_evaluate trx fee o)
  | op_account_create o => as_object (start_evaluate trx fee o)
  | op_account_update o => as_void (start_evaluate trx fee o)
  | op_account_whitelist o => as_void (start_evaluate trx fee o)
  | op_account_upgrade o => as_void (start_evaluate trx fee o)
  | op_witness_create o => as_object (start_evaluate trx fee o)
  | op_witness_update o => as_void (start_evaluate trx fee o)
  | op_committee_member_create o => as_object (start_evaluate trx fee o)
  | op_committee_member_update o => as_void (start_evaluate trx fee o)
  | op_committee_member_update_global_parameters o => as_void (start_evaluate trx fee o)
  | op_worker_create o => as_object (start_evaluate trx fee o)
  | op_custom o => as_void (start_evaluate trx fee o)
  | op_balance_claim o => as_void (start_evaluate trx fee o)
  | op_proposal_create o => as_object (start_evaluate trx fee o)
  | op_proposal_update o => as_void (start_evaluate (H1 := proposal_update_evaluator execute) trx fee o)
  | op_proposal_delete o => as_void (start_evaluate trx fee o)
  end.
(** The history keeps the tag of the operation; its result is returned. *)
Definition apply_operation_with (execute : Z -> M database unit) (trx : transaction_evaluation_state) (op : operation)
  : M database operation_result :=
  _ ← push_applied_operation (applied_operation (which op));
  evaluate_operation_with execute trx op.
(** No proposal contains an update of a proposal, so one level is enough. *)
Definition fresh_trx_state : transaction_evaluation_state := mk_trx_state false false false.
Definition proposal_trx_state : transaction_evaluation_state := mk_trx_state true false false.
Fixpoint push_proposal_with (depth : nat) (id : Z) : M database unit :=
  match depth with
  | O => throw out_of_fuel
  | S depth' => execute_proposal (apply_operation_with (push_proposal_with depth') proposal_trx_state) id
  end.
Definition push_proposal : Z -> M database unit := push_proposal_with 1.
Definition evaluate_operation : transaction_evaluation_state -> operation -> M database operation_result :=
  evaluate_operation_with push_proposal.
Definition apply_operation : transaction_evaluation_state -> operation -> M database operation_result :=
  apply_operation_with push_proposal.
Fixpoint apply_operations (trx : transaction_evaluation_state) (l : list operation)
  : M database (list operation_result) :=
  match l with
  | [] => mret []
  | op :: l' => r ← apply_operation trx op; rs ← apply_operations trx l'; mret (r :: rs)
  end.

(** ** Transactions *)
Definition transaction_validate (trx : signed_transaction) : result unit :=
  _ ← fc_assert (0 <? Z.of_nat (length (operations trx))) "A transaction must have at least one operation";
  validate_operations (operations trx).
(** [get_signature_keys]. *)
Fixpoint signature_keys (trx : signed_transaction) (l : list Z) (keys : gset Z) : result (gset Z) :=
  match l with
  | [] => Ok keys
  | sig :: l' =>
      k ← signature_key trx sig;
      _ ← fc_assert (negb (bool_decide (k ∈ keys))) "Duplicate Signature detected";
      signature_keys trx l' ({[k]} ∪ keys)
  end.
Definition verify_authority (trx : signed_transaction) (s : database) : result unit :=
  keys ← signature_keys trx (signatures trx) ∅;
  verify_required (authority_of active_authority s) (authority_of owner_authority s)
    (required_active (operations trx)) (required_owner (operations trx)) (required_other (operations trx)) keys (Z.to_nat (max_authority_depth (parameters (gpo s))))
    false ∅ ∅.
Definition known_transaction (id : Z) (s : database) : bool :=
  existsb (fun kx => trx_id kx.2 =? id) (map_to_list (transactions s)).
Definition check_tapos (trx : signed_transaction) : M database unit :=
  id ← get block_id_type (ref_block_num trx);
  require (ref_block_prefix trx =? hash_1 id) "trx.ref_block_prefix == tapos_block_summary.block_id._hash[1]".
Definition check_expiration (trx : signed_transaction) : M database unit :=
  s ← get_state;
  let now := head_block_time s in
  _ ← require (expires trx <=? time_add now (maximum_time_until_expiration (parameters (gpo s)))) "trx.expiration <= now + maximum";
  require (now <=? expires trx) "now <= trx.expiration".
(** The temporary account must be left empty. *)
Definition temp_account_empty (s : database) : bool :=
  forallb (fun kx => negb (kx.1.1 =? GRAPHENE_TEMP_ACCOUNT) || (kx.2 =? 0)) (map_to_list (account_balances s)).
Definition _apply_transaction (skip : Z) (trx : signed_transaction) : M database (list operation_result) :=
  _ ← lift (transaction_validate trx);
  known ← gets (known_transaction (transaction_id trx));
  _ ← require (has_flag skip skip_transaction_dupe_check || negb known) "duplicate transaction";
  s ← get_state;
  _ ← (if has_flag skip (Z.lor skip_transaction_signatures skip_authority_check) then mret tt
       else lift (verify_authority trx s));
  _ ← when (0 <? head_block_number (dgp s))
        (_ ← when (negb (has_flag skip skip_tapos_check)) (check_tapos trx);
         check_expiration trx);
  _ ← when (negb (has_flag skip skip_transaction_dupe_check))
        (_ ← create (mk_transaction_object (transaction_id trx) (expires trx)); mret tt);
  rs ← apply_operations fresh_trx_state (operations trx);
  empty ← gets temp_account_empty;
  _ ← require empty "b.balance == 0";
  mret rs.
End Apply.
End Operations.
