(* ===== verification/ProposalLaws.v ===== *)
(** * Operations and proposals: laws

    What executing an operation, a proposal's operations included, does to the
    books; and that proposals nest one level only.  The stored proposals satisfy
    an invariant of their own, [proposals_ok]. *)
From Stdlib Require Import ZArith Lia String.
From stdpp Require Import base gmap sets list strings.
From S2P Require Import Prelude External Asset Vesting Authority Float Chain Balance Accounting Market MarketSupply Evaluator MarketEvaluator MarketLaws AssetObject Transfers TransferLaws AssetOps AssetEvaluator BitassetEvaluator AssetLaws AssetTheorems ExchangeRate Credit CreditEvaluator CreditLaws ExchangeRateLaws AccountOps AccountEvaluator MemberEvaluator FeeLaws AccountLaws Operations.

Module ProposalLaws.
Import Asset Vesting Authority Float Chain Balance Accounting Market MarketSupply Evaluator MarketEvaluator MarketLaws AssetObject Transfers TransferLaws AssetOps AssetEvaluator BitassetEvaluator AssetLaws AssetTheorems ExchangeRate Credit CreditEvaluator CreditLaws ExchangeRateLaws AccountOps AccountEvaluator MemberEvaluator FeeLaws AccountLaws Operations.

(** ** Operations in the range of their types *)
(** The fields of an operation are in the range of their types; the amounts of
    the price of a global settlement, which nothing validates, are positive; a
    credit is requested without a deposit. *)
Definition fields_typed (op : operation) : Prop :=
  match op with
  | op_transfer o => int64_amount (tr_fee o)
  | op_limit_order_create o => limit_create_typed o
  | op_limit_order_cancel o => limit_cancel_typed o
  | op_call_order_update o => call_update_typed o
  | op_asset_create o => int64_amount (ac_fee o) /\ options_typed (common_options o)
  | op_asset_update o => int64_amount (au_fee o) /\ options_typed (new_options o)
  | op_asset_update_bitasset o => int64_amount (ub_fee o)
  | op_asset_update_feed_producers o => int64_amount (uf_fee o)
  | op_asset_issue o => int64_amount (ai_fee o)
  | op_asset_reserve o => int64_amount (ar_fee o)
  | op_asset_fund_fee_pool o => int64_amount (fp_fee o)
  | op_asset_settle o => int64_amount (as_fee o) /\ int64_amount (as_amount o)
  | op_asset_global_settle o => int64_amount (gs_fee o) /\ settle_price_typed (settle_price o)
  | op_asset_publish_feed o => int64_amount (pf_fee o) /\ feed_typed (feed o)
  | op_withdraw_permission_create o => int64_amount (pc_fee o)
  | op_withdraw_permission_update o => int64_amount (pu_fee o)
  | op_withdraw_permission_claim o => int64_amount (cl_fee o)
  | op_withdraw_permission_delete o => int64_amount (pd_fee o)
  | op_vesting_balance_create o => int64_amount (vc_fee o)
  | op_vesting_balance_withdraw o => int64_amount (vw_fee o)
  | op_override_transfer o => int64_amount (ov_fee o)
  | op_asset_claim_fees o => int64_amount (cf_fee o)
  | op_bid_collateral o => bid_typed o
  | op_credit_request o => request_typed o
  | op_credit_approve o => int64_amount (ca_fee o)
  | op_credit_request_cancel o => int64_amount (cc_fee o)
  | op_comment_credit_request o => int64_amount (cm_fee o)
  | op_settle_credit o => int64_amount (sc_fee o)
  | op_exchange_rate_set o => int64_amount (er_fee o)
  | op_account_create o => int64_amount (na_fee o)
  | op_account_update o => int64_amount (nu_fee o)
  | op_account_whitelist o => int64_amount (nw_fee o)
  | op_account_upgrade o => int64_amount (ng_fee o)
  | op_witness_create o => int64_amount (wc_fee o)
  | op_witness_update o => int64_amount (wu_fee o)
  | op_committee_member_create o => int64_amount (mc_fee o)
  | op_committee_member_update o => int64_amount (mu_fee o)
  | op_committee_member_update_global_parameters o => int64_amount (gp_fee o)
  | op_worker_create o => int64_amount (wk_fee o)
  | op_custom o => int64_amount (ct_fee o)
  | op_balance_claim o => int64_amount (gb_fee o)
  | op_proposal_create o => int64_amount (pr_fee o)
  | op_proposal_update o => int64_amount (pp_fee o)
  | op_proposal_delete o => int64_amount (px_fee o)
  end.
(** Operations that are typed, down to the operations they propose, and neither are
    nor propose an update of a bitasset (which can change the asset that backs the
    open positions); being typed, they neither are nor propose a request for a
    credit with a deposit. *)
Definition each_of (P : operation -> Prop) : list operation -> Prop :=
  fix each l := match l with [] => True | op :: l' => P op /\ each l' end.
Fixpoint plain_operation (op : operation) : Prop :=
  fields_typed op /\ match op with
  | op_asset_update_bitasset _ => False
  | op_proposal_create o => each_of plain_operation (proposed_ops o)
  | _ => True
  end.
Lemma each_of_Forall P l : each_of P l <-> Forall P l.
Proof. induction l as [|op l IH]; cbn; [done|]. by rewrite Forall_cons, IH. Qed.
Definition typed (op : operation) : Prop :=
  fields_typed op /\ match op with op_proposal_create o => Forall plain_operation (proposed_ops o) | _ => True end.
Lemma plain_typed op : plain_operation op -> typed op.
Proof. destruct op; cbn; intros [Ht Hp]; split; try done. by apply each_of_Forall. Qed.
(** An update of a bitasset keeps its backing asset. *)
Definition backing_kept (op : operation) (s : database) : Prop :=
  match op with op_asset_update_bitasset o => keeps_backing o s | _ => True end.
Lemma plain_backing_kept op s : plain_operation op -> backing_kept op s.
Proof. by destruct op; cbn; intros []. Qed.

(** ** The stored proposals *)
Definition is_update (op : operation) : Prop := match op with op_proposal_update _ => True | _ => False end.

Section Laws.
Context `{SafeLaws, U128Laws, RationalLaws, IndexLaws, NthLaws, TimeLaws, AddressOps, PackOps, CreditOpsLaws, SignatureOps}.

Definition proposal_ok (p : proposal_object) : Prop :=
  Forall plain_operation (proposed_transaction p) /\ validate_operations (proposed_transaction p) = Ok tt
  /\ Forall (fun op => op_required_other op = []) (proposed_transaction p).
Definition proposals_ok (s : database) : Prop := map_Forall (fun _ => proposal_ok) (proposals s).
(** Both invariants of the state. *)
Definition books_ok (s : database) : Prop := chain_wf s /\ proposals_ok s.
(** Every proposal was there before, expiring when it does, or expires later. *)
Definition no_older (s s' : database) : Prop :=
  forall id p', proposals s' !! id = Some p' ->
    (exists p, proposals s !! id = Some p /\ expiration_time p' = expiration_time p) \/ head_block_time s < expiration_time p'.

(** What executing operations does, proposals included. *)
Record runs (f : Z -> Z) (s s' : database) : Prop := {
  run_wf : chain_wf s -> chain_wf s';
  run_surplus : forall a, surplus a s' = surplus a s + f a;
  run_transactions : transactions s' = transactions s;
  run_head : head_of s' = head_of s;
  run_proposals : proposals_ok s -> proposals_ok s';
  run_no_older : no_older s s';
}.
Lemma conserves_runs f s s' : conserves f s s' -> runs f s s'.
Proof.
  intros [W S (T & Hd & P)]. split; try done; unfold proposals_ok, no_older; rewrite P; [done|]. intros id p' Hp. left. by exists p'.
Qed.
Lemma run_time f s s' : runs f s s' -> head_block_time s' = head_block_time s.
Proof. intros [_ _ _ [= _ _ ?] _ _]. done. Qed.
#[export] Instance runs_tracks : Tracks runs.
Proof.
  split; [intros; by apply conserves_runs, step_conserves| |].
  - intros f g s1 s2 s3 R1 R2. pose proof (run_time _ _ _ R1) as Ht. destruct R1 as [W1 S1 T1 K1 P1 N1], R2 as [W2 S2 T2 K2 P2 N2].
    split; [auto| |congruence|congruence|auto|]. { intros x. rewrite S2, S1. lia. }
    intros id p' Hp. destruct (N2 id p' Hp) as [(p & Hp2 & E)|Hl]; [|right; by rewrite <- Ht].
    destruct (N1 id p Hp2) as [(p0 & Hp0 & E0)|Hl]; [left; exists p0; split; [done|congruence]|right; by rewrite E].
  - intros f g s s' E [W S T Hd P N]. split; try done. intros x. by rewrite S, E.
Qed.
Definition keeps_books : database -> database -> Prop := runs (fun _ => 0).
#[export] Instance keeps_books_preorder : PreOrder keeps_books.
Proof.
  split; [intros s; apply conserves_runs, step_conserves, step_refl|]. intros s1 s2 s3 R1 R2.
  eapply (track_ext (R := runs)); [|eapply (track_trans (R := runs)); [exact R1|exact R2]]. done.
Qed.
Lemma keeps_books_ok s s' : keeps_books s s' -> books_ok s -> books_ok s'.
Proof. intros [W _ _ _ P _] []. split; auto. Qed.

(** Writing proposals. *)
Lemma surplus_proposals x m s : surplus x (set_proposals m s) = surplus x s.
Proof. done. Qed.
Lemma set_proposals_runs m s :
  (proposals_ok s -> map_Forall (fun _ => proposal_ok) m) -> no_older s (set_proposals m s) -> keeps_books s (set_proposals m s).
Proof. intros Hm Hn. split; try done; [by intros []|]. intros x. rewrite surplus_proposals. lia. Qed.
Lemma remove_proposal_runs id s u s' : remove proposal_object id s = Ok (u, s') -> keeps_books s s'.
Proof.
  intros (p & Hp & ->)%remove_Ok. apply (set_proposals_runs (delete id (proposals s))).
  - intros Hm j q [_ Hq]%lookup_delete_Some. exact (Hm _ _ Hq).
  - intros j q Hq. cbn in Hq. apply lookup_delete_Some in Hq as [_ Hq]. left. by exists q.
Qed.
Lemma modify_proposal_runs id f s u s' :
  (forall p p', f p = Ok p' -> proposed_transaction p' = proposed_transaction p /\ expiration_time p' = expiration_time p) ->
  @modify proposal_object _ id f s = Ok (u, s') -> keeps_books s s'.
Proof.
  intros Hf (p & p' & Hp & Fp & ->)%modify_Ok. destruct (Hf _ _ Fp) as [Ht He].
  apply (set_proposals_runs (<[id := p']> (proposals s))).
  - intros Hm. apply map_Forall_insert_2; [|done]. unfold proposal_ok. rewrite Ht. exact (Hm _ _ Hp).
  - intros j q. cbn. destruct (decide (id = j)) as [<-|Hne].
    + rewrite lookup_insert_eq. intros [= <-]. left. by exists p.
    + rewrite lookup_insert_ne by done. intros Hq. left. by exists q.
Qed.
Lemma create_proposal_runs p s id s' :
  proposal_ok p -> head_block_time s < expiration_time p -> create p s = Ok (id, s') -> keeps_books s s'.
Proof.
  intros Hok Ht [Hl ->]%create_Ok. etrans; [apply (set_proposals_runs (<[id := p]> (proposals s)))|].
  - intros Hm. by apply map_Forall_insert_2.
  - intros j q. cbn. destruct (decide (id = j)) as [<-|Hne].
    + rewrite lookup_insert_eq. intros [= <-]. by right.
    + rewrite lookup_insert_ne by done. intros Hq. left. by exists q.
  - split; try done; [intros; by apply wf_next|intros x; rewrite surplus_next; symmetry; apply Z.add_0_r|]. intros j q Hq. left. by exists q.
Qed.

(** ** The operations on proposals *)
(** A proposal requires no keys of its own; so it holds no update, which requires
    those it approves with. *)
Lemma no_keys l : required_other l = [] <-> Forall (fun op => op_required_other op = []) l.
Proof.
  unfold required_other. induction l as [|op l IH]; cbn; [by split|]. rewrite Forall_cons, <- IH. split.
  - by intros [? ?]%app_eq_nil.
  - by intros [-> ->].
Qed.
Lemma needs_no_key op : op_required_other op = [] -> ~ is_update op.
Proof. destruct op; cbn; intros ? Hu; by try destruct Hu. Qed.
Lemma proposal_create_evaluate_Ok g op s u s' :
  proposal_create_evaluate g op s = Ok (u, s') ->
  s' = s /\ head_block_time s < pr_expiration_time op
  /\ Forall (fun op => op_required_other op = []) (proposed_ops op) /\ validate_operations (proposed_ops op) = Ok tt.
Proof.
  unfold proposal_create_evaluate. intros E. pure_ok. destruct a6.
  match goal with Hr : (_ <? pr_expiration_time op) = true |- _ => apply Z.ltb_lt in Hr end.
  split_and!; [done|done| |done]. apply no_keys, length_zero_iff_nil. by apply Nat.eqb_eq.
Qed.
Lemma default_pay_runs trx g s d s' :
  skip_fee trx = false -> default_pay_fee trx g s = Ok (d, s') ->
  runs (fun a => if_asset a core_asset (core_fee_paid g)) s s'.
Proof. intros Hsk [_ S]%default_pay_fee_step; [|done]. by apply conserves_runs, step_conserves. Qed.
(** An evaluator that pays the default fee and whose [do_apply] keeps the books. *)
Lemma default_runs {Op E R} `{!Evaluator Op E R} trx fee (op : Op) s (r : R) s' :
  pay_fee (Op := Op) = default_pay_fee ->
  (forall g (e : E) s1, do_evaluate g op s = Ok (e, s1) -> s1 = s) ->
  (forall g (e : E) d s1 (r : R) s2,
     do_evaluate g op s = Ok (e, s) -> chain_wf s1 -> (proposals_ok s -> proposals_ok s1) -> head_block_time s1 = head_block_time s ->
     do_apply g e d op s1 = Ok (r, s2) -> keeps_books s1 s2) ->
  skip_fee trx = false -> chain_wf s -> int64_amount (op_fee op) ->
  start_evaluate trx fee op s = Ok (r, s') -> keeps_books s s'.
Proof.
  intros Hpay Hpure Happ Hsk Hw Hfee. apply (start_evaluate_run runs); [done| |done|done|by apply int64_amount_lt].
  intros g e m d s1 r' s2 t Ht _ He Hp Ha. rewrite Hpay in Hp. apply default_pay_runs in Hp as R1; [|done].
  apply (track_ext (R := runs) (fun x => if_asset x core_asset (core_fee_paid g) + 0)); [intros; lia|].
  eapply (track_trans (R := runs)); [exact R1|]. eapply Happ; [exact He|by apply (run_wf _ _ _ R1)|apply (run_proposals _ _ _ R1)| |exact Ha].
  exact (run_time _ _ _ R1).
Qed.
Lemma proposal_create_runs trx fee (op : proposal_create_operation) s r s' :
  skip_fee trx = false -> chain_wf s -> typed (op_proposal_create op) ->
  start_evaluate trx fee op s = Ok (r, s') -> keeps_books s s'.
Proof.
  intros Hsk Hw [Hfee Hp]. apply default_runs; [done| | |done|done|exact Hfee].
  - intros g e s1 E. by apply proposal_create_evaluate_Ok in E as [-> _].
  - intros g e d s1 r' s2 He _ _ Ht E. apply (proposal_create_evaluate_Ok g) in He as (_ & Hexp & Hu & Hv).
    refine (create_proposal_runs (new_proposal op) s1 r' s2 _ _ E); [by split_and!|]. by rewrite Ht.
Qed.
Lemma proposal_delete_runs trx fee (op : proposal_delete_operation) s r s' :
  skip_fee trx = false -> chain_wf s -> int64_amount (px_fee op) ->
  start_evaluate trx fee op s = Ok (r, s') -> keeps_books s s'.
Proof.
  intros Hsk Hw Hfee. apply default_runs; [done| | |done|done|exact Hfee].
  - cbn. unfold proposal_delete_evaluate. intros g e s1 E. by pure_ok.
  - intros g e d s1 r' s2 _ _ _ _ E. eapply remove_proposal_runs, E.
Qed.
(** Executing [id] keeps the books. *)
Definition execution_ok (execute : Z -> M database unit) : Prop :=
  forall id s u s', books_ok s -> execute id s = Ok (u, s') -> keeps_books s s'.
Lemma proposal_update_runs execute trx fee (op : proposal_update_operation) s r s' :
  execution_ok execute -> skip_fee trx = false -> books_ok s -> int64_amount (pp_fee op) ->
  start_evaluate (H1 := proposal_update_evaluator execute) trx fee op s = Ok (r, s') -> keeps_books s s'.
Proof.
  intros Hx Hsk [Hw Hok] Hfee. apply (default_runs (Evaluator0 := proposal_update_evaluator execute)); [done| | |done|done|exact Hfee].
  - cbn. unfold proposal_update_evaluate. intros g e s1 E. by pure_ok.
  - cbn. unfold proposal_update_apply. intros g e d s1 r' s2 _ Hw1 Hok1 _ E. do 4 run_ok1.
    apply modify_proposal_runs in Hrun as R1; [|by intros p p' [= <-]]. apply deref_Ok in Hrun0 as [_ ->].
    etrans; [exact R1|]. destruct (review_period_time _); [run_ok1; done|].
    apply when_Ok in E as [[_ E]|[_ ->]]; [|done]. unfold try_catch in E. destruct (execute (pp_proposal op) _) as [[v t]|[e' t]] eqn:Ex.
    + injection E as _ <-. eapply Hx; [|exact Ex]. apply (keeps_books_ok _ _ R1). split; auto.
    + destruct (fatal e'); [done|]. by run_ok1.
Qed.

(** ** The template, for an evaluator whose laws hold in the state at hand *)
Lemma update_bitasset_conserves trx fee (op : asset_update_bitasset_operation) s r s' :
  skip_fee trx = false -> chain_wf s -> keeps_backing op s -> amount (op_fee op) < 2 ^ 63 ->
  start_evaluate trx fee op s = Ok (r, s') -> conserves (fun _ => 0) s s'.
Proof.
  intros Hsk Hw Hk Hfee. apply (start_evaluate_run conserves); [| |done..].
  - cbn. intros g bid s1 [-> _]%update_bitasset_evaluate_Ok. done.
  - cbn. intros g bid m d s1 r' s2 Hwt Hc (_ & o & b & Ho & Hi & Hb)%update_bitasset_evaluate_Ok Hp Ha.
    apply default_pay_fee_step in Hp as [[m' E1] S1]; [|done].
    pose proof (step_wf _ _ _ S1 Hwt) as Hw1. subst s1.
    apply (update_bitasset_apply_conserves g op bid d _ o b) in Ha; [|done|done|done|done|by eapply Hk].
    eapply conserves_ext; [|eapply conserves_trans; [apply (step_conserves _ _ _ S1)|exact Ha]]. intros y. cbv beta. lia.
Qed.

(** ** Every operation *)
Definition on_proposals (op : operation) : Prop :=
  match op with op_proposal_create _ | op_proposal_update _ | op_proposal_delete _ => True | _ => False end.
Ltac by_laws Ht :=
  match goal with E : start_evaluate _ _ ?o _ = Ok _ |- _ =>
    let Op := type of o in
    eapply (start_evaluate_conserves (Op := Op)); [typeclasses eauto|done|eassumption|eassumption|exact Ht| |exact E];
    cbn; apply int64_amount_lt; apply Ht
  end.
(** Those that are not on proposals leave the proposals alone. *)
Lemma evaluate_with_conserves execute trx op s r s' :
  ~ on_proposals op -> skip_fee trx = false -> chain_wf s ->
  operation_validate op = Ok tt -> fields_typed op -> backing_kept op s ->
  evaluate_operation_with execute trx op s = Ok (r, s') -> conserves (fun _ => 0) s s'.
Proof.
  intros Hn Hsk Hw Hv Ht Hk E. unfold evaluate_operation_with in E. run_ok1. apply get_state_Ok in Hrun as [-> ->].
  destruct op; cbn [operation_validate fields_typed on_proposals] in *; try by destruct Hn.
  all: unfold as_void, as_object, as_asset, as_settled in E; run_ok1; run_ok1.
  all: try by by_laws Ht.
  eapply update_bitasset_conserves; [exact Hsk|exact Hw|exact Hk| |exact Hrun]. by apply int64_amount_lt.
Qed.
Lemma evaluate_with_runs execute trx op s r s' :
  execution_ok execute -> skip_fee trx = false -> books_ok s ->
  operation_validate op = Ok tt -> typed op -> backing_kept op s ->
  evaluate_operation_with execute trx op s = Ok (r, s') -> keeps_books s s'.
Proof.
  intros Hx Hsk Hok Hv [Ht Hp] Hk E. pose proof Hok as [Hw _].
  destruct op; try by (apply conserves_runs; refine (evaluate_with_conserves _ _ _ _ _ _ _ Hsk Hw Hv Ht Hk E); by intros []).
  all: unfold evaluate_operation_with in E; run_ok1; apply get_state_Ok in Hrun as [-> ->];
    cbv beta iota in E; unfold as_void, as_object in E; run_ok1; run_ok1.
  - eapply proposal_create_runs; [exact Hsk|exact Hw|by split|exact Hrun].
  - eapply proposal_update_runs; [exact Hx|exact Hsk|exact Hok|exact Ht|exact Hrun].
  - eapply proposal_delete_runs; [exact Hsk|exact Hw|exact Ht|exact Hrun].
Qed.
Lemma apply_operation_conserves trx op s r s' :
  ~ on_proposals op -> skip_fee trx = false -> chain_wf s -> operation_validate op = Ok tt -> fields_typed op -> backing_kept op s ->
  apply_operation trx op s = Ok (r, s') -> conserves (fun _ => 0) s s'.
Proof.
  intros Hn Hsk Hw Hv Ht Hk E. unfold apply_operation, apply_operation_with in E. run_ok1.
  apply push_step in Hrun as [-> S1]. eapply conserves_0_trans; [apply step_conserves, S1|].
  eapply (evaluate_with_conserves push_proposal); [exact Hn|exact Hsk|exact (step_wf _ _ _ S1 Hw)|exact Hv|exact Ht| |exact E].
  by destruct op.
Qed.
Lemma push_applied_runs x s u s' : push_applied_operation x s = Ok (u, s') -> keeps_books s s'.
Proof. intros [_ S]%push_step. by apply conserves_runs, step_conserves. Qed.
Lemma apply_with_runs execute trx op s r s' :
  execution_ok execute -> skip_fee trx = false -> books_ok s ->
  operation_validate op = Ok tt -> typed op -> backing_kept op s ->
  apply_operation_with execute trx op s = Ok (r, s') -> keeps_books s s'.
Proof.
  intros Hx Hsk Hok Hv Ht Hk E. unfold apply_operation_with in E. run_ok1. pose proof Hrun as [Es _]%push_step. apply push_applied_runs in Hrun.
  etrans; [exact Hrun|]. eapply evaluate_with_runs; [exact Hx|exact Hsk|by eapply keeps_books_ok|exact Hv|exact Ht| |exact E].
  subst. by destruct op.
Qed.

(** ** Executing a proposal *)
Lemma validate_operations_Forall l : validate_operations l = Ok tt <-> Forall (fun op => operation_validate op = Ok tt) l.
Proof.
  induction l as [|op l IH]; cbn; [done|]. rewrite Forall_cons, <- IH.
  destruct (operation_validate op) as [[]|e]; cbn; [naive_solver|]. split; [done|by intros []].
Qed.
Lemma execute_operations_runs (apply : operation -> M database operation_result) id l s u s' :
  (forall op s r s', op ∈ l -> books_ok s -> apply op s = Ok (r, s') -> keeps_books s s') ->
  books_ok s -> execute_operations apply id l s = Ok (u, s') -> keeps_books s s'.
Proof.
  intros Ha Hok E. revert Hok. revert E. unfold execute_operations.
  apply (for_each_ind (fun s s' => books_ok s -> keeps_books s s')); [done| |].
  - intros s1 s2 s3 R1 R2 Hok. etrans; [by apply R1|]. apply R2. eapply keeps_books_ok; [|exact Hok]. by apply R1.
  - intros op s1 s2 v Hop E Hok. do 3 run_ok1. apply deref_Ok in Hrun0 as [_ ->]. by eapply Ha.
Qed.
Lemma push_proposal_runs depth : execution_ok (push_proposal_with depth).
Proof.
  induction depth as [|depth IH]; intros id s u s' Hok E; [done|]. cbn [push_proposal_with] in E. unfold execute_proposal in E.
  do 2 run_ok1. apply deref_Ok in Hrun as [Hp ->]. destruct Hok as [Hw Hps]. pose proof (Hps _ _ Hp) as (Hpl & Hv & _).
  apply validate_operations_Forall in Hv. rewrite Forall_forall in Hpl, Hv.
  etrans; [|by eapply remove_proposal_runs]. eapply execute_operations_runs; [|by split|exact Hrun0].
  intros op t r t' Hop Ht Ea. eapply (apply_with_runs _ proposal_trx_state); [exact IH|done|exact Ht|by apply Hv|by apply plain_typed, Hpl| |exact Ea].
  by apply plain_backing_kept, Hpl.
Qed.
Lemma apply_operation_runs trx op s r s' :
  skip_fee trx = false -> books_ok s -> operation_validate op = Ok tt -> typed op -> backing_kept op s ->
  apply_operation trx op s = Ok (r, s') -> keeps_books s s'.
Proof. apply apply_with_runs, push_proposal_runs. Qed.

(** ** One level is enough *)
Lemma apply_no_update x y trx op : ~ is_update op -> apply_operation_with x trx op = apply_operation_with y trx op.
Proof. by destruct op. Qed.
Lemma execute_operations_ext (f g : operation -> M database operation_result) id l :
  (forall op s, op ∈ l -> f op s = g op s) -> forall s, execute_operations f id l s = execute_operations g id l s.
Proof.
  intros Hfg. unfold execute_operations. induction l as [|op l IH]; intros s; cbn [for_each]; [done|].
  apply M_bind_ext'; [|intros; apply IH; intros; apply Hfg; by right]. unfold mbind, M_bind. by rewrite (Hfg op s) by apply list_elem_of_here.
Qed.
(** Proposals nest one level: a stored proposal holds no update of a proposal,
    so executing one never runs out of depth, and more depth changes nothing. *)
Theorem one_level_enough depth id s :
  proposals_ok s -> push_proposal_with (S depth) id s = push_proposal id s.
Proof.
  intros Hok. unfold push_proposal. cbn [push_proposal_with]. unfold execute_proposal. apply M_bind_ext.
  intros p s' [Hp ->]%deref_Ok. destruct (Hok _ _ Hp) as (_ & _ & Hu). rewrite Forall_forall in Hu.
  apply M_bind_ext'; [|done]. apply execute_operations_ext. intros op t Hop. by rewrite (apply_no_update _ (push_proposal_with 0)) by (apply needs_no_key, Hu, Hop).
Qed.
End Laws.
End ProposalLaws.
