(* ===== verification/Invariant.v ===== *)
(** * The invariant of the chain over operations and transactions

    Every operation in the range of its types that neither updates a bitasset nor
    requests a credit with a deposit keeps the state well formed and the surplus
    of every asset, in any order and at any time; so does a transaction of such
    operations.  The fee an operation owes is the
    least one worth the scheduled amount of core. *)
From Stdlib Require Import ZArith Lia String.
From stdpp Require Import base gmap sets list strings.
From S2P Require Import Prelude External Asset Vesting Authority Chain Balance Accounting Market MarketSupply Evaluator MarketEvaluator MarketLaws AssetObject Transfers TransferLaws AssetOps AssetEvaluator BitassetEvaluator AssetLaws AssetTheorems ExchangeRate Credit CreditEvaluator CreditLaws Operations ProposalLaws Scenario.

Module Invariant.
Import Asset Vesting Authority Chain Balance Accounting Market MarketSupply Evaluator MarketEvaluator MarketLaws AssetObject Transfers TransferLaws AssetOps AssetEvaluator BitassetEvaluator AssetLaws AssetTheorems ExchangeRate Credit CreditEvaluator CreditLaws Operations ProposalLaws Scenario.

Section Invariant.
Context `{SafeLaws, U128Laws, RationalLaws, IndexLaws, NthLaws, TimeLaws, AddressOps, PackOps, CreditOpsLaws, SignatureOps}.

(** ** Histories of operations *)
(** What the code that applies an operation and its own fields owe: it is valid, its
    amounts are within their type, a request for a credit makes no deposit, the
    operations it proposes are plain, and an update of a bitasset keeps the asset
    that backs it. *)
Definition acceptable (op : operation) (s : database) : Prop :=
  operation_validate op = Ok tt /\ typed op /\ backing_kept op s.
Inductive operation_run (s : database) : database -> Prop :=
| run_here : operation_run s s
| run_next s1 op r s2 :
    operation_run s s1 -> acceptable op s1 -> apply_operation fresh_trx_state op s1 = Ok (r, s2) -> operation_run s s2.
Lemma operation_run_keeps s s' : operation_run s s' -> books_ok s -> keeps_books s s'.
Proof.
  intros Hh Hok. induction Hh as [|s1 op r s2 Hh IH (Hv & Ht & Hk) E]; [done|].
  etrans; [exact IH|]. eapply apply_operation_runs; try eassumption; [done|]. by eapply keeps_books_ok.
Qed.

(** The same with time going on between the operations. *)
Definition at_time (t : Z) (s : database) : database :=
  let d := dgp s in
  set_dgp (mk_dgp (head_block_number d) (head_block_id d) t (current_witness d) (next_maintenance_time d) (witness_budget d)
    (recently_missed_count d) (current_aslot d) (recent_slots_filled d) (dynamic_flags d)
    (last_irreversible_block_num d) (last_budget_time d) (accounts_registered_this_interval d)) s.
Lemma at_time_ok t s : books_ok s -> books_ok (at_time t s).
Proof. by intros [[] ?]. Qed.
Inductive history (s : database) : database -> Prop :=
| history_here : history s s
| history_operation s1 op r s2 :
    history s s1 -> acceptable op s1 -> apply_operation fresh_trx_state op s1 = Ok (r, s2) -> history s s2
| history_time s1 t : history s s1 -> head_block_time s1 <= t -> history s (at_time t s1).

(** C3: over any history of operations, whatever their order, their senders and the
    time that passes between them, proposals executed on the way included, the
    state stays well formed (orders, positions, bids, feeds, collateral in its
    backing asset, records that exist, proposals that can be executed) and the
    surplus of every asset - what the chain holds of it less its recorded supply -
    stays what it was, so that what is held adds up to the supply if it did.  The
    operations are valid and of their types; a request for a credit makes no
    deposit, an update of a bitasset keeps its backing asset, and what is proposed
    is neither such a request nor any update of a bitasset. *)
Theorem operations_keep_the_books s s' :
  books_ok s -> history s s' -> books_ok s' /\ forall a, surplus a s' = surplus a s.
Proof.
  intros Hok Hh. induction Hh as [|s1 op r s2 Hh [IHb IHs] (Hv & Ht & Hk) E|s1 t Hh [IHb IHs] Hle]; [done|..].
  - assert (R : keeps_books s1 s2) by (eapply apply_operation_runs; try eassumption; done).
    split; [by eapply keeps_books_ok|]. intros a. rewrite (run_surplus _ _ _ R), <- (IHs a). lia.
  - split; [by apply at_time_ok|]. exact IHs.
Qed.

(** ** Transactions *)
Lemma apply_operations_run l s rs s' :
  Forall plain_operation l -> validate_operations l = Ok tt -> apply_operations fresh_trx_state l s = Ok (rs, s') ->
  operation_run s s'.
Proof.
  enough (Hg : forall s0, operation_run s0 s -> Forall plain_operation l -> validate_operations l = Ok tt ->
    apply_operations fresh_trx_state l s = Ok (rs, s') -> operation_run s0 s') by (apply Hg; constructor).
  intros s0. revert rs s. induction l as [|op l IH]; intros rs s Hh Hl Hv E; cbn [apply_operations] in E.
  - run_ok1. by subst.
  - apply Forall_cons in Hl as [Hp Hl]. cbn [validate_operations] in Hv. do 4 run_ok1.
    repeat match goal with u : () |- _ => destruct u end.
    eapply IH; [|exact Hl|exact Hv|eassumption]. eapply run_next; [exact Hh|split_and!; [eassumption|by apply plain_typed|by apply plain_backing_kept]|eassumption].
Qed.

Lemma check_tapos_pure trx s u s' : check_tapos trx s = Ok (u, s') -> s' = s.
Proof. unfold check_tapos. intros E. run_ok1. reads_ok. by run_ok1. Qed.
Lemma check_expiration_Ok trx s u s' :
  check_expiration trx s = Ok (u, s') -> s' = s /\ head_block_time s <= expires trx
    <= time_add (head_block_time s) (maximum_time_until_expiration (parameters (gpo s))).
Proof. unfold check_expiration. intros E. repeat run_ok1. rewrite !Z.leb_le in *. done. Qed.
(** What a transaction that was applied went through. *)
Record applied (skip : Z) (trx : signed_transaction) (s : database) (rs : list operation_result) (s' : database) : Prop := {
  applied_valid : transaction_validate trx = Ok tt;
  applied_new : has_flag skip skip_transaction_dupe_check = true \/ known_transaction (transaction_id trx) s = false;
  applied_signed : has_flag skip (Z.lor skip_transaction_signatures skip_authority_check) = true
                   \/ verify_authority trx s = Ok tt;
  applied_in_time : 0 < head_block_number (dgp s) -> head_block_time s <= expires trx
    <= time_add (head_block_time s) (maximum_time_until_expiration (parameters (gpo s)));
  applied_run : exists s1,
    (if has_flag skip skip_transaction_dupe_check then s1 = s
     else exists id, create (mk_transaction_object (transaction_id trx) (expires trx)) s = Ok (id, s1))
    /\ apply_operations fresh_trx_state (operations trx) s1 = Ok (rs, s') /\ temp_account_empty s' = true;
}.
Lemma apply_transaction_Ok skip trx s rs s' :
  _apply_transaction skip trx s = Ok (rs, s') -> applied skip trx s rs s'.
Proof.
  unfold _apply_transaction. intros E. repeat run_ok1. subst.
  repeat match goal with u : () |- _ => destruct u end.
  match goal with Hv : (if ?b then _ else _) s = Ok (_, ?t) |- _ =>
    assert (t = s /\ (b = true \/ verify_authority trx s = Ok tt)) as [-> Hsig]
      by (destruct b; repeat run_ok1; [split; [done|by left]|split; [done|by right]]); clear Hv end.
  match goal with Hw : when (0 <? _) _ s = Ok (_, ?t) |- _ =>
    assert (t = s /\ (0 < head_block_number (dgp s) -> head_block_time s <= expires trx
      <= time_add (head_block_time s) (maximum_time_until_expiration (parameters (gpo s))))) as [-> Hexp]; [|clear Hw] end.
  { match goal with Hw : when (0 <? _) _ s = Ok _ |- _ => apply when_Ok in Hw as [[Hn Hw]|[Hn ->]] end.
    - run_ok1. match goal with Ht : when _ (check_tapos _) _ = Ok (_, ?t) |- _ =>
        assert (t = s) as -> by (revert Ht; apply when_pure, check_tapos_pure) end.
      match goal with Hc : check_expiration _ _ = Ok _ |- _ => apply check_expiration_Ok in Hc as [-> ?] end. done.
    - split; [done|]. apply Z.ltb_ge in Hn. lia. }
  split; [done| |done|done|].
  - match goal with Hr : _ || negb _ = true |- _ => apply orb_true_iff in Hr as [?|Hr]; [by left|right] end.
    by apply negb_true_iff.
  - match goal with Hw : when (negb _) _ s = Ok (_, ?t) |- _ => exists t; split_and!; [|done|done];
      apply when_Ok in Hw as [[Hn Hw]|[Hn ->]] end.
    + apply negb_true_iff in Hn. rewrite Hn. run_ok1. run_ok1. subst. by eexists.
    + apply negb_false_iff in Hn. by rewrite Hn.
Qed.

Lemma create_transaction_books (t : transaction_object) s id s' :
  create t s = Ok (id, s') -> books_ok s ->
  books_ok s' /\ (forall a, surplus a s' = surplus a s) /\ transactions s' = <[id := t]> (transactions s)
  /\ head_of s' = head_of s /\ transactions s !! id = None.
Proof.
  intros [Hl ->]%create_Ok [Hw Hp]. split_and!; try done. split; [by destruct Hw|exact Hp].
Qed.
Lemma apply_transaction_history skip trx s rs s' :
  Forall plain_operation (operations trx) -> applied skip trx s rs s' ->
  exists s1, (books_ok s -> books_ok s1 /\ (forall a, surplus a s1 = surplus a s))
    /\ operation_run s1 s' /\ head_of s1 = head_of s
    /\ (if has_flag skip skip_transaction_dupe_check then transactions s1 = transactions s
        else exists id, transactions s1 = <[id := mk_transaction_object (transaction_id trx) (expires trx)]> (transactions s)
              /\ transactions s !! id = None).
Proof.
  intros Hp [Hv _ _ _ (s1 & Hc & Ho & _)].
  unfold transaction_validate in Hv. run_ok1. apply apply_operations_run in Ho; [|done|done].
  exists s1. destruct (has_flag skip skip_transaction_dupe_check).
  - subst s1. done.
  - destruct Hc as [id Hc]. split_and!; [|done|by apply create_Ok in Hc as [_ ->]|].
    + intros Hw. by destruct (create_transaction_books _ _ _ _ Hc Hw) as (? & ? & _).
    + exists id. by apply create_Ok in Hc as [? ->].
Qed.

(** C4: a transaction is applied whole: when it succeeds, the state is well formed
    with its proposals, every surplus is what it was and the temporary account holds
    nothing.  For transactions of plain operations: their amounts are within their
    types, none updates a bitasset, none requests a credit with a deposit, and none
    proposes such an operation. *)
Theorem transaction_keeps_the_books skip trx s rs s' :
  books_ok s -> Forall plain_operation (operations trx) -> _apply_transaction skip trx s = Ok (rs, s') ->
  books_ok s' /\ (forall a, surplus a s' = surplus a s)
  /\ forall a n, account_balances s' !! (GRAPHENE_TEMP_ACCOUNT, a) = Some n -> n = 0.
Proof.
  intros Hw Hp E%apply_transaction_Ok. pose proof E as [_ _ _ _ (_ & _ & _ & Ht)].
  apply apply_transaction_history in E as (s1 & Hs1 & Hh & _); [|done]. destruct (Hs1 Hw) as [Hw1 Hsur].
  pose proof (operation_run_keeps _ _ Hh Hw1) as R. split_and!; [by eapply keeps_books_ok| |].
  - intros a. rewrite (run_surplus _ _ _ R), Hsur. lia.
  - intros a n Hn. unfold temp_account_empty in Ht. rewrite forallb_forall in Ht.
    specialize (Ht (GRAPHENE_TEMP_ACCOUNT, a, n)). cbn in Ht. apply Z.eqb_eq, Ht.
    by apply list_elem_of_In, elem_of_map_to_list.
Qed.

(** ** Authorisation *)
Lemma signature_keys_spec trx l keys0 keys :
  signature_keys trx l keys0 = Ok keys -> forall k, k ∈ keys <-> k ∈ keys0 \/ exists sig, sig ∈ l /\ signature_key trx sig = Ok k.
Proof.
  revert keys0. induction l as [|sig l IH]; intros keys0; cbn; intros E k.
  - injection E as <-. split; [by left|]. intros [?|(? & ?%not_elem_of_nil & _)]; done.
  - run_ok1. run_ok1. rewrite (IH _ E k), elem_of_union, elem_of_singleton. split.
    + intros [[->|?]|(g & Hg & Ek)]; [right; exists sig; split; [by left|done]|by left|right; exists g; split; [by right|done]].
    + intros [?|(g & [->|Hg]%elem_of_cons & Ek)]; [left; by right|left; left; congruence|right; by exists g].
Qed.
Definition authorities_ok (s : database) : Prop :=
  map_Forall (fun _ a => auth_ok (active_authority a) /\ auth_ok (owner_authority a)) (accounts s).
Lemma authorities_ok_auths s (f : account_object -> authority) :
  (forall a, auth_ok (active_authority a) /\ auth_ok (owner_authority a) -> auth_ok (f a)) ->
  authorities_ok s -> auths_ok (authority_of f s).
Proof.
  intros Hf Ha id au E. unfold authority_of in E. run_ok1. injection E as <-. destruct (accounts s !! id) eqn:Eq; [|done].
  injection Hrun as ->. by apply Hf, (Ha _ _ Eq).
Qed.
(** The keys whose approval an update of a proposal adds or takes back, and the
    key that owns a balance of the genesis. *)
Definition approving_keys (op : operation) : gset Z :=
  match op with
  | op_proposal_update o => key_approvals_to_add o ∪ key_approvals_to_remove o
  | op_balance_claim o => {[balance_owner_key o]}
  | _ => ∅
  end.
Definition keys_fit (op : operation) : Prop := Z.of_nat (size (approving_keys op)) < 2 ^ 32.
Lemma unit_weights (l : list Z) : weights ((fun k => (k, 1)) <$> l) = Z.of_nat (length l).
Proof. induction l as [|k l IH]; [done|]. rewrite fmap_cons, weights_cons, IH. cbn [length]. lia. Qed.
Lemma unit_weight_by p (l : list Z) :
  Z.of_nat (length l) <= weight_by p ((fun k => (k, 1)) <$> l) -> forall k, k ∈ l -> p k = true.
Proof.
  assert (Hub : forall l : list Z, weight_by p ((fun k => (k, 1)) <$> l) <= Z.of_nat (length l)).
  { clear l. intros l. rewrite <- unit_weights. apply weight_by_bounds. apply Forall_fmap, Forall_forall. by cbn. }
  induction l as [|x l IH]; [by intros _ ? ?%not_elem_of_nil|]. rewrite fmap_cons, weight_by_cons. cbn [length].
  intros Hw. specialize (Hub l). destruct (p x) eqn:Ep; [|lia]. intros k [->|Hk]%elem_of_cons; [done|]. apply IH; [lia|done].
Qed.
Lemma required_other_ok l : Forall keys_fit l -> Forall auth_ok (required_other l).
Proof.
  intros Hl. apply Forall_forall. intros au (op & Hau & Hop)%list_elem_of_bind. rewrite Forall_forall in Hl. specialize (Hl _ Hop).
  destruct op; try by apply not_elem_of_nil in Hau. all: apply list_elem_of_singleton in Hau as ->; unfold auth_ok; cbn.
  { split_and!; repeat first [apply Forall_nil_2|apply Forall_cons_2]; cbn; lia. }
  rewrite unit_weights. split_and!; [|apply Forall_nil_2..|unfold keys_fit, size, set_size in Hl; cbn in *; lia].
  apply Forall_fmap, Forall_forall. by cbn.
Qed.
Lemma approving_keys_cases op :
  (exists o, op = op_proposal_update o) \/ (exists o, op = op_balance_claim o) \/ approving_keys op = ∅.
Proof. destruct op; eauto. Qed.
Lemma approving_keys_signed get keys base op d :
  (forall au, au ∈ op_required_other op -> satisfied get keys base d au = true) -> approving_keys op ⊆ keys.
Proof.
  destruct (approving_keys_cases op) as [[o ->]|[[o ->]| ->]]; [| |intros _; apply empty_subseteq]; cbn; intros Hs k Hk.
  2: { apply elem_of_singleton in Hk as ->. specialize (Hs _ (list_elem_of_here _ _)). rewrite satisfied_unfold in Hs. cbn in Hs.
       unfold weight_by, signs in Hs. cbn in Hs. case_bool_decide; [done|]. cbn in Hs. by apply Z.leb_le in Hs. }
  specialize (Hs _ (list_elem_of_here _ _)). rewrite satisfied_unfold in Hs. cbn in Hs. apply Z.leb_le in Hs.
  assert (Hsg : signs keys k = true); [|by apply bool_decide_eq_true in Hsg].
  apply (unit_weight_by _ (elements (key_approvals_to_add o ∪ key_approvals_to_remove o))); [unfold weight_by; lia|by apply elem_of_elements].
Qed.
(** C8: a transaction whose signatures are checked is only applied when everyone it
    needs is authorised: with the keys recovered from the signatures, each
    account whose active authority an operation requires (the payer of the fee,
    whoever approves a proposal) satisfies its active or its owner authority,
    through authorities of other accounts if need be; each account whose owner
    authority is required satisfies it; the keys that approve a proposal, or
    own a balance that is claimed, have signed; and none of the payers is the committee account. *)
Theorem transaction_authorized skip trx s rs s' :
  authorities_ok s -> Forall keys_fit (operations trx) ->
  has_flag skip (Z.lor skip_transaction_signatures skip_authority_check) = false ->
  _apply_transaction skip trx s = Ok (rs, s') ->
  exists keys : gset Z, (forall k, k ∈ keys <-> exists sig, sig ∈ signatures trx /\ signature_key trx sig = Ok k)
    /\ forall op, op ∈ operations trx ->
         operation_fee_payer op <> GRAPHENE_COMMITTEE_ID
         /\ (forall id, id ∈ op_required_active op ->
              exists d, active_satisfied_at (authority_of active_authority s) (authority_of owner_authority s) keys ∅ ∅ d id)
         /\ (forall id, id ∈ op_required_owner op ->
              exists d, owner_satisfied_at (authority_of active_authority s) (authority_of owner_authority s) keys ∅ ∅ d id)
         /\ approving_keys op ⊆ keys.
Proof.
  intros Ha Hk Hskip [_ _ [Hs|Hs] _ _]%apply_transaction_Ok; [congruence|].
  unfold verify_authority in Hs. run_ok1. rename a into keys. exists keys.
  split. { intros k. rewrite (signature_keys_spec _ _ _ _ Hrun k). set_solver. }
  apply verify_required_sound in Hs as ([?|Hc] & Hoth & Hact & Hown);
    [done| |by apply authorities_ok_auths; [naive_solver|]..|by apply required_other_ok].
  intros op Hop.
  assert (Hin : op_required_active op ⊆ required_active (operations trx)).
  { intros id Hid. unfold required_active. apply elem_of_union_list. exists (op_required_active op). split; [by apply list_elem_of_fmap_2|done]. }
  split_and!.
  - intros Eq. apply Hc. rewrite <- Eq. apply Hin. unfold op_required_active. set_solver.
  - intros id Hid. by apply Hact, Hin.
  - intros id Hid. destruct (Hown id) as [?|?]; [|set_solver|done]. unfold required_owner. apply elem_of_union_list.
    exists (op_required_owner op). split; [by apply list_elem_of_fmap_2|done].
  - assert (Hau : approving_keys op = ∅ \/ exists au, op_required_other op = [au]).
    { destruct (approving_keys_cases op) as [[o ->]|[[o ->]| ->]]; [right; by eexists..|by left]. }
    destruct Hau as [->|[au Hau]]; [apply empty_subseteq|]. destruct (Hoth au) as [d Hd].
    + unfold required_other. apply list_elem_of_bind. exists op. rewrite Hau. split; [by apply list_elem_of_here|done].
    + eapply (approving_keys_signed _ _ _ op d). rewrite Hau. intros x ->%list_elem_of_singleton. exact Hd.
Qed.
End Invariant.

(** ** Concrete runs *)
Module Sample.
Import Ref.
Export RefCredit.
(** Concrete sizes, identifiers and keys, for the sample transactions. *)
#[export] Instance pack_ops : PackOps :=
  { memo_size _ := None; packed_memo_size _ := 1; packed_size _ := 200 }.
#[export] Instance signature_ops : SignatureOps :=
  { transaction_id t := expires t + 2 ^ 32 * ref_block_num t; signature_key _ sig := Ok sig }.
#[export] Instance address_ops : AddressOps :=
  { pts_address k c v := 1000 * k + 10 * v + (if c then 1 else 0); address k := 1000 * k + 999 }.

Definition pay : operation := op_transfer (mk_transfer (core 5) alice bob (core 100)).
(** Alice buys what bob sells: the orders match. *)
Definition buy : operation := op_limit_order_create (mk_limit_create (usd 3) alice (usd 100) (core 500) 1700000000 false).
(** A day's settlement of dan's position is not possible; alice settles dollars. *)
Definition settle : operation := op_asset_settle (mk_asset_settle (core 2) alice (usd 50)).
(** The state, with the summary of block 100. *)
Definition chain : database := set_block_summaries {[100 := mk_block_id 0 77 1]} start.
Lemma chain_ok : books_ok chain.
Proof. split; [apply chain_wfb_wf; vm_compute; reflexivity|done]. Qed.
(** Alice signs with her active key. *)
Definition trx : signed_transaction := mk_signed_transaction 100 77 1600000060 [pay; buy; settle] [117].
Lemma trx_plain : Forall plain_operation (operations trx).
Proof. repeat constructor; by_decide. Qed.
Definition after_trx : database := after (_apply_transaction skip_nothing trx) chain.
Definition trx_results : list operation_result := [void_result; object_id_result 100; object_id_result 100].
Lemma trx_returned : returned (_apply_transaction skip_nothing trx chain) = Some trx_results.
Proof. vm_compute. reflexivity. Qed.
Lemma trx_applied : _apply_transaction skip_nothing trx chain = Ok (trx_results, after_trx).
Proof. exact (after_Ok _ _ _ trx_returned). Qed.
End Sample.
Import Ref Sample.

Lemma operations_keep_the_books_witness :
  exists s', head_block_time s' = head_block_time start + 5 /\ books_ok s' /\ forall a, surplus a s' = surplus a start.
Proof.
  exists (at_time (head_block_time start + 5) (after (apply_operation fresh_trx_state buy) start)). split; [reflexivity|].
  refine (operations_keep_the_books start _ (conj start_wf (map_Forall_empty _))
    (history_time _ _ _ (history_operation _ _ buy (object_id_result 100) _ (history_here _) (conj eq_refl (conj _ I)) (after_Ok _ _ _ _)) _)).
  - by_decide.
  - vm_compute. reflexivity.
  - vm_compute. discriminate.
Defined.
Lemma transaction_keeps_the_books_witness :
  books_ok after_trx /\ (forall a, surplus a after_trx = surplus a chain)
  /\ forall a n, account_balances after_trx !! (GRAPHENE_TEMP_ACCOUNT, a) = Some n -> n = 0.
Proof.
  exact (transaction_keeps_the_books skip_nothing trx chain trx_results after_trx chain_ok trx_plain trx_applied).
Defined.
Lemma transaction_authorized_witness :
  exists keys : gset Z, (forall k, k ∈ keys <-> exists sig, sig ∈ [117] /\ signature_key trx sig = Ok k)
    /\ forall op, op ∈ [pay; buy; settle] ->
         operation_fee_payer op <> GRAPHENE_COMMITTEE_ID
         /\ (forall id, id ∈ op_required_active op ->
              exists d, active_satisfied_at (authority_of active_authority chain) (authority_of owner_authority chain) keys ∅ ∅ d id)
         /\ (forall id, id ∈ op_required_owner op ->
              exists d, owner_satisfied_at (authority_of active_authority chain) (authority_of owner_authority chain) keys ∅ ∅ d id)
         /\ approving_keys op ⊆ keys.
Proof.
  refine (transaction_authorized skip_nothing trx chain trx_results after_trx _ _ eq_refl trx_applied); [by_decide|].
  repeat constructor.
Defined.
End Invariant.
