(* ===== verification/Fees.v ===== *)
(** * What an operation pays ([fee_schedule.cpp])

    The fee the schedule asks, in the asset it is paid in: the least amount
    worth the scaled core fee, found by rounding up at most once. *)
From Stdlib Require Import ZArith Lia String.
From stdpp Require Import base gmap sets list strings.
From S2P Require Import Prelude External Asset Vesting Authority Chain Balance Accounting Market Evaluator MarketEvaluator MarketLaws Transfers AssetOps Operations Scenario Invariant.

Module Fees.
Import Asset Vesting Authority Chain Balance Accounting Market Evaluator MarketEvaluator MarketLaws Transfers AssetOps Operations Scenario Invariant.

(** The least [r] with [n <= r * b / q]. *)
Definition div_up (n q b : Z) : Z := (n * q + b - 1) / b.
Lemma div_up_spec n q b r :
  0 < b -> 0 < q -> n <= r * b / q <-> div_up n q b <= r.
Proof.
  intros Hb Hq. unfold div_up. split; intros Hr.
  - apply Z.lt_succ_r, Z.div_lt_upper_bound; [done|].
    assert (q * (r * b / q) <= r * b) by (apply Z.mul_div_le; lia). nia.
  - apply Z.div_le_lower_bound; [done|].
    pose proof (Z.mul_succ_div_gt (n * q + b - 1) b Hb). nia.
Qed.
Lemma div_up_floor n q b : 0 < b -> div_up n q b - 1 <= n * q / b <= div_up n q b.
Proof.
  intros Hb. unfold div_up. split.
  - replace (n * q + b - 1) with (n * q - 1 + 1 * b) by lia. rewrite Z.div_add by lia.
    enough ((n * q - 1) / b <= n * q / b) by lia. apply Z.div_le_mono; lia.
  - apply Z.div_le_mono; lia.
Qed.

Section Fees.
Context `{SafeLaws, U128Laws, PackOps}.

(** The scaled fee in core. *)
Definition scaled_fee (fees : fee_schedule) (b : Z) : Z := b * scale fees / GRAPHENE_100_PERCENT.
(** The sides of a rate: core, and the asset the fee is paid in. *)
Definition core_side (rate : price) : asset := if asset_id (base rate) =? core_asset then base rate else quote rate.
Definition fee_side (rate : price) : asset := if asset_id (base rate) =? core_asset then quote rate else base rate.
(** A valid rate between core and another asset, either way round; or the rate of
    core to itself. *)
Definition core_rate (rate : price) : Prop :=
  valid_price rate /\ (asset_id (base rate) = core_asset \/ asset_id (quote rate) = core_asset)
  \/ rate = unit_price core_asset.
Lemma core_rate_amounts rate : core_rate rate -> pos_int64 (amount (core_side rate)) /\ pos_int64 (amount (fee_side rate)).
Proof.
  unfold core_side, fee_side. intros [[[Hb Hq _] _]| ->]; [by destruct (asset_id (base rate) =? core_asset)|done].
Qed.
(** The unit price multiplies by one. *)
Lemma unit_mul a n r :
  0 <= n < 2 ^ 63 -> asset_mul (mk_asset n a) (unit_price a) = Ok r <-> r = mk_asset (n * 1 / 1) a /\ n * 1 / 1 <= GRAPHENE_MAX_SHARE_SUPPLY.
Proof.
  intros Hn. unfold asset_mul. cbn [asset_id base quote unit_price amount]. rewrite Z.eqb_refl.
  pose proof (fun r => mul_div_Ok n 1 1 r Hn ltac:(done) ltac:(done)) as Hm. destruct (mul_div n 1 1) as [m|e]; cbn [mbind result_bind].
  - destruct (proj1 (Hm m) eq_refl) as [-> Hr]. split; [intros [= <-]|intros [-> _]]; done.
  - split; [done|]. intros [_ Hr]. by discriminate (proj2 (Hm _) (conj eq_refl Hr)).
Qed.

(** Both directions of the conversion, as functions of the amounts. *)
Lemma core_to_fee rate n r :
  core_rate rate -> 0 <= n < 2 ^ 63 ->
  asset_mul (mk_asset n core_asset) rate = Ok r <->
    r = mk_asset (n * amount (fee_side rate) / amount (core_side rate)) (asset_id (fee_side rate))
    /\ n * amount (fee_side rate) / amount (core_side rate) <= GRAPHENE_MAX_SHARE_SUPPLY.
Proof.
  intros [[Hv Hc]| ->] Hn; [|by apply (unit_mul core_asset)]. rewrite asset_mul_Ok by done.
  unfold mul_num, mul_den, mul_id, core_side, fee_side; cbn [asset_id amount]. rewrite (Z.eqb_sym core_asset).
  destruct (Z.eqb_spec (asset_id (base rate)) core_asset); (split; [intros (_ & -> & Hr)|intros [-> Hr]]); [split; done|split_and!; auto; by left|by split|].
  split_and!; [right; by destruct Hc|done..].
Qed.
Lemma fee_to_core rate n r :
  core_rate rate -> 0 <= n < 2 ^ 63 ->
  asset_mul (mk_asset n (asset_id (fee_side rate))) rate = Ok r <->
    r = mk_asset (n * amount (core_side rate) / amount (fee_side rate)) core_asset
    /\ n * amount (core_side rate) / amount (fee_side rate) <= GRAPHENE_MAX_SHARE_SUPPLY.
Proof.
  intros [[Hv Hc]| ->] Hn; [|by apply (unit_mul core_asset)]. rewrite asset_mul_Ok by done.
  unfold mul_num, mul_den, mul_id, core_side, fee_side; cbn [asset_id amount]. pose proof (vp_ids _ Hv) as Hne.
  destruct (Z.eqb_spec (asset_id (base rate)) core_asset) as [Hb|Hb].
  - rewrite (proj2 (Z.eqb_neq _ _)) by congruence. rewrite Hb.
    split; [intros (_ & -> & Hr)|intros [-> Hr]]; eauto.
  - rewrite Z.eqb_refl. assert (asset_id (quote rate) = core_asset) as -> by (by destruct Hc).
    split; [intros (_ & -> & Hr)|intros [-> Hr]]; eauto.
Qed.

(** One test of the loop. *)
Lemma round_up_test fuel rate n r f :
  core_rate rate -> 0 <= r < 2 ^ 63 ->
  round_up fuel rate (mk_asset n core_asset) (mk_asset r (asset_id (fee_side rate))) = Ok f <->
    r * amount (core_side rate) / amount (fee_side rate) <= GRAPHENE_MAX_SHARE_SUPPLY
    /\ if r * amount (core_side rate) / amount (fee_side rate) <? n then
         match fuel with
         | O => False
         | S fuel' => in_int64 (r + 1) /\
             round_up fuel' rate (mk_asset n core_asset) (mk_asset (r + 1) (asset_id (fee_side rate))) = Ok f
         end
       else f = mk_asset r (asset_id (fee_side rate)).
Proof.
  intros Hc Hr. pose proof (fun back => fee_to_core rate r back Hc Hr) as Hm.
  assert (Hl : forall m, asset_lt (mk_asset m core_asset) (mk_asset n core_asset) = Ok (m <? n)) by done.
  destruct fuel as [|fuel]; cbn [round_up];
    destruct (asset_mul (mk_asset r _) rate) as [back|e] eqn:E; cbn [mbind result_bind].
  1, 3: apply (fee_to_core _ _ _ Hc Hr) in E as [-> Hmax]; rewrite Hl; cbn [mbind result_bind];
    destruct (_ <? n); [|split; [intros [= <-]|intros [_ ->]]; done].
  - split; [done|by intros []].
  - cbn [amount asset_id]. destruct (safe_add r 1) as [c|e] eqn:Ea; cbn [mbind result_bind].
    + apply safe_add_spec in Ea as [-> Hi]. split; [|by intros (_ & _ & ?)]. eauto.
    + split; [done|]. intros (_ & Hi & _). by rewrite (proj2 (safe_add_spec r 1 _) (conj eq_refl Hi)) in Ea.
  - split; [done|]. intros [Hmax _]. discriminate (proj2 (Hm _) (conj eq_refl Hmax)).
  - split; [done|]. intros [Hmax _]. discriminate (proj2 (Hm _) (conj eq_refl Hmax)).
Qed.
(** From the converted amount the loop reaches the least sufficient one in at
    most one round. *)
Lemma round_up_least rate n r f :
  core_rate rate -> 0 <= n <= GRAPHENE_MAX_SHARE_SUPPLY ->
  asset_mul (mk_asset n core_asset) rate = Ok r ->
  let d := div_up n (amount (fee_side rate)) (amount (core_side rate)) in
  round_up 2 rate (mk_asset n core_asset) r = Ok f <->
    f = mk_asset d (asset_id (fee_side rate)) /\ d * amount (core_side rate) / amount (fee_side rate) <= GRAPHENE_MAX_SHARE_SUPPLY.
Proof.
  unfold GRAPHENE_MAX_SHARE_SUPPLY. intros Hc Hn [-> Hr]%core_to_fee; [|done|lia]. cbn zeta.
  destruct (core_rate_amounts _ Hc) as [Hb Hq]. unfold pos_int64, GRAPHENE_MAX_SHARE_SUPPLY, in_int64, int64_min, int64_max in *.
  set (q := amount (fee_side rate)) in *. set (b := amount (core_side rate)) in *.
  pose proof (div_up_floor n q b ltac:(lia)) as Hd. pose proof (div_up_spec n q b) as Hs.
  set (d := div_up n q b) in *. set (r := n * q / b) in *.
  assert (Hn0 : 0 <= r) by (apply Z.div_pos; nia).
  assert (Hle : r * b / q <= n).
  { apply Z.div_le_upper_bound; [lia|]. pose proof (Z.mul_div_le (n * q) b). lia. }
  rewrite round_up_test by (done || lia). fold b q. unfold GRAPHENE_MAX_SHARE_SUPPLY.
  destruct (Z.ltb_spec (r * b / q) n) as [Hlt|Hge].
  - assert (d <> r) by (intros ->; assert (n <= r * b / q) by (apply Hs; lia); lia).
    replace (r + 1) with d by lia. rewrite round_up_test by (done || lia). fold b q. unfold GRAPHENE_MAX_SHARE_SUPPLY.
    rewrite (proj2 (Z.ltb_ge _ _)) by (apply Hs; lia).
    unfold in_int64, int64_min, int64_max. split; [tauto|]. intros [-> ?]. split_and!; [lia..|done].
  - assert (d <= r) by (apply Hs; lia). replace d with r by lia. split; [tauto|]. intros [-> _]. split; [lia|done].
Qed.

(** C37: the fee of an operation, at any rate between core and the asset it is paid
    in, quoted either way round, and at the unit price the chain computes fees at.
    A fee is computed exactly when the table's fee for the operation, scaled, is
    within the share supply, and so are its value in the asset it is paid in and
    that value converted back.  It is then the least amount of that asset worth
    the scaled fee: any amount worth as much is at least the fee. *)
Theorem calculate_fee_exact (fees : fee_schedule) (op : operation) (rate : price) (k : Z) (f : asset) :
  core_rate rate -> 0 <= scale fees < 2 ^ 32 -> 0 <= k < 2 ^ 64 ->
  op_calculate_fee op (parameters_of (fee_table fees) op) = Ok k ->
  let n := scaled_fee fees k in
  let worth r := r * amount (core_side rate) / amount (fee_side rate) in
  calculate_fee fees op rate = Ok f <->
    n <= GRAPHENE_MAX_SHARE_SUPPLY
    /\ asset_id f = asset_id (fee_side rate)
    /\ amount f <= GRAPHENE_MAX_SHARE_SUPPLY /\ n <= worth (amount f) <= GRAPHENE_MAX_SHARE_SUPPLY
    /\ forall r, n <= worth r -> amount f <= r.
Proof.
  intros Hc Hs Hk E n worth. destruct (core_rate_amounts _ Hc) as [Hb Hq]. unfold pos_int64, in_int64, int64_max in *.
  assert (Hn0 : 0 <= n) by (apply Z.div_pos; unfold GRAPHENE_100_PERCENT; nia).
  assert (Hn : n < 2 ^ 96).
  { apply Z.div_lt_upper_bound; unfold GRAPHENE_100_PERCENT; nia. }
  set (d := div_up n (amount (fee_side rate)) (amount (core_side rate))).
  transitivity (n <= GRAPHENE_MAX_SHARE_SUPPLY /\ f = mk_asset d (asset_id (fee_side rate))
    /\ d <= GRAPHENE_MAX_SHARE_SUPPLY /\ worth d <= GRAPHENE_MAX_SHARE_SUPPLY).
  2: { assert (Hd : forall r, n <= worth r <-> d <= r) by (intros r; apply div_up_spec; lia).
       split.
       - intros (? & -> & ? & ?). cbn. split_and!; [done..|by apply Hd|done|apply Hd].
       - intros (? & Hi & ? & [Hw ?] & Hmin). assert (amount f = d) as Hfd.
         { apply Hd in Hw. specialize (Hmin d (proj2 (Hd d) (Z.le_refl d))). lia. }
         rewrite Hfd in *. split_and!; [done| |done|done]. destruct f; cbn in *; by subst. }
  unfold calculate_fee. rewrite E. cbn [mbind result_bind].
  rewrite u128_id by lia. rewrite u128_mul_spec by nia. rewrite u128_div_spec by (unfold GRAPHENE_100_PERCENT; nia).
  change (k * scale fees / GRAPHENE_100_PERCENT) with n. cbn [mbind result_bind].
  unfold fc_assert at 1. destruct (Z.leb_spec n GRAPHENE_MAX_SHARE_SUPPLY) as [Hmax|Hmax]; cbn [mbind result_bind].
  2: { split; [done|intros [? _]; lia]. }
  rewrite to_uint64_spec by (unfold GRAPHENE_MAX_SHARE_SUPPLY in *; lia). cbn [mbind result_bind].
  pose proof (div_up_floor n (amount (fee_side rate)) (amount (core_side rate)) ltac:(lia)) as Hfl. fold d in Hfl.
  destruct (asset_mul (mk_asset n core_asset) rate) as [r|e] eqn:Em; cbn [mbind result_bind].
  - pose proof (fun x => round_up_least rate n r x Hc (conj Hn0 Hmax) Em) as Hr. cbn zeta in Hr. fold d in Hr.
    destruct (round_up 2 rate _ r) as [x|e] eqn:Eu; cbn [mbind result_bind].
    + destruct (proj1 (Hr x) eq_refl) as [-> Hw]. unfold fc_assert; cbn. 
      destruct (Z.leb_spec d GRAPHENE_MAX_SHARE_SUPPLY); cbn [mbind result_bind].
      * split; [intros [= <-]|intros (_ & -> & _)]; done.
      * split; [done|intros (_ & _ & ? & _); lia].
    + split; [done|]. intros (_ & -> & _ & Hw). discriminate (proj2 (Hr _) (conj eq_refl Hw)).
  - split; [done|]. intros (_ & _ & Hd & _).
    assert (Hn63 : 0 <= n < 2 ^ 63) by (unfold GRAPHENE_MAX_SHARE_SUPPLY in *; lia).
    assert (Hf : n * amount (fee_side rate) / amount (core_side rate) <= GRAPHENE_MAX_SHARE_SUPPLY) by lia.
    by rewrite (proj2 (core_to_fee rate n _ Hc Hn63) (conj eq_refl Hf)) in Em.
Qed.
End Fees.

(** ** Concrete runs *)
Import Ref Sample.
(** A transfer at a flat fee of seven core, doubled, paid in dollars at three
    core for two dollars: nine dollars are worth thirteen core, so ten are
    asked.  In core, it is fourteen. *)
Definition sample_fees : fee_schedule := mk_fee_schedule {[which pay := only_fee 7]} 20000.
Definition sample_rate : price := mk_price (usd 2) (core 3).
Lemma calculate_fee_exact_witness :
  (op_calculate_fee pay (parameters_of (fee_table sample_fees) pay) = Ok 7 /\ forall r, 14 <= r * 3 / 2 -> 10 <= r)
  /\ calculate_fee sample_fees pay (unit_price core_asset) = Ok (core 14).
Proof.
  assert (Hk : op_calculate_fee pay (parameters_of (fee_table sample_fees) pay) = Ok 7) by (vm_compute; reflexivity).
  assert (Hs : 0 <= scale sample_fees < 2 ^ 32) by (vm_compute; by split).
  assert (Hr : core_rate sample_rate) by (left; split; [by split; vm_compute|by right]).
  assert (E : calculate_fee sample_fees pay sample_rate = Ok (usd 10)) by (vm_compute; reflexivity). split; [split; [exact Hk|]|].
  - destruct (proj1 (calculate_fee_exact sample_fees pay sample_rate 7 (usd 10) Hr Hs ltac:(lia) Hk) E)
      as (_ & _ & _ & _ & Hmin). exact Hmin.
  - refine (proj2 (calculate_fee_exact sample_fees pay (unit_price core_asset) 7 (core 14) (or_intror eq_refl) Hs ltac:(lia) Hk) _).
    assert (Hn : scaled_fee sample_fees 7 = 14) by (vm_compute; reflexivity). rewrite Hn. cbn -[Z.div]. rewrite Z.mul_1_r, Z.div_1_r.
    split_and!; try done. intros r. by rewrite Z.mul_1_r, Z.div_1_r.
Defined.
End Fees.
