(* ===== verification/Schedule.v ===== *)
(** * The schedule of witnesses ([db_witness_schedule.cpp])

    Slots, the times they stand for, the witness scheduled for each, and the
    shuffle of the active witnesses at the start of a round. *)
From Stdlib Require Import ZArith Lia String.
From stdpp Require Import base gmap sets list strings.
From S2P Require Import Prelude External Asset Vesting Authority Chain Balance Accounting Scenario.

Module Schedule.
Import Asset Vesting Authority Chain Balance Accounting Scenario.

Definition division_by_zero : string := "undefined: division by zero".
Definition maintenance_flag : Z := 1.

Section Slots.
Context `{TimeOps}.

Definition get_scheduled_witness (slot_num : Z) (s : database) : result Z :=
  let l := current_shuffled_witnesses (witness_schedule s) in
  let current_aslot := wrap 64 (current_aslot (dgp s) + slot_num) in
  of_option (l !! Z.to_nat (current_aslot mod Z.of_nat (length l))) division_by_zero.

Definition get_slot_time (slot_num : Z) (s : database) : result Z :=
  if slot_num =? 0 then Ok 0
  else
    let interval := block_interval (parameters (gpo s)) in
    if head_block_number (dgp s) =? 0 then Ok (time_add (time (dgp s)) (wrap 32 (slot_num * interval)))
    else if interval =? 0 then Throw division_by_zero
    else
      let head_block_abs_slot := head_block_time s / interval in
      let head_slot_time := head_block_abs_slot * interval in
      let slot_num :=
        if negb (Z.land (dynamic_flags (dgp s)) maintenance_flag =? 0)
        then wrap 32 (slot_num + maintenance_skip_slots (parameters (gpo s))) else slot_num in
      Ok (time_add head_slot_time (wrap 32 (slot_num * interval))).

Definition get_slot_at_time (when : Z) (s : database) : result Z :=
  first_slot_time ← get_slot_time 1 s;
  if when <? first_slot_time then Ok 0
  else if block_interval (parameters (gpo s)) =? 0 then Throw division_by_zero
  else Ok (wrap 32 ((when - first_slot_time) / block_interval (parameters (gpo s)) + 1)).
End Slots.

(** ** The shuffle *)
Definition multiplier : Z := 2685821657736338717.
Definition xorshift (now_hi i : Z) : Z :=
  let k := wrap 64 (now_hi + wrap 64 (i * multiplier)) in
  let k := Z.lxor k (Z.shiftr k 12) in
  let k := Z.lxor k (wrap 64 (Z.shiftl k 25)) in
  let k := Z.lxor k (Z.shiftr k 27) in
  wrap 64 (k * multiplier).
(** [std::swap( l[i], l[j] )]. *)
Definition swap (i j : nat) (l : list Z) : list Z :=
  match l !! i, l !! j with
  | Some x, Some y => <[i := y]> (<[j := x]> l)
  | _, _ => l
  end.
Definition shuffle_step (now_hi : Z) (l : list Z) (i : Z) : list Z :=
  let jmax := Z.of_nat (length l) - i in
  let j := i + xorshift now_hi i mod jmax in
  swap (Z.to_nat i) (Z.to_nat j) l.
Definition shuffle (now_hi : Z) (l : list Z) : list Z :=
  fold_left (shuffle_step now_hi) (seqZ 0 (Z.of_nat (length l))) l.
Definition update_witness_schedule : M database unit :=
  s ← get_state;
  let n := Z.of_nat (length (active_witnesses (gpo s))) in
  if n =? 0 then throw division_by_zero
  else when (head_block_number (dgp s) mod n =? 0)
    (let now_hi := wrap 64 (Z.shiftl (head_block_time s) 32) in
     update (set_witness_schedule (mk_schedule (shuffle now_hi (active_witnesses (gpo s)))))).

(** ** Times of slots *)
Section Times.
Context `{TimeLaws}.
Definition slot_base (s : database) : Z :=
  let p := parameters (gpo s) in
  if head_block_number (dgp s) =? 0 then time (dgp s)
  else head_block_time s / block_interval p * block_interval p
       + (if negb (Z.land (dynamic_flags (dgp s)) maintenance_flag =? 0)
          then maintenance_skip_slots p * block_interval p else 0).
(** The clock runs, and slot [n] is still within the 32 bits of a time. *)
Record slot_in_range (n : Z) (s : database) : Prop := {
  sr_interval : 0 < block_interval (parameters (gpo s));
  sr_skip : 0 <= maintenance_skip_slots (parameters (gpo s));
  sr_time : 0 <= time (dgp s);
  sr_range : time (dgp s) + (n + maintenance_skip_slots (parameters (gpo s))) * block_interval (parameters (gpo s)) < 2 ^ 32;
}.
Lemma slot_base_range n s :
  slot_in_range n s -> 0 <= n ->
  0 <= slot_base s /\ slot_base s + n * block_interval (parameters (gpo s)) < 2 ^ 32.
Proof.
  intros [Hi Hk Ht Hr] Hn. unfold slot_base, head_block_time.
  pose proof (Z.mul_div_le (time (dgp s)) _ Hi). pose proof (Z.div_pos _ _ Ht Hi).
  destruct (_ =? 0); [nia|]. destruct (negb _); nia.
Qed.
Lemma slot_time_eq n s :
  slot_in_range n s -> 0 < n -> get_slot_time n s = Ok (slot_base s + n * block_interval (parameters (gpo s))).
Proof.
  intros Hr Hn. destruct (slot_base_range n s Hr ltac:(lia)) as [Hb Hlt]. destruct Hr as [Hi Hk Ht Hr].
  unfold get_slot_time. rewrite (proj2 (Z.eqb_neq n 0)) by lia.
  unfold slot_base, head_block_time in *. pose proof (Z.div_pos _ _ Ht Hi).
  destruct (head_block_number (dgp s) =? 0).
  - rewrite wrap_id by nia. by rewrite time_add_spec by nia.
  - rewrite (proj2 (Z.eqb_neq _ 0)) by lia. destruct (negb _).
    + rewrite (wrap_id _ (n + _)) by nia. rewrite wrap_id by nia. rewrite time_add_spec by nia. f_equal. lia.
    + rewrite wrap_id by nia. rewrite time_add_spec by nia. f_equal. lia.
Qed.
Lemma slot_in_range_le n m s : m <= n -> slot_in_range n s -> slot_in_range m s.
Proof. intros Hm [Hi Hk Ht Hr]. split; [done..|]. nia. Qed.

(** Slots and times.  Every slot within the range of the clock has a time,
    and a moment belongs to the slot exactly when it falls in the interval
    that starts at that time; in particular the slot at the time of slot [n]
    is [n]. *)
Theorem slot_at_time_exact (n : Z) (s : database) :
  slot_in_range n s -> 0 < n ->
  exists t, get_slot_time n s = Ok t /\ 0 <= t < 2 ^ 32
    /\ forall w, 0 <= w < 2 ^ 32 ->
         get_slot_at_time w s = Ok n <-> t <= w < t + block_interval (parameters (gpo s)).
Proof.
  intros Hr Hn. eexists. split; [by apply slot_time_eq|].
  pose proof (slot_base_range n s Hr ltac:(lia)) as [Hb Hlt]. pose proof Hr as [Hi Hk Ht Hmax].
  set (i := block_interval (parameters (gpo s))) in *.
  split; [nia|]. intros w Hw. unfold get_slot_at_time.
  rewrite slot_time_eq; [|eapply slot_in_range_le; [|exact Hr]; lia|lia]. cbn [mbind result_bind]. fold i.
  rewrite (proj2 (Z.eqb_neq i 0)) by lia. destruct (Z.ltb_spec w (slot_base s + 1 * i)) as [Hw1|Hw1].
  - split; [intros [= <-]; lia|nia].
  - set (q := (w - (slot_base s + 1 * i)) / i).
    assert (Hq : i * q <= w - (slot_base s + 1 * i) < i * q + i).
    { pose proof (Z.div_mod (w - (slot_base s + 1 * i)) i ltac:(lia)) as Hd. fold q in Hd.
      pose proof (Z.mod_pos_bound (w - (slot_base s + 1 * i)) i Hi). lia. }
    rewrite wrap_id by nia. split.
    + intros Eq. injection Eq as Eq. lia.
    + intros Hww. f_equal. nia.
Qed.
End Times.

(** ** Rounds *)
Lemma swap_perm i j l : swap i j l ≡ₚ l.
Proof.
  unfold swap. destruct (l !! i) as [x|] eqn:Ei; [|done]. destruct (l !! j) as [y|] eqn:Ej; [|done].
  by apply Permutation_insert_swap.
Qed.
Lemma shuffle_perm now_hi l : shuffle now_hi l ≡ₚ l.
Proof.
  unfold shuffle. generalize (seqZ 0 (Z.of_nat (length l))). intros idx. revert l.
  induction idx as [|i idx IH]; intros l; cbn; [done|]. rewrite IH. apply swap_perm.
Qed.

(** Taking the elements at [n] consecutive positions modulo [n] rotates the list. *)
Lemma lookup_mod_rotate (l : list Z) (k : nat) :
  l <> [] ->
  (fun i => l !! ((k + i) mod length l)%nat) <$> seq 0 (length l)
  = Some <$> (drop (k mod length l) l ++ take (k mod length l) l).
Proof.
  intros Hl. set (n := length l). assert (Hn : n <> O) by (unfold n; by destruct l).
  apply list_eq. intros i. rewrite !list_lookup_fmap. destruct (decide (i < n)%nat) as [Hi|Hi].
  - rewrite lookup_seq_lt by done. cbn.
    pose proof (Nat.mod_upper_bound k n Hn) as Hk. set (r := (k mod n)%nat) in *.
    assert (Ei : ((k + i) mod n = if decide (r + i < n) then r + i else r + i - n)%nat).
    { rewrite <- Nat.Div0.add_mod_idemp_l. fold r. destruct (decide _); [by apply Nat.mod_small|].
      replace (r + i)%nat with ((r + i - n) + 1 * n)%nat at 1 by lia.
      rewrite Nat.Div0.mod_add. apply Nat.mod_small. lia. }
    rewrite Ei. destruct (decide _) as [Hd|Hd].
    + rewrite lookup_app_l by (rewrite length_drop; lia). rewrite lookup_drop.
      destruct (lookup_lt_is_Some_2 l (r + i)) as [x Hx]; [lia|]. by rewrite Hx.
    + rewrite lookup_app_r by (rewrite length_drop; lia). rewrite length_drop, lookup_take_lt by (fold n; lia).
      fold n. replace (i - (n - r))%nat with (r + i - n)%nat by lia.
      destruct (lookup_lt_is_Some_2 l (r + i - n)) as [x Hx]; [fold n; lia|]. by rewrite Hx.
  - rewrite lookup_seq_ge by lia. cbn. rewrite lookup_ge_None_2; [done|].
    rewrite length_app, length_drop, length_take. fold n. lia.
Qed.
Lemma lookup_mod_perm (l : list Z) (k : nat) :
  l <> [] -> (fun i => l !! ((k + i) mod length l)%nat) <$> seq 0 (length l) ≡ₚ Some <$> l.
Proof.
  intros Hl. rewrite lookup_mod_rotate by done. rewrite Permutation_app_comm. by rewrite take_drop.
Qed.

(** The witnesses of the [n] slots from [slot] on. *)
Definition scheduled (slot : Z) (n : nat) (s : database) : list (result Z) :=
  (fun i => get_scheduled_witness (slot + Z.of_nat i) s) <$> seq 0 n.
(** C32: a round is fair.  When the schedule is made anew, which happens when the
    number of the head block is a multiple of the number of active witnesses,
    then in any stretch of as many slots as there are active witnesses each of
    them is scheduled exactly once. *)
Theorem round_is_fair (s s' : database) (slot : Z) :
  let n := length (active_witnesses (gpo s)) in
  n <> O -> head_block_number (dgp s) mod Z.of_nat n = 0 ->
  0 <= current_aslot (dgp s) -> 0 <= slot -> current_aslot (dgp s) + slot + Z.of_nat n < 2 ^ 64 ->
  update_witness_schedule s = Ok (tt, s') ->
  scheduled slot n s' ≡ₚ Ok <$> active_witnesses (gpo s).
Proof.
  intros n Hn Hround Ha Hs Hr E. unfold update_witness_schedule in E. inv_ok1. inv_ok1. fold n in E.
  rewrite (proj2 (Z.eqb_neq _ 0)) in E by lia. rewrite Hround in E. cbn in E. injection E as <-.
  set (l := shuffle _ _). assert (Hl : l ≡ₚ active_witnesses (gpo s)) by apply shuffle_perm.
  assert (Hlen : length l = n) by (unfold n; by rewrite Hl).
  assert (Hne : l <> []) by (intros El; rewrite El in Hlen; done).
  set (k := Z.to_nat (current_aslot (dgp s) + slot)).
  transitivity ((fun o => of_option o division_by_zero) <$> ((fun i => l !! ((k + i) mod length l)%nat) <$> seq 0 (length l))).
  - apply reflexive_eq. unfold scheduled. rewrite <- Hlen, <- list_fmap_compose. apply list_fmap_ext.
    intros j i [-> Hi]%lookup_seq. cbn. rewrite Hlen in Hi. unfold get_scheduled_witness. cbn.
    rewrite wrap_id by lia. do 2 f_equal. rewrite Z.add_assoc, Z2Nat.inj_mod by lia. rewrite !Nat2Z.id.
    f_equal. unfold k. lia.
  - rewrite lookup_mod_perm by done. rewrite Hl, <- list_fmap_compose. done.
Qed.

(** ** Concrete runs *)
Import Ref.
Lemma slot_at_time_exact_witness :
  exists t, get_slot_time 3 start = Ok t /\ 0 <= t < 2 ^ 32
    /\ forall w, 0 <= w < 2 ^ 32 -> get_slot_at_time w start = Ok 3 <-> t <= w < t + 5.
Proof.
  refine (slot_at_time_exact 3 start _ eq_refl). split; vm_compute; by repeat split.
Defined.
(** Three witnesses, at a block whose number is a multiple of three. *)
Definition round_start : database := set_dgp (mk_dgp 99 null_block_id 1600000000 1 1600080000 500000 0 100 0 0 90 1599990000 0) start.
Lemma round_is_fair_witness :
  scheduled 1 3 (after update_witness_schedule round_start) ≡ₚ [Ok 1; Ok 2; Ok 3].
Proof.
  refine (round_is_fair round_start _ 1 _ eq_refl _ _ _ _); [by vm_compute..|].
  apply after_Ok. vm_compute. reflexivity.
Defined.
End Schedule.
