(* ===== verification/Block.v ===== *)
(** * Blocks ([protocol/block.hpp], [protocol/block.cpp])

    Headers, the identifier of a block with its number in the first word, and
    the Merkle root of its transactions, which the code computes in place in
    one vector; [level] is the reference it is compared with.  The hashes and
    the recovery of the signee are parameters. *)
From Stdlib Require Import ZArith Lia String.
From stdpp Require Import base gmap sets list strings.
From S2P Require Import Prelude External Asset Vesting Authority Chain Balance Accounting Market Evaluator MarketEvaluator AssetObject Transfers AssetOps AssetEvaluator BitassetEvaluator ExchangeRate Credit CreditEvaluator Operations.

Module Block.
Import Asset Vesting Authority Chain Operations.

Record processed_transaction : Type := mk_processed {
  trx : signed_transaction;
  operation_results : list operation_result;
}.
Record signed_block : Type := mk_block {
  previous : block_id_type;
  timestamp : Z;
  witness : Z;
  transaction_merkle_root : Z;
  block_transactions : list processed_transaction;
  witness_signature : Z;
}.

(** [fc::endian_reverse_u32], the words of [fc::sha224::hash( header )], the
    key recovered from the signature of a header, and the hashes of the Merkle
    tree. *)
Class BlockOps : Type := {
  endian_reverse_u32 : Z -> Z;
  header_hash : signed_block -> Z * Z;
  signee : signed_block -> result Z;
  merkle_digest : processed_transaction -> Z;
  hash_pair : Z -> Z -> Z;
  checksum_hash : Z -> Z;
  null_checksum : Z;
}.
Class BlockLaws `{BlockOps} : Prop := {
  endian_reverse_range x : 0 <= endian_reverse_u32 x < 2 ^ 32;
  endian_reverse_twice x : 0 <= x < 2 ^ 32 -> endian_reverse_u32 (endian_reverse_u32 x) = x;
}.

Section Block.
Context `{BlockOps}.

Definition num_from_id (id : block_id_type) : Z := endian_reverse_u32 (hash_0 id).
Definition block_num (b : signed_block) : Z := wrap 32 (num_from_id (previous b) + 1).
Definition block_id (b : signed_block) : block_id_type :=
  mk_block_id (endian_reverse_u32 (block_num b)) (fst (header_hash b)) (snd (header_hash b)).
Definition validate_signee (expected_signee : Z) (b : signed_block) : result bool :=
  k ← signee b; Ok (k =? expected_signee).

(** ** [calculate_merkle_root] *)
Definition at_index (ids : list Z) (i : nat) : Z := nth i ids 0.
(** The loop [for( i = 0; i < i_max; i += 2 )], [k] rounds of it left from [i]. *)
Fixpoint hash_pairs (rounds : nat) (i k : nat) (ids : list Z) : list Z * nat :=
  match rounds with
  | O => (ids, k)
  | S r => hash_pairs r (i + 2) (S k) (<[k := hash_pair (at_index ids i) (at_index ids (i + 1))]> ids)
  end.
Definition merkle_round (ids : list Z) (current_number_of_hashes : nat) : list Z * nat :=
  let i_max := (current_number_of_hashes - current_number_of_hashes mod 2)%nat in
  let '(ids, k) := hash_pairs (i_max / 2) 0 0 ids in
  if (current_number_of_hashes mod 2 =? 1)%nat
  then (<[k := at_index ids i_max]> ids, S k)
  else (ids, k).
Fixpoint merkle_loop (fuel : nat) (ids : list Z) (current_number_of_hashes : nat) : option (list Z) :=
  if (1 <? current_number_of_hashes)%nat then
    match fuel with
    | O => None
    | S f => let '(ids, k) := merkle_round ids current_number_of_hashes in merkle_loop f ids k
    end
  else Some ids.
Definition merkle_root (ids : list Z) : option Z :=
  match ids with
  | [] => Some null_checksum
  | _ => ids' ← merkle_loop (length ids) ids (length ids); Some (checksum_hash (at_index ids' 0))
  end.
Definition calculate_merkle_root (b : signed_block) : option Z := merkle_root (merkle_digest <$> block_transactions b).

(** ** The reference *)
(** One level of the tree. *)
Fixpoint level (l : list Z) : list Z :=
  match l with
  | x :: y :: l' => hash_pair x y :: level l'
  | _ => l
  end.
(** The root of the tree over [l], of at most [n] levels. *)
Fixpoint root (n : nat) (l : list Z) : Z :=
  match n, l with
  | S n', _ :: _ :: _ => root n' (level l)
  | _, _ => hd 0 l
  end.

Lemma list_pair_ind (P : list Z -> Prop) :
  P [] -> (forall x, P [x]) -> (forall x y l, P l -> P (x :: y :: l)) -> forall l, P l.
Proof.
  intros H0 H1 H2 l. enough (P l /\ forall x, P (x :: l)) by tauto.
  induction l as [|y l [IH1 IH2]]; [by split|]. split; [apply IH2|]. intros x. by apply H2.
Qed.
Lemma length_level l : length (level l) = ((length l + 1) / 2)%nat.
Proof.
  induction l as [| |x y l IH] using list_pair_ind; [done..|]. cbn [level length]. rewrite IH.
  replace (S (S (length l)) + 1)%nat with (length l + 1 + 1 * 2)%nat by lia. rewrite Nat.div_add by done. lia.
Qed.

Lemma level_snoc l x : (length l mod 2)%nat = O -> level (l ++ [x]) = level l ++ [x].
Proof.
  induction l as [| |a b l IH] using list_pair_ind; [done|done|]. intros Hl.
  replace (length (a :: b :: l)) with (length l + 1 * 2)%nat in Hl by (cbn; lia). rewrite Nat.Div0.mod_add in Hl.
  cbn. by rewrite IH.
Qed.
Lemma at_index_app l1 l2 i : at_index (l1 ++ l2) (length l1 + i) = at_index l2 i.
Proof. unfold at_index. rewrite app_nth2 by lia. f_equal. lia. Qed.

(** The loop writes the hashes of the pairs behind the ones it wrote, never on a
    pair it has not read. *)
Lemma hash_pairs_spec rounds : forall (hashed junk l : list Z),
  length junk = length hashed -> (2 * rounds <= length l)%nat ->
  exists junk', hash_pairs rounds (2 * length hashed) (length hashed) (hashed ++ junk ++ l)
    = (hashed ++ level (take (2 * rounds) l) ++ junk' ++ drop (2 * rounds) l, length hashed + rounds)%nat
    /\ length junk' = (length hashed + rounds)%nat.
Proof.
  induction rounds as [|r IH]; intros hashed junk l Hj Hl.
  - exists junk. cbn [hash_pairs]. rewrite Nat.mul_0_r, take_0, drop_0, Nat.add_0_r. done.
  - destruct l as [|x [|y l]]; cbn [length] in Hl; [lia..|]. cbn [hash_pairs].
    assert (Hi : (2 * length hashed = length (hashed ++ junk) + 0)%nat) by (rewrite length_app; lia).
    assert (Ex : at_index (hashed ++ junk ++ x :: y :: l) (2 * length hashed) = x)
      by (rewrite (app_assoc hashed), Hi; apply at_index_app).
    assert (Ey : at_index (hashed ++ junk ++ x :: y :: l) (2 * length hashed + 1) = y).
    { rewrite (app_assoc hashed), Hi, <- Nat.add_assoc. apply at_index_app. }
    rewrite Ex, Ey. set (h := hash_pair x y).
    assert (Ej : exists junk1, <[length hashed := h]> (hashed ++ junk ++ x :: y :: l) = (hashed ++ [h]) ++ junk1 ++ l
                   /\ length junk1 = length (hashed ++ [h])).
    { exists (tail (junk ++ [x; y])). rewrite insert_app_r_alt, Nat.sub_diag by lia. split.
      - rewrite <- (app_assoc hashed). f_equal. destruct junk; cbn; [done|]. f_equal. by rewrite <- (app_assoc _ [_; _]).
      - rewrite length_app. cbn. destruct junk; cbn in *; [lia|]. rewrite length_app. cbn. lia. }
    destruct Ej as (junk1 & -> & Hj1).
    destruct (IH (hashed ++ [h]) junk1 l Hj1 ltac:(lia)) as (junk' & E & Hlen).
    rewrite length_app in *. cbn [length] in *. exists junk'. split; [|lia].
    replace (2 * length hashed + 2)%nat with (2 * (length hashed + 1))%nat by lia.
    replace (S (length hashed)) with (length hashed + 1)%nat by lia. rewrite E.
    replace (2 * S r)%nat with (S (S (2 * r)))%nat by lia. cbn [take drop level]. fold h.
    f_equal; [|lia]. by rewrite <- (app_assoc hashed).
Qed.

Lemma merkle_round_spec ids n :
  (1 < n <= length ids)%nat ->
  exists ids', merkle_round ids n = (ids', (n + 1) / 2)%nat
    /\ take ((n + 1) / 2) ids' = level (take n ids) /\ length ids' = length ids.
Proof.
  intros Hn. unfold merkle_round.
  pose proof (Nat.div_mod_eq n 2) as Hd. pose proof (Nat.mod_upper_bound n 2) as Hm.
  set (r := (n / 2)%nat) in *. clearbody r.
  assert (Er : ((n - n mod 2) / 2 = r)%nat).
  { replace (n - n mod 2)%nat with (r * 2)%nat by lia. by apply Nat.div_mul. }
  rewrite Er. destruct (hash_pairs_spec r [] [] ids) as (junk & E & Hj); [done|lia|].
  change (2 * length [])%nat with O in E. cbn [length app Nat.add] in E, Hj. rewrite E.
  assert (Hlen : length (level (take (2 * r) ids)) = r).
  { rewrite length_level, length_take, Nat.min_l by lia.
    replace (2 * r + 1)%nat with (1 + r * 2)%nat by lia. by rewrite Nat.div_add. }
  destruct (n mod 2 =? 1)%nat eqn:Eo.
  - apply Nat.eqb_eq in Eo. assert (En : n = (2 * r + 1)%nat) by lia.
    assert (Ek : ((n + 1) / 2 = S r)%nat) by (rewrite En; replace (2 * r + 1 + 1)%nat with (0 + S r * 2)%nat by lia; by rewrite Nat.div_add).
    destruct (lookup_lt_is_Some_2 ids (2 * r)) as [x Hx]; [lia|].
    assert (Et : take n ids = take (2 * r) ids ++ [x]).
    { rewrite En. replace (2 * r + 1)%nat with (S (2 * r)) by lia. by apply take_S_r. }
    assert (Ei : (n - n mod 2 = length (level (take (2 * r) ids) ++ junk) + 0)%nat) by (rewrite length_app, Hlen; lia).
    rewrite Ei, app_assoc, at_index_app.
    assert (E0 : at_index (drop (2 * r) ids) 0 = x).
    { unfold at_index. rewrite nth_lookup, lookup_drop, Nat.add_0_r, Hx. done. }
    rewrite E0. eexists. split; [by rewrite Ek|]. rewrite Ek. split.
    + rewrite Et, level_snoc by (rewrite length_take, Nat.min_l, Nat.mul_comm by lia; by rewrite Nat.Div0.mod_mul).
      rewrite <- app_assoc. rewrite insert_app_r_alt by lia. rewrite Hlen, Nat.sub_diag.
      replace (S r) with (length (level (take (2 * r) ids)) + 1)%nat by lia. rewrite take_app_add.
      destruct junk as [|j junk]; [|cbn; by rewrite take_0].
      rewrite app_nil_l. destruct (drop (2 * r) ids) eqn:Edr; [|cbn; by rewrite take_0].
      apply (f_equal length) in Edr. rewrite length_drop in Edr. cbn [length] in Edr. lia.
    + rewrite length_insert, !length_app, Hlen, Hj, length_drop. lia.
  - apply Nat.eqb_neq in Eo. assert (En : n = (2 * r)%nat) by lia.
    assert (Ek : ((n + 1) / 2 = r)%nat) by (rewrite En; replace (2 * r + 1)%nat with (1 + r * 2)%nat by lia; by rewrite Nat.div_add).
    eexists. split; [by rewrite Ek|]. rewrite Ek, En. split.
    + by rewrite take_app_le, take_ge by lia.
    + rewrite !length_app, Hlen, Hj, length_drop. lia.
Qed.
Lemma half_less n : (1 < n)%nat -> ((n + 1) / 2 < n)%nat /\ (1 <= (n + 1) / 2)%nat.
Proof.
  intros Hn. split; [|by apply Nat.div_le_lower_bound; lia].
  apply Nat.Div0.div_lt_upper_bound. lia.
Qed.
Lemma merkle_loop_spec fuel : forall ids n,
  (1 <= n <= length ids)%nat -> (n <= fuel)%nat ->
  exists ids', merkle_loop fuel ids n = Some ids' /\ at_index ids' 0 = root fuel (take n ids).
Proof.
  induction fuel as [|f IH]; intros ids n Hn Hf; [lia|]. cbn [merkle_loop].
  destruct (Nat.ltb_spec 1 n) as [H1|H1].
  - destruct (merkle_round_spec ids n) as (ids' & E & Ht & Hlen); [lia|]. rewrite E.
    pose proof (half_less n H1). destruct (IH ids' ((n + 1) / 2)%nat) as (ids'' & E' & Hr); [lia|lia|].
    exists ids''. split; [done|]. rewrite Hr, Ht. destruct ids as [|x [|y ids]]; cbn [length] in *; [lia..|].
    destruct n as [|[|n]]; [lia..|]. done.
  - assert (n = 1)%nat as -> by lia. exists ids. split; [done|]. destruct ids; cbn in *; [lia|done].
Qed.

(** C35: the Merkle root.  The loop over one vector, hashing pairs in place and
    moving an odd last hash down, ends, and computes the root of the tree in
    which every level hashes the pairs of the one below. *)
Theorem merkle_root_reference (b : signed_block) :
  let ids := merkle_digest <$> block_transactions b in
  calculate_merkle_root b
  = Some (match ids with [] => null_checksum | _ => checksum_hash (root (length ids) ids) end).
Proof.
  intros ids. unfold calculate_merkle_root, merkle_root. fold ids. destruct ids as [|x l] eqn:E; [done|]. rewrite <- E.
  destruct (merkle_loop_spec (length ids) ids (length ids)) as (ids' & El & Hr); [rewrite E; cbn; lia|done|].
  rewrite El. cbn [mbind option_bind]. by rewrite Hr, take_ge.
Qed.

(** The number of a block is one more than its predecessor's, and can be read
    off its identifier. *)
Lemma num_from_block_id `{!BlockLaws} b : num_from_id (block_id b) = block_num b.
Proof. unfold num_from_id, block_id. cbn. apply endian_reverse_twice. apply Z.mod_pos_bound. lia. Qed.
End Block.

Module BlockSample.
(** The bytes of a word reversed; the hashes and keys are small numbers. *)
Definition reverse_word (x : Z) : Z :=
  x mod 256 * 2 ^ 24 + (x / 2 ^ 8) mod 256 * 2 ^ 16 + (x / 2 ^ 16) mod 256 * 2 ^ 8 + (x / 2 ^ 24) mod 256.
Lemma reverse_word_bytes a b c d :
  0 <= a < 256 -> 0 <= b < 256 -> 0 <= c < 256 -> 0 <= d < 256 ->
  reverse_word (a * 2 ^ 24 + b * 2 ^ 16 + c * 2 ^ 8 + d) = d * 2 ^ 24 + c * 2 ^ 16 + b * 2 ^ 8 + a.
Proof.
  intros. unfold reverse_word. set (x := a * 2 ^ 24 + b * 2 ^ 16 + c * 2 ^ 8 + d).
  assert (x / 2 ^ 8 = a * 2 ^ 16 + b * 2 ^ 8 + c) as -> by (symmetry; apply Z.div_unique with d; lia).
  assert (x / 2 ^ 16 = a * 2 ^ 8 + b) as -> by (symmetry; apply Z.div_unique with (c * 2 ^ 8 + d); lia).
  assert (x / 2 ^ 24 = a) as -> by (symmetry; apply Z.div_unique with (b * 2 ^ 16 + c * 2 ^ 8 + d); lia).
  assert (x mod 256 = d) as -> by (symmetry; apply Z.mod_unique with (a * 2 ^ 16 + b * 2 ^ 8 + c); lia).
  assert ((a * 2 ^ 16 + b * 2 ^ 8 + c) mod 256 = c) as -> by (symmetry; apply Z.mod_unique with (a * 2 ^ 8 + b); lia).
  assert ((a * 2 ^ 8 + b) mod 256 = b) as -> by (symmetry; apply Z.mod_unique with a; lia).
  rewrite (Z.mod_small a) by lia. done.
Qed.
Lemma reverse_word_twice x : 0 <= x < 2 ^ 32 -> reverse_word (reverse_word x) = x.
Proof.
  intros Hx. unfold reverse_word at 2. rewrite reverse_word_bytes by (apply Z.mod_pos_bound; lia).
  pose proof (Z.div_mod x (2 ^ 8)). pose proof (Z.div_mod (x / 2 ^ 8) 256). pose proof (Z.div_mod (x / 2 ^ 16) 256).
  rewrite Z.div_div in * by lia. change (2 ^ 8 * 256) with (2 ^ 16) in *.
  change (2 ^ 16 * 256) with (2 ^ 24) in *. rewrite (Z.mod_small (x / 2 ^ 24)) by
    (split; [apply Z.div_pos; lia|apply Z.div_lt_upper_bound; lia]). change 256 with (2 ^ 8) in *. lia.
Qed.
#[export] Instance block_ops : BlockOps := {
  endian_reverse_u32 := reverse_word;
  header_hash b := (timestamp b, witness b);
  signee b := Ok (witness_signature b);
  merkle_digest t := 1 + expires (trx t);
  hash_pair x y := 1 + 3 * x + 7 * y;
  checksum_hash x := x;
  null_checksum := 0;
}.
#[export] Instance block_laws : BlockLaws.
Proof.
  split; cbn; [|exact reverse_word_twice]. intros x. unfold reverse_word.
  pose proof (Z.mod_pos_bound x 256). pose proof (Z.mod_pos_bound (x / 2 ^ 8) 256).
  pose proof (Z.mod_pos_bound (x / 2 ^ 16) 256). pose proof (Z.mod_pos_bound (x / 2 ^ 24) 256). lia.
Qed.
End BlockSample.
End Block.
