(* ===== verification/DbUpdate.v ===== *)
(** * What a block does besides its transactions ([db_update.cpp])

    The dynamic global properties, the pay of the witness and the irreversible
    block; then the housekeeping: expired transactions, orders, settlements,
    feeds and permissions.  A failed [assert] is a throw here: the theorems are
    about runs in which the assertions hold. *)
From Stdlib Require Import ZArith Lia String.
From stdpp Require Import base gmap sets list strings sorting.
From S2P Require Import Prelude External Asset Vesting Authority Chain Balance Accounting Market MarketSupply Evaluator MarketEvaluator MarketLaws AssetObject Transfers AssetOps AssetEvaluator BitassetEvaluator AssetLaws ExchangeRate Credit CreditEvaluator Operations ProposalLaws Scenario Schedule Block.

Module DbUpdate.
Import Asset Vesting Authority Chain Balance Accounting Market MarketSupply Evaluator MarketEvaluator MarketLaws AssetObject Transfers AssetOps AssetEvaluator BitassetEvaluator AssetLaws ExchangeRate Credit CreditEvaluator Operations ProposalLaws Scenario Schedule Block.

Definition GRAPHENE_RECENTLY_MISSED_COUNT_INCREMENT : Z := 4.
Definition GRAPHENE_RECENTLY_MISSED_COUNT_DECREMENT : Z := 3.
Definition GRAPHENE_MAX_UNDO_HISTORY : Z := 10000.
Definition GRAPHENE_IRREVERSIBLE_THRESHOLD : Z := 7000.

(** Shifts of [fc::uint128]; past the width nothing is left. *)
Class ShiftOps : Type := u128_shl : Z -> Z -> Z.
Class ShiftLaws `{ShiftOps} : Prop :=
  u128_shl_spec a n : 0 <= a < 2 ^ 128 -> 0 <= n -> u128_shl a n = wrap 128 (Z.shiftl a n).

(** The indexes [by_expiration]: time, then identifier. *)
Definition by_time {A} (expires : A -> Z) (x y : Z * A) : bool :=
  if expires x.2 <? expires y.2 then true else if expires y.2 <? expires x.2 then false else x.1 <? y.1.

Section Updates.
Context `{SafeOps, U128Ops, RationalOps, IndexOps, NthOps, TimeOps, AddressOps, PackOps, CreditOps, SignatureOps, BlockOps, ShiftOps}.

(** The checkpoints of the node, in the order of their block numbers. *)
Variable checkpoints : list (Z * block_id_type).
Definition last_checkpoint : option (Z * block_id_type) := last checkpoints.

(** ** [update_global_dynamic_data] *)
Definition count_miss (w : witness_object) : witness_object :=
  mk_witness (witness_account w) (last_aslot w) (signing_key w) (pay_vb w) (total_missed w + 1)
    (last_confirmed_block_num w) (witness_vote_id w) (witness_votes w) (witness_url w).
Definition miss_slot (b : signed_block) (i : Z) : M database unit :=
  s ← get_state;
  missed ← lift (get_scheduled_witness (i + 1) s);
  _ ← get witness_object missed;
  when (negb (missed =? witness b)) (modify missed (fun w => Ok (count_miss w))).
Definition next_missed_count (b : signed_block) (missed_blocks count : Z) : Z :=
  if block_num b =? 1 then 0
  else if match last_checkpoint with Some c => block_num b <=? fst c | None => false end then 0
  else if negb (missed_blocks =? 0) then wrap 32 (count + wrap 32 (GRAPHENE_RECENTLY_MISSED_COUNT_INCREMENT * missed_blocks))
  else if GRAPHENE_RECENTLY_MISSED_COUNT_INCREMENT <? count then count - GRAPHENE_RECENTLY_MISSED_COUNT_DECREMENT
  else if 0 <? count then count - 1
  else count.
Definition next_dgp (b : signed_block) (missed_blocks : Z) (d : dynamic_global_property_object)
  : dynamic_global_property_object :=
  mk_dgp (block_num b) (block_id b) (timestamp b) (witness b) (next_maintenance_time d) (witness_budget d)
    (next_missed_count b missed_blocks (recently_missed_count d))
    (wrap 64 (current_aslot d + wrap 32 (missed_blocks + 1)))
    (u128_shl (u128_add (u128_shl (recent_slots_filled d) 1) 1) missed_blocks)
    (dynamic_flags d) (last_irreversible_block_num d) (last_budget_time d) (accounts_registered_this_interval d).
(** The sizes that [_undo_db] and [_fork_db] are set to are returned. *)
Definition update_global_dynamic_data (skip : Z) (b : signed_block) : M database Z :=
  s ← get_state;
  slot ← lift (get_slot_at_time (timestamp b) s);
  _ ← require (negb (slot =? 0)) "assert( missed_blocks != 0 )";
  let missed_blocks := slot - 1 in
  _ ← for_each (seqZ 0 missed_blocks) (miss_slot b);
  _ ← update (fun s => set_dgp (next_dgp b missed_blocks (dgp s)) s);
  s ← get_state;
  let depth := wrap 32 (head_block_number (dgp s) - last_irreversible_block_num (dgp s)) in
  _ ← when (negb (has_flag skip skip_undo_history_check))
        (require (depth <? GRAPHENE_MAX_UNDO_HISTORY) "The database does not have enough undo history");
  mret (wrap 32 (depth + 1)).

(** ** [update_signing_witness] *)
Definition set_budget (n : Z) (d : dynamic_global_property_object) : dynamic_global_property_object :=
  with_witness_budget n d.
Definition confirm (aslot num : Z) (w : witness_object) : witness_object :=
  mk_witness (witness_account w) aslot (signing_key w) (pay_vb w) (total_missed w) num (witness_vote_id w)
    (witness_votes w) (witness_url w).
Definition update_signing_witness (signing_witness : Z) (new_block : signed_block) : M database unit :=
  s ← get_state;
  slot ← lift (get_slot_at_time (timestamp new_block) s);
  let new_block_aslot := wrap 64 (current_aslot (dgp s) + slot) in
  let witness_pay := Z.min (witness_pay_per_block (parameters (gpo s))) (witness_budget (dgp s)) in
  n ← lift (safe_sub (witness_budget (dgp s)) witness_pay);
  _ ← update (fun s => set_dgp (set_budget n (dgp s)) s);
  _ ← deposit_witness_pay signing_witness witness_pay;
  modify signing_witness (fun w => Ok (confirm new_block_aslot (block_num new_block) w)).

(** ** [update_last_irreversible_block] *)
Fixpoint witness_objects (l : list Z) : M database (list witness_object) :=
  match l with
  | [] => mret []
  | wid :: l' => w ← get witness_object wid; ws ← witness_objects l'; mret (w :: ws)
  end.
Definition set_irreversible (n : Z) (d : dynamic_global_property_object) : dynamic_global_property_object :=
  mk_dgp (head_block_number d) (head_block_id d) (time d) (current_witness d) (next_maintenance_time d)
    (witness_budget d) (recently_missed_count d) (current_aslot d) (recent_slots_filled d) (dynamic_flags d) n
    (last_budget_time d) (accounts_registered_this_interval d).
Definition update_last_irreversible_block : M database unit :=
  s ← get_state;
  wit_objs ← witness_objects (active_witnesses (gpo s));
  let offset := (Z.to_nat ((GRAPHENE_100_PERCENT - GRAPHENE_IRREVERSIBLE_THRESHOLD) * Z.of_nat (length wit_objs) / GRAPHENE_100_PERCENT))%nat in
  let wit_objs := nth_element (fun a b => last_confirmed_block_num a <? last_confirmed_block_num b) offset wit_objs in
  w ← lift (of_option (wit_objs !! offset) dangling);
  let new_last_irreversible_block_num := last_confirmed_block_num w in
  when (last_irreversible_block_num (dgp s) <? new_last_irreversible_block_num)
    (update (fun s => set_dgp (set_irreversible new_last_irreversible_block_num (dgp s)) s)).

(** ** Loops that remove the head of an index [by_expiration] while it has expired *)
Fixpoint drop_expired {A} `{Object A} (fuel : nat) (expires : A -> Z) (expired : database -> A -> bool)
  : M database unit :=
  s ← get_state;
  match ordered (by_time expires) (map_to_list (table s)) with
  | [] => mret tt
  | (id, x) :: _ =>
      if expired s x then
        match fuel with
        | O => throw out_of_fuel
        | S fuel' => _ ← remove A id; drop_expired fuel' expires expired
        end
      else mret tt
  end.
Definition transaction_expired (s : database) (t : transaction_object) : bool := trx_expiration t <? head_block_time s.
Definition clear_expired_transactions : M database unit :=
  fuel ← gets (fun s => size (transactions s));
  drop_expired fuel trx_expiration transaction_expired.
Definition permit_expired (s : database) (p : withdraw_permission_object) : bool := permit_expiration p <=? head_block_time s.
Definition update_withdraw_permissions : M database unit :=
  fuel ← gets (fun s => size (withdraw_permissions s));
  drop_expired fuel permit_expiration permit_expired.

(** ** [clear_expired_proposals] *)
Definition expiring_proposals (s : database) : list (Z * proposal_object) :=
  ordered (by_time expiration_time) (map_to_list (proposals s)).
Definition proposal_expired (s : database) (p : proposal_object) : bool := expiration_time p <=? head_block_time s.
(** The last chance of a proposal; [true] when it was executed, which removes it. *)
Definition last_execution (id : Z) (p : proposal_object) : M database bool :=
  try_catch
    (s ← get_state;
     if is_authorized_to_execute p s then _ ← push_proposal id; mret true else mret false)
    (mret false).
Fixpoint clear_proposals (fuel : nat) : M database unit :=
  s ← get_state;
  match expiring_proposals s with
  | [] => mret tt
  | (id, p) :: _ =>
      if proposal_expired s p then
        match fuel with
        | O => throw out_of_fuel
        | S fuel' =>
            executed ← last_execution id p;
            _ ← when (negb executed) (remove proposal_object id);
            clear_proposals fuel'
        end
      else mret tt
  end.
Definition clear_expired_proposals : M database unit :=
  fuel ← gets (fun s => size (proposals s));
  clear_proposals fuel.

(** ** [clear_expired_orders]: the limit orders *)
Definition order_expired (s : database) (o : limit_order_object) : bool := expiration o <=? head_block_time s.
Definition expiring_orders (s : database) : list (Z * limit_order_object) :=
  ordered (by_time expiration) (map_to_list (limit_orders s)).
Definition auto_cancel_fee (o : limit_order_object) (id : Z) (s : database) : result asset :=
  fee ← calculate_fee (current_fees (parameters (gpo s)))
          (op_limit_order_cancel (mk_limit_cancel (mk_asset 0 core_asset) id (seller o))) (unit_price core_asset);
  Ok (if deferred_fee o <? amount fee then mk_asset (deferred_fee o) core_asset else fee).
Fixpoint cancel_expired_orders (fuel : nat) : M database unit :=
  s ← get_state;
  match expiring_orders s with
  | [] => mret tt
  | (id, o) :: _ =>
      if order_expired s o then
        match fuel with
        | O => throw out_of_fuel
        | S fuel' =>
            fee ← lift (auto_cancel_fee o id s);
            _ ← apply_operation (mk_trx_state false false true) (op_limit_order_cancel (mk_limit_cancel fee id (seller o)));
            cancel_expired_orders fuel'
        end
      else mret tt
  end.

(** ** [clear_expired_orders]: the settlements *)
Definition settlement_upper_bound (x : Z) (s : database) : iterator :=
  first_with (fun f => x <? settlement_asset_id f) (settlement_book s).
(** The inner loop: one settlement against the least collateralised positions.  The
    exception of a black swan is the only one that is caught; [match] throws it
    before it changes anything, so the loop goes on from the state it had. *)
Fixpoint settle_order (fuel : nat) (mia id : Z) (settlement_price : price) (max_settlement_volume settled : asset)
  : M database asset :=
  more ← lift (asset_lt settled max_settlement_volume);
  order ← find force_settlement_object id;
  match (if more : bool then order else None) with
  | None => mret settled
  | Some order =>
      match fuel with
      | O => throw out_of_fuel
      | S fuel' =>
          bid ← bitasset_of mia;
          d ← deref asset_bitasset_data_object bid;
          p ← lift (price_min (short_backing_asset (bitasset_opts d)) mia);
          itr ← gets (collateral_lower_bound p);
          c ← at_itr call_order_object itr;
          _ ← require (debt_type (snd c) =? mia) "assert( itr->debt_type() == mia_object.get_id() )";
          max_settlement ← lift (asset_sub max_settlement_volume settled);
          if amount (settlement_balance order) =? 0 then
            _ ← cancel_settlement id true; mret settled
          else
            fun s =>
              match match_settlement (fst c) id settlement_price max_settlement s with
              | Ok (r, s') =>
                  (settled' ← lift (asset_add settled r);
                   settle_order fuel' mia id settlement_price max_settlement_volume settled') s'
              | Throw (e, s') =>
                  if (e =? black_swan)%string then (_ ← cancel_settlement id true; mret settled) s else Throw (e, s')
              end
      end
  end.
Definition set_settled_volume (n : Z) (b : asset_bitasset_data_object) : asset_bitasset_data_object :=
  mk_bitasset_data (bitasset_opts b) (feeds b) (current_feed b) (current_feed_publication_time b)
    (is_prediction_market b) n (swan_price b) (settlement_fund b).
(** What the holder receives: the value at the feed less the offset. *)
Definition settlement_receives (pays : asset) (mia : asset_bitasset_data_object) : result asset :=
  receives ← asset_mul pays (settlement_price (current_feed mia));
  n ← u128_div (u128_mul (u128 (amount receives))
                 (GRAPHENE_100_PERCENT - force_settlement_offset_percent (bitasset_opts mia))) GRAPHENE_100_PERCENT;
  n ← to_uint64 n;
  let receives' := mk_asset n (asset_id receives) in
  low ← asset_le receives' receives;
  _ ← fc_assert low "assert( receives <= order.balance * mia.current_feed.settlement_price )";
  Ok receives'.
Fixpoint settle_rounds (fuel : nat) (current_asset : Z) (max_settlement_volume : asset) : M database unit :=
  s ← get_state;
  match settlement_lower_bound current_asset s with
  | None => mret tt
  | Some id =>
      match fuel with
      | O => throw out_of_fuel
      | S fuel' =>
          order ← deref force_settlement_object id;
          let current_asset := settlement_asset_id order in
          let next_asset (max_settlement_volume : asset) : M database unit :=
            match settlement_upper_bound current_asset s with
            | None => mret tt
            | Some bound =>
                f ← deref force_settlement_object bound;
                settle_rounds fuel' (settlement_asset_id f) max_settlement_volume
            end in
          o ← get asset_object current_asset;
          bid ← bitasset_of current_asset;
          mia ← deref asset_bitasset_data_object bid;
          if has_settlement mia then
            _ ← cancel_settlement id true; settle_rounds fuel' current_asset max_settlement_volume
          else if head_block_time s <? settlement_date order then next_asset max_settlement_volume
          else if is_null (settlement_price (current_feed mia)) then
            _ ← cancel_settlement id true; settle_rounds fuel' current_asset max_settlement_volume
          else
            max_settlement_volume ←
              (if asset_id max_settlement_volume =? current_asset then mret max_settlement_volume
               else
                 dyn ← dynamic_of o;
                 dd ← deref asset_dynamic_data_object dyn;
                 v ← lift (max_force_settlement_volume (current_supply dd) mia);
                 mret (mk_asset v current_asset));
            if amount max_settlement_volume <=? force_settled_volume mia then next_asset max_settlement_volume
            else
              receives ← lift (settlement_receives (settlement_balance order) mia);
              p ← lift (price_div (settlement_balance order) receives);
              rounds ← gets (fun s => S (S (size (call_orders s))));
              settled ← settle_order rounds current_asset id p max_settlement_volume
                          (mk_asset (force_settled_volume mia) current_asset);
              mia' ← deref asset_bitasset_data_object bid;
              _ ← when (negb (force_settled_volume mia' =? amount settled))
                    (modify bid (fun b => Ok (set_settled_volume (amount settled) b)));
              settle_rounds fuel' current_asset max_settlement_volume
      end
  end.
Definition clear_expired_orders : M database unit :=
  fuel ← gets (fun s => size (limit_orders s));
  _ ← cancel_expired_orders fuel;
  s ← get_state;
  match settlement_book s with
  | [] => mret tt
  | (_, f) :: _ =>
      settle_rounds (2 * size (force_settlements s) + 1) (settlement_asset_id f) (mk_asset 0 core_asset)
  end.

(** ** [update_expired_feeds] *)
Definition set_core_exchange_rate (p : price) (a : asset_object) : asset_object :=
  let o := options a in
  mk_asset_object (symbol a) (precision a) (issuer a)
    (mk_asset_options (max_supply o) (market_fee_percent o) (max_market_fee o) (issuer_permissions o) (flags o)
       p (whitelist_authorities o) (blacklist_authorities o) (whitelist_markets o) (blacklist_markets o))
    (dynamic_asset_data_id a) (bitasset_data_id a) (buyback_account a).
Definition feed_expired (now : Z) (b : asset_bitasset_data_object) : bool :=
  if now <? HARDFORK_615_TIME then feed_is_expired_before_hardfork_615 now b else feed_is_expired now b.
Definition update_expired_feed (x : Z) : M database unit :=
  bid ← bitasset_of x;
  b ← deref asset_bitasset_data_object bid;
  now ← gets head_block_time;
  _ ← when (feed_expired now b)
        (_ ← modify bid (update_median_feeds now);
         b ← deref asset_bitasset_data_object bid;
         let y := asset_id (base (settlement_price (current_feed b))) in
         _ ← get asset_object y;
         _ ← check_call_orders y true false;
         mret tt);
  b ← deref asset_bitasset_data_object bid;
  a ← deref asset_object x;
  let cer := core_exchange_rate (current_feed b) in
  when (negb (is_null cer) && negb (price_eqb (options_core_exchange_rate (options a)) cer))
    (modify x (fun a => Ok (set_core_exchange_rate cer a))).
(** The assets in the index [by_type], from the first market-issued one. *)
Definition market_issued_assets (s : database) : list Z :=
  fst <$> ordered (fun x y => x.1 <? y.1) (filter (fun x => is_market_issued x.2 = true) (map_to_list (assets s))).
Definition update_expired_feeds : M database unit :=
  ids ← gets market_issued_assets;
  for_each ids update_expired_feed.

(** ** The flag of maintenance and the block summary *)
Definition set_maintenance_flag (on : bool) (d : dynamic_global_property_object) : dynamic_global_property_object :=
  mk_dgp (head_block_number d) (head_block_id d) (time d) (current_witness d) (next_maintenance_time d)
    (witness_budget d) (recently_missed_count d) (current_aslot d) (recent_slots_filled d)
    (Z.lor (Z.ldiff (dynamic_flags d) maintenance_flag) (if on then maintenance_flag else 0))
    (last_irreversible_block_num d) (last_budget_time d) (accounts_registered_this_interval d).
Definition update_maintenance_flag (new_maintenance_flag : bool) : M database unit :=
  update (fun s => set_dgp (set_maintenance_flag new_maintenance_flag (dgp s)) s).
Definition create_block_summary (next_block : signed_block) : M database unit :=
  let sid := Z.land (block_num next_block) 0xffff in
  _ ← get block_id_type sid;
  modify sid (fun _ => Ok (block_id next_block)).
End Updates.

(** ** The books over a block *)
(** A block moves the head and forgets transactions, so that less is kept than
    by an operation. *)
Section Books.
Context `{SafeLaws, U128Laws, RationalLaws, IndexLaws, NthLaws, TimeLaws, AddressOps, PackOps, CreditOpsLaws, SignatureOps, BlockOps, ShiftOps}.

Record same_books (s s' : database) : Prop := {
  same_wf : books_ok s -> books_ok s';
  same_surplus : forall a, surplus a s' = surplus a s;
}.
#[export] Instance same_books_preorder : PreOrder same_books.
Proof.
  split; [by split|]. intros s1 s2 s3 [W1 S1] [W2 S2]. split; [auto|]. intros a. by rewrite S2, S1.
Qed.
(** The housekeeping also leaves the head of the chain where it is. *)
Record balanced (s s' : database) : Prop := {
  bal_same : same_books s s';
  bal_head : head_of s' = head_of s;
}.
#[export] Instance balanced_preorder : PreOrder balanced.
Proof. split; [by split|]. intros s1 s2 s3 [B1 E1] [B2 E2]. split; [by etrans|congruence]. Qed.
Lemma bal_wf s s' : balanced s s' -> books_ok s -> books_ok s'.
Proof. intros [[W _] _]. exact W. Qed.
Lemma runs_balanced s s' : keeps_books s s' -> balanced s s'.
Proof.
  intros R. split; [|exact (run_head _ _ _ R)]. split; [by apply keeps_books_ok|]. intros a. rewrite (run_surplus _ _ _ R). lia.
Qed.
Lemma conserves_balanced s s' : conserves (fun _ => 0) s s' -> balanced s s'.
Proof. intros C. apply runs_balanced, conserves_runs, C. Qed.
Lemma step_balanced s s' : step (fun _ => 0) s s' -> balanced s s'.
Proof. intros S. apply conserves_balanced, step_conserves, S. Qed.
Lemma set_dgp_same d s : witness_budget d = witness_budget (dgp s) -> same_books s (set_dgp d s).
Proof. intros E. split; [by intros [[] ?]|]. intros a. unfold surplus. cbn. by rewrite E. Qed.
Lemma set_dgp_balanced d s :
  witness_budget d = witness_budget (dgp s) -> head_of (set_dgp d s) = head_of s -> balanced s (set_dgp d s).
Proof. intros E Hh. split; [by apply set_dgp_same|done]. Qed.
Lemma for_each_balanced {A} (l : list A) f s s' :
  (forall x s u t, x ∈ l -> books_ok s -> f x s = Ok (u, t) -> balanced s t) ->
  books_ok s -> for_each l f s = Ok (tt, s') -> balanced s s'.
Proof.
  intros Hf Hw E. revert Hw. revert E. apply (for_each_ind (fun s s' => books_ok s -> balanced s s')); [done| |].
  - intros s1 s2 s3 B1 B2 Hw. etrans; [by apply B1|]. apply B2. by apply (bal_wf _ _ (B1 Hw)).
  - intros. by eapply Hf.
Qed.

Lemma miss_slot_balanced b i s u s' : miss_slot b i s = Ok (u, s') -> balanced s s'.
Proof.
  unfold miss_slot. intros E. repeat run_ok1. reads_ok. apply when_Ok in E as [[_ E]|[_ ->]]; [|done].
  apply modify_step in E as (w & w' & _ & _ & _ & S). specialize (S (fun _ => I)).
  apply step_balanced. eapply step_ext; [|exact S]. done.
Qed.
Lemma update_global_same checkpoints skip b s n s' :
  books_ok s -> update_global_dynamic_data checkpoints skip b s = Ok (n, s') ->
  same_books s s' /\ head_of s' = (block_num b, block_id b, timestamp b).
Proof.
  intros Hw. unfold update_global_dynamic_data. intros E. repeat run_ok1. subst.
  repeat match goal with u : () |- _ => destruct u end.
  match goal with Hf : for_each _ _ s = Ok (_, ?t) |- _ =>
    assert (B : balanced s t) by (revert Hf; apply for_each_balanced; [|done]; intros ? ? ? ? _ _; apply miss_slot_balanced) end.
  pure_ok. split; [|done]. etrans; [exact (bal_same _ _ B)|]. by apply set_dgp_same.
Qed.

(** *** The pay of the witness *)
Lemma deposit_weight s a i (v v' : vesting_balance_object) t amt (vested : bool) :
  (if vested then deposit v t (mk_asset amt core_asset) else deposit_vested v t (mk_asset amt core_asset)) = Ok v' ->
  weight s a i v' = weight s a i v + if_asset a core_asset amt.
Proof.
  intros E. assert (Hb : asset_add (vb_balance v) (mk_asset amt core_asset) = Ok (vb_balance v')).
  { destruct vested; [unfold deposit in E|unfold deposit_vested in E]; repeat run_ok1; by subst. }
  apply asset_add_Ok in Hb as [Hid Hv]. cbn [amount asset_id] in *.
  change (w_vesting a i v' = w_vesting a i v + if_asset a core_asset amt).
  unfold w_vesting. rewrite Hv. unfold asset_in, if_asset. cbn [amount asset_id]. rewrite Hid.
  destruct (core_asset =? a); lia.
Qed.
Lemma deposit_lazy_step ovbid amt secs owner req s r s' :
  deposit_lazy_vesting ovbid amt secs owner req s = Ok (r, s') ->
  step (fun a => if_asset a core_asset amt) s s'
  /\ witnesses s' = witnesses s /\ dgp s' = dgp s /\ gpo s' = gpo s.
Proof.
  unfold deposit_lazy_vesting. destruct (Z.eqb_spec amt 0) as [->|Hne].
  - intros E. run_ok1. split; [|done]. eapply step_ext; [|apply step_refl]. intros a. unfold if_asset. by case_match.
  - intros E. run_ok1. run_ok1. run_ok1.
    match goal with Hr : match ovbid with _ => _ end s = Ok (?o, ?t) |- _ => 
      assert (t = s) as -> by (destruct ovbid; by pure_ok); clear Hr; destruct o as [vbid|] end.
    + run_ok1. run_ok1. subst. 
      match goal with Hm : modify _ _ _ = Ok _ |- _ => apply modify_step in Hm as (v & v' & _ & Fn & -> & S) end.
      specialize (S (fun _ => I)). split; [|done]. eapply step_ext; [|exact S]. intros y. cbv beta.
      rewrite (deposit_weight s y vbid v v' (head_block_time s) amt req); [lia|by destruct req].
    + repeat run_ok1. subst.
      match goal with Hm : create _ _ = Ok _ |- _ => apply create_step in Hm as (_ & -> & S) end.
      specialize (S (fun _ => I)). split; [|done]. eapply step_ext; [|exact S]. intros y. cbn.
      unfold w_vesting, asset_in. cbn. done.
Qed.
Lemma deposit_witness_pay_step wit amt s u s' :
  deposit_witness_pay wit amt s = Ok (u, s') ->
  step (fun a => if_asset a core_asset amt) s s' /\ dgp s' = dgp s /\ gpo s' = gpo s
  /\ forall k w, witnesses s' !! k = Some w ->
       exists w0, witnesses s !! k = Some w0 /\ last_confirmed_block_num w = last_confirmed_block_num w0.
Proof.
  unfold deposit_witness_pay. destruct (Z.eqb_spec amt 0) as [->|Hne].
  - intros E. run_ok1. split_and!; [|done..|eauto]. eapply step_ext; [|apply step_refl]. intros a. unfold if_asset. by case_match.
  - intros E. do 3 run_ok1. reads_ok. repeat run_ok1.
    match goal with Hd : deposit_lazy_vesting _ _ _ _ _ _ = Ok (?o, _) |- _ =>
      apply deposit_lazy_step in Hd as (S1 & W1 & D1 & G1); destruct o as [vbid|] end.
    + apply modify_step in E as (w & w' & Lk & Fn & -> & S). specialize (S (fun _ => I)). injection Fn as <-.
      split_and!; [|done..|].
      * eapply step_ext; [|eapply step_trans; [exact S1|exact S]]. intros y. cbn. lia.
      * intros k x. cbn in *. rewrite W1 in *. destruct (decide (k = wit)) as [->|Hk].
        -- rewrite lookup_insert_eq. intros [= <-]. eauto.
        -- rewrite lookup_insert_ne by done. eauto.
    + run_ok1. subst. split_and!; [done..|]. rewrite W1. eauto.
Qed.
Lemma signing_witness_balanced wit b s u s' :
  update_signing_witness wit b s = Ok (u, s') -> balanced s s'.
Proof.
  unfold update_signing_witness. intros E. repeat run_ok1. subst.
  match goal with Hs : safe_sub _ _ = Ok ?n |- _ => apply safe_sub_spec in Hs as [-> _] end.
  match goal with Hd : deposit_witness_pay _ ?n _ = Ok _ |- _ => apply deposit_witness_pay_step in Hd as (S1 & _); set (pay := n) in * end.
  apply modify_step in E as (w & w' & _ & _ & _ & S). specialize (S (fun _ => I)).
  destruct S1 as [W1 A1 S1 (_ & K1 & P1)], S as [W2 A2 S2 (_ & K2 & P2)]. split; [split|by rewrite K2, K1].
  - intros [Hw Hp]. split; [apply W2, W1; by destruct Hw|]. unfold proposals_ok. by rewrite P2, P1.
  - intros a. rewrite S2, S1. unfold surplus, if_asset. cbn. case_match; lia.
Qed.
Lemma witness_objects_Ok l s ws s' :
  witness_objects l s = Ok (ws, s') -> s' = s /\ Forall2 (fun i w => witnesses s !! i = Some w) l ws.
Proof.
  revert ws. induction l as [|i l IH]; intros ws E; cbn in E.
  - run_ok1. by split; [|constructor].
  - repeat run_ok1. subst. reads_ok. match goal with Hw : witness_objects l s = Ok _ |- _ => apply IH in Hw as [-> HF] end.
    split; [done|]. by constructor.
Qed.
Lemma irreversible_balanced s u s' : update_last_irreversible_block s = Ok (u, s') -> balanced s s'.
Proof.
  unfold update_last_irreversible_block. intros E. repeat run_ok1.
  match goal with Hw : witness_objects _ _ = Ok _ |- _ => apply witness_objects_Ok in Hw as [-> _] end.
  apply when_Ok in E as [[_ E]|[_ ->]]; [|done]. run_ok1. subst. by apply set_dgp_balanced.
Qed.

(** ** The irreversible block *)
Definition confirmed (m : Z) (w : witness_object) : bool := m <=? last_confirmed_block_num w.
(** How many of the active witnesses have confirmed a block from [m] on. *)
Definition has_confirmed (m : Z) (s : database) (i : Z) : bool :=
  match witnesses s !! i with Some w => confirmed m w | None => false end.
Definition confirmations (m : Z) (s : database) : nat :=
  length (filter (fun i => has_confirmed m s i = true) (active_witnesses (gpo s))).
Lemma confirmations_objects m l ws s :
  Forall2 (fun i w => witnesses s !! i = Some w) l ws ->
  length (filter (fun i => has_confirmed m s i = true) l)
  = length (filter (fun w => confirmed m w = true) ws).
Proof.
  induction 1 as [|i w l ws Hi HF IH]; [done|]. rewrite !filter_cons.
  assert (Hc : has_confirmed m s i = confirmed m w) by (unfold has_confirmed; by rewrite Hi).
  destruct (decide (has_confirmed m s i = true)), (decide (confirmed m w = true)); cbn; congruence.
Qed.
Lemma filter_every {A} (P : A -> Prop) `{!forall x, Decision (P x)} (l : list A) : (forall y, y ∈ l -> P y) -> filter P l = l.
Proof.
  induction l as [|y l IH]; [done|]. intros Hl. rewrite filter_cons_True by (apply Hl; by left).
  f_equal. apply IH. intros z Hz. apply Hl. by right.
Qed.
Lemma filter_none {A} (P : A -> Prop) `{!forall x, Decision (P x)} (l : list A) : (forall y, y ∈ l -> ~ P y) -> filter P l = [].
Proof.
  induction l as [|y l IH]; [done|]. intros Hl. rewrite filter_cons_False by (apply Hl; by left).
  apply IH. intros z Hz. apply Hl. by right.
Qed.
Lemma filter_length_split {A} (P : A -> Prop) `{!forall x, Decision (P x)} (l1 : list A) x l2 :
  ((forall y, y ∈ l1 -> ~ P y) -> ~ P x -> (length (filter P (l1 ++ x :: l2)) <= length l2)%nat)
  /\ ((forall y, y ∈ l2 -> P y) -> P x -> (S (length l2) <= length (filter P (l1 ++ x :: l2)))%nat).
Proof.
  rewrite filter_app, filter_cons. split.
  - intros Hl1 Hx. rewrite decide_False by done.
    rewrite (filter_none P l1) by done. apply length_filter.
  - intros Hl2 Hx. rewrite decide_True by done. rewrite length_app. cbn.
    rewrite (filter_every P l2) by done. lia.
Qed.
Lemma threshold_count n c :
  (c <= n)%nat ->
  (n - Z.to_nat ((GRAPHENE_100_PERCENT - GRAPHENE_IRREVERSIBLE_THRESHOLD) * Z.of_nat n / GRAPHENE_100_PERCENT) <= c)%nat
  <-> GRAPHENE_IRREVERSIBLE_THRESHOLD * Z.of_nat n <= GRAPHENE_100_PERCENT * Z.of_nat c.
Proof.
  unfold GRAPHENE_100_PERCENT, GRAPHENE_IRREVERSIBLE_THRESHOLD. intros Hc.
  pose proof (Z.div_mod ((10000 - 7000) * Z.of_nat n) 10000 ltac:(lia)).
  pose proof (Z.mod_pos_bound ((10000 - 7000) * Z.of_nat n) 10000 ltac:(lia)).
  set (q := (10000 - 7000) * Z.of_nat n / 10000) in *. lia.
Qed.
Lemma irreversible_median ws m w offset :
  nth_element (fun a b => last_confirmed_block_num a <? last_confirmed_block_num b) offset ws !! offset = Some w ->
  m <= last_confirmed_block_num w <-> (length ws - offset <= length (filter (fun w => confirmed m w = true) ws))%nat.
Proof.
  intros Hw. apply list_elem_of_split_length in Hw as (l1 & l2 & El & Hl).
  pose proof (nth_element_perm (fun a b => last_confirmed_block_num a <? last_confirmed_block_num b) offset ws) as Hp.
  apply nth_element_split in El as Hsp; [|intros; lia|intros; lia|done]. destruct Hsp as [H1' H2'].
  rewrite El in Hp. rewrite <- Hp. rewrite length_app. cbn.
  destruct (filter_length_split (fun w => confirmed m w = true) l1 w l2) as [Hno Hyes]. unfold confirmed in *. split.
  - intros Hm. specialize (Hyes (fun y Hy => proj2 (Z.leb_le _ _)
      (Z.le_trans _ _ _ Hm (proj1 (Z.ltb_ge _ _) (H2' y Hy)))) (proj2 (Z.leb_le _ _) Hm)). lia.
  - intros Hc. destruct (Z.le_gt_cases m (last_confirmed_block_num w)) as [?|Hlt]; [done|exfalso].
    opose proof (Hno _ _) as Hn; [intros y Hy; specialize (H1' y Hy); lia|lia|lia].
Qed.

Lemma irreversible_iff (s s' : database) (m : Z) :
  update_last_irreversible_block s = Ok (tt, s') ->
  m <= last_irreversible_block_num (dgp s') <->
    m <= last_irreversible_block_num (dgp s)
    \/ GRAPHENE_IRREVERSIBLE_THRESHOLD * Z.of_nat (length (active_witnesses (gpo s)))
       <= GRAPHENE_100_PERCENT * Z.of_nat (confirmations m s).
Proof.
  unfold update_last_irreversible_block. intros E. do 6 run_ok1.
  match goal with Hw : witness_objects _ _ = Ok (?ws, _), Hn : _ !! _ = Some ?x |- _ =>
    apply witness_objects_Ok in Hw as [-> HF]; rename ws into objs, x into w; apply (irreversible_median _ m) in Hn end.
  pose proof (Forall2_length _ _ _ HF) as Hlen. unfold confirmations. rewrite (confirmations_objects m _ _ _ HF), Hlen.
  rewrite <- threshold_count by apply length_filter.
  apply when_Ok in E as [[Hb E]|[Hb ->]]; [run_ok1; subst s'; cbn|]; rewrite <- Hval; lia.
Qed.

(** C10: the irreversible block.  A block is irreversible after the update exactly
    when it was before, or when at least seventy per cent of the active
    witnesses have confirmed a block with its number or a later one. *)
Theorem irreversible_exact (s s' : database) (m : Z) :
  update_last_irreversible_block s = Ok (tt, s') ->
  m <= last_irreversible_block_num (dgp s') <->
    m <= last_irreversible_block_num (dgp s)
    \/ GRAPHENE_IRREVERSIBLE_THRESHOLD * Z.of_nat (length (active_witnesses (gpo s)))
       <= GRAPHENE_100_PERCENT * Z.of_nat (confirmations m s).
Proof. apply irreversible_iff. Qed.

(** Of the application of a block, the two updates that count who signed: they follow
    one another in [_apply_block].  What a block does besides - its transactions
    before them, maintenance and expirations after them - is not part of this step. *)
Definition sign_block (b : signed_block) : M database unit :=
  _ ← update_signing_witness (witness b) b; update_last_irreversible_block.
Lemma sign_block_witnesses b s u s' :
  sign_block b s = Ok (u, s') ->
  gpo s' = gpo s /\ exists s1, update_last_irreversible_block s1 = Ok (tt, s') /\ gpo s1 = gpo s
    /\ witnesses s' = witnesses s1
    /\ forall k w, witnesses s1 !! k = Some w ->
         if decide (k = witness b) then last_confirmed_block_num w = block_num b
         else exists w0, witnesses s !! k = Some w0 /\ last_confirmed_block_num w = last_confirmed_block_num w0.
Proof.
  unfold sign_block. intros E. run_ok1. destruct u.
  assert (Hu : gpo s' = gpo s0 /\ witnesses s' = witnesses s0).
  { clear Hrun. unfold update_last_irreversible_block in E. do 6 run_ok1.
    match goal with Hw : witness_objects _ _ = Ok _ |- _ => apply witness_objects_Ok in Hw as [-> _] end.
    apply when_Ok in E as [[_ E]|[_ ->]]; [|done]. run_ok1. by subst. }
  destruct Hu as [Hg Hwit]. unfold update_signing_witness in Hrun. repeat run_ok1. subst.
  match goal with Hd : deposit_witness_pay _ _ _ = Ok _ |- _ => apply deposit_witness_pay_step in Hd as (_ & _ & G1 & W1) end.
  apply modify_Ok in Hrun as (w & w' & Hk & Fn & ->). injection Fn as <-. cbn in *.
  split; [congruence|]. eexists. split_and!; [exact E|done|done|]. cbn.
  intros k x. destruct (decide (k = witness b)) as [->|Hne].
  - rewrite lookup_insert_eq. by intros [= <-].
  - rewrite lookup_insert_ne by done. apply W1.
Qed.
(** The active witnesses that sign one of the blocks. *)
Definition signers (l : list signed_block) (s : database) : nat :=
  length (filter (fun i => i ∈ witness <$> l) (active_witnesses (gpo s))).
Definition signed_from (m : Z) (l : list signed_block) (s : database) : Prop :=
  forall i, i ∈ witness <$> l -> has_confirmed m s i = true \/ witnesses s !! i = None.
Lemma signers_confirm m l s :
  signed_from m l s -> (forall i, i ∈ active_witnesses (gpo s) -> is_Some (witnesses s !! i)) ->
  (signers l s <= confirmations m s)%nat.
Proof.
  intros Hl Hex. unfold signers, confirmations. revert Hex. generalize (active_witnesses (gpo s)). intros act.
  induction act as [|i act IH]; intros Hex; [done|]. rewrite !filter_cons.
  specialize (IH ltac:(intros j Hj; apply Hex; by right)).
  destruct (decide (i ∈ witness <$> l)) as [Hi|Hi].
  - rewrite decide_True; [cbn; lia|]. destruct (Hl i Hi) as [?|Hn]; [done|].
    destruct (Hex i ltac:(by left)) as [? ?]. congruence.
  - destruct (decide _); cbn; lia.
Qed.
Lemma irreversible_witnesses s u s' :
  update_last_irreversible_block s = Ok (u, s') ->
  forall i, i ∈ active_witnesses (gpo s) -> is_Some (witnesses s !! i).
Proof.
  unfold update_last_irreversible_block. intros E i Hi. do 6 run_ok1.
  match goal with Hw : witness_objects _ _ = Ok _ |- _ => apply witness_objects_Ok in Hw as [_ HF] end.
  apply list_elem_of_lookup in Hi as [k Hk]. destruct (Forall2_lookup_l _ _ _ _ _ HF Hk) as (w & _ & Hw). by eexists.
Qed.
Lemma sign_block_signed m b l s u s' :
  m <= block_num b -> signed_from m l s -> sign_block b s = Ok (u, s') ->
  signed_from m (b :: l) s' /\ gpo s' = gpo s
  /\ (GRAPHENE_IRREVERSIBLE_THRESHOLD * Z.of_nat (length (active_witnesses (gpo s)))
      <= GRAPHENE_100_PERCENT * Z.of_nat (signers (b :: l) s) -> m <= last_irreversible_block_num (dgp s')).
Proof.
  intros Hm Hl E. apply sign_block_witnesses in E as (Hg & s1 & E & Hg1 & Hw & Hc).
  assert (Hs1 : signed_from m (b :: l) s1).
  { intros i Hi. destruct (witnesses s1 !! i) as [w|] eqn:Ei; [left|by right]. unfold has_confirmed. rewrite Ei.
    specialize (Hc _ _ Ei). unfold confirmed. apply Z.leb_le. case_decide as Hd; [lia|].
    apply elem_of_cons in Hi as [->|Hi]; [done|]. destruct Hc as (w0 & Ew & ->).
    destruct (Hl i Hi) as [Hh|Hn]; [|congruence]. unfold has_confirmed in Hh. rewrite Ew in Hh. by apply Z.leb_le. }
  split_and!; [|done|].
  - intros i Hi. destruct (Hs1 i Hi) as [Hh|Hn]; [left|right; congruence]. unfold has_confirmed in *. by rewrite Hw.
  - intros Ht. apply (irreversible_iff s1 s' m E). right. rewrite Hg1.
    pose proof (signers_confirm m (b :: l) s1 Hs1 (irreversible_witnesses _ _ _ E)) as Hle.
    unfold signers in *. rewrite Hg1 in Hle. unfold GRAPHENE_100_PERCENT in *. lia.
Qed.

(** C9: blocks become irreversible.  When witnesses that make up at least seventy
    per cent of the active ones have each signed a block with the number [m] or
    a later one, block [m] is irreversible, whatever the others did in between. *)
Theorem blocks_become_irreversible (l : list signed_block) (s s' : database) (m : Z) :
  active_witnesses (gpo s) <> [] -> (forall b, b ∈ l -> m <= block_num b) ->
  GRAPHENE_IRREVERSIBLE_THRESHOLD * Z.of_nat (length (active_witnesses (gpo s)))
    <= GRAPHENE_100_PERCENT * Z.of_nat (signers l s) ->
  for_each l sign_block s = Ok (tt, s') -> m <= last_irreversible_block_num (dgp s').
Proof.
  intros Hact Hl Ht E.
  enough (Hg : forall past, signed_from m past s -> (forall b, b ∈ l -> m <= block_num b) ->
    (past <> [] -> GRAPHENE_IRREVERSIBLE_THRESHOLD * Z.of_nat (length (active_witnesses (gpo s)))
       <= GRAPHENE_100_PERCENT * Z.of_nat (signers past s) -> m <= last_irreversible_block_num (dgp s)) ->
    GRAPHENE_IRREVERSIBLE_THRESHOLD * Z.of_nat (length (active_witnesses (gpo s)))
       <= GRAPHENE_100_PERCENT * Z.of_nat (signers (reverse l ++ past) s) -> m <= last_irreversible_block_num (dgp s')).
  { apply (Hg []); [by intros i ?%not_elem_of_nil|done|done|]. rewrite app_nil_r.
    replace (signers (reverse l) s) with (signers l s); [done|]. unfold signers. f_equal.
    apply list_filter_iff. intros i. by rewrite fmap_reverse, elem_of_reverse. }
  clear Hl Ht. revert s E Hact. induction l as [|b l IH]; intros s E Hact past Hp Hl Hthr Ht; cbn in E.
  - run_ok1. subst. apply Hthr; [|done]. intros ->. unfold signers in Ht. cbn in Ht.
    rewrite filter_none in Ht by (by intros ? ? ?%not_elem_of_nil). cbn in Ht.
    unfold GRAPHENE_IRREVERSIBLE_THRESHOLD, GRAPHENE_100_PERCENT in Ht. destruct (active_witnesses (gpo s)); [done|cbn in Ht; lia].
  - run_ok1. match goal with Hr : sign_block b s = Ok (_, ?t) |- _ =>
      apply (sign_block_signed m b past) in Hr as (Hp' & Hg & Hthr'); [|by apply Hl; left|done] end.
    assert (Hs : forall l', signers l' s0 = signers l' s) by (intros; unfold signers; by rewrite Hg).
    apply (IH s0 E ltac:(congruence) (b :: past)); [done|intros; apply Hl; by right| |].
    + rewrite Hg, Hs. auto.
    + rewrite Hg, Hs. rewrite reverse_cons, <- app_assoc in Ht. done.
Qed.

(** *** Expired transactions and permissions *)
Lemma by_time_strict {A} (expires : A -> Z) (m : gmap Z A) : strict_order_on (by_time expires) (map_to_list m).
Proof.
  unfold by_time. split_and!.
  - intros [i x] _. cbn. destruct (Z.ltb_spec (expires x) (expires x)); [lia|]. apply Z.ltb_irrefl.
  - intros [i x] [j y] [k z] _ _ _; cbn. repeat case_match; try done; lia.
  - intros [i x] [j y] Hx%elem_of_map_to_list Hy%elem_of_map_to_list Hne. cbn.
    assert (i <> j) by (intros ->; congruence). repeat case_match; try (by auto); lia.
Qed.
Lemma by_time_first {A} (expires : A -> Z) (m : gmap Z A) i x l :
  ordered (by_time expires) (map_to_list m) = (i, x) :: l ->
  m !! i = Some x /\ forall j y, m !! j = Some y -> expires x <= expires y.
Proof.
  intros E. pose proof (ordered_perm (by_time expires) (map_to_list m)) as Hp. rewrite E in Hp.
  assert (Hin : forall j y, (j, y) ∈ (i, x) :: l <-> m !! j = Some y) by (intros; by rewrite Hp, elem_of_map_to_list).
  split; [apply Hin; by left|]. intros j y [[= -> ->]|Hl]%Hin%elem_of_cons; [lia|].
  pose proof (ordered_sorted (by_time expires) (map_to_list m) (NoDup_map_to_list m) (by_time_strict expires m)) as Hs.
  rewrite E in Hs. apply StronglySorted_inv in Hs as [_ Hs]. rewrite Forall_forall in Hs. specialize (Hs _ Hl).
  unfold by_time in Hs. cbn in Hs. repeat case_match; try done; lia.
Qed.
(** The loop ends, and leaves exactly the rows that have not expired. *)
Lemma drop_expired_spec {A} `{Object A} (expires : A -> Z) (expired : database -> A -> bool) fuel s :
  (forall m s, table (set_table m s) = m) -> (forall m m' s, set_table m (set_table m' s) = set_table m s) ->
  (forall s, set_table (table s) s = s) -> (forall m s x, expired (set_table m s) x = expired s x) ->
  (forall x y, expires x <= expires y -> expired s y = true -> expired s x = true) ->
  (size (table s) <= fuel)%nat ->
  drop_expired fuel expires expired s
  = Ok (tt, set_table (filter (fun x => expired s x.2 = false) (table s)) s).
Proof.
  intros Ht Hss Hid Hex. revert s. induction fuel as [|fuel IH]; intros s Hmono Hsize; cbn [drop_expired];
    unfold mbind, M_bind, get_state.
  - assert (table s = ∅) as E by (apply map_size_empty_iff; lia). rewrite E.
    assert (ordered (by_time expires) (map_to_list (∅ : gmap Z A)) = []) as ->.
    { apply Permutation_nil. symmetry. rewrite ordered_perm. by rewrite map_to_list_empty. }
    rewrite map_filter_empty, <- E, Hid. done.
  - destruct (ordered (by_time expires) (map_to_list (table s))) as [|[i x] l] eqn:Eo.
    + pose proof (ordered_perm (by_time expires) (map_to_list (table s))) as Hp. rewrite Eo in Hp.
      apply Permutation_nil_l in Hp. symmetry in Hp. apply map_to_list_empty_iff in Hp. rewrite Hp, map_filter_empty, <- Hp, Hid. done.
    + apply by_time_first in Eo as [Hx Hmin]. destruct (expired s x) eqn:Ex.
      * unfold remove, deref, find, gets, mbind, M_bind, lift. rewrite Hx. cbn. rewrite IH.
        -- rewrite Ht, Hss. do 3 f_equal. apply map_eq. intros k. apply option_eq. intros y.
           rewrite !map_lookup_filter_Some, lookup_delete_Some. cbn. rewrite Hex. split; [tauto|].
           intros [Hy Hn]. split_and!; [|done|done]. intros <-. congruence.
        -- intros y z. rewrite !Hex. apply Hmono.
        -- rewrite Ht. rewrite map_size_delete_Some by eauto. lia.
      * unfold mret, M_ret. do 2 f_equal. rewrite map_filter_id; [by rewrite Hid|].
        intros j y Hy. cbn. destruct (expired s y) eqn:Ey; [|done]. rewrite <- Ex. symmetry. eapply Hmono; [|done]. by eapply Hmin.
Qed.

(** Expired transactions and permissions.  Each loop ends, whatever the state,
    and removes exactly the rows that have expired. *)
Theorem expired_rows_cleared (s : database) :
  clear_expired_transactions s
    = Ok (tt, set_transactions (filter (fun x => transaction_expired s x.2 = false) (transactions s)) s)
  /\ update_withdraw_permissions s
    = Ok (tt, set_withdraw_permissions (filter (fun x => permit_expired s x.2 = false) (withdraw_permissions s)) s).
Proof.
  unfold clear_expired_transactions, update_withdraw_permissions, mbind, M_bind, gets. split.
  - rewrite (drop_expired_spec trx_expiration transaction_expired (size (transactions s)) s); try done; [by intros []|].
    intros x y Hle. unfold transaction_expired. lia.
  - rewrite (drop_expired_spec permit_expiration permit_expired (size (withdraw_permissions s)) s); try done; [by intros []|].
    intros x y Hle. unfold permit_expired. lia.
Qed.
End Books.

(** ** Concrete runs *)
Import Ref BlockSample.
Module UpdateSample.
#[export] Instance shift_ops : ShiftOps := fun a n => wrap 128 (Z.shiftl a n).
#[export] Instance shift_laws : ShiftLaws.
Proof. by intros a n. Qed.
(** Three active witnesses; the blocks 101 to 103 are signed by each in turn. *)
Definition three : database :=
  set_witnesses {[1 := mk_witness 1 99 201 None 0 99 1 0 ""; 2 := mk_witness 2 98 202 None 0 98 257 0 ""; 3 := mk_witness 3 97 203 None 0 97 513 0 ""]} start.
Definition signed (n w : Z) : signed_block := mk_block (mk_block_id (reverse_word (n - 1)) 0 0) (1600000000 + 5 * (n - 100)) w 0 [] (200 + w).
Definition round : list signed_block := [signed 101 1; signed 102 2; signed 103 3].
Definition signed_round : database := after (for_each round sign_block) three.
End UpdateSample.
Import UpdateSample.
Lemma irreversible_exact_witness :
  98 <= last_irreversible_block_num (dgp (after update_last_irreversible_block three)) <->
    98 <= 90 \/ 7000 * 3 <= 10000 * Z.of_nat (confirmations 98 three).
Proof.
  refine (irreversible_exact three _ 98 (after_Ok _ _ _ _)). vm_compute. reflexivity.
Defined.
Lemma blocks_become_irreversible_witness : 101 <= last_irreversible_block_num (dgp signed_round).
Proof.
  refine (blocks_become_irreversible round three signed_round 101 _ _ _ (after_Ok _ _ _ _)).
  - done.
  - intros b Hb. repeat (apply elem_of_cons in Hb as [->|Hb]; [by vm_compute|]). by apply not_elem_of_nil in Hb.
  - by vm_compute.
  - vm_compute. reflexivity.
Defined.
(** One transaction has expired, the other has not. *)
Lemma expired_rows_cleared_witness :
  let s := set_transactions {[1 := mk_transaction_object 11 1599999999; 2 := mk_transaction_object 12 1600000000]} three in
  clear_expired_transactions s = Ok (tt, set_transactions {[2 := mk_transaction_object 12 1600000000]} s).
Proof.
  cbv zeta. etransitivity; [refine (proj1 (expired_rows_cleared _))|]. vm_compute. reflexivity.
Defined.
End DbUpdate.
