(* ===== verification/DbUpdateLaws.v ===== *)
(** * The books over the housekeeping of a block

    Cancelling expired orders, settling expired settlements against the least
    collateralised positions and renewing expired feeds keep the state
    well formed and every surplus. *)
From Stdlib Require Import ZArith Lia String.
From stdpp Require Import base gmap sets list strings.
From S2P Require Import Prelude External Asset Vesting Authority Chain Balance Accounting Market MarketSupply Evaluator MarketEvaluator MarketLaws AssetObject Transfers AssetOps AssetEvaluator BitassetEvaluator AssetLaws ExchangeRate Credit CreditEvaluator Operations ProposalLaws Scenario Invariant Schedule Block DbUpdate.

Module DbUpdateLaws.
Import Asset Vesting Authority Chain Balance Accounting Market MarketSupply Evaluator MarketEvaluator MarketLaws AssetObject Transfers AssetOps AssetEvaluator BitassetEvaluator AssetLaws ExchangeRate Credit CreditEvaluator Operations ProposalLaws Scenario Invariant Schedule Block DbUpdate.

Section Laws.
Context `{SafeLaws, U128Laws, RationalLaws, IndexLaws, NthLaws, TimeLaws, AddressOps, PackOps, CreditOpsLaws, SignatureOps, BlockOps, ShiftOps}.

(** ** Expired limit orders *)
Lemma start_evaluate_fee `{!Evaluator Op E R} trx required (op : Op) s (r : R) s' :
  start_evaluate trx required op s = Ok (r, s') -> 0 <= amount (op_fee op).
Proof.
  unfold start_evaluate, evaluate, prepare_fee. intros Er. repeat run_ok1.
  match goal with Hr : (0 <=? _) = true |- _ => by apply Z.leb_le in Hr end.
Qed.
Lemma calculate_fee_max fees op rate f : calculate_fee fees op rate = Ok f -> amount f <= GRAPHENE_MAX_SHARE_SUPPLY.
Proof.
  unfold calculate_fee. intros E. repeat run_ok1. subst.
  match goal with Hm : (amount f <=? _) = true |- _ => by apply Z.leb_le in Hm end.
Qed.
Lemma auto_cancel_fee_max o id s fee : auto_cancel_fee o id s = Ok fee -> amount fee <= GRAPHENE_MAX_SHARE_SUPPLY.
Proof.
  unfold auto_cancel_fee. intros E. run_ok1. injection E as <-. apply calculate_fee_max in Hrun.
  destruct (Z.ltb_spec (deferred_fee o) (amount a)); cbn; lia.
Qed.
Lemma cancel_expired_balanced fuel s u s' :
  books_ok s -> cancel_expired_orders fuel s = Ok (u, s') -> balanced s s'.
Proof.
  revert s. induction fuel as [|fuel IH]; intros s Hw; cbn [cancel_expired_orders]; intros E; run_ok1; run_ok1;
    (destruct (expiring_orders s) as [|[id o] l]; [by run_ok1|]); destruct (order_expired s o); try by run_ok1.
  repeat run_ok1.
  match goal with Ha : apply_operation _ _ s = Ok (_, ?t), Hf : auto_cancel_fee _ _ _ = Ok ?fee |- _ =>
    assert (C : balanced s t); [apply auto_cancel_fee_max in Hf; pose proof Ha as Hfee; revert Ha|] end.
  { unfold GRAPHENE_MAX_SHARE_SUPPLY in *. intros Ha. apply conserves_balanced. revert Ha.
    unfold apply_operation, apply_operation_with, evaluate_operation_with, as_asset in Hfee. repeat run_ok1.
    match goal with Hs : start_evaluate _ _ _ _ = Ok _ |- _ => apply start_evaluate_fee in Hs; cbn in Hs end.
    apply apply_operation_conserves; [by intros []|done|apply Hw| | |done]; cbn.
    - unfold limit_order_cancel_validate, fc_assert. cbn. by rewrite (proj2 (Z.leb_le _ _)).
    - red. unfold int64_amount, in_int64, int64_min, int64_max. cbn. lia. }
  etrans; [exact C|]. apply IH; [by apply (bal_wf _ _ C)|done].
Qed.

(** ** Settlements *)
Lemma step_0_trans s1 s2 s3 : step (fun _ => 0) s1 s2 -> step (fun _ => 0) s2 s3 -> step (fun _ => 0) s1 s3.
Proof. intros S1 S2. eapply step_ext; [|eapply step_trans; [exact S1|exact S2]]. done. Qed.
Lemma settle_order_step fuel mia id p mx settled s r s' :
  chain_wf s -> weak_price p -> settle_order fuel mia id p mx settled s = Ok (r, s') -> step (fun _ => 0) s s'.
Proof.
  revert settled s. induction fuel as [|fuel IH]; intros settled s Hw Hp; cbn [settle_order]; intros E; do 2 run_ok1;
    apply lift_Ok in Hrun as [Hlt ->]; apply find_Ok in Hrun0 as [-> ->];
    (destruct a; [destruct (table s !! id) as [order|] eqn:Eo|]); try (run_ok1; apply step_refl).
  repeat run_ok1. reads_ok.
  repeat match goal with
  | Hb : bitasset_of _ _ = Ok _ |- _ => apply bitasset_of_Ok in Hb as (-> & _)
  | Hi : at_itr _ _ _ = Ok _ |- _ => apply at_itr_Ok in Hi as (-> & _)
  end. reads_ok.
  destruct (amount (settlement_balance order) =? 0); [repeat run_ok1; subst; by eapply cancel_settlement_step|].
  match type of E with match ?m with _ => _ end = _ => destruct m as [[x s1]|[e t]] eqn:Em end.
  - run_ok1. apply match_settlement_step in Em; [|done|done|].
    + apply lift_Ok in Hrun as [_ ->]. eapply step_0_trans; [exact Em|]. by apply (IH _ _ (step_wf _ _ _ Em Hw) Hp) in E.
    + apply asset_lt_Ok in Hlt as [_ Hlt]. match goal with Hs : asset_sub _ _ = Ok _ |- _ => apply asset_sub_Ok in Hs as [_ ->] end.
      cbn. lia.
  - destruct (e =? black_swan)%string; [|done]. repeat run_ok1. subst. by eapply cancel_settlement_step.
Qed.
Lemma settlement_price_weak s id f mia p r :
  chain_wf s -> force_settlements s !! id = Some f -> bitasset_ok mia ->
  is_null (settlement_price (current_feed mia)) = false ->
  settlement_receives (settlement_balance f) mia = Ok r -> price_div (settlement_balance f) r = Ok p -> weak_price p.
Proof.
  intros Hw Hf ((Hfeed & _) & _) Hn Er Ep. pose proof (wf_settlements s Hw _ _ Hf) as Hb. red in Hb.
  apply price_div_Ok in Ep as [Hid ->]. unfold settlement_receives in Er. repeat run_ok1. subst.
  match goal with Hm : asset_mul _ _ = Ok _ |- _ => apply asset_mul_weak in Hm as [_ Hx]; [|done|by apply valid_weak, not_null_valid] end.
  match goal with Hr : to_uint64 _ = Ok _ |- _ => apply to_uint64_in_range in Hr end.
  match goal with Hl : asset_le _ _ = Ok true |- _ => apply asset_le_Ok in Hl as [_ Hl]; cbn in Hl end.
  split; cbn; [done|lia|exact Hid].
Qed.
Lemma set_volume_step bid n s u s' :
  modify bid (fun b => Ok (set_settled_volume n b)) s = Ok (u, s') -> step (fun _ => 0) s s'.
Proof.
  intros (b & b' & Hb & Fn & _ & S)%modify_step. injection Fn as <-. eapply step_ext; [|apply S].
  - intros y. cbn. unfold w_bitasset. cbn. lia.
  - intros Hw. split; [exact (wf_bitassets s Hw _ _ Hb)|]. exists b. by split_and!.
Qed.
Lemma settle_rounds_step fuel cur mx s u s' :
  chain_wf s -> settle_rounds fuel cur mx s = Ok (u, s') -> step (fun _ => 0) s s'.
Proof.
  revert cur mx s. induction fuel as [|fuel IH]; intros cur mx s Hw; cbn [settle_rounds]; intros E; do 2 run_ok1;
    (destruct (settlement_lower_bound cur s) as [id|]; [|run_ok1; apply step_refl]); [by run_ok1|].
  assert (Hnext : forall x mx, match settlement_upper_bound x s with
    | Some bound => f ← deref force_settlement_object bound; settle_rounds fuel (settlement_asset_id f) mx
    | None => mret tt end s = Ok (u, s') -> step (fun _ => 0) s s').
  { clear E. intros x mx' E. destruct (settlement_upper_bound x s); [|run_ok1; apply step_refl]. run_ok1. reads_ok. by eapply IH. }
  do 4 run_ok1. reads_ok. match goal with Hb : bitasset_of _ _ = Ok _ |- _ => apply bitasset_of_Ok in Hb as (-> & o & d & Ho & Hi & Hd) end.
  reads_ok. 
  destruct (has_settlement a2).
  { run_ok1. apply cancel_settlement_step in Hrun. eapply step_0_trans; [exact Hrun|]. by apply (IH _ _ _ (step_wf _ _ _ Hrun Hw)) in E. }
  destruct (head_block_time s <? settlement_date a); [by eapply Hnext|].
  destruct (is_null (settlement_price (current_feed a2))) eqn:En.
  { run_ok1. apply cancel_settlement_step in Hrun. eapply step_0_trans; [exact Hrun|]. by apply (IH _ _ _ (step_wf _ _ _ Hrun Hw)) in E. }
  run_ok1. match goal with Hc : (if _ then mret _ else _) s = Ok (_, ?t) |- _ =>
    assert (t = s) as -> by (destruct (asset_id mx =? _); by pure_ok); clear Hc end.
  destruct (_ <=? force_settled_volume a2); [by eapply Hnext|].
  repeat run_ok1. reads_ok.
  match goal with Hs : settle_order _ _ _ _ _ _ s = Ok _ |- _ => apply settle_order_step in Hs as S1; [|done|] end.
  2: { by eapply settlement_price_weak; [| |eapply (wf_bitassets s Hw)|..]. }
  eapply step_0_trans; [exact S1|].
  match goal with Hm : when _ _ ?t = Ok (_, ?t') |- _ => assert (S2 : step (fun _ => 0) t t')
    by (apply when_Ok in Hm as [[_ Hm]|[_ ->]]; [by eapply set_volume_step|apply step_refl]) end.
  eapply step_0_trans; [exact S2|]. eapply IH; [|exact E]. by apply (step_wf _ _ _ S2), (step_wf _ _ _ S1).
Qed.
Lemma clear_expired_orders_balanced s u s' :
  books_ok s -> clear_expired_orders s = Ok (u, s') -> balanced s s'.
Proof.
  intros Hw. unfold clear_expired_orders. intros E. do 4 run_ok1. apply cancel_expired_balanced in Hrun0 as B; [|by run_ok1].
  repeat run_ok1. etrans; [exact B|]. destruct (settlement_book _) as [|[i f] l]; [by run_ok1|].
  apply step_balanced. eapply settle_rounds_step; [|exact E]. by apply (bal_wf _ _ B) in Hw as [].
Qed.

(** ** Feeds *)
Lemma expired_feed_balanced x s u s' :
  books_ok s -> update_expired_feed x s = Ok (u, s') -> balanced s s'.
Proof.
  intros Hok. pose proof Hok as [Hw _]. unfold update_expired_feed. intros E. do 4 run_ok1.
  match goal with Hb : bitasset_of _ _ = Ok _ |- _ => apply bitasset_of_Ok in Hb as (-> & o & d & Ho & Hi & Hd) end.
  apply deref_Ok in Hrun0 as [_ ->]. apply gets_Ok in Hrun1 as [-> ->].
  match goal with Hm : when (feed_expired _ _) _ _ = Ok (_, ?t) |- _ => assert (B : balanced s t) end.
  { clear E. match goal with Hm : when (feed_expired _ _) _ _ = Ok _ |- _ => apply when_Ok in Hm as [[_ Hm]|[_ ->]]; [|done] end.
    repeat run_ok1. reads_ok.
    match goal with Hm : modify _ (update_median_feeds _) s = Ok _ |- _ => apply modify_step in Hm as (b & b' & Hb & Fn & -> & S) end.
    destruct (median_row s a b b b' _ Hw Hb (wf_feeds s Hw _ _ Hb) eq_refl eq_refl eq_refl Fn) as [Hrow Hwt].
    specialize (S (fun _ => Hrow)). apply step_balanced.
    match goal with Hc : check_call_orders _ _ _ _ = Ok _ |- _ =>
      apply check_call_orders_quiet in Hc as [[S2 _] _]; [|exact (step_wf _ _ _ S Hw)] end.
    subst. eapply step_ext; [|eapply step_trans; [exact S|exact S2]]. intros y. cbv beta. rewrite Hwt. lia. }
  etrans; [exact B|]. repeat run_ok1. reads_ok. apply when_Ok in E as [[_ E]|[_ ->]]; [|done].
  pose proof (bal_wf _ _ B Hok) as [Hw2 _]. apply modify_Ok in E as (ao & ao' & La & [= <-] & ->).
  apply conserves_balanced. eapply set_asset_conserves; [exact La|done..|].
  match goal with L : table ?t !! a = Some ?b |- _ => destruct (wf_bitassets t Hw2 _ _ L) as ((_ & _ & _ & Hb & Hq) & _) end.
  pose proof (wf_options _ Hw2 _ _ La) as (? & ? & _). split_and!; cbn; lia.
Qed.
Lemma expired_feeds_balanced s s' : books_ok s -> update_expired_feeds s = Ok (tt, s') -> balanced s s'.
Proof.
  intros Hw. unfold update_expired_feeds. intros E. do 2 run_ok1. eapply for_each_balanced; [|exact Hw|exact E].
  intros x s0 u t _. apply expired_feed_balanced.
Qed.
Lemma maintenance_flag_balanced on s u s' : update_maintenance_flag on s = Ok (u, s') -> balanced s s'.
Proof. unfold update_maintenance_flag. intros E. run_ok1. subst. by apply set_dgp_balanced. Qed.
Lemma block_summary_balanced b s u s' : create_block_summary b s = Ok (u, s') -> balanced s s'.
Proof.
  unfold create_block_summary. intros E. run_ok1. reads_ok. apply modify_step in E as (i & i' & _ & _ & _ & S).
  apply step_balanced. eapply step_ext; [|exact (S (fun _ => I))]. done.
Qed.
Lemma witness_schedule_balanced s u s' : update_witness_schedule s = Ok (u, s') -> balanced s s'.
Proof.
  unfold update_witness_schedule. intros E. run_ok1. run_ok1. destruct (_ =? 0); [by run_ok1|].
  apply when_Ok in E as [[_ E]|[_ ->]]; [|done]. run_ok1. subst. split; [split; [by intros [[] ?]|done]|done].
Qed.
(** ** Expired proposals *)
Lemma last_execution_runs id p s b s' :
  books_ok s -> last_execution id p s = Ok (b, s') -> keeps_books s s'.
Proof.
  intros Hok E. unfold last_execution, try_catch in E.
  match type of E with match ?m with _ => _ end = _ => destruct m as [[x t]|[e t]] eqn:Em end.
  - injection E as <- <-. repeat run_ok1. destruct (is_authorized_to_execute p s); repeat run_ok1; [|done]. subst.
    match goal with Hp : push_proposal _ _ = Ok _ |- _ => by eapply push_proposal_runs in Hp end.
  - destruct (fatal e); [done|]. by run_ok1.
Qed.
Lemma clear_proposals_runs fuel s u s' : books_ok s -> clear_proposals fuel s = Ok (u, s') -> keeps_books s s'.
Proof.
  revert s. induction fuel as [|fuel IH]; intros s Hok; cbn [clear_proposals]; intros E; repeat run_ok1;
    (destruct (expiring_proposals s) as [|[id p] l]; [by run_ok1|]); destruct (proposal_expired s p); repeat run_ok1; try done.
  match goal with Hl : last_execution _ _ _ = Ok _ |- _ => apply last_execution_runs in Hl as R1; [|done] end.
  match goal with Hw : when _ _ ?t = Ok (_, ?t') |- _ => assert (R2 : keeps_books t t')
    by (apply when_Ok in Hw as [[_ Hw]|[_ ->]]; [by eapply remove_proposal_runs|done]) end.
  etrans; [exact R1|]. etrans; [exact R2|]. eapply IH; [|exact E]. by eapply keeps_books_ok, keeps_books_ok.
Qed.
Lemma expired_proposals_balanced s u s' : books_ok s -> clear_expired_proposals s = Ok (u, s') -> balanced s s'.
Proof. intros Hok. unfold clear_expired_proposals. intros E. repeat run_ok1. eapply runs_balanced, clear_proposals_runs; [|exact E]. done. Qed.

Lemma expired_rows_balanced s s' :
  clear_expired_transactions s = Ok (tt, s') \/ update_withdraw_permissions s = Ok (tt, s') -> balanced s s'.
Proof.
  unfold clear_expired_transactions, update_withdraw_permissions, mbind, M_bind, gets.
  assert (Ht : forall m, balanced s (set_transactions m s)) by (intros m; split; [split; [by intros [[] ?]|done]|done]).
  assert (Hp : forall m, balanced s (set_withdraw_permissions m s)) by (intros m; split; [split; [by intros [[] ?]|done]|done]).
  rewrite (drop_expired_spec trx_expiration transaction_expired), (drop_expired_spec permit_expiration permit_expired);
    try done; try (by intros []); try (intros x y; unfold transaction_expired, permit_expired; lia).
  intros [[= <-]|[= <-]]; [apply Ht|apply Hp].
Qed.
End Laws.
End DbUpdateLaws.
