(* ===== verification/Maintenance.v ===== *)
(** * Chain maintenance ([db_maint.cpp], [fba_object.cpp])

    What is done once in a maintenance interval: distributing the fees of the
    accumulators, trading for the buyback accounts, counting the votes ([Votes]),
    changing the parameters of the chain, fixing the next maintenance time,
    reviving settled assets by the bids on them, and the budget ([Budget]). *)
From Stdlib Require Import ZArith Lia String.
From stdpp Require Import base gmap sets list strings.
From S2P Require Import Prelude External Asset Vesting Authority Float Chain Balance Accounting Market Evaluator MarketEvaluator Transfers AssetOps AssetObject AssetEvaluator BitassetEvaluator AccountOps AccountEvaluator MemberEvaluator ExchangeRate Credit CreditEvaluator Operations Votes Budget Schedule Block DbUpdate.

Module Maintenance.
Import Asset Vesting Authority Float Chain Balance Accounting Market Evaluator MarketEvaluator Transfers AssetOps AssetObject AssetEvaluator BitassetEvaluator AccountOps AccountEvaluator MemberEvaluator ExchangeRate Credit CreditEvaluator Operations Votes Budget Schedule Block DbUpdate.

Definition GRAPHENE_1_PERCENT : Z := GRAPHENE_100_PERCENT / 100.

(** ** Parameters of the chain *)
(** Removing the scaling of the fee for registering an account. *)
Definition shift_fee_right (bits : Z) (k : fee_parameters) : result fee_parameters :=
  if bits <? 64 then Ok (with_flat_fee (Z.shiftr (flat_fee k) bits) k) else Throw undefined_shift.
Definition unscale_account_fee (registered : Z) (p : chain_parameters) : result chain_parameters :=
  _ ← fc_assert (negb (accounts_per_fee_scale p =? 0)) undefined_modulo;
  set_account_fee (shift_fee_right (wrap 32 (account_fee_scale_bitshifts p * (registered / accounts_per_fee_scale p)))) p.
(** A schedule without a fee for exchange rates is built anew, with the scale of
    a new schedule. *)
Definition exchange_rate_set_tag : Z := 52.
Definition default_exchange_rate_fee : fee_parameters :=
  mk_fee_parameters GRAPHENE_BLOCKCHAIN_PRECISION 10 0 0 0 0 0 0.
Definition add_exchange_rate_fee (p : chain_parameters) : chain_parameters :=
  match fee_table (current_fees p) !! exchange_rate_set_tag with
  | Some _ => p
  | None => with_current_fees
              (mk_fee_schedule (<[exchange_rate_set_tag := default_exchange_rate_fee]> (fee_table (current_fees p)))
                 GRAPHENE_100_PERCENT) p
  end.
Definition complete_extensions (p : chain_parameters) : chain_parameters :=
  let p := with_extensions (set_credit_options (get_credit_options (extensions p)) (extensions p)) p in
  with_extensions (set_bonus_options (get_bonus_options (extensions p)) (extensions p)) p.
Definition apply_pending_parameters (g : global_property_object) : global_property_object :=
  match pending_parameters g with
  | Some p => with_pending_parameters None (with_parameters (complete_extensions p) g)
  | None => g
  end.
Definition update_parameters (registered : Z) (g : global_property_object) : result global_property_object :=
  p ← unscale_account_fee registered (parameters g);
  Ok (apply_pending_parameters (with_parameters (add_exchange_rate_fee p) g)).

(** ** The next maintenance time *)
Definition next_maintenance (now timestamp num next interval : Z) `{TimeOps} : result Z :=
  if next <=? timestamp then
    _ ← fc_assert (negb (interval =? 0)) division_by_zero;
    if num =? 1 then Ok (time_add 0 (wrap 32 ((timestamp / interval + 1) * interval)))
    else Ok (time_add next (wrap 32 (((now - next) / interval + 1) * interval)))
  else Ok next.

(** What becomes of an operation that the maintenance applies for itself.  In the
    code an exception of it goes to the handler around it, with the changes made
    so far ([as_coded]); the proofs also run the maintenance with a handler that
    watches for such exceptions ([MaintenanceLaws.watched]). *)
Class Applying : Type := applying : forall {A}, M database A -> M database A.
#[export] Instance as_coded : Applying := fun A m => m.

Section Steps.
Context `{SafeOps, U128Ops, RationalOps, IndexOps, NthOps, TimeOps, AddressOps, PackOps, CreditOps, SignatureOps, BlockOps} {AP : Applying} {EX : Exhausted database}.

(** ** Fee-backed assets *)
(** [fba_accumulator_object::is_configured]. *)
Definition top_holders_of (x : special_authority) (a : Z) : bool :=
  match x with top_holders_special_authority asset _ => asset =? a | no_special_authority => false end.
Definition within (bits allowed : Z) : bool := Z.land bits allowed =? bits.
Definition is_configured (fba : fba_accumulator_object) : M database bool :=
  match designated_asset fba with
  | None => mret false
  | Some a =>
      dasset ← find asset_object a;
      match dasset with
      | None => mret false
      | Some o =>
          if is_market_issued o then mret false
          else if negb (within (issuer_permissions (options o)) charge_market_fee) then mret false
          else if negb (within (flags (options o)) charge_market_fee) then mret false
          else if negb (is_some (buyback_account o)) then mret false
          else
            issuer_acct ← get account_object (issuer o);
            mret (top_holders_of (owner_special_authority issuer_acct) a
                  && top_holders_of (active_special_authority issuer_acct) a
                  && (top_n_control_flags issuer_acct =? Z.lor top_n_control_owner top_n_control_active))
      end
  end.
Definition set_accumulated (n : Z) (f : fba_accumulator_object) : fba_accumulator_object :=
  mk_fba_accumulator n (designated_asset f).
Definition share_of (fees percent : Z) : result Z := n ← u128_ratio fees percent GRAPHENE_100_PERCENT; Ok (as_int64 n).
Definition distribute_share (account fba_id n : Z) : M database unit :=
  when (negb (n =? 0))
    (_ ← adjust_balance account (mk_asset n core_asset);
     push_applied_operation (fba_distribute_operation account fba_id n)).
Definition split_fba_balance (fba_id network_pct buyback_pct issuer_pct : Z) : M database unit :=
  _ ← require (network_pct + buyback_pct + issuer_pct =? GRAPHENE_100_PERCENT) "percentages";
  fba ← get fba_accumulator_object fba_id;
  let fees := accumulated_fba_fees fba in
  if fees =? 0 then mret tt
  else
    core ← get asset_object core_asset;
    core_dd ← dynamic_of core;
    configured ← is_configured fba;
    if negb (configured : bool) then
      _ ← modify core_dd (sub_supply fees);
      modify fba_id (fun f => Ok (set_accumulated 0 f))
    else
      buyback_amount ← lift (share_of fees buyback_pct);
      issuer_amount ← lift (share_of fees issuer_pct);
      given ← lift (safe_add buyback_amount issuer_amount);
      _ ← require (given <=? fees) "buyback_amount + issuer_amount <= fba.accumulated_fba_fees";
      network_amount ← lift (safe_sub fees given);
      id ← lift (of_option (designated_asset fba) dangling);
      o ← get asset_object id;
      _ ← when (negb (network_amount =? 0)) (modify core_dd (sub_supply network_amount));
      buyback ← lift (of_option (buyback_account o) dangling);
      _ ← distribute_share buyback fba_id buyback_amount;
      _ ← distribute_share (issuer o) fba_id issuer_amount;
      modify fba_id (fun f => Ok (set_accumulated 0 f)).
Definition fba_accumulator_id_transfer_to_blind : Z := 0.
Definition fba_accumulator_id_blind_transfer : Z := 1.
Definition fba_accumulator_id_transfer_from_blind : Z := 2.
Definition distribute_fba_balances : M database unit :=
  _ ← split_fba_balance fba_accumulator_id_transfer_to_blind (20 * GRAPHENE_1_PERCENT) (60 * GRAPHENE_1_PERCENT) (20 * GRAPHENE_1_PERCENT);
  _ ← split_fba_balance fba_accumulator_id_blind_transfer (20 * GRAPHENE_1_PERCENT) (60 * GRAPHENE_1_PERCENT) (20 * GRAPHENE_1_PERCENT);
  split_fba_balance fba_accumulator_id_transfer_from_blind (20 * GRAPHENE_1_PERCENT) (60 * GRAPHENE_1_PERCENT) (20 * GRAPHENE_1_PERCENT).

(** ** Operations of the chain itself *)
Definition context : transaction_evaluation_state := mk_trx_state false false true.
(** [db.apply_operation( context, op )]. *)
Definition apply_operation {Op E R} `{!Evaluator Op E R} (op : operation) (o : Op) : M database R :=
  _ ← push_applied_operation (applied_operation (which op));
  s ← get_state;
  ge ← evaluate context (calculate_fee_for_operation op s) o;
  applying (apply context ge.1 ge.2 o).
(** [try { m } catch( const fc::exception& ) { h }] with no undo session: what [m]
    had changed when it threw stays. *)
Definition catching {A} (m h : M database A) : M database A := fun s =>
  match m s with
  | Ok r => Ok r
  | Throw (e, s') => if fatal e then Throw (e, s') else h s'
  end.

(** ** [create_buyback_orders] *)
(** [lower_bound( ( owner, asset ) )] among the balances, if it is one of the owner. *)
Definition next_balance (owner from : Z) (s : database) : option (Z * Z) :=
  head ((fun x => (x.1.2, x.2))
          <$> ordered (fun x y => x.1.2 <? y.1.2)
                (filter (fun x => x.1.1 = owner /\ from <= x.1.2) (map_to_list (account_balances s)))).
Definition sell_all (account asset_to_sell amount_to_sell asset_to_buy : Z) : M database unit :=
  let create_vop := mk_limit_create (mk_asset 0 core_asset) account (mk_asset amount_to_sell asset_to_sell)
                      (mk_asset 1 asset_to_buy) time_point_sec_maximum false in
  catching
    (order_id ← apply_operation (op_limit_order_create create_vop) create_vop;
     left ← find limit_order_object order_id;
     when (is_some left)
       (let cancel_vop := mk_limit_cancel (mk_asset 0 core_asset) order_id account in
        _ ← apply_operation (op_limit_order_cancel cancel_vop) cancel_vop; mret tt))
    (mret tt).
(** The value of a [share_type] that is read. *)
Definition as_share (n : Z) : result Z := if bool_decide (in_int64 n) then Ok n else Throw undefined_overflow.
(** The assets visited ascend: each of those allowed is sold once at most, and
    between two sales there are no more rounds than holdings. *)
Definition for_sale_now (allowed : gset Z) (asset_to_buy asset_to_sell amount : Z) : bool :=
  negb (asset_to_sell =? asset_to_buy) && negb (amount =? 0) && bool_decide (asset_to_sell ∈ allowed).
Definition buyback_fuel (s : database) : nat := size (account_balances s).
Fixpoint sell_holdings (sales : nat) (account : Z) (allowed : gset Z) (asset_to_buy : Z)
  : nat -> Z -> M database unit :=
  fix rounds (fuel : nat) (next_asset : Z) : M database unit :=
    it ← gets (next_balance account next_asset);
    match (it : option (Z * Z)) with
    | None => mret tt
    | Some (asset_to_sell, amount) =>
        if for_sale_now allowed asset_to_buy asset_to_sell amount then
          match sales with
          | O => exhausted
          | S sales' =>
              amount_to_sell ← lift (as_share amount);
              _ ← sell_all account asset_to_sell amount_to_sell asset_to_buy;
              fuel ← gets buyback_fuel;
              sell_holdings sales' account allowed asset_to_buy fuel (asset_to_sell + 1)
          end
        else
          match fuel with
          | O => exhausted
          | S fuel' => rounds fuel' (asset_to_sell + 1)
          end
    end.
Definition create_buyback_order (bbo : buyback_object) : M database unit :=
  a ← get asset_object (bought_asset bbo);
  id ← lift (of_option (buyback_account a) "asset_to_buy.buyback_account.valid()");
  acct ← get account_object id;
  match allowed_assets acct with
  | None => mret tt
  | Some allowed => fuel ← gets buyback_fuel; sell_holdings (size allowed) id allowed (bought_asset bbo) fuel 0
  end.
Definition create_buyback_orders : M database unit :=
  s ← get_state; for_each (by_id (buybacks s)) (fun x => create_buyback_order x.2).

(** ** [deprecate_annual_members] *)
Definition deprecate_annual_member (now id : Z) : M database unit :=
  acct ← deref account_object id;
  when (is_annual_member acct now)
    (let upgrade_vop := mk_account_upgrade (mk_asset 0 core_asset) id true in
     catching (_ ← apply_operation (op_account_upgrade upgrade_vop) upgrade_vop; mret tt) (mret tt)).
Definition deprecate_annual_members : M database unit :=
  s ← get_state; for_each (by_id (accounts s)) (fun x => deprecate_annual_member (head_block_time s) x.1).

(** ** [process_bids] *)
Definition before_key (mia : Z) (p : price) (b : collateral_bid_object) : bool :=
  (bid_debt_type b <? mia) || ((bid_debt_type b =? mia) && price_gt (inv_swan_price b) p).
Fixpoint drop_while {A} (f : A -> bool) (l : list A) : list A :=
  match l with [] => [] | x :: l' => if f x then drop_while f l' else l end.
(** The first loop: what the bids cover, and the bids. *)
Fixpoint cover (bad : asset_bitasset_data_object) (mia supply covered : Z) (l : list (Z * collateral_bid_object))
  : result (Z * list Z) :=
  match l with
  | [] => Ok (covered, [])
  | (id, bid) :: l' =>
      if (covered <? supply) && (bid_debt_type bid =? mia) then
        from_fund ← asset_mul (quote (inv_swan_price bid)) (swan_price bad);
        total_collateral ← asset_add from_fund (base (inv_swan_price bid));
        p ← call_price (quote (inv_swan_price bid)) total_collateral (maintenance_collateral_ratio (current_feed bad));
        if price_ge (price_inv p) (settlement_price (current_feed bad)) then Ok (covered, [])
        else
          covered' ← safe_add covered (amount (quote (inv_swan_price bid)));
          r ← cover bad mia supply covered' l';
          Ok (r.1, id :: r.2)
      else Ok (covered, [])
  end.
(** The second loop. *)
Fixpoint execute_bids (bad : asset_bitasset_data_object) (l : list Z) (to_cover remaining_fund : Z)
  : M database (Z * Z) :=
  match l with
  | [] => mret (to_cover, remaining_fund)
  | id :: l' =>
      bid ← deref collateral_bid_object id;
      let n := amount (quote (inv_swan_price bid)) in
      from_fund ← lift (asset_mul (quote (inv_swan_price bid)) (swan_price bad));
      let debt := if to_cover <=? n then to_cover else n in
      let collateral := if to_cover <=? n then remaining_fund else amount from_fund in
      to_cover' ← lift (safe_sub to_cover debt);
      remaining' ← lift (safe_sub remaining_fund collateral);
      _ ← execute_bid id debt collateral (current_feed bad);
      execute_bids bad l' to_cover' remaining'
  end.
Definition process_bids (bid : Z) : M database unit :=
  bad ← deref asset_bitasset_data_object bid;
  now ← gets head_block_time;
  if is_prediction_market bad || is_null (settlement_price (current_feed bad)) || (now <=? HARDFORK_CORE_216_TIME)
  then mret tt
  else
    let backing := short_backing_asset (bitasset_opts bad) in
    x ← lift (asset_mul (mk_asset 0 backing) (swan_price bad));
    let to_revive_id := asset_id x in
    to_revive ← get asset_object to_revive_id;
    dyn ← dynamic_of to_revive;
    bdd ← deref asset_dynamic_data_object dyn;
    p ← lift (price_max backing to_revive_id);
    s ← get_state;
    let supply := current_supply bdd in
    r ← lift (cover bad to_revive_id supply 0 (drop_while (fun x => before_key to_revive_id p x.2) (bid_book s)));
    if r.1 <? supply then mret tt
    else
      rest ← execute_bids bad r.2 supply (settlement_fund bad);
      _ ← require (rest.2 =? 0) "remaining_fund == 0";
      _ ← require (rest.1 =? 0) "to_cover == 0";
      cancel_bids_and_revive_mpa to_revive_id bid.
Definition maintain_bitasset (bid : Z) : M database unit :=
  _ ← modify bid (fun b => Ok (set_settled_volume 0 b));
  d ← deref asset_bitasset_data_object bid;
  when (has_settlement d) (process_bids bid).

(** ** [perform_chain_maintenance] *)
Definition count_votes_of_accounts : M database vote_tally :=
  s ← get_state; perform_account_maintenance (accounts_by_name s) (new_tally (gpo s)).
Definition hold_elections : M database unit :=
  t ← count_votes_of_accounts;
  _ ← update_top_n_authorities;
  _ ← update_active_witnesses t;
  _ ← update_active_committee_members t;
  update_worker_votes t.
Definition change_parameters : M database unit :=
  s ← get_state;
  g ← lift (update_parameters (accounts_registered_this_interval (dgp s)) (gpo s));
  update (set_gpo g).
Definition fix_next_maintenance (timestamp num : Z) : M database unit :=
  s ← get_state;
  let last := next_maintenance_time (dgp s) in
  next ← lift (next_maintenance (head_block_time s) timestamp num last (maintenance_interval (parameters (gpo s))));
  _ ← when ((last <? HARDFORK_613_TIME) && (HARDFORK_613_TIME <=? next)) deprecate_annual_members;
  update_dgp (fun d => with_accounts_registered_this_interval 0 (with_next_maintenance_time next d)).
Definition maintain_bitassets : M database unit :=
  s ← get_state; for_each (by_id (bitasset_data s)) (fun x => maintain_bitasset x.1).
Definition perform_chain_maintenance (next_block : signed_block) : M database unit :=
  _ ← distribute_fba_balances;
  _ ← create_buyback_orders;
  _ ← hold_elections;
  _ ← change_parameters;
  _ ← fix_next_maintenance (timestamp next_block) (block_num next_block);
  _ ← maintain_bitassets;
  process_budget.
End Steps.
End Maintenance.
