(* ===== verification/Frames.v ===== *)
(** * What operations leave alone

    The head of the chain and the records of the transactions applied so far are
    changed by the application of a transaction or a block only: no operation, no
    maintenance and no other part of the housekeeping after a block touches them,
    whether it returns or throws and whatever the state it runs in. *)
From Stdlib Require Import ZArith Lia String.
From stdpp Require Import base gmap sets list strings.
From S2P Require Import Prelude External Asset Vesting Authority Float Chain Balance Accounting Market Evaluator MarketEvaluator AssetObject Transfers AssetOps AccountOps AccountEvaluator MemberEvaluator AssetEvaluator BitassetEvaluator Votes Budget ExchangeRate Credit CreditEvaluator OperationRules Proposal Operations Schedule Block DbUpdate Maintenance.

Module Frames.
Import Asset Vesting Authority Float Chain Balance Accounting Market Evaluator MarketEvaluator AssetObject Transfers AssetOps AccountOps AccountEvaluator MemberEvaluator AssetEvaluator BitassetEvaluator Votes Budget ExchangeRate Credit CreditEvaluator OperationRules Proposal Operations Schedule Block DbUpdate.

(** The block number, identifier and time of the head. *)
Definition same_head (s s' : database) : Prop :=
  head_block_number (dgp s') = head_block_number (dgp s) /\ head_block_id (dgp s') = head_block_id (dgp s)
  /\ time (dgp s') = time (dgp s) /\ transactions s' = transactions s.
#[export] Instance same_head_preorder : PreOrder same_head.
Proof. split; [by repeat split|]. unfold same_head. intros s1 s2 s3 ? ?. intuition congruence. Qed.

Definition kept {A} (m : M database A) : Prop :=
  forall s, match m s with Ok (_, s') | Throw (_, s') => same_head s s' end.
Lemma kept_Ok {A} (m : M database A) s r s' : kept m -> m s = Ok (r, s') -> same_head s s'.
Proof. intros Hm E. specialize (Hm s). by rewrite E in Hm. Qed.
Lemma kept_bind {A B} (m : M database A) (f : A -> M database B) : kept m -> (forall x, kept (f x)) -> kept (m ≫= f).
Proof.
  intros Hm Hf s. unfold mbind, M_bind. specialize (Hm s). destruct (m s) as [[x t]|[e t]]; [|done].
  specialize (Hf x t). destruct (f x t) as [[y u]|[e u]]; by etrans.
Qed.
Lemma kept_reads {A} (f : database -> A) : kept (gets f).
Proof. by intros s. Qed.
Lemma kept_ret {A} (x : A) : kept (mret x).
Proof. by intros s. Qed.
Lemma kept_get_state : kept get_state.
Proof. by intros s. Qed.
Lemma kept_lift {A} (r : result A) : kept (lift r).
Proof. intros s. unfold lift. by destruct r. Qed.
Lemma kept_throw {A} e : kept (throw (A := A) e).
Proof. by intros s. Qed.
Lemma kept_require b e : kept (require b e).
Proof. apply kept_lift. Qed.
Lemma kept_when b (m : M database unit) : kept m -> kept (when b m).
Proof. intros Hm. destruct b; [done|apply kept_ret]. Qed.
Lemma kept_for_each {A} (l : list A) (f : A -> M database unit) : (forall x, kept (f x)) -> kept (for_each l f).
Proof. intros Hf. induction l as [|x l IH]; cbn; [apply kept_ret|by apply kept_bind]. Qed.
Lemma kept_on_some {A} (o : option A) (f : A -> M database unit) : (forall x, kept (f x)) -> kept (on_some o f).
Proof. intros Hf. destruct o; cbn; [apply Hf|apply kept_ret]. Qed.
Lemma kept_try {A} (m h : M database A) : kept m -> kept h -> kept (try_catch m h).
Proof.
  intros Hm Hh s. unfold try_catch. specialize (Hm s). destruct (m s) as [[x t]|[e t]]; [done|].
  destruct (fatal e); [done|apply Hh].
Qed.
Lemma kept_catching {A} (m h : M database A) : kept m -> kept h -> kept (Maintenance.catching m h).
Proof.
  intros Hm Hh s. unfold Maintenance.catching. specialize (Hm s). destruct (m s) as [[x t]|[e t]]; [done|].
  destruct (fatal e); [done|]. specialize (Hh t). destruct (h t) as [[y u]|[e' u]]; by etrans.
Qed.
Lemma kept_update f : (forall s, same_head s (f s)) -> kept (update f).
Proof. intros Hf s. apply Hf. Qed.

(** The tables other than those of the transactions. *)
Class Unrelated (A : Type) `{Object A} : Prop := unrelated : forall m s, same_head s (set_table m s).
Section Tables.
Context {A : Type} `{Unrelated A}.
Lemma kept_find id : kept (find A id).
Proof. apply kept_reads. Qed.
Lemma kept_get id : kept (get A id).
Proof. apply kept_bind; [apply kept_reads|intros; apply kept_lift]. Qed.
Lemma kept_deref id : kept (deref A id).
Proof. apply kept_bind; [apply kept_reads|intros; apply kept_lift]. Qed.
Lemma kept_modify id f : kept (modify (A := A) id f).
Proof.
  unfold modify. apply kept_bind; [apply kept_deref|intros o]. apply kept_bind; [apply kept_lift|intros o'].
  apply kept_update. intros s. apply unrelated.
Qed.
Lemma kept_remove id : kept (remove A id).
Proof. unfold remove. apply kept_bind; [apply kept_deref|intros o]. apply kept_update. intros s. apply unrelated. Qed.
Lemma kept_create `{UniqueKey A} (o : A) : kept (create o).
Proof.
  unfold create. apply kept_bind; [apply kept_get_state|intros s]. do 2 (apply kept_bind; [apply kept_require|intros []]).
  apply kept_bind; [|intros; apply kept_ret]. apply kept_update. intros t.
  destruct (unrelated (<[next_instance type_id s := o]> (table t)) t) as (? & ? & ? & ?). by repeat split.
Qed.
End Tables.
Create HintDb kept.
#[export] Hint Resolve kept_reads kept_ret kept_get_state kept_lift kept_throw kept_require kept_find kept_get kept_deref
  kept_modify kept_remove kept_create : kept.
#[export] Hint Extern 1 (Unrelated _) => (intros ? ?; by repeat split) : typeclass_instances.

(** The head symbol of a run. *)
Ltac run_head m := lazymatch m with ?f _ => run_head f | ?f => f end.
Ltac kept1 :=
  lazymatch goal with
  | |- forall _, _ => intros
  | |- kept (_ ≫= _) => apply kept_bind
  | |- kept (when _ _) => apply kept_when
  | |- kept (for_each _ _) => apply kept_for_each
  | |- kept (on_some _ _) => apply kept_on_some
  | |- kept (try_catch _ _) => apply kept_try
  | |- kept (Maintenance.catching _ _) => apply kept_catching
  | |- kept (update _) => apply kept_update; intros; by repeat split
  | |- kept (match ?x with _ => _ end) => destruct x
  | |- kept (@do_evaluate _ _ _ ?i _ _) => let h := run_head i in unfold h; cbn [do_evaluate]
  | |- kept (@pay_fee _ _ _ ?i _ _) => let h := run_head i in unfold h; cbn [pay_fee]
  | |- kept (@do_apply _ _ _ ?i _ _ _ _) => let h := run_head i in unfold h; cbn [do_apply]
  | |- kept ?m => first [ solve [auto with kept nocore typeclass_instances] | let h := run_head m in progress unfold h ]
  end.
Ltac solve_kept := repeat (cbv beta zeta; kept1).

(** ** Accounts, fees and the market *)
Section Operations.
Context `{SafeOps, U128Ops, RationalOps, IndexOps, NthOps, TimeOps, AddressOps, PackOps, CreditOps, SignatureOps, BlockOps, ShiftOps}.

Lemma adjust_balance_kept account delta : kept (adjust_balance account delta).
Proof. solve_kept. Qed.
#[local] Hint Resolve adjust_balance_kept : kept.
Lemma push_applied_kept op : kept (push_applied_operation op).
Proof. solve_kept. Qed.
#[local] Hint Resolve push_applied_kept : kept.
Lemma statistics_of_kept a : kept (statistics_of a).
Proof. solve_kept. Qed.
#[local] Hint Resolve statistics_of_kept : kept.
Lemma bitasset_of_kept a : kept (bitasset_of a).
Proof. solve_kept. Qed.
#[local] Hint Resolve bitasset_of_kept : kept.
Lemma dynamic_of_kept a : kept (dynamic_of a).
Proof. solve_kept. Qed.
#[local] Hint Resolve dynamic_of_kept : kept.
Lemma cancel_settlement_kept id b : kept (cancel_settlement id b).
Proof. solve_kept. Qed.
#[local] Hint Resolve cancel_settlement_kept : kept.
Lemma cancel_order_kept id b : kept (cancel_order id b).
Proof. solve_kept. Qed.
#[local] Hint Resolve cancel_order_kept : kept.
Lemma cancel_bid_kept id b : kept (cancel_bid id b).
Proof. solve_kept. Qed.
#[local] Hint Resolve cancel_bid_kept : kept.
Lemma maybe_cull_kept id : kept (maybe_cull_small_order id).
Proof. solve_kept. Qed.
#[local] Hint Resolve maybe_cull_kept : kept.
Lemma pay_market_fees_kept a r : kept (pay_market_fees a r).
Proof. solve_kept. Qed.
#[local] Hint Resolve pay_market_fees_kept : kept.
Lemma pay_order_kept a r p : kept (pay_order a r p).
Proof. solve_kept. Qed.
#[local] Hint Resolve pay_order_kept : kept.
Lemma release_collateral_kept a c p : kept (release_collateral a c p).
Proof. solve_kept. Qed.
#[local] Hint Resolve release_collateral_kept : kept.
Lemma fill_limit_order_kept id p r c f m : kept (fill_limit_order id p r c f m).
Proof. solve_kept. Qed.
#[local] Hint Resolve fill_limit_order_kept : kept.
Lemma fill_call_order_kept id p r f m : kept (fill_call_order id p r f m).
Proof. solve_kept. Qed.
#[local] Hint Resolve fill_call_order_kept : kept.
Lemma fill_settlement_kept id p r f m : kept (fill_settlement id p r f m).
Proof. solve_kept. Qed.
#[local] Hint Resolve fill_settlement_kept : kept.
Lemma match_limit_kept u c p : kept (match_limit u c p).
Proof. solve_kept. Qed.
#[local] Hint Resolve match_limit_kept : kept.
Lemma match_settlement_kept c f p m : kept (match_settlement c f p m).
Proof. solve_kept. Qed.
#[local] Hint Resolve match_settlement_kept : kept.
Lemma settle_calls_kept fuel p e i g : kept (settle_calls fuel p e i g).
Proof. revert i g. induction fuel as [|fuel IH]; intros i g; cbn [settle_calls]; solve_kept; apply IH. Qed.
#[local] Hint Resolve settle_calls_kept : kept.
Lemma globally_settle_kept a p : kept (globally_settle_asset a p).
Proof. solve_kept. Qed.
#[local] Hint Resolve globally_settle_kept : kept.
Lemma check_for_blackswan_kept a b : kept (check_for_blackswan a b).
Proof. solve_kept. Qed.
#[local] Hint Resolve check_for_blackswan_kept : kept.
Lemma call_round_kept m b e f l st : kept (call_round m b e f l st).
Proof. solve_kept. Qed.
#[local] Hint Resolve call_round_kept : kept.
Lemma call_rounds_kept fuel m b e f l c st : kept (call_rounds fuel m b e f l c st).
Proof. revert st. induction fuel as [|fuel IH]; intros st; cbn [call_rounds]; solve_kept; apply IH. Qed.
#[local] Hint Resolve call_rounds_kept : kept.
Lemma check_call_orders_kept m b f : kept (check_call_orders m b f).
Proof. solve_kept. Qed.
#[local] Hint Resolve check_call_orders_kept : kept.
Lemma match_rounds_kept fuel n e i b : kept (match_rounds fuel n e i b).
Proof. revert i b. induction fuel as [|fuel IH]; intros i b; cbn [match_rounds]; solve_kept; apply IH. Qed.
#[local] Hint Resolve match_rounds_kept : kept.
Lemma apply_order_kept id b : kept (apply_order id b).
Proof. solve_kept. Qed.
#[local] Hint Resolve apply_order_kept : kept.
Lemma execute_bid_kept id d c f : kept (execute_bid id d c f).
Proof. solve_kept. Qed.
#[local] Hint Resolve execute_bid_kept : kept.
Lemma cancel_bids_kept fuel m i : kept (cancel_bids fuel m i).
Proof. revert i. induction fuel as [|fuel IH]; intros i; cbn [cancel_bids]; solve_kept; apply IH. Qed.
#[local] Hint Resolve cancel_bids_kept : kept.
Lemma cancel_bids_and_revive_kept m b : kept (cancel_bids_and_revive_mpa m b).
Proof. solve_kept. Qed.
#[local] Hint Resolve cancel_bids_and_revive_kept : kept.
Lemma revive_bitasset_kept m : kept (revive_bitasset m).
Proof. solve_kept. Qed.
#[local] Hint Resolve revive_bitasset_kept : kept.
Lemma prepare_fee_kept trx a f : kept (prepare_fee trx a f).
Proof. solve_kept. Qed.
#[local] Hint Resolve prepare_fee_kept : kept.
Lemma convert_fee_kept trx g : kept (convert_fee trx g).
Proof. solve_kept. Qed.
#[local] Hint Resolve convert_fee_kept : kept.
Lemma generic_pay_fee_kept trx g : kept (generic_pay_fee trx g).
Proof. solve_kept. Qed.
#[local] Hint Resolve generic_pay_fee_kept : kept.
Lemma cancel_settlements_kept fuel x : kept (cancel_settlements fuel x).
Proof. induction fuel as [|fuel IH]; cbn [cancel_settlements]; solve_kept; apply IH. Qed.
#[local] Hint Resolve cancel_settlements_kept : kept.

(** ** Operations, their proposals and transactions *)
(** What an evaluator does, through the template. *)
Lemma start_evaluate_kept {Op E R} `{!Evaluator Op E R} trx fee (o : Op) :
  (forall g, kept (do_evaluate g o)) -> (forall trx g, kept (pay_fee trx g)) -> (forall g e d, kept (do_apply g e d o)) ->
  kept (start_evaluate trx fee o).
Proof.
  intros He Hp Ha. unfold start_evaluate, evaluate, Evaluator.apply.
  repeat (first [ apply He | apply Hp | apply Ha | kept1 ]).
Qed.
Ltac evaluator := apply start_evaluate_kept; solve_kept.
Lemma evaluate_operation_kept execute trx op :
  (forall id, kept (execute id)) -> kept (evaluate_operation_with execute trx op).
Proof.
  intros Hx. unfold evaluate_operation_with, as_void, as_object, as_asset, as_settled.
  apply kept_bind; [apply kept_get_state|intros s]. cbv zeta.
  destruct op; apply kept_bind; try (intros; apply kept_ret).
  all: evaluator.
Qed.
Lemma execute_proposal_kept {A} (f : operation -> M database A) id : (forall op, kept (f op)) -> kept (execute_proposal f id).
Proof. intros Hf. unfold execute_proposal, execute_operations. solve_kept. Qed.
Lemma push_proposal_with_kept n id : kept (push_proposal_with n id).
Proof. revert id. induction n as [|n IH]; intros id; cbn [push_proposal_with]; [solve_kept|].
  apply execute_proposal_kept. intros op. unfold apply_operation_with. apply kept_bind; [solve_kept|intros _]. by apply evaluate_operation_kept. Qed.
#[local] Hint Resolve push_proposal_with_kept : kept.
Lemma push_proposal_kept id : kept (push_proposal id).
Proof. solve_kept. Qed.
#[local] Hint Resolve push_proposal_kept : kept.
Lemma apply_operation_kept trx op : kept (apply_operation trx op).
Proof. unfold apply_operation, apply_operation_with. apply kept_bind; [solve_kept|intros _].
  apply evaluate_operation_kept, push_proposal_kept. Qed.
#[local] Hint Resolve apply_operation_kept : kept.
Lemma apply_operations_kept trx l : kept (apply_operations trx l).
Proof. induction l as [|op l IH]; cbn [apply_operations]; solve_kept; apply IH. Qed.
#[local] Hint Resolve apply_operations_kept : kept.

(** ** What follows a block *)
Lemma head_fields_kept f :
  (forall d, head_block_number (f d) = head_block_number d /\ head_block_id (f d) = head_block_id d /\ time (f d) = time d) ->
  kept (update_dgp f).
Proof. intros Hf. unfold update_dgp. apply kept_update. intros s. destruct (Hf (dgp s)) as (? & ? & ?). by repeat split. Qed.
Lemma signing_witness_kept w b : kept (update_signing_witness w b).
Proof. solve_kept. Qed.
Lemma witness_objects_kept l : kept (witness_objects l).
Proof. induction l as [|x l IH]; cbn [witness_objects]; solve_kept; apply IH. Qed.
#[local] Hint Resolve witness_objects_kept : kept.
Lemma irreversible_kept : kept update_last_irreversible_block.
Proof. solve_kept. Qed.
Lemma block_summary_kept b : kept (create_block_summary b).
Proof. solve_kept. Qed.
Lemma clear_proposals_kept fuel : kept (clear_proposals fuel).
Proof. induction fuel as [|fuel IH]; cbn [clear_proposals]; solve_kept; apply IH. Qed.
#[local] Hint Resolve clear_proposals_kept : kept.
Lemma expired_proposals_kept : kept clear_expired_proposals.
Proof. solve_kept. Qed.
Lemma cancel_expired_kept fuel : kept (cancel_expired_orders fuel).
Proof. induction fuel as [|fuel IH]; cbn [cancel_expired_orders]; solve_kept; apply IH. Qed.
#[local] Hint Resolve cancel_expired_kept : kept.
Lemma settle_order_kept fuel m id p v n : kept (settle_order fuel m id p v n).
Proof.
  revert n. induction fuel as [|fuel IH]; intros n; cbn [settle_order]; solve_kept.
  intros s. match goal with |- context [match_settlement ?a ?b ?c ?d s] => pose proof (match_settlement_kept a b c d s) as Hm;
    destruct (match_settlement a b c d s) as [[r t]|[e t]] end.
  - match goal with |- match ?m t with _ => _ end => assert (Hk : kept m) by (solve_kept; apply IH);
      specialize (Hk t); destruct (m t) as [[y u]|[e u]]; by etrans end.
  - destruct (e =? black_swan)%string; [|done].
    match goal with |- match ?m s with _ => _ end => assert (Hk : kept m) by solve_kept; exact (Hk s) end.
Qed.
#[local] Hint Resolve settle_order_kept : kept.
Lemma settle_rounds_kept fuel a v : kept (settle_rounds fuel a v).
Proof. revert a v. induction fuel as [|fuel IH]; intros a v; cbn [settle_rounds]; solve_kept; apply IH. Qed.
#[local] Hint Resolve settle_rounds_kept : kept.
Lemma expired_orders_kept : kept clear_expired_orders.
Proof. solve_kept. Qed.
Lemma expired_feeds_kept : kept update_expired_feeds.
Proof. solve_kept. Qed.
Lemma drop_permits_kept fuel : kept (drop_expired fuel permit_expiration permit_expired).
Proof. induction fuel as [|fuel IH]; cbn [drop_expired]; solve_kept; apply IH. Qed.
#[local] Hint Resolve drop_permits_kept : kept.
Lemma permissions_kept : kept update_withdraw_permissions.
Proof. solve_kept. Qed.
Lemma maintenance_flag_kept b : kept (update_maintenance_flag b).
Proof. solve_kept. Qed.
Lemma witness_schedule_kept : kept update_witness_schedule.
Proof. solve_kept. Qed.
Lemma credit_stories_kept : kept process_credit_stories.
Proof. solve_kept. Qed.
Lemma exchange_rates_kept : kept process_exchange_rates.
Proof. solve_kept. Qed.

(** *** The maintenance *)
Lemma account_maintenance_kept l t : kept (perform_account_maintenance l t).
Proof. revert t. induction l as [|a l IH]; intros t; cbn [perform_account_maintenance]; solve_kept; apply IH. Qed.
Lemma pay_each_kept l n : kept (pay_each l n).
Proof. revert n. induction l as [|a l IH]; intros n; cbn [pay_each]; solve_kept; apply IH. Qed.
Lemma execute_bids_kept b l n f : kept (Maintenance.execute_bids b l n f).
Proof. revert n f. induction l as [|a l IH]; intros n f; cbn [Maintenance.execute_bids]; solve_kept; apply IH. Qed.
#[local] Hint Resolve account_maintenance_kept pay_each_kept execute_bids_kept : kept.
Lemma own_operation_kept `{!Maintenance.Applying} {Op E R} `{!Evaluator Op E R} op (o : Op) :
  (forall A (m : M database A), kept m -> kept (Maintenance.applying m)) ->
  (forall g, kept (do_evaluate g o)) -> (forall trx g, kept (pay_fee trx g)) -> (forall g e d, kept (do_apply g e d o)) ->
  kept (Maintenance.apply_operation op o).
Proof.
  intros Hm He Hp Ha. unfold Maintenance.apply_operation, evaluate. solve_kept; try apply He.
  apply Hm. unfold Evaluator.apply. repeat (first [ apply Hp | apply Ha | kept1 ]).
Qed.
Ltac own := apply own_operation_kept; [done|solve_kept..].
Lemma sell_all_kept a x n y : kept (Maintenance.sell_all (AP := Maintenance.as_coded) a x n y).
Proof.
  unfold Maintenance.sell_all. apply kept_catching; [|apply kept_ret]. apply kept_bind; [own|intros id].
  apply kept_bind; [apply kept_reads|intros o]. apply kept_when. apply kept_bind; [own|intros; apply kept_ret].
Qed.
#[local] Hint Resolve sell_all_kept : kept.
Lemma sell_holdings_kept sales a l y fuel x : kept (Maintenance.sell_holdings (AP := Maintenance.as_coded) sales a l y fuel x).
Proof.
  revert fuel x. induction sales as [|sales IHs]; intros fuel; induction fuel as [|fuel IH]; intros x;
    cbn [Maintenance.sell_holdings]; solve_kept; first [apply IH|apply IHs].
Qed.
#[local] Hint Resolve sell_holdings_kept : kept.
Lemma deprecate_member_kept now id : kept (Maintenance.deprecate_annual_member (AP := Maintenance.as_coded) now id).
Proof.
  unfold Maintenance.deprecate_annual_member. apply kept_bind; [apply kept_deref|intros a]. apply kept_when, kept_catching; [|apply kept_ret].
  apply kept_bind; [own|intros; apply kept_ret].
Qed.
#[local] Hint Resolve deprecate_member_kept : kept.
Lemma maintenance_kept b : kept (Maintenance.perform_chain_maintenance (AP := Maintenance.as_coded) b).
Proof. solve_kept. Qed.
End Operations.
End Frames.
