(* ===== verification/MaintenanceLaws.v ===== *)
(** * Chain maintenance: the books ([db_maint.cpp])

    Every part of the maintenance keeps the state well formed and every surplus:
    what an accumulator held is distributed or burned, what the operations of the
    chain move is moved, and bids become positions with the settlement fund.  A
    settled asset whose fund is less than its supply is worth may leave the last
    bidder a position with a negative collateral; the laws are for the runs in
    which none is. *)
From Stdlib Require Import ZArith Lia String.
From stdpp Require Import base gmap sets list strings.
From S2P Require Import Prelude External Asset Vesting Authority Float Chain Balance Accounting Market MarketSupply Evaluator MarketEvaluator MarketLaws AssetObject Transfers TransferLaws AssetOps AssetEvaluator BitassetEvaluator AssetLaws ExchangeRate Credit CreditEvaluator AccountOps AccountEvaluator MemberEvaluator Votes Budget FeeLaws AccountLaws BudgetLaws Operations ProposalLaws Schedule Block DbUpdate DbUpdateLaws Maintenance.

Module MaintenanceLaws.
Import Asset Vesting Authority Float Chain Balance Accounting Market MarketSupply Evaluator MarketEvaluator MarketLaws AssetObject Transfers TransferLaws AssetOps AssetEvaluator BitassetEvaluator AssetLaws ExchangeRate Credit CreditEvaluator AccountOps AccountEvaluator MemberEvaluator Votes Budget FeeLaws AccountLaws BudgetLaws Operations ProposalLaws Schedule Block DbUpdate DbUpdateLaws Maintenance.

(** ** Runs that keep the books *)
Definition neutral {A} (m : M database A) : Prop :=
  forall s r s', chain_wf s -> m s = Ok (r, s') -> conserves (fun _ => 0) s s'.
Lemma conserves_refl s : conserves (fun _ => 0) s s.
Proof. apply step_conserves, step_refl. Qed.
Lemma neutral_pure {A} (m : M database A) : pure m -> neutral m.
Proof. intros Hm s r s' _ ->%Hm. apply conserves_refl. Qed.
Lemma neutral_step {A} (m : M database A) : (forall s r s', chain_wf s -> m s = Ok (r, s') -> step (fun _ => 0) s s') -> neutral m.
Proof. intros Hm s r s' Hw E. by eapply step_conserves, Hm. Qed.
Lemma neutral_bind {A B} (m : M database A) (f : A -> M database B) : neutral m -> (forall x, neutral (f x)) -> neutral (m ≫= f).
Proof.
  intros Hm Hf s r s' Hw E. run_ok1. apply Hm in Hrun as C1; [|done]. eapply conserves_0_trans; [exact C1|].
  eapply Hf; [by apply (cons_wf _ _ _ C1)|exact E].
Qed.
Lemma neutral_when b (m : M database unit) : neutral m -> neutral (when b m).
Proof. intros Hm s u s' Hw [[_ E]|[_ ->]]%when_Ok; [by eapply Hm|apply conserves_refl]. Qed.
Lemma neutral_for_each {A} (l : list A) (f : A -> M database unit) : (forall x, neutral (f x)) -> neutral (for_each l f).
Proof.
  intros Hf. induction l as [|x l IH]; cbn; [|by apply neutral_bind].
  apply neutral_pure, pure_ret.
Qed.
(** The tables that hold nothing of an asset. *)
Lemma neutral_modify {A} `{Counted A} id (f : A -> result A) :
  (forall s a id o, weight s a id o = 0) -> (forall s id o, row_ok s id o) -> neutral (modify id f).
Proof.
  intros Hz Hr. apply neutral_step. intros s u s' _. apply modify_neutral; [intros; by rewrite !Hz|intros; apply Hr].
Qed.
(** Runs that change nothing, also when they throw. *)
Definition untouched {A} (m : M database A) : Prop :=
  forall s, match m s with Ok (_, s') | Throw (_, s') => s' = s end.
Lemma untouched_bind {A B} (m : M database A) (f : A -> M database B) :
  untouched m -> (forall x, untouched (f x)) -> untouched (m ≫= f).
Proof.
  intros Hm Hf s. unfold mbind, M_bind. specialize (Hm s). destruct (m s) as [[x t]|[e t]]; [|done]. subst. apply Hf.
Qed.
Lemma untouched_when b (m : M database unit) : untouched m -> untouched (when b m).
Proof. intros Hm. by destruct b. Qed.
Lemma untouched_lift {A} (r : result A) : untouched (lift r).
Proof. intros s. unfold lift. by destruct r. Qed.
Lemma untouched_find A `{Object A} id : untouched (find A id).
Proof. by intros s. Qed.
Lemma untouched_get A `{Object A} id : untouched (get A id).
Proof. apply untouched_bind; [by intros s|intros; apply untouched_lift]. Qed.
Lemma untouched_deref A `{Object A} id : untouched (deref A id).
Proof. apply untouched_bind; [by intros s|intros; apply untouched_lift]. Qed.
Ltac solve_untouched :=
  repeat (intros; first
    [ solve [auto] | apply untouched_bind | apply untouched_when | apply untouched_lift | apply untouched_get | apply untouched_deref
    | match goal with |- untouched (match ?x with _ => _ end) => destruct x end
    | (intros ?; reflexivity) ]).

(** Runs that keep the books, and whose exceptions, when a handler sees them,
    leave the books as they were. *)
Definition careful_at {A} (m : M database A) (s : database) : Prop :=
  match m s with
  | Ok (_, s') => conserves (fun _ => 0) s s'
  | Throw (e, s') => fatal e = true \/ conserves (fun _ => 0) s s'
  end.
Lemma careful_bind {A B} (m : M database A) (f : A -> M database B) s :
  chain_wf s -> careful_at m s -> (forall x t, m s = Ok (x, t) -> chain_wf t -> careful_at (f x) t) -> careful_at (m ≫= f) s.
Proof.
  unfold careful_at, mbind, M_bind. intros Hw Hm Hf. destruct (m s) as [[x t]|[e t]] eqn:Em; [|done].
  specialize (Hf x t eq_refl (cons_wf _ _ _ Hm Hw)).
  destruct (f x t) as [[y u]|[e u]]; [by eapply conserves_0_trans|]. destruct Hf as [?|?]; [by left|right; by eapply conserves_0_trans].
Qed.
Lemma careful_untouched {A} (m : M database A) s : untouched m -> careful_at m s.
Proof. intros Hm. unfold careful_at. specialize (Hm s). destruct (m s) as [[x t]|[e t]]; subst; [|right]; apply conserves_refl. Qed.
Lemma catching_conserves (m : M database unit) s u s' :
  careful_at m s -> catching m (mret tt) s = Ok (u, s') -> conserves (fun _ => 0) s s'.
Proof.
  unfold careful_at, catching. destruct (m s) as [[x t]|[e t]]; [by intros ? [= _ <-]|].
  intros [He|Hc]; [by rewrite He|]. destruct (fatal e); [done|]. by intros [= _ <-].
Qed.
(** *** The watch: an operation that fails while it is applied ends the run *)
Definition half_applied : string := "undefined: an exception whose changes are kept".
#[local] Instance watched : Applying := fun A m s =>
  match m s with Ok r => Ok r | Throw (e, t) => Throw (if fatal e then e else half_applied, t) end.
Create HintDb neutral.

Section Laws.
Context `{SafeLaws, U128Laws, RationalLaws, IndexLaws, NthLaws, TimeLaws, AddressOps, PackOps, CreditOpsLaws, SignatureOps, BlockOps}.

Lemma neutral_account id f : neutral (modify (A := account_object) id f).
Proof. by apply neutral_modify. Qed.
Lemma neutral_witness id f : neutral (modify (A := witness_object) id f).
Proof. by apply neutral_modify. Qed.
Lemma neutral_member id f : neutral (modify (A := committee_member_object) id f).
Proof. by apply neutral_modify. Qed.
Lemma neutral_worker id f : neutral (modify (A := worker_object) id f).
Proof. by apply neutral_modify. Qed.
Lemma neutral_gpo f : neutral (update_gpo f).
Proof. apply neutral_step. intros s u s' _. apply update_gpo_step. Qed.
Lemma neutral_process_fees stats account : neutral (process_fees stats account).
Proof. apply neutral_step. intros s u s'. apply process_fees_step. Qed.
Lemma neutral_push op : neutral (push_applied_operation op).
Proof. apply neutral_step. intros s u s' _ E. by apply push_step in E as [_ ?]. Qed.
#[local] Hint Resolve neutral_account neutral_witness neutral_member neutral_worker neutral_gpo neutral_process_fees neutral_push
  neutral_for_each neutral_when : neutral.
Ltac solve_neutral :=
  repeat (intros; first
    [ done | solve [auto with neutral nocore] | solve [apply neutral_pure; auto with pure nocore]
    | apply neutral_bind; [solve [solve_neutral]|] | apply neutral_when | apply neutral_for_each
    | match goal with |- neutral (match ?x with _ => _ end) => destruct x end
    | apply neutral_pure; solve [solve_pure] ]).

(** ** Elections *)
Lemma voting_stake_pure account a : pure (voting_stake account a).
Proof. unfold voting_stake. solve_pure. Qed.
#[local] Hint Resolve voting_stake_pure : pure.
Lemma tally_account_pure account t : pure (tally_account account t).
Proof. unfold tally_account. solve_pure. Qed.
#[local] Hint Resolve tally_account_pure : pure.
Lemma account_maintenance_neutral l t : neutral (perform_account_maintenance l t).
Proof.
  revert t. induction l as [|account l IH]; intros t; cbn [perform_account_maintenance]; [apply neutral_pure, pure_ret|].
  apply neutral_bind; [apply neutral_pure, tally_account_pure|intros t']. apply neutral_bind; [unfold process_account_fees; solve_neutral|auto].
Qed.
Lemma top_n_neutral account b x : neutral (update_top_n account b x).
Proof. unfold update_top_n. solve_neutral. Qed.
Lemma sort_votable_pure {A} `{Object A} (vote : A -> Z) n t : pure (sort_votable_objects vote n t).
Proof. unfold sort_votable_objects. solve_pure. Qed.
#[local] Hint Resolve sort_votable_pure : pure.
#[local] Hint Resolve account_maintenance_neutral top_n_neutral : neutral.
Lemma elections_neutral : neutral hold_elections.
Proof.
  unfold hold_elections, count_votes_of_accounts, update_top_n_authorities, visit_special_authority,
    update_active_witnesses, update_witness_votes, update_active_committee_members, update_worker_votes.
  solve_neutral.
Qed.
Lemma parameters_neutral : neutral change_parameters.
Proof.
  unfold change_parameters. apply neutral_step. intros s u s' _ E. repeat run_ok1.
  match goal with Hv : update_parameters _ _ = Ok ?g |- _ => apply (update_gpo_step (fun _ => g) s tt) end. by subst.
Qed.

(** ** Fee-backed assets *)
Lemma set_accumulated_step id n s u s' :
  modify id (fun f => Ok (set_accumulated n f)) s = Ok (u, s') ->
  exists f, fba_accumulators s !! id = Some f /\ step (fun a => if_asset a core_asset (n - accumulated_fba_fees f)) s s'.
Proof.
  intros (f & f' & Hf & [= <-] & _ & S)%modify_step. exists f. split; [done|]. eapply step_ext; [|apply S; done].
  intros y. cbn. unfold w_fba, if_asset. cbn. case_match; lia.
Qed.
Lemma distribute_share_step account id n s u s' :
  distribute_share account id n s = Ok (u, s') ->
  fba_accumulators s' = fba_accumulators s /\ step (fun a => if_asset a core_asset n) s s'.
Proof.
  unfold distribute_share. intros [[_ E]|[Hz ->]]%when_Ok.
  - op_ok. split; [by subst|]. eapply step_ext; [|eapply step_trans; [exact St|exact St0]].
    intros y. unfold asset_in. cbn. lia.
  - split; [done|]. apply negb_false_iff, Z.eqb_eq in Hz as ->. eapply step_ext; [|apply step_refl].
    intros y. unfold if_asset. by case_match.
Qed.
Lemma burn_step o n s u s' :
  chain_wf s -> assets s !! core_asset = Some o -> modify (dynamic_asset_data_id o) (sub_supply n) s = Ok (u, s') ->
  fba_accumulators s' = fba_accumulators s /\ step (fun a => if_asset a core_asset n) s s'.
Proof.
  intros Hw Ho E. split; [op_ok; by subst|].
  apply (dynamic_step core_asset _ _ _ _ _ Hw Ho) in E as (d & d' & _ & Hf & S).
  eapply step_ext; [|apply S; by eapply sub_supply_dynamic_ok]. apply sub_supply_Ok in Hf as ->.
  intros y. cbn. unfold if_asset. case_match; lia.
Qed.
Lemma is_configured_pure f : pure (is_configured f).
Proof. unfold is_configured. solve_pure. Qed.
Lemma split_fba_neutral id x y z : neutral (split_fba_balance id x y z).
Proof.
  apply neutral_step. intros s u s' Hw. unfold split_fba_balance. intros E. repeat run_ok1. apply get_Ok in Hrun0 as [Hf ->].
  destruct (_ =? 0); [run_ok1; apply step_refl|]. repeat run_ok1.
  apply get_Ok in Hrun as [Ho ->]. apply dynamic_of_Ok in Hrun0 as (-> & -> & _). apply is_configured_pure in Hrun1 as ->.
  match type of E with (if ?b then _ else _) _ = _ => destruct b end.
  - repeat run_ok1. apply burn_step in Hrun as [F1 S1]; [|done..]. apply set_accumulated_step in E as (f & Hf' & S2).
    rewrite F1 in Hf'. cbn in Hf. assert (f = a0) as -> by congruence.
    eapply step_ext; [|eapply step_trans; [exact S1|exact S2]]. intros w. unfold if_asset. case_match; lia.
  - repeat run_ok1.
    repeat match goal with
    | Hg : get _ _ _ = Ok _ |- _ => apply get_Ok in Hg as [? ->]
    | Hs : safe_add _ _ = Ok _ |- _ => apply safe_add_spec in Hs as [-> _]
    | Hs : safe_sub _ _ = Ok _ |- _ => apply safe_sub_spec in Hs as [-> _]
    end.
    match goal with Hb : when (negb (?n =? 0)) _ s = Ok (_, ?t) |- _ =>
      assert (B : fba_accumulators t = fba_accumulators s /\ step (fun a => if_asset a core_asset n) s t) end.
    { match goal with Hb : when _ _ s = Ok _ |- _ => apply when_Ok in Hb as [[_ Hb]|[Hz ->]]; [by apply burn_step in Hb|] end.
      split; [done|]. apply negb_false_iff, Z.eqb_eq in Hz as ->. eapply step_ext; [|apply step_refl].
      intros w. unfold if_asset. by case_match. }
    destruct B as [F1 S1].
    repeat match goal with Hd : distribute_share _ _ _ _ = Ok _ |- _ => apply distribute_share_step in Hd as [? ?] end.
    apply set_accumulated_step in E as (f & Hf' & S2). cbn in Hf. assert (f = a0) as -> by congruence.
    eapply step_ext; [|compose_steps]. intros w. cbv beta. unfold if_asset. case_match; lia.
Qed.
Lemma distribute_fba_neutral : neutral distribute_fba_balances.
Proof. unfold distribute_fba_balances. repeat (apply neutral_bind; [apply split_fba_neutral|intros _]). apply split_fba_neutral. Qed.

(** ** Operations of the chain itself *)
(** Evaluating an operation leaves the state alone, also when it throws. *)
Lemma prepare_fee_untouched trx id fee : untouched (prepare_fee trx id fee).
Proof. unfold prepare_fee. solve_untouched. Qed.
Lemma evaluate_untouched {Op E R} `{!Evaluator Op E R} trx fee (o : Op) :
  (forall g, untouched (do_evaluate g o)) -> untouched (evaluate trx fee o).
Proof. intros Ho. unfold evaluate. apply untouched_bind; [apply prepare_fee_untouched|]. solve_untouched. Qed.
Lemma limit_create_untouched g (o : limit_order_create_operation) : untouched (do_evaluate g o).
Proof. cbn. unfold limit_order_create_evaluate. solve_untouched. Qed.
Lemma limit_cancel_untouched g (o : limit_order_cancel_operation) : untouched (do_evaluate g o).
Proof. cbn. unfold limit_order_cancel_evaluate. solve_untouched. Qed.
Lemma upgrade_untouched g (o : account_upgrade_operation) : untouched (do_evaluate g o).
Proof. cbn. unfold account_upgrade_evaluate. solve_untouched. Qed.

(** An operation under the watch succeeds as the template does, and when a handler
    sees its exception nothing but its record has changed. *)
Lemma applied_conserves {Op E R} `{!Evaluator Op E R} (typed : Op -> Prop) `{!EvaluatorLaws Op E R typed}
    op (o : Op) s :
  chain_wf s -> validate o = Ok tt -> typed o -> amount (op_fee o) < 2 ^ 63 -> (forall g, untouched (do_evaluate g o)) ->
  careful_at (apply_operation op o) s.
Proof.
  intros Hw Hv Ht Hf Hu. unfold careful_at, apply_operation. unfold mbind at 1, M_bind at 1.
  destruct (push_applied_operation _ s) as [[[] s1]|[e t]] eqn:Hp.
  2: done.
  apply push_step in Hp as [_ S1]. pose proof (step_wf _ _ _ S1 Hw) as Hw1. apply step_conserves in S1 as C1.
  unfold mbind at 1, M_bind at 1, get_state at 1.
  pose proof (evaluate_untouched context (calculate_fee_for_operation op s1) o Hu s1) as Hsame.
  unfold mbind, M_bind at 1. destruct (evaluate _ _ o s1) as [[ge t]|[e t]] eqn:Ev; [|right; by subst].
  unfold applying, watched. destruct (apply _ _ _ _ t) as [[r s']|[e s']] eqn:Ea.
  - eapply conserves_0_trans; [exact C1|].
    eapply (start_evaluate_conserves typed context (calculate_fee_for_operation op s1) o s1 r s'); [done..|].
    unfold start_evaluate, mbind, M_bind. by rewrite Ev.
  - left. destruct (fatal e) eqn:Ee; [done|reflexivity].
Qed.

(** ** Buyback orders *)
Lemma next_balance_Ok owner from s x n :
  next_balance owner from s = Some (x, n) -> account_balances s !! (owner, x) = Some n /\ from <= x.
Proof.
  unfold next_balance. set (l := ordered _ _). assert (Hl : l ≡ₚ filter (fun x => x.1.1 = owner /\ from <= x.1.2) (map_to_list (account_balances s)))
    by apply ordered_perm.
  destruct l as [|[[o y] m] l'] eqn:El; [done|]. cbn. intros [= -> ->].
  assert (Hin : ((o, x), n) ∈ (o, x, n) :: l') by by left. rewrite Hl in Hin.
  apply list_elem_of_filter in Hin as [[Ho Hx] Hin]. cbn in *. subst. by apply elem_of_map_to_list in Hin.
Qed.
Lemma sell_all_conserves account x n y s u s' :
  chain_wf s -> 0 < n -> in_int64 n -> x <> y -> sell_all account x n y s = Ok (u, s') -> conserves (fun _ => 0) s s'.
Proof.
  intros Hw Hn Hi Hxy. unfold sell_all. apply catching_conserves. apply careful_bind; [done| |].
  { apply (applied_conserves limit_create_typed); [done| | |done|intros; apply limit_create_untouched].
    - cbn. unfold limit_order_create_validate. cbn. destruct (Z.eqb_spec x y); [done|]. by destruct (Z.ltb_spec 0 n); [|lia].
    - split_and!; unfold int64_amount, in_int64, int64_min, int64_max; cbn; unfold in_int64, int64_min, int64_max in Hi; lia. }
  intros id t _ Ht. apply careful_bind; [done|apply careful_untouched, untouched_find|]. intros left t2 [_ ->]%find_Ok _.
  destruct (is_some left); cbn [when]; [|apply careful_untouched; by intros ?]. apply careful_bind; [done| |intros; apply careful_untouched; by intros ?].
  apply (applied_conserves limit_cancel_typed); [done|done| |done|intros; apply limit_cancel_untouched].
  unfold limit_cancel_typed, int64_amount, in_int64, int64_min, int64_max. cbn. lia.
Qed.
Lemma sell_holdings_neutral sales account allowed y fuel from : neutral (sell_holdings sales account allowed y fuel from).
Proof.
  revert fuel from. induction sales as [|sales IHs]; intros fuel; induction fuel as [|fuel IH]; intros from s u s' Hw E;
    cbn [sell_holdings] in E; run_ok1; apply gets_Ok in Hrun as [-> ->];
    destruct (next_balance account from s) as [[x n]|] eqn:En; try (run_ok1; apply conserves_refl);
    (destruct (for_sale_now _ _ _ _) eqn:Es; [try done|try done; by eapply IH]).
  all: unfold for_sale_now in Es; apply andb_true_iff in Es as [[Hxy Hn0]%andb_true_iff _];
    apply negb_true_iff, Z.eqb_neq in Hxy, Hn0; repeat run_ok1; apply next_balance_Ok in En as [Hb _];
    pose proof (wf_balances s Hw _ _ Hb) as Hpos; cbn in Hpos; unfold as_share in Hval; case_bool_decide as Hi; [|done];
    injection Hval as ->; match goal with Hs : sell_all _ _ _ _ _ = Ok _ |- _ =>
      apply sell_all_conserves in Hs as C1; [|done|lia|done|done] end;
    (eapply conserves_0_trans; [exact C1|]); eapply IHs; [by apply (cons_wf _ _ _ C1)|exact E].
Qed.
Lemma buyback_neutral : neutral create_buyback_orders.
Proof.
  unfold create_buyback_orders. apply neutral_bind; [apply neutral_pure; solve_pure|intros s0]. apply neutral_for_each. intros [i b].
  unfold create_buyback_order. do 3 (apply neutral_bind; [apply neutral_pure; solve_pure|intros ?]). case_match; [|apply neutral_pure; solve_pure].
  apply neutral_bind; [apply neutral_pure; solve_pure|intros fuel]. apply sell_holdings_neutral.
Qed.

(** ** The next maintenance *)
Lemma deprecate_neutral now id : neutral (deprecate_annual_member now id).
Proof.
  unfold deprecate_annual_member. apply neutral_bind; [apply neutral_pure; solve_pure|intros acct]. apply neutral_when.
  intros s u s' Hw. apply catching_conserves. apply careful_bind; [done| |intros; apply careful_untouched; by intros ?].
  apply (applied_conserves (fun op => int64_amount (ng_fee op))); [done|done| |done|intros; apply upgrade_untouched].
  unfold int64_amount, in_int64, int64_min, int64_max. cbn. lia.
Qed.
Lemma next_maintenance_neutral t num : neutral (fix_next_maintenance t num).
Proof.
  unfold fix_next_maintenance. do 2 (apply neutral_bind; [apply neutral_pure; solve_pure|intros ?]).
  apply neutral_bind.
  - apply neutral_when. unfold deprecate_annual_members. apply neutral_bind; [apply neutral_pure; solve_pure|intros ?].
    apply neutral_for_each. intros y. apply deprecate_neutral.
  - intros _. apply neutral_step. intros s u s' _. by apply update_dgp_step.
Qed.
End Laws.
End MaintenanceLaws.
