(* ===== verification/ReviveLaws.v ===== *)
(** * Settled assets that are bid for ([db_maint.cpp], [process_bids])

    The bids that cover the supply become positions, and the settlement fund their
    collateral: the books are kept when no position is left with a negative
    collateral ([solvent]).  What the settlement fund is worth is rounded down for
    all bids but the last, so that the last one takes what is left of the fund,
    which the code does not bound from below. *)
From Stdlib Require Import ZArith Lia String.
From stdpp Require Import base gmap sets list strings.
From S2P Require Import Prelude External Asset Vesting Authority Float Chain Balance Accounting Market MarketSupply Evaluator MarketEvaluator AssetObject AssetOps AssetLaws AccountOps AccountEvaluator Votes Budget FeeLaws AccountLaws BudgetLaws Operations ExchangeRate Credit CreditEvaluator ProposalLaws Schedule Block DbUpdate DbUpdateLaws Maintenance MaintenanceLaws.

Module ReviveLaws.
Import Asset Vesting Authority Float Chain Balance Accounting Market MarketSupply Evaluator MarketEvaluator AssetObject AssetOps AssetLaws AccountOps AccountEvaluator Votes Budget FeeLaws AccountLaws BudgetLaws Operations ExchangeRate Credit CreditEvaluator ProposalLaws Schedule Block DbUpdate DbUpdateLaws Maintenance MaintenanceLaws.

(** ** Positions that only grow in number *)
Definition solvent (s : database) : Prop := map_Forall (fun _ c => 0 <= collateral c) (call_orders s).
#[export] Instance solvent_dec s : Decision (solvent s) := ltac:(unfold solvent; apply _).
Lemma solvent_earlier s s' : call_orders s ⊆ call_orders s' -> solvent s' -> solvent s.
Proof. intros Hs Hv i c Hc. by eapply Hv, lookup_weaken. Qed.

Definition grows {A} (m : M database A) : Prop := forall s r s', m s = Ok (r, s') -> call_orders s ⊆ call_orders s'.
Lemma grows_pure {A} (m : M database A) : pure m -> grows m.
Proof. by intros Hm s r s' ->%Hm. Qed.
Lemma grows_bind {A B} (m : M database A) (f : A -> M database B) : grows m -> (forall x, grows (f x)) -> grows (m ≫= f).
Proof. intros Hm Hf s r s' E. run_ok1. etrans; [by eapply Hm|by eapply Hf]. Qed.
Lemma grows_when b (m : M database unit) : grows m -> grows (when b m).
Proof. intros Hm s u s' [[_ E]|[_ ->]]%when_Ok; [by eapply Hm|done]. Qed.
Lemma grows_update f : (forall s, call_orders (f s) = call_orders s) -> grows (update f).
Proof. intros Hf s u s' E. run_ok1. subst. by rewrite Hf. Qed.
Lemma grows_modify {A} `{Object A} id (f : A -> result A) :
  (forall m s, call_orders (set_table m s) = call_orders s) -> grows (modify id f).
Proof. intros Hc s u s' (o & o' & _ & _ & ->)%modify_Ok. by rewrite Hc. Qed.
Lemma grows_remove {A} `{Object A} id :
  (forall m s, call_orders (set_table m s) = call_orders s) -> grows (remove A id).
Proof. intros Hc s u s' (o & _ & ->)%remove_Ok. by rewrite Hc. Qed.
Lemma grows_create {A} `{Object A, UniqueKey A} (o : A) :
  (forall m s, call_orders (set_table m s) = call_orders s) -> grows (create o).
Proof. intros Hc s u s' [_ ->]%create_Ok. cbn [call_orders set_next_instances]. by rewrite Hc. Qed.
Lemma grows_create_call (o : call_order_object) : grows (create o).
Proof. intros s u s' [Hl ->]%create_Ok. cbn. by apply insert_subseteq. Qed.
Lemma grows_push op : grows (push_applied_operation op).
Proof. intros s u s' [-> _]%push_step. done. Qed.
Create HintDb grows.
#[export] Hint Resolve grows_push grows_create_call grows_when : grows.
#[export] Hint Extern 2 (grows (modify _ _)) => apply grows_modify; done : grows.
#[export] Hint Extern 2 (grows (remove _ _)) => apply grows_remove; done : grows.
#[export] Hint Extern 2 (grows (create _)) => apply grows_create; done : grows.
#[export] Hint Extern 2 (grows (update _)) => apply grows_update; done : grows.
Ltac solve_grows :=
  repeat (intros; first
    [ done | solve [auto with grows nocore] | solve [apply grows_pure; auto with pure nocore]
    | apply grows_bind; [solve [solve_grows]|] | apply grows_when
    | match goal with |- grows (match ?x with _ => _ end) => destruct x end
    | apply grows_pure; solve [solve_pure] ]).

Section Laws.
Context `{SafeLaws, U128Laws, RationalLaws, IndexLaws, NthLaws, TimeLaws}.

Lemma grows_adjust_balance account x : grows (adjust_balance account x).
Proof. intros s u s' E. op_ok. by subst. Qed.
#[local] Hint Resolve grows_adjust_balance : grows.
Lemma grows_cancel_bid id b : grows (cancel_bid id b).
Proof. unfold cancel_bid. solve_grows. Qed.
#[local] Hint Resolve grows_cancel_bid : grows.
Lemma grows_cancel_bids fuel mia itr : grows (cancel_bids fuel mia itr).
Proof. revert itr. induction fuel as [|fuel IH]; intros [id|]; cbn [cancel_bids]; solve_grows. Qed.
#[local] Hint Resolve grows_cancel_bids : grows.
Lemma grows_finish_revive mia bid : grows (cancel_bids_and_revive_mpa mia bid).
Proof. unfold cancel_bids_and_revive_mpa. solve_grows. Qed.
Lemma grows_execute_bid id debt fund feed : grows (execute_bid id debt fund feed).
Proof. unfold execute_bid. solve_grows. Qed.
#[local] Hint Resolve grows_finish_revive grows_execute_bid : grows.
Lemma grows_execute_bids bad ids to_cover fund : grows (execute_bids bad ids to_cover fund).
Proof. revert to_cover fund. induction ids as [|id ids IH]; intros to_cover fund; cbn [execute_bids]; solve_grows. Qed.
#[local] Hint Resolve grows_execute_bids : grows.
Lemma grows_maintain_bitasset bid : grows (maintain_bitasset bid).
Proof. unfold maintain_bitasset, process_bids. solve_grows. Qed.
Lemma grows_pay_worker id pay : grows (pay_worker id pay).
Proof. unfold pay_worker. solve_grows. Qed.
#[local] Hint Resolve grows_pay_worker : grows.
Lemma grows_pay_each l budget : grows (pay_each l budget).
Proof. revert budget. induction l as [|id l IH]; intros budget; cbn [pay_each]; solve_grows. Qed.
#[local] Hint Resolve grows_pay_each : grows.
Lemma grows_process_budget : grows process_budget.
Proof. unfold process_budget, pay_workers, update_dgp. solve_grows. Qed.

(** ** What the bids cover *)
(** The bids [ids] pay [to_cover]: none but the last covers all that is left. *)
Inductive payable (m : gmap Z collateral_bid_object) (mia backing : Z) : Z -> list Z -> Prop :=
  | payable_nil to_cover : payable m mia backing to_cover []
  | payable_cons to_cover id bid ids :
      0 < to_cover -> m !! id = Some bid -> bid_debt_type bid = mia -> asset_id (base (inv_swan_price bid)) = backing -> id ∉ ids ->
      payable m mia backing (to_cover - amount (quote (inv_swan_price bid))) ids ->
      payable m mia backing to_cover (id :: ids).
Lemma payable_delete m mia backing to_cover ids id :
  id ∉ ids -> payable m mia backing to_cover ids -> payable (delete id m) mia backing to_cover ids.
Proof.
  intros Hn Hp. revert Hn. induction Hp as [|t i bid l Ht Hl Hty Hb Hi Hp IH]; intros Hn; [constructor|].
  apply not_elem_of_cons in Hn as [Hne Hn]. econstructor; eauto. by rewrite lookup_delete_ne.
Qed.
Lemma asset_mul_quote x p c : asset_mul x p = Ok c -> asset_id x = asset_id (base p) -> asset_id c = asset_id (quote p).
Proof. unfold asset_mul. intros E Hx. rewrite Hx, Z.eqb_refl in E. run_ok1. by injection E as <-. Qed.
Lemma asset_mul_base x p c :
  asset_mul x p = Ok c -> asset_id x = asset_id (quote p) -> asset_id x <> asset_id (base p) -> asset_id c = asset_id (base p).
Proof.
  unfold asset_mul. intros E Hx Hne. rewrite (proj2 (Z.eqb_neq _ _) Hne), Hx, Z.eqb_refl in E. run_ok1. by injection E as <-.
Qed.
Lemma drop_while_sublist {A} (f : A -> bool) l : drop_while f l `sublist_of` l.
Proof. induction l as [|x l IH]; cbn; [done|]. case_match; [by apply sublist_cons|done]. Qed.
Lemma cover_payable m bad mia supply covered l r :
  asset_id (base (swan_price bad)) = mia -> NoDup l.*1 -> (forall x, x ∈ l -> m !! x.1 = Some x.2) ->
  cover bad mia supply covered l = Ok r ->
  payable m mia (asset_id (quote (swan_price bad))) (supply - covered) r.2 /\ (forall id, id ∈ r.2 -> id ∈ l.*1).
Proof.
  intros Hm. revert covered r. induction l as [|[id bid] l IH]; intros covered r Hd Hl; cbn [cover]; intros E.
  { injection E as <-. split; [constructor|done]. }
  destruct (_ && _) eqn:Hb; [|injection E as <-; split; [constructor|intros ? Hi; by apply not_elem_of_nil in Hi]].
  apply andb_true_iff in Hb as [Hc%Z.ltb_lt Ht%Z.eqb_eq]. do 3 run_ok1.
  case_match; [injection E as <-; split; [constructor|intros ? Hi; by apply not_elem_of_nil in Hi]|]. repeat run_ok1. subst r.
  match goal with Hs : safe_add _ _ = Ok _ |- _ => apply safe_add_spec in Hs as [-> _] end.
  match goal with Hs : asset_mul _ _ = Ok _ |- _ => apply asset_mul_quote in Hs as Hq; [|cbn; unfold bid_debt_type in Ht; congruence] end.
  match goal with Hs : asset_add _ _ = Ok _ |- _ => apply asset_add_Ok in Hs as [Hid _] end.
  rewrite fmap_cons in Hd. apply NoDup_cons in Hd as [Hni Hd].
  match goal with Hr : cover _ _ _ _ _ = Ok _ |- _ => apply IH in Hr as [Hp Hin]; [|done|intros x Hx; apply Hl; by right] end.
  cbn [snd]. split.
  - econstructor; [lia|apply (Hl (id, bid)); by left|done|cbn; congruence|intros Hi; by apply Hni, Hin|]. cbn [snd].
    replace (supply - covered - _) with (supply - (covered + amount (quote (inv_swan_price bid)))) by lia. exact Hp.
  - intros i [->|Hi]%elem_of_cons; [by left|right; by apply Hin].
Qed.

(** ** Executing the bids *)
Lemma call_price_debt x y r p : call_price x y r = Ok p -> asset_id (quote p) = asset_id x.
Proof.
  unfold call_price. intros E. repeat run_ok1. subst.
  by match goal with Hp : price_div _ _ = Ok _ |- _ => apply price_div_Ok in Hp as [_ ->] end.
Qed.
Lemma execute_bid_bids id n fund feed s u s' :
  execute_bid id n fund feed s = Ok (u, s') ->
  exists bid c, collateral_bids s !! id = Some bid /\ collateral_bids s' = delete id (collateral_bids s)
    /\ (exists i, call_orders s !! i = None /\ call_orders s' = <[i := c]> (call_orders s))
    /\ collateral c = amount (base (inv_swan_price bid)) + fund /\ debt c = n /\ debt_type c = bid_debt_type bid
    /\ borrower c = bidder bid.
Proof.
  unfold execute_bid. intros E. mk_ok.
  match goal with Hs : when _ _ ?t1 = Ok (_, ?t2) |- _ =>
    assert (exists m, t2 = set_account_statistics m t1) as [m ->] end.
  { match goal with Hs : when _ _ ?t1 = Ok (_, ?t2) |- _ =>
      apply when_Ok in Hs as [[_ Hs]|[_ ->]]; [mk_ok; by eexists|exists (account_statistics t1); by destruct t1] end. }
  match goal with Hs : safe_add _ _ = Ok _ |- _ => apply safe_add_spec in Hs as [-> _] end.
  match goal with Hb : table s !! id = Some ?b |- _ => subst; exists b; eexists; split_and!; [exact Hb|done| | | | |] end.
  - eexists. split; [exact Lk0|]. cbn. done.
  - done.
  - done.
  - unfold debt_type. cbn. match goal with Hp : call_price _ _ _ = Ok _ |- _ => by apply call_price_debt in Hp end.
  - done.
Qed.
Lemma execute_bids_step mia backing bad ids to_cover fund s r s' :
  chain_wf s -> feed_ok (current_feed bad) -> to_cover < 2 ^ 63 -> payable (collateral_bids s) mia backing to_cover ids ->
  execute_bids bad ids to_cover fund s = Ok (r, s') -> solvent s' ->
  step (fun a => if_asset a backing (fund - r.2)) s s' /\ bitasset_data s' = bitasset_data s.
Proof.
  intros Hw Hf Ht Hp. revert fund s Hw Hp. induction ids as [|id ids IH] in to_cover, Ht |- *; intros fund s Hw Hp; cbn [execute_bids]; intros E Hv.
  { run_ok1. split; [|done]. cbn. rewrite Z.sub_diag. eapply step_ext; [|apply step_refl]. intros y. unfold if_asset. by case_match. }
  inversion Hp as [|? ? bid ? Hpos Hl Hty Hb Hni Hp']; subst. repeat run_ok1.
  match goal with Hd : deref _ _ _ = Ok _ |- _ => apply deref_Ok in Hd as [Hl' ->] end.
  assert (a = bid) as -> by (cbn in *; congruence). pose proof (wf_bids s Hw _ _ Hl) as (_ & Hq & _). red in Hq.
  repeat match goal with Hs : safe_sub _ _ = Ok _ |- _ => apply safe_sub_spec in Hs as [-> _] end.
  match goal with Hx : execute_bid id _ _ _ _ = Ok (_, ?t) |- _ =>
    rename Hx into Ex; rename t into s1; pose proof (execute_bid_frame _ _ _ _ _ _ _ Ex) as [Eb _];
    destruct (execute_bid_bids _ _ _ _ _ _ _ Ex) as (bid' & c & Hl2 & Ed & (i & Hnew & Hc) & Ec & Edebt & Edt & _) end.
  assert (bid' = bid) as -> by congruence.
  pose proof (grows_execute_bids _ _ _ _ _ _ _ E) as G.
  eapply execute_bid_step in Ex as S1; [|done|done| | |exact Hl].
  2: case_match; lia.
  2: { rewrite <-Ec. eapply Hv, lookup_weaken; [|exact G]; rewrite Hc; apply lookup_insert_eq. }
  eapply IH in E as [S2 E2]; [split; [|congruence]|..|exact Hv].
  - eapply step_ext; [|eapply step_trans; [exact S1|exact S2]]. intros y. unfold if_asset. destruct (_ =? y); lia.
  - case_match; lia.
  - by apply (step_wf _ _ _ S1).
  - rewrite Ed. apply payable_delete; [done|]. case_match eqn:Hle; [|done].
    apply Z.leb_le in Hle. inversion Hp'; subst; [constructor|lia].
Qed.

(** The debts in an asset. *)
Definition debts (mia : Z) (s : database) : Z :=
  sum_map (fun _ c => if debt_type c =? mia then debt c else 0) (call_orders s).

(** ** Reviving an asset *)
Lemma swan_ids d : bitasset_ok d -> has_settlement d = true ->
  asset_id (quote (swan_price d)) = short_backing_asset (bitasset_opts d)
  /\ asset_id (base (swan_price d)) <> asset_id (quote (swan_price d)).
Proof. intros (_ & _ & _ & [Hn|(_ & _ & ? & ?)]) Hs; [|done]. unfold has_settlement in Hs. rewrite Hn in Hs. unfold is_null, price_eqb in Hs. by rewrite !Z.eqb_refl in Hs. Qed.
Lemma drop_bids_lookup f s :
  NoDup (drop_while f (bid_book s)).*1 /\ forall x, x ∈ drop_while f (bid_book s) -> collateral_bids s !! x.1 = Some x.2.
Proof.
  pose proof (drop_while_sublist f (bid_book s)) as Hs. split.
  - eapply sublist_NoDup; [|by apply fmap_sublist, Hs]. unfold bid_book. rewrite ordered_perm. apply NoDup_fst_map_to_list.
  - intros [id b] Hin. apply bid_book_lookup. by eapply elem_of_sublist.
Qed.
(** The asset, its supply, and what the bids on it cover: the first loop. *)
Definition covering (d : asset_bitasset_data_object) (s : database) (supply covered : Z) (ids : list Z) : Prop :=
  exists o dd p, let mia := asset_id (base (swan_price d)) in
    assets s !! mia = Some o /\ asset_dynamic_data s !! dynamic_asset_data_id o = Some dd /\ supply = current_supply dd
    /\ price_max (short_backing_asset (bitasset_opts d)) mia = Ok p
    /\ cover d mia supply 0 (drop_while (fun x => before_key mia p x.2) (bid_book s)) = Ok (covered, ids).
(** Nothing is done: bids have no effect on the asset, or they do not cover the supply. *)
Definition not_revived (d : asset_bitasset_data_object) (s : database) : Prop :=
  is_prediction_market d = true \/ is_null (settlement_price (current_feed d)) = true
  \/ head_block_time s <= HARDFORK_CORE_216_TIME
  \/ exists supply covered ids, covering d s supply covered ids /\ covered < supply.
(** What [process_bids] does when it does something. *)
Record revival (bid : Z) (d : asset_bitasset_data_object) (s s' : database) (supply covered : Z) (ids : list Z) : Prop := {
  rv_covering : covering d s supply covered ids;
  rv_covered : supply <= covered;
  rv_supply : exists x dd, asset_dynamic_data s !! x = Some dd /\ supply = current_supply dd;
  rv_payable : payable (collateral_bids s) (asset_id (base (swan_price d))) (short_backing_asset (bitasset_opts d)) supply ids;
  rv_run : exists t, execute_bids d ids supply (settlement_fund d) s = Ok ((0, 0), t)
    /\ cancel_bids_and_revive_mpa (asset_id (base (swan_price d))) bid t = Ok (tt, s')
}.
Lemma process_bids_Ok bid d s u s' :
  chain_wf s -> bitasset_data s !! bid = Some d -> has_settlement d = true -> process_bids bid s = Ok (u, s') ->
  (s' = s /\ not_revived d s) \/ exists supply covered ids, revival bid d s s' supply covered ids.
Proof.
  intros Hw Hd Hs. unfold process_bids. intros E. do 2 run_ok1.
  match goal with Hb : deref _ _ _ = Ok _ |- _ => apply deref_Ok in Hb as [Hl ->] end. assert (a = d) as -> by (cbn in *; congruence).
  match goal with Hb : gets _ _ = Ok _ |- _ => apply gets_Ok in Hb as [-> ->] end.
  destruct (_ || _ || _) eqn:Hidle.
  { run_ok1. left. split; [done|]. apply orb_true_iff in Hidle as [[?|?]%orb_true_iff|?%Z.leb_le]; unfold not_revived; auto. }
  repeat run_ok1.
  reads_ok. match goal with Hy : dynamic_of _ _ = Ok _ |- _ => apply dynamic_of_Ok in Hy as (-> & -> & _) end. cbn [table] in *.
  pose proof (wf_bitassets s Hw _ _ Hd) as Hok. destruct (swan_ids d Hok Hs) as [Hq Hne].
  match goal with Ha : asset_mul _ _ = Ok _ |- _ => apply asset_mul_base in Ha as Hid; [|cbn; congruence..] end.
  match goal with Hc : cover _ _ ?n _ (drop_while ?f _) = Ok ?r |- _ =>
    assert (Hcov : covering d s n r.1 r.2) by (rewrite Hid in *; do 3 eexists; split_and!; [eassumption|eassumption|done|eassumption|by rewrite <- surjective_pairing]);
    destruct (drop_bids_lookup f s) as [Hnd Hlk]; eapply cover_payable in Hc as [Hp _]; [|done..]; rename r into rr end.
  match type of E with (if _ <? current_supply ?x then _ else _) _ = _ => rename x into dd end.
  destruct (Z.ltb_spec rr.1 (current_supply dd)) as [Hlt|Hge].
  { run_ok1. left. split; [done|]. right. right. right. by do 3 eexists. }
  repeat run_ok1. subst. right.
  rewrite Z.sub_0_r, Hq, Hid in Hp. repeat match goal with Hr : (_ =? 0) = true |- _ => apply Z.eqb_eq in Hr end.
  match goal with Hx : execute_bids _ _ _ _ s = Ok (?r, _) |- _ => destruct r as [r1 r2]; cbn in *; subst r1 r2 end.
  destruct u. rewrite Hid in *. exists (current_supply dd), rr.1, rr.2. split; [done|done| |done|].
  - by do 2 eexists.
  - eexists. by split.
Qed.
Lemma process_bids_step bid d s u s' :
  chain_wf s -> bitasset_data s !! bid = Some d -> has_settlement d = true -> process_bids bid s = Ok (u, s') -> solvent s' ->
  step (fun _ => 0) s s'.
Proof.
  intros Hw Hd Hs E Hv. apply (process_bids_Ok bid d) in E as [[-> _]|(supply & covered & ids & [_ _ (x & dd & Hdd & ->) Hp (t & Ex & E)])]; [apply step_refl| |done..].
  pose proof (wf_bitassets s Hw _ _ Hd) as [Hf _]. pose proof (wf_dynamic s Hw _ _ Hdd) as Hsup.
  eapply execute_bids_step in Ex as [S1 E1]; [|done|done|exact Hsup|exact Hp|].
  2: { eapply solvent_earlier; [|exact Hv]. eapply grows_finish_revive, E. }
  eapply finish_revive_step in E as S2; [|by apply (step_wf _ _ _ S1)|by rewrite E1].
  eapply step_ext; [|eapply step_trans; [exact S1|exact S2]]. intros y. cbn. unfold if_asset. case_match; lia.
Qed.
Lemma maintain_bitasset_step bid s u s' :
  chain_wf s -> maintain_bitasset bid s = Ok (u, s') -> solvent s' -> step (fun _ => 0) s s'.
Proof.
  intros Hw. unfold maintain_bitasset. intros E Hv. repeat run_ok1.
  match goal with Hm : modify _ _ s = Ok _ |- _ => apply set_volume_step in Hm as S1 end.
  match goal with Hb : deref _ _ _ = Ok _ |- _ => apply deref_Ok in Hb as [Hl ->] end.
  eapply step_0_trans; [exact S1|]. apply when_Ok in E as [[Hs E]|[_ ->]]; [|apply step_refl].
  eapply process_bids_step; [by apply (step_wf _ _ _ S1)|exact Hl|done|exact E|done].
Qed.
Lemma maintain_bitassets_step s u s' :
  chain_wf s -> maintain_bitassets s = Ok (u, s') -> solvent s' -> step (fun _ => 0) s s'.
Proof.
  intros Hw E Hv. unfold maintain_bitassets in E. run_ok1. apply get_state_Ok in Hrun as [-> ->].
  apply (for_each_ind (fun s s' => call_orders s ⊆ call_orders s' /\ (chain_wf s -> solvent s' -> step (fun _ => 0) s s'))) in E as [_ S];
    [by apply S|intros; split; [done|intros; apply step_refl]| |].
  - intros s1 s2 s3 [G1 S1] [G2 S2]. split; [by etrans|]. intros W V. assert (solvent s2) by by eapply solvent_earlier.
    eapply step_0_trans; [by apply S1|]. apply S2; [|done]. eapply step_wf; [by apply S1|done].
  - intros [bid b] s1 s2 [] _ Em. split; [by eapply grows_maintain_bitasset|]. intros. by eapply maintain_bitasset_step.
Qed.
End Laws.

(** ** The books over a maintenance whose operations are watched *)
#[local] Existing Instance watched.
Section Books.
Context `{SafeLaws, U128Laws, RationalLaws, IndexLaws, NthLaws, TimeLaws, AddressOps, PackOps, CreditOpsLaws, SignatureOps, BlockOps, ShiftOps}.
Lemma maintenance_conserves b s u s' :
  chain_wf s -> perform_chain_maintenance b s = Ok (u, s') -> solvent s' -> conserves (fun _ => 0) s s'.
Proof.
  intros Hw E Hv. unfold perform_chain_maintenance in E. repeat run_ok1.
  assert (T : forall (m : M database unit) t1 x t2, conserves (fun _ => 0) s t1 -> neutral m -> m t1 = Ok (x, t2) -> conserves (fun _ => 0) s t2).
  { intros m t1 x t2 C Hm Em. eapply conserves_0_trans; [exact C|]. eapply Hm; [by apply (cons_wf _ _ _ C)|exact Em]. }
  pose proof (conserves_refl s) as C.
  match goal with Hr : distribute_fba_balances _ = Ok _ |- _ => apply (T _ _ _ _ C distribute_fba_neutral) in Hr as C1 end.
  match goal with Hr : create_buyback_orders _ = Ok _ |- _ => apply (T _ _ _ _ C1 buyback_neutral) in Hr as C2 end.
  match goal with Hr : hold_elections _ = Ok _ |- _ => apply (T _ _ _ _ C2 elections_neutral) in Hr as C3 end.
  match goal with Hr : change_parameters _ = Ok _ |- _ => apply (T _ _ _ _ C3 parameters_neutral) in Hr as C4 end.
  match goal with Hr : fix_next_maintenance _ _ _ = Ok _ |- _ => apply (T _ _ _ _ C4 (next_maintenance_neutral _ _)) in Hr as C5 end.
  match goal with Hr : maintain_bitassets _ = Ok _ |- _ => apply maintain_bitassets_step in Hr as S6 end.
  - match type of S6 with step _ _ ?t => assert (C6 : conserves (fun _ => 0) s t) by (eapply conserves_0_trans; [exact C5|by apply step_conserves]) end.
    eapply conserves_0_trans; [exact C6|].
    apply step_conserves. eapply process_budget_step; [|exact E]. by apply (cons_wf _ _ _ C6).
  - by apply (cons_wf _ _ _ C5).
  - eapply solvent_earlier; [|exact Hv]. by eapply grows_process_budget.
Qed.
Lemma maintenance_balances b s u s' :
  books_ok s -> perform_chain_maintenance b s = Ok (u, s') -> solvent s' -> balanced s s'.
Proof. intros [] E Hv. apply conserves_balanced. by eapply maintenance_conserves. Qed.
End Books.
End ReviveLaws.
