(* ===== verification/ProposalTheorems.v ===== *)
(** * Proposals: what executing and expiring them does

    A proposal is executed only with the authority it needs; the loop over the
    expired proposals ends and leaves none; a proposal that deletes itself is
    never executed. *)
From Stdlib Require Import ZArith Lia String.
From stdpp Require Import base gmap sets list strings.
From S2P Require Import Prelude External Asset Vesting Authority Float Chain Balance Accounting Market MarketSupply Evaluator MarketEvaluator MarketLaws AssetObject Transfers TransferLaws AssetOps AssetEvaluator BitassetEvaluator AssetLaws ExchangeRate Credit CreditEvaluator CreditLaws ExchangeRateLaws Operations ProposalLaws Scenario Invariant Schedule Block DbUpdate DbUpdateLaws.

Module ProposalTheorems.
Import Asset Vesting Authority Float Chain Balance Accounting Market MarketSupply Evaluator MarketEvaluator MarketLaws AssetObject Transfers TransferLaws AssetOps AssetEvaluator BitassetEvaluator AssetLaws ExchangeRate Credit CreditEvaluator CreditLaws ExchangeRateLaws Operations ProposalLaws Scenario Invariant Schedule Block DbUpdate DbUpdateLaws.

Section Proposals.
Context `{SafeLaws, U128Laws, RationalLaws, IndexLaws, NthLaws, TimeLaws, AddressOps, PackOps, CreditOpsLaws, SignatureOps}.

(** ** Expiration *)
Definition expired_ids (s : database) : gset Z := dom (filter (fun x => proposal_expired s x.2 = true) (proposals s)).
Lemma elem_of_expired s id :
  id ∈ expired_ids s <-> exists p, proposals s !! id = Some p /\ proposal_expired s p = true.
Proof.
  unfold expired_ids. rewrite elem_of_dom. split.
  - intros [p [Hp He]%map_lookup_filter_Some]. by exists p.
  - intros (p & Hp & He). exists p. by apply map_lookup_filter_Some.
Qed.
Lemma size_expired s : (size (expired_ids s) <= size (proposals s))%nat.
Proof. unfold expired_ids. rewrite size_dom. apply map_size_filter. Qed.
Lemma runs_expired s s' : keeps_books s s' -> expired_ids s' ⊆ expired_ids s.
Proof.
  intros R id. rewrite !elem_of_expired. intros (p' & Hp' & He). unfold proposal_expired in *. rewrite (run_time _ _ _ R) in He.
  destruct (run_no_older _ _ _ R id p' Hp') as [(p & Hp & E)|Hl]; [|lia]. exists p. split; [done|]. by rewrite <- E.
Qed.
Lemma first_not_expired s id p l :
  expiring_proposals s = (id, p) :: l -> proposal_expired s p = false -> expired_ids s = ∅.
Proof.
  intros E Hp. apply set_eq. intros j. rewrite elem_of_expired. split; [|set_solver]. intros (q & Hq & He).
  apply by_time_first in E as [_ Hmin]. specialize (Hmin j q Hq). unfold proposal_expired in *. lia.
Qed.
Lemma none_expiring s : expiring_proposals s = [] -> expired_ids s = ∅.
Proof.
  unfold expiring_proposals. intros E. pose proof (ordered_perm (by_time expiration_time) (map_to_list (proposals s))) as Hp. rewrite E in Hp.
  apply Permutation_nil, map_to_list_empty_iff in Hp. apply set_eq. intros j. rewrite elem_of_expired, Hp. split; [|set_solver].
  by intros (q & Hq & _).
Qed.
(** Executing a proposal removes it. *)
Lemma push_proposal_removes id s u s' : push_proposal id s = Ok (u, s') -> proposals s' !! id = None.
Proof.
  unfold push_proposal. cbn [push_proposal_with]. unfold execute_proposal. intros E. do 2 run_ok1.
  apply remove_Ok in E as (p & _ & ->). apply lookup_delete_eq.
Qed.
(** One round of the loop. *)
Lemma clear_round id p s b s1 u s2 :
  books_ok s -> last_execution id p s = Ok (b, s1) -> when (negb b) (remove proposal_object id) s1 = Ok (u, s2) ->
  keeps_books s s2 /\ proposals s2 !! id = None.
Proof.
  intros Hok El Er. apply last_execution_runs in El as R1; [|done]. destruct b.
  - apply when_Ok in Er as [[? _]|[_ ->]]; [done|]. split; [done|]. unfold last_execution, try_catch in El.
    match type of El with match ?m with _ => _ end = _ => destruct m as [[x t]|[e t]] eqn:Em end; [|destruct (fatal e); [done|by run_ok1]].
    injection El as -> ->. repeat run_ok1. destruct (is_authorized_to_execute p s); repeat run_ok1; [|done]. subst.
    by eapply push_proposal_removes.
  - apply when_Ok in Er as [[_ Er]|[? _]]; [|done]. split; [etrans; [exact R1|by eapply remove_proposal_runs]|].
    apply remove_Ok in Er as (q & _ & ->). apply lookup_delete_eq.
Qed.
Lemma round_smaller id p l s s2 n :
  expiring_proposals s = (id, p) :: l -> proposal_expired s p = true -> keeps_books s s2 -> proposals s2 !! id = None ->
  (size (expired_ids s) <= S n)%nat -> (size (expired_ids s2) <= n)%nat.
Proof.
  intros E He R Hid Hn. apply by_time_first in E as [Hp _].
  assert (Hsub : expired_ids s2 ⊂ expired_ids s); [|apply subset_size in Hsub; lia].
  split; [by apply runs_expired|]. intros Hall. assert (Hin : id ∈ expired_ids s2) by (apply Hall, elem_of_expired; by exists p).
  apply elem_of_expired in Hin as (q & Hq & _). congruence.
Qed.
Lemma clear_fuel n m s :
  books_ok s -> (size (expired_ids s) <= n)%nat -> (size (expired_ids s) <= m)%nat -> clear_proposals n s = clear_proposals m s.
Proof.
  revert m s. induction n as [|n IH]; intros m s Hok Hn Hm; destruct m as [|m]; cbn [clear_proposals]; try done.
  3: apply M_bind_ext; intros t s' [-> ->]%get_state_Ok.
  1-2: apply M_bind_ext; intros t s' [-> ->]%get_state_Ok.
  all: destruct (expiring_proposals s) as [|[id p] l] eqn:El; [done|]; destruct (proposal_expired s p) eqn:Ep; [|done].
  1-2: assert (id ∈ expired_ids s) as Hin by (apply elem_of_expired; exists p; apply by_time_first in El as [? _]; done);
    assert (size (expired_ids s) <> 0%nat) by (intros ?%size_empty_inv; set_solver); lia.
  apply M_bind_ext. intros b s1 Hl. apply M_bind_ext. intros u s2 Hr.
  destruct (clear_round _ _ _ _ _ _ _ Hok Hl Hr) as [R Hid].
  apply IH; [by eapply keeps_books_ok| |]; by eapply round_smaller.
Qed.
Lemma clear_leaves_none n s u s' : books_ok s -> clear_proposals n s = Ok (u, s') -> expired_ids s' = ∅.
Proof.
  revert s. induction n as [|n IH]; intros s Hok; cbn [clear_proposals]; intros E; run_ok1; run_ok1;
    (destruct (expiring_proposals s) as [|[id p] l] eqn:El; [run_ok1; by apply none_expiring|]);
    (destruct (proposal_expired s p) eqn:Ep; [|run_ok1; by eapply first_not_expired]); [by run_ok1|].
  do 2 run_ok1. destruct (clear_round _ _ _ _ _ _ _ Hok Hrun Hrun0) as [R _]. eapply IH; [|exact E]. by eapply keeps_books_ok.
Qed.
(** The expired proposals of a block.  As many rounds as there are proposals are
    enough, whatever is executed on the way - what is proposed meanwhile expires
    later - and afterwards every proposal left is still open. *)
Theorem expired_proposals_cleared (s : database) :
  books_ok s ->
  (forall fuel, (size (proposals s) <= fuel)%nat -> clear_proposals fuel s = clear_expired_proposals s)
  /\ forall s', clear_expired_proposals s = Ok (tt, s') ->
       forall id p, proposals s' !! id = Some p -> head_block_time s' < expiration_time p.
Proof.
  intros Hok. pose proof (size_expired s) as Hsz. unfold clear_expired_proposals, mbind, M_bind, gets. split.
  - intros fuel Hf. apply clear_fuel; [done|lia|lia].
  - intros s' E id p Hp. apply clear_leaves_none in E; [|done].
    destruct (proposal_expired s' p) eqn:Ee; [|unfold proposal_expired in Ee; lia].
    assert (id ∈ expired_ids s') by (apply elem_of_expired; by exists p). set_solver.
Qed.

(** ** Execution *)
(** Every account a proposal needs has approved, or its authority is satisfied by
    the keys and the accounts that did. *)
Definition approved_by (p : proposal_object) (s : database) : Prop :=
  let actives := available_active_approvals p in
  let owners := available_owner_approvals p in
  (forall id, id ∈ required_active (proposed_transaction p) -> exists d,
     active_satisfied_at (authority_of active_authority s) (authority_of owner_authority s)
       (available_key_approvals p) actives owners d id)
  /\ (forall id, id ∈ required_owner (proposed_transaction p) -> id ∈ owners \/ exists d,
     owner_satisfied_at (authority_of active_authority s) (authority_of owner_authority s)
       (available_key_approvals p) actives owners d id).
Lemma authorized_approved p s :
  authorities_ok s -> required_other (proposed_transaction p) = [] -> is_authorized_to_execute p s = true -> approved_by p s.
Proof.
  intros Ha Hu E. unfold is_authorized_to_execute in E. destruct (verify_required _ _ _ _ _ _ _ _ _ _) as [[]|e] eqn:Ev; [|done].
  rewrite Hu in Ev.
  apply verify_required_sound in Ev as (_ & _ & Hact & Hown); [by split|by apply authorities_ok_auths; [naive_solver|]..|constructor].
Qed.
(** C24: an approval of any proposal whose operations require the authorities of
    accounts only, which is what its creation demands.  Updating it changes its
    approvals and nothing else, unless it has no review period and is executed:
    then everyone whose authority its operations require has approved it.  It
    stays as it is, with the new approvals, when it is in review, not approved by
    all, or fails. *)
Theorem approved_proposal_executed g d (op : proposal_update_operation) s p u s' :
  authorities_ok s -> proposals s !! pp_proposal op = Some p -> required_other (proposed_transaction p) = [] ->
  proposal_update_apply push_proposal g tt d op s = Ok (u, s') ->
  let id := pp_proposal op in
  let p' := update_approvals op p in
  let s1 := set_proposals (<[id := p']> (proposals s)) s in
  (s' = s1 /\ (review_period_time p <> None \/ is_authorized_to_execute p' s1 = false
               \/ exists e t, push_proposal id s1 = Throw (e, t) /\ fatal e = false))
  \/ (review_period_time p = None /\ approved_by p' s1 /\ push_proposal id s1 = Ok (tt, s') /\ proposals s' !! id = None).
Proof.
  intros Ha Hp Hu E id p' s1. unfold proposal_update_apply in E. do 4 run_ok1.
  apply modify_Ok in Hrun as (q & q' & Hq & [= <-] & ->). cbn in Hq. assert (q = p) as -> by congruence.
  apply deref_Ok in Hrun0 as [Hq' ->]. cbn in Hq'. rewrite lookup_insert_eq in Hq'. injection Hq' as <-.
  change (set_table (<[pp_proposal op := update_approvals op p]> (table s)) s) with s1 in E.
  change (update_approvals op p) with p' in E. change (pp_proposal op) with id in E.
  assert (Hrev : review_period_time p' = review_period_time p) by done. rewrite Hrev in E.
  destruct (review_period_time p) eqn:Er; [run_ok1; left; split; [done|by left]|].
  apply when_Ok in E as [[Hauth E]|[Hauth ->]]; [|left; split; [done|right; by left]]. unfold try_catch in E.
  destruct (push_proposal id s1) as [[[] t]|[e t]] eqn:Ex.
  - injection E as _ <-. right. split_and!; [done| |done|by eapply push_proposal_removes].
    by apply authorized_approved.
  - destruct (fatal e) eqn:Ef; [done|]. run_ok1. left. split; [done|]. right. right. by exists e, t.
Qed.

(** ** A proposal that deletes itself *)
Lemma delete_removes execute trx (o : proposal_delete_operation) s r s' :
  apply_operation_with execute trx (op_proposal_delete o) s = Ok (r, s') -> proposals s' !! px_proposal o = None.
Proof.
  unfold apply_operation_with, evaluate_operation_with, as_void, start_evaluate, apply. intros E. repeat run_ok1. subst.
  match goal with Hd : do_apply _ _ _ _ _ = Ok _ |- _ => apply remove_Ok in Hd as (p & _ & ->) end.
  match goal with Hb : adjust_balance _ _ _ = Ok _ |- _ => apply adjust_balance_step in Hb as [[m ->] _] end. apply lookup_delete_eq.
Qed.
(** A proposal that deletes itself is never executed: its operations are read
    from it while they are executed, and the memory it was in is gone. *)
Theorem self_deleting_proposal id p s (o : proposal_delete_operation) :
  proposals s !! id = Some p -> op_proposal_delete o ∈ proposed_transaction p -> px_proposal o = id ->
  is_ok (push_proposal id s) = false.
Proof.
  intros Hp Hin <-. destruct (push_proposal _ s) as [[u s']|e] eqn:E; [exfalso|done].
  unfold push_proposal in E. cbn [push_proposal_with] in E. unfold execute_proposal in E. do 2 run_ok1.
  apply deref_Ok in Hrun as [Hq ->]. cbn in Hq. rewrite Hp in Hq. injection Hq as <-. clear E.
  revert Hin Hrun0. unfold execute_operations. generalize (proposed_transaction p). intros l. clear Hp. revert s.
  induction l as [|op l IH]; intros s Hin El; [by apply not_elem_of_nil in Hin|]. cbn [for_each] in El. do 3 run_ok1.
  match goal with Hd : deref _ _ _ = Ok _ |- _ => apply deref_Ok in Hd as [Hl ->] end.
  apply elem_of_cons in Hin as [<-|Hin]; [|by eapply IH].
  match goal with Hd : apply_operation_with _ _ _ _ = Ok _ |- _ => apply delete_removes in Hd end. cbn in Hl. congruence.
Qed.
End Proposals.

(** ** Concrete proposals *)
Import Ref.
Import (hints) Invariant.Sample.
Module ProposalSample.
(** Alice's payment, for bob to be approved by her; it expired an hour ago, or
    will in a day. *)
Definition payment (expires : Z) (approvals : gset Z) : proposal_object :=
  mk_proposal expires None [Invariant.Sample.pay] {[alice]} approvals ∅ ∅ ∅.
(** One approved and expired, one expired without approval, one still open. *)
Definition proposing : database :=
  set_proposals {[0 := payment 1599996400 {[alice]}; 1 := payment 1599996401 ∅; 2 := payment 1600086400 ∅]} start.
Lemma payment_ok t l : proposal_ok (payment t l).
Proof. split_and!; [repeat constructor; by_decide|vm_compute; reflexivity|repeat constructor; by intros []]. Qed.
Lemma proposing_proposals : proposals_ok proposing.
Proof.
  intros id p Hp. change (proposals proposing) with (<[0 := payment 1599996400 {[alice]}]>
    (<[1 := payment 1599996401 ∅]> {[2 := payment 1600086400 ∅]}) : gmap Z proposal_object) in Hp.
  apply lookup_insert_Some in Hp as [[_ <-]|[_ Hp]]; [apply payment_ok|].
  apply lookup_insert_Some in Hp as [[_ <-]|[_ Hp]]; [apply payment_ok|].
  apply lookup_singleton_Some in Hp as [_ <-]. apply payment_ok.
Qed.
Lemma proposing_ok : books_ok proposing.
Proof. split; [apply chain_wfb_wf; vm_compute; reflexivity|exact proposing_proposals]. Qed.
Definition cleared : database := after clear_expired_proposals proposing.
Lemma cleared_returned : returned (clear_expired_proposals proposing) = Some tt.
Proof. vm_compute. reflexivity. Qed.
(** Alice approves the open one. *)
Definition approval : proposal_update_operation := mk_proposal_update bob (core 0) 2 {[alice]} ∅ ∅ ∅ ∅ ∅.
Definition no_evaluator : generic_evaluator := mk_evaluator (core 0) 0 bob core_asset (mk_trx_state false false false).
Definition approved : database := after (proposal_update_apply push_proposal no_evaluator tt 0 approval) proposing.
Lemma approved_returned : returned (proposal_update_apply push_proposal no_evaluator tt 0 approval proposing) = Some tt.
Proof. vm_compute. reflexivity. Qed.
(** A proposal of bob to delete it. *)
Definition suicidal : proposal_object :=
  mk_proposal 1600086400 None [op_proposal_delete (mk_proposal_delete bob false (core 0) 3)] {[bob]} ∅ ∅ ∅ ∅.
End ProposalSample.
Import ProposalSample.

Lemma one_level_enough_witness : push_proposal_with 5 2 proposing = push_proposal 2 proposing.
Proof. exact (one_level_enough 4 2 proposing proposing_proposals). Defined.
Lemma expired_proposals_cleared_witness :
  returned (clear_expired_proposals proposing) = Some tt
  /\ forall id p, proposals cleared !! id = Some p -> head_block_time cleared < expiration_time p.
Proof.
  split; [exact cleared_returned|]. destruct (expired_proposals_cleared proposing proposing_ok) as [_ Hc].
  exact (Hc cleared (after_Ok _ _ _ cleared_returned)).
Defined.
Lemma approved_proposal_executed_witness :
  bool_decide (proposals approved !! 2 = None) = true /\ approved_by (update_approvals approval (payment 1600086400 ∅))
    (set_proposals (<[2 := update_approvals approval (payment 1600086400 ∅)]> (proposals proposing)) proposing).
Proof.
  assert (Hgone : bool_decide (proposals approved !! 2 = None) = true) by (vm_compute; reflexivity). split; [exact Hgone|].
  assert (Hauth : authorities_ok proposing) by by_decide.
  assert (Hp : proposals proposing !! 2 = Some (payment 1600086400 ∅)) by (vm_compute; reflexivity).
  destruct (approved_proposal_executed no_evaluator 0 approval proposing _ tt approved Hauth Hp eq_refl
    (after_Ok _ _ _ approved_returned)) as [[Hs _]|(_ & Ha & _)]; [exfalso|exact Ha].
  apply bool_decide_eq_true in Hgone. rewrite Hs in Hgone. cbn in Hgone. by rewrite lookup_insert_eq in Hgone.
Defined.
Lemma self_deleting_proposal_witness :
  is_ok (push_proposal 3 (set_proposals {[3 := suicidal]} start)) = false.
Proof.
  refine (self_deleting_proposal 3 suicidal _ (mk_proposal_delete bob false (core 0) 3) _ _ eq_refl).
  - vm_compute. reflexivity.
  - apply list_elem_of_here.
Defined.
End ProposalTheorems.
