(* ===== verification/ForkDb.v ===== *)
(** * The fork database ([fork_database.hpp], [fork_database.cpp])

    A tree of blocks by their identifiers, its head, and the branches that lead
    from two blocks to their common ancestor.  Items are shared: an item is a
    handle into [items], the index holds the handles it owns, and a weak
    pointer can be followed while the index, the head or a caller still owns its item.
    Nothing is ever put into [_unlinked_index] (the insertion follows a throw),
    so it is not part of the state. *)
From Stdlib Require Import ZArith Lia String.
From stdpp Require Import base gmap sets list strings.
From S2P Require Import Prelude External Authority Chain Market Operations Block.

Module ForkDb.
Import Chain Market Operations Block.

Record fork_item : Type := mk_item {
  item_prev : option nat;      (* the weak pointer prev *)
  item_num : Z;
  item_id : block_id_type;
  item_data : signed_block;
}.
Record fork_database : Type := mk_fork_db {
  _max_size : Z;
  _index : gmap block_id_type nat;
  _head : option nat;
  items : gmap nat fork_item;
  held : list nat;             (* the shared pointers in the hands of callers *)
}.
Definition unlinkable : string := "block does not link to known chain".
Definition null_pointer : string := "undefined: null pointer".

(** Every item that was ever allocated keeps its handle. *)
Definition fresh_handle (f : fork_database) : nat := fresh (dom (items f) : gset nat).
Definition owned (h : nat) (f : fork_database) : bool :=
  bool_decide (_head f = Some h) || bool_decide (h ∈ held f) || existsb (fun x => (x.2 =? h)%nat) (map_to_list (_index f)).
Definition item_at (h : nat) (f : fork_database) : result fork_item := of_option (items f !! h) null_pointer.
(** [prev.lock()]. *)
Definition lock (p : option nat) (f : fork_database) : option nat :=
  match p with Some h => if owned h f then Some h else None | None => None end.
Definition set_index (m : gmap block_id_type nat) (f : fork_database) : fork_database :=
  mk_fork_db (_max_size f) m (_head f) (items f) (held f).
Definition set_head_handle (h : option nat) (f : fork_database) : fork_database :=
  mk_fork_db (_max_size f) (_index f) h (items f) (held f).

Definition set_held (l : list nat) (f : fork_database) : fork_database :=
  mk_fork_db (_max_size f) (_index f) (_head f) (items f) l.

(** [num < bound] for the item of an entry of the index. *)
Definition older (bound : Z) (f : fork_database) (h : nat) : bool :=
  match items f !! h with Some i => item_num i <? bound | None => false end.
(** The loops that erase from the index [block_num] while its first item is too old. *)
Definition prune (bound : Z) (f : fork_database) : fork_database :=
  set_index (filter (fun x => older bound f x.2 = false) (_index f)) f.

Section Ops.
Context `{BlockOps}.
Definition head_num (f : fork_database) : result (option Z) :=
  match _head f with None => Ok None | Some h => i ← item_at h f; Ok (Some (item_num i)) end.
Definition reset (f : fork_database) : fork_database := mk_fork_db (_max_size f) ∅ None (items f) (held f).
Definition pop_block (f : fork_database) : result fork_database :=
  h ← of_option (_head f) "no blocks to pop";
  i ← item_at h f;
  prev ← of_option (lock (item_prev i) f) "poping block would leave head block null";
  Ok (set_head_handle (Some prev) f).
(** [std::make_shared<fork_item>( b )]. *)
Definition new_item (p : option nat) (b : signed_block) : fork_item := mk_item p (block_num b) (block_id b) b.
Definition insert_item (h : nat) (i : fork_item) (f : fork_database) : fork_database :=
  mk_fork_db (_max_size f)
    (match _index f !! item_id i with Some _ => _index f | None => <[item_id i := h]> (_index f) end)
    (_head f) (<[h := i]> (items f)) (held f).
Definition start_block (b : signed_block) (f : fork_database) : fork_database :=
  let h := fresh_handle f in
  set_head_handle (Some h) (insert_item h (new_item None b) f).
Definition _push_block (b : signed_block) (f : fork_database) : result fork_database :=
  num ← head_num f;
  _ ← match num with
      | Some n => fc_assert (Z.max 0 (n - _max_size f) <? block_num b) "attempting to push a block that is too old"
      | None => Ok tt
      end;
  prev ← match num with
         | Some _ =>
             if bool_decide (previous b = null_block_id) then Ok None
             else p ← of_option (_index f !! previous b) unlinkable; Ok (Some p)
         | None => Ok None
         end;
  let h := fresh_handle f in
  let f := insert_item h (new_item prev b) f in
  match num with
  | None => Ok (set_head_handle (Some h) f)
  | Some n =>
      if n <? block_num b then
        let f := set_head_handle (Some h) f in
        Ok (prune (block_num b - Z.min (_max_size f) (block_num b)) f)
      else Ok f
  end.
(** [push_block] returns the head. *)
Definition push_block (b : signed_block) (f : fork_database) : result (fork_database * nat) :=
  f' ← _push_block b f; h ← of_option (_head f') null_pointer; Ok (f', h).
Definition set_max_size (s : Z) (f : fork_database) : result fork_database :=
  let f := mk_fork_db s (_index f) (_head f) (items f) (held f) in
  num ← head_num f;
  match num with
  | None => Ok f
  | Some n => Ok (prune (Z.max 0 (n - s)) f)
  end.
Definition is_known_block (id : block_id_type) (f : fork_database) : bool :=
  match _index f !! id with Some _ => true | None => false end.
Definition fetch_block (id : block_id_type) (f : fork_database) : option nat := _index f !! id.
(** The blocks at one number are adjacent in the index [block_num]; which of them
    comes first is not said. *)
Definition at_number (num : Z) (f : fork_database) (h : nat) : bool :=
  match items f !! h with Some i => item_num i =? num | None => false end.
Definition fetch_block_by_number (num : Z) (f : fork_database) : list nat :=
  filter (fun h => at_number num f h = true) (snd <$> map_to_list (_index f)).
Definition set_head (h : nat) (f : fork_database) : fork_database := set_head_handle (Some h) f.
Definition remove (id : block_id_type) (f : fork_database) : fork_database := set_index (delete id (_index f)) f.

(** ** [fetch_branch_from] *)
Definition parent (i : fork_item) (f : fork_database) : result (nat * fork_item) :=
  p ← of_option (lock (item_prev i) f) "first_branch"; j ← item_at p f; Ok (p, j).
(** Walk back from [x] while its number is above [n]. *)
Fixpoint walk_down (fuel : nat) (n : Z) (x : nat * fork_item) (f : fork_database)
  : result (list nat * (nat * fork_item)) :=
  if n <? item_num (snd x) then
    match fuel with
    | O => Throw out_of_fuel
    | S fuel' => y ← parent (snd x) f; r ← walk_down fuel' n y f; Ok (fst x :: fst r, snd r)
    end
  else Ok ([], x).
(** Walk back from both while their predecessors differ. *)
Fixpoint walk_both (fuel : nat) (x y : nat * fork_item) (f : fork_database) : result (list nat * list nat) :=
  if bool_decide (previous (item_data (snd x)) = previous (item_data (snd y))) then Ok ([fst x], [fst y])
  else
    match fuel with
    | O => Throw out_of_fuel
    | S fuel' =>
        x' ← parent (snd x) f; y' ← parent (snd y) f;
        r ← walk_both fuel' x' y' f; Ok (fst x :: fst r, fst y :: snd r)
    end.
Definition item_of (id : block_id_type) (f : fork_database) : result (nat * fork_item) :=
  h ← of_option (_index f !! id) "first_branch_itr != _index.get<block_id>().end()"; i ← item_at h f; Ok (h, i).
Definition walk_fuel (x : nat * fork_item) : nat := Z.to_nat (item_num (snd x)).
Definition fetch_branch_from (first second : block_id_type) (f : fork_database)
  : result (list nat * list nat) :=
  x ← item_of first f;
  y ← item_of second f;
  rx ← walk_down (walk_fuel x) (item_num (snd y)) x f;
  ry ← walk_down (walk_fuel y) (item_num (snd (snd rx))) y f;
  r ← walk_both (S (walk_fuel (snd rx))) (snd rx) (snd ry) f;
  Ok (fst rx ++ fst r, fst ry ++ snd r).
End Ops.

(** ** Well-formed trees *)
Section Tree.
Context `{BlockLaws}.

(** An item carries the number and the identifier of its block; its weak pointer
    is at the item of the previous block; the index finds items by identifier. *)
Record fork_wf (f : fork_database) : Prop := {
  wf_item : forall h i, items f !! h = Some i -> item_num i = block_num (item_data i) /\ item_id i = block_id (item_data i);
  wf_prev : forall h i p, items f !! h = Some i -> item_prev i = Some p ->
    0 < item_num i /\ exists j, items f !! p = Some j /\ item_id j = previous (item_data i);
  wf_index : forall id h, _index f !! id = Some h -> exists i, items f !! h = Some i /\ item_id i = id;
  wf_head : forall h, _head f = Some h -> is_Some (items f !! h);
}.

Lemma fresh_handle_None f : items f !! fresh_handle f = None.
Proof. apply (not_elem_of_dom (D:=gset nat)). apply (is_fresh (dom (items f) : gset nat)). Qed.
Lemma item_num_range f h i : fork_wf f -> items f !! h = Some i -> 0 <= item_num i < 2 ^ 32.
Proof. intros Hw Hi. destruct (wf_item f Hw _ _ Hi) as [-> _]. apply Z.mod_pos_bound. lia. Qed.
(** The item of a predecessor has the number before. *)
Lemma prev_num f h i p j :
  fork_wf f -> items f !! h = Some i -> item_prev i = Some p -> items f !! p = Some j -> item_num i = item_num j + 1.
Proof.
  intros Hw Hi Hp Hj. destruct (wf_prev f Hw _ _ _ Hi Hp) as (Hpos & j' & Hj' & Hid). simplify_eq.
  pose proof (item_num_range f _ _ Hw Hj) as Hr. destruct (wf_item f Hw _ _ Hi) as [Hn _].
  destruct (wf_item f Hw _ _ Hj) as [Hnj Hidj]. rewrite Hn in *. unfold block_num in Hn |- * at 1. unfold block_num in Hpos.
  rewrite <- Hid, Hidj, num_from_block_id, <- Hnj in *. unfold wrap in *.
  destruct (decide (item_num j + 1 = 2 ^ 32)) as [E|E]; [rewrite E, Z.mod_same in Hpos by lia; lia|].
  rewrite Z.mod_small; lia.
Qed.
Lemma set_index_wf f (P : block_id_type * nat -> Prop) `{!forall x, Decision (P x)} :
  fork_wf f -> fork_wf (set_index (filter P (_index f)) f).
Proof.
  intros [W1 W2 W3 W4]. split; cbn; [done..| |done].
  intros id h [Hi _]%map_lookup_filter_Some. by apply W3.
Qed.
Lemma insert_item_wf f p b :
  fork_wf f -> (forall h, p = Some h -> 0 < block_num b /\ exists j, items f !! h = Some j /\ item_id j = previous b) ->
  fork_wf (insert_item (fresh_handle f) (new_item p b) f).
Proof.
  intros [W1 W2 W3 W4] Hp. pose proof (fresh_handle_None f) as Hfr. set (n := fresh_handle f) in *.
  assert (Hold : forall h i, items f !! h = Some i -> <[n := new_item p b]> (items f) !! h = Some i)
    by (intros h i Hi; rewrite lookup_insert_ne; congruence).
  split; cbn.
  - intros h i [[<- <-]|[Hne Hi]]%lookup_insert_Some; [done|by eapply W1].
  - intros h i q [[<- <-]|[Hne Hi]]%lookup_insert_Some Hq; cbn in *.
    + destruct (Hp _ Hq) as (Hpos & j & Hj & Hid). split; [done|]. exists j. auto.
    + destruct (W2 _ _ _ Hi Hq) as (Hpos & j & Hj & Hid). split; [done|]. exists j. auto.
  - intros id h Hid. destruct (_index f !! block_id b) eqn:Eb.
    + destruct (W3 _ _ Hid) as (i & Hi & <-). exists i. auto.
    + apply lookup_insert_Some in Hid as [[<- <-]|[Hne Hid]]; [exists (new_item p b); by rewrite lookup_insert_eq|].
      destruct (W3 _ _ Hid) as (i & Hi & <-). exists i. auto.
  - intros h Hh. destruct (W4 _ Hh) as [i Hi]. exists i. auto.
Qed.
Lemma set_head_wf f h : fork_wf f -> is_Some (items f !! h) -> fork_wf (set_head_handle (Some h) f).
Proof. intros [W1 W2 W3 W4] Hh. split; cbn; [done..|]. by intros ? [= <-]. Qed.

(** The head has the highest number of the index, and no item of the index is
    more than [_max_size] below it; both are lost by [set_head]. *)
Definition indexed (f : fork_database) (h : nat) (i : fork_item) : Prop :=
  items f !! h = Some i /\ exists id, _index f !! id = Some h.
Record longest (f : fork_database) : Prop := {
  longest_empty : _head f = None -> _index f = ∅;
  longest_head : forall h i k j, _head f = Some h -> items f !! h = Some i -> indexed f k j ->
    item_num i - _max_size f <= item_num j <= item_num i;
}.
Lemma head_num_Ok f n : head_num f = Ok n ->
  match n with None => _head f = None | Some n => exists h i, _head f = Some h /\ items f !! h = Some i /\ item_num i = n end.
Proof.
  unfold head_num, item_at. destruct (_head f) as [h|] eqn:Eh; intros E; repeat inv_ok1; simplify_eq; [eauto|done].
Qed.

Lemma indexed_insert f p b h i :
  indexed (insert_item (fresh_handle f) (new_item p b) f) h i ->
  (h = fresh_handle f /\ i = new_item p b) \/ (indexed f h i /\ h <> fresh_handle f).
Proof.
  intros [Hi [id Hid]]. cbn in *. apply lookup_insert_Some in Hi as [[<- <-]|[Hne Hi]]; [by left|right].
  split; [|done]. split; [done|]. destruct (_index f !! block_id b); [by exists id|].
  apply lookup_insert_Some in Hid as [[<- <-]|[_ Hid]]; [congruence|by exists id].
Qed.
Lemma indexed_prune f bound h i : indexed (prune bound f) h i -> indexed f h i /\ bound <= item_num i.
Proof.
  unfold prune. intros [Hi [id Hid]]. cbn in *. apply map_lookup_filter_Some in Hid as [Hid Ho].
  unfold older in Ho. cbn in Ho. rewrite Hi in Ho. split; [|lia]. split; [done|by exists id].
Qed.

Lemma prune_keeps bound f id h i :
  _index f !! id = Some h -> items f !! h = Some i -> bound <= item_num i -> _index (prune bound f) !! id = Some h.
Proof.
  intros Hid Hi Hb. cbn. apply map_lookup_filter_Some. split; [done|]. unfold older. cbn. rewrite Hi. by apply Z.ltb_ge.
Qed.
(** A new block on the head: the fork database accepts it, and the head moves to it
    from the block before. *)
Record on_top (b : signed_block) (f : fork_database) (h : nat) (i : fork_item) : Prop := {
  top_wf : fork_wf f;
  top_size : 1 <= _max_size f;
  top_head : _head f = Some h;
  top_item : items f !! h = Some i;
  top_known : _index f !! previous b = Some h;
  top_not_null : previous b <> null_block_id;
  top_number : 0 < block_num b;
  top_new : _index f !! block_id b = None;
}.
Lemma top_next b f h i : on_top b f h i -> block_num b = item_num i + 1.
Proof.
  intros [Hw _ Hh Hi Hk Hn Hb _]. destruct (wf_index f Hw _ _ Hk) as (j & Hj & Hid). simplify_eq.
  pose proof (item_num_range f _ _ Hw Hi) as Hr. destruct (wf_item f Hw _ _ Hi) as [Hnum Hid'].
  unfold block_num in Hb |- *. rewrite <- Hid, Hid', num_from_block_id, <- Hnum in *. unfold wrap in *.
  destruct (decide (item_num i + 1 = 2 ^ 32)) as [E|E]; [rewrite E, Z.mod_same in Hb by lia; lia|].
  rewrite Z.mod_small; lia.
Qed.
Lemma push_on_top b f h i :
  on_top b f h i -> exists f', push_block b f = Ok (f', fresh_handle f) /\ _head f' = Some (fresh_handle f)
    /\ items f' !! fresh_handle f = Some (new_item (Some h) b) /\ items f' !! h = Some i
    /\ _index f' !! block_id b = Some (fresh_handle f) /\ _index f' !! previous b = Some h.
Proof.
  intros Ht. pose proof (top_next _ _ _ _ Ht) as Hnum. destruct Ht as [Hw Hs Hh Hi Hk Hn Hb Hnew].
  assert (Hne : h <> fresh_handle f) by (intros ->; by rewrite fresh_handle_None in Hi).
  assert (Hids : block_id b <> previous b) by congruence.
  unfold push_block, _push_block, head_num, item_at. rewrite Hh. cbn [mbind result_bind of_option]. rewrite Hi. cbn [mbind result_bind of_option].
  unfold fc_assert. rewrite (proj2 (Z.ltb_lt (Z.max 0 (item_num i - _max_size f)) (block_num b))) by lia.
  rewrite bool_decide_false, Hk by done. cbn [mbind result_bind of_option]. rewrite (proj2 (Z.ltb_lt _ _)) by lia.
  cbn [mbind result_bind of_option _head prune set_index set_head_handle]. eexists. split; [done|]. split; [done|]. split_and!.
  - cbn. apply lookup_insert_eq.
  - cbn. by rewrite lookup_insert_ne.
  - eapply prune_keeps; cbn; [rewrite Hnew; apply lookup_insert_eq|apply lookup_insert_eq|cbn; lia].
  - eapply prune_keeps; cbn; [rewrite Hnew, lookup_insert_ne; done|rewrite lookup_insert_ne; done|cbn; lia].
Qed.
(** Setting the size and popping the head give back what was there. *)
Lemma pop_after_size s b f f' k j h i :
  0 < item_num j -> 1 <= s -> set_max_size s f = Ok f' ->
  _head f = Some k -> items f !! k = Some j -> _index f !! block_id b = Some k -> item_prev j = Some h ->
  items f !! h = Some i -> _index f !! previous b = Some h -> item_num j = item_num i + 1 ->
  _index f' !! block_id b = Some k /\ items f' = items f
  /\ exists g, pop_block f' = Ok g /\ _head g = Some h.
Proof.
  intros Hpos Hs E Hk Hj Hbk Hp Hi Hbh Hn. unfold set_max_size, head_num, item_at in E. cbn in E. rewrite Hk in E. cbn in E.
  rewrite Hj in E. cbn in E. injection E as <-. split_and!; [|done|].
  - eapply (prune_keeps _ (mk_fork_db s (_index f) (Some k) (items f) (held f))); cbn; [done..|lia].
  - unfold pop_block, item_at. cbn [_head items prune set_index of_option mbind result_bind]. rewrite Hj.
    cbn [of_option mbind result_bind]. rewrite Hp. cbn [lock].
    match goal with |- context [owned h ?g] => assert (Ho : owned h g = true) end; [|rewrite Ho; by eexists].
    unfold owned. apply orb_true_iff. right. apply existsb_exists. exists (previous b, h). split; [|by apply Nat.eqb_eq].
    apply list_elem_of_In, elem_of_map_to_list.
    eapply (prune_keeps _ (mk_fork_db s (_index f) (Some k) (items f) (held f))); cbn; [done..|lia].
Qed.

(** What a push does: the new item is an item of the tree, the structure is kept
    and the head is the new block exactly when its number is higher. *)
Lemma push_item b f f' :
  fork_wf f -> _push_block b f = Ok f' ->
  exists p, fork_wf f' /\ _max_size f' = _max_size f
    /\ items f' = <[fresh_handle f := new_item p b]> (items f)
    /\ (forall h i, _head f = Some h -> items f !! h = Some i -> Z.max 0 (item_num i - _max_size f) < block_num b)
    /\ _head f' = Some (match _head f with
        | None => fresh_handle f
        | Some h => match items f !! h with
                    | Some i => if item_num i <? block_num b then fresh_handle f else h
                    | None => h
                    end
        end)
    /\ (forall h i, indexed f' h i ->
          ((h = fresh_handle f /\ i = new_item p b) \/ (indexed f h i /\ h <> fresh_handle f))
          /\ forall k j, _head f = Some k -> items f !! k = Some j -> item_num j < block_num b ->
               block_num b - Z.min (_max_size f) (block_num b) <= item_num i).
Proof.
  intros Hw E. unfold _push_block in E. inv_ok1. rename Hrun into Hn, a into n. apply head_num_Ok in Hn.
  destruct n as [n|]; repeat inv_ok1.
  - destruct Hn as (k & j & Hk & Hj & <-). rewrite Hk, Hj.
    rename a0 into pr. assert (Hp : forall h, pr = Some h ->
      0 < block_num b /\ exists j, items f !! h = Some j /\ item_id j = previous b).
    { intros h ->. case_bool_decide; repeat inv_ok1; simplify_eq. split; [lia|]. by apply (wf_index f Hw). }
    pose proof (insert_item_wf f pr b Hw Hp) as Hins. exists pr.
    destruct (Z.ltb_spec (item_num j) (block_num b)) as [Hlt|Hge]; injection E as <-.
    + split_and!; [|done|done| |done|].
      * apply set_index_wf. apply set_head_wf; [done|]. cbn. rewrite lookup_insert_eq. by eexists.
      * intros ? ? [= <-] ?. simplify_eq. lia.
      * intros h i Hi. apply indexed_prune in Hi as [Hi Hb]. split; [by apply indexed_insert|done].
    + split_and!; [done|done|done| |done|].
      * intros ? ? [= <-] ?. simplify_eq. lia.
      * intros h i Hi. split; [by apply indexed_insert|]. intros ? ? [= <-] ?. simplify_eq. lia.
  - subst. exists None. rewrite Hn. split_and!; try done.
    + apply set_head_wf; [apply insert_item_wf; [done|by intros ? [=]]|]. cbn. rewrite lookup_insert_eq. by eexists.
    + intros h i Hi. split; [by apply indexed_insert|done].
Qed.

(** The trees that grow from an empty one by pushes and changes of the size. *)
Definition empty_fork (n : Z) : fork_database := mk_fork_db n ∅ None ∅ [].
Inductive grown : fork_database -> Prop :=
| grown_empty n : 0 <= n -> grown (empty_fork n)
| grown_start n b : 0 <= n -> grown (start_block b (empty_fork n))
| grown_push b f f' : grown f -> _push_block b f = Ok f' -> grown f'
| grown_size n f f' : 0 <= n -> grown f -> set_max_size n f = Ok f' -> grown f'.
Lemma empty_fork_wf n : fork_wf (empty_fork n).
Proof. by split; cbn. Qed.
Lemma push_longest b f f' :
  0 <= _max_size f -> fork_wf f -> longest f -> _push_block b f = Ok f' -> fork_wf f' /\ longest f' /\ _max_size f' = _max_size f.
Proof.
  intros Hm Hw [L1 L2] E. apply push_item in E as (p & Hw' & Hs & Hit & Hlow & Hh & Hin); [|done].
  split_and!; [done| |done]. split; [by rewrite Hh|]. intros h i k j Eh Ei Hk. rewrite Hh in Eh. injection Eh as <-.
  destruct (Hin _ _ Hk) as [Hcase Hb]. rewrite Hit in Ei. rewrite Hs.
  destruct (_head f) as [h0|] eqn:E0.
  - destruct (wf_head f Hw _ E0) as [i0 Hi0]. rewrite Hi0 in Ei. specialize (Hlow _ _ eq_refl Hi0).
    specialize (Hb _ _ eq_refl Hi0). destruct (Z.ltb_spec (item_num i0) (block_num b)) as [Hlt|Hge].
    + rewrite lookup_insert_eq in Ei. injection Ei as <-. cbn. specialize (Hb Hlt).
      destruct Hcase as [[-> ->]|[Hk' _]]; cbn in *; [lia|]. specialize (L2 _ _ _ _ eq_refl Hi0 Hk'). lia.
    + rewrite lookup_insert_ne in Ei by (pose proof (fresh_handle_None f); congruence). simplify_eq.
      destruct Hcase as [[-> ->]|[Hk' _]]; cbn in *; [lia|]. by apply (L2 _ _ _ _ eq_refl Ei Hk').
  - rewrite lookup_insert_eq in Ei. injection Ei as <-. cbn.
    destruct Hcase as [[-> ->]|[[_ [id Hk']] _]]; cbn; [lia|]. by rewrite (L1 eq_refl) in Hk'.
Qed.
Lemma set_size_longest n f f' :
  0 <= n -> fork_wf f -> longest f -> set_max_size n f = Ok f' -> fork_wf f' /\ longest f' /\ _max_size f' = n.
Proof.
  intros Hn [W1 W2 W3 W4] [L1 L2] E. unfold set_max_size in E. set (g := mk_fork_db n (_index f) (_head f) (items f) (held f)) in *.
  assert (Hg : fork_wf g) by (by split). inv_ok1. apply head_num_Ok in Hrun.
  destruct a as [m|]; injection E as <-.
  - destruct Hrun as (h & i & Hh & Hi & <-). split_and!; [by apply set_index_wf| |done]. split; [cbn in *; congruence|].
    intros h' i' k j Eh Ei Hk. apply indexed_prune in Hk as [Hk Hb]. cbn in *. simplify_eq.
    pose proof (L2 _ _ _ _ Hh Hi Hk). lia.
  - split_and!; [done| |done]. split; [intros; by apply L1|cbn in *; congruence].
Qed.
Lemma grown_inv f : grown f -> 0 <= _max_size f /\ fork_wf f /\ longest f.
Proof.
  induction 1 as [n Hn|n b Hn|b f f' _ (Hm & Hw & Hl) E|n f f' Hn _ (Hm & Hw & Hl) E].
  - split_and!; [done|apply empty_fork_wf|]. by split.
  - split_and!; [done| |].
    + apply set_head_wf; [apply insert_item_wf; [apply empty_fork_wf|done]|]. cbn. rewrite lookup_insert_eq. by eexists.
    + split; [done|]. intros h i k j [= <-] Ei Hk. apply (indexed_insert (empty_fork n) None b) in Hk.
      cbn in Ei. rewrite lookup_insert_eq in Ei. injection Ei as <-.
      destruct Hk as [[-> ->]|[[_ [id Hk]] _]]; cbn; [lia|]. by destruct (lookup_empty_Some _ _ Hk).
  - apply push_longest in E as (? & ? & Hs); [|done..]. rewrite Hs. done.
  - apply set_size_longest in E as (? & ? & Hs); [|done..]. rewrite Hs. done.
Qed.

(** C22: the longest chain.  In a tree that grows by pushes and changes of the size
    the head has the highest number, nothing that the index holds is more than
    the size below it, and every weak pointer is at the item of the previous
    block, which has the number before. *)
Theorem longest_chain (f : fork_database) (h : nat) (i : fork_item) :
  grown f -> _head f = Some h -> items f !! h = Some i ->
  (forall id k j, _index f !! id = Some k -> items f !! k = Some j ->
     item_id j = id /\ item_num i - _max_size f <= item_num j <= item_num i)
  /\ forall k j p, items f !! k = Some j -> item_prev j = Some p ->
       exists q, items f !! p = Some q /\ item_id q = previous (item_data j) /\ item_num j = item_num q + 1.
Proof.
  intros Hg Hh Hi. apply grown_inv in Hg as (_ & Hw & [_ L2]). split.
  - intros id k j Hid Hk. split; [|eapply L2; eauto; split; eauto].
    destruct (wf_index f Hw _ _ Hid) as (? & ? & ?). by simplify_eq.
  - intros k j p Hk Hp. destruct (wf_prev f Hw _ _ _ Hk Hp) as (_ & q & Hq & Hid). exists q. split_and!; [done..|].
    by eapply prev_num.
Qed.

(** *** Branches *)
(** Consecutive items of a branch: a block and the block before it. *)
Definition follows (f : fork_database) (x y : nat) : Prop :=
  exists i j, items f !! x = Some i /\ items f !! y = Some j
    /\ item_id j = previous (item_data i) /\ item_num i = item_num j + 1.
Definition branch (f : fork_database) (l : list nat) : Prop :=
  forall k x y, l !! k = Some x -> l !! S k = Some y -> follows f x y.
Definition same_previous (f : fork_database) (x y : nat) : Prop :=
  exists i j, items f !! x = Some i /\ items f !! y = Some j
    /\ previous (item_data i) = previous (item_data j) /\ item_num i = item_num j.
Lemma branch_cons f x y l : follows f x y -> branch f (y :: l) -> branch f (x :: y :: l).
Proof. intros Hx Hl [|k] u v Hu Hv; cbn in *; [by simplify_eq|]. by apply (Hl k). Qed.
Lemma branch_num f x l i k y :
  branch f (x :: l) -> items f !! x = Some i -> (x :: l) !! k = Some y ->
  exists j, items f !! y = Some j /\ item_num j = item_num i - Z.of_nat k.
Proof.
  revert x i l. induction k as [|k IH]; intros x i l Hb Hx Hy; cbn in Hy; [simplify_eq; exists i; split; [done|lia]|].
  destruct l as [|z l]; [done|]. destruct (Hb O x z eq_refl eq_refl) as (i' & j & Hx' & Hz & _ & Hn). simplify_eq.
  destruct (IH z j l) as (j' & Hj' & E); [|done|done|exists j'; split; [done|lia]].
  intros m u v Hu Hv. by apply (Hb (S m)).
Qed.
Lemma parent_follows f x i y :
  fork_wf f -> items f !! x = Some i -> parent i f = Ok y -> items f !! fst y = Some (snd y) /\ follows f x (fst y).
Proof.
  intros Hw Hx E. unfold parent, item_at in E. repeat inv_ok1. cbn.
  destruct (item_prev i) as [p|] eqn:Ep; [|done]. unfold lock in Hrun. destruct (owned p f); [|done]. injection Hrun as ->.
  split; [done|]. destruct (wf_prev f Hw _ _ _ Hx Ep) as (_ & j & Hj & Hid).
  exists i, j. split_and!; [done..|]. by eapply prev_num.
Qed.
Lemma parent_throws i f e : parent i f = Throw e -> e <> out_of_fuel.
Proof.
  unfold parent, item_at. destruct (lock _ f) as [h|]; cbn; [|by intros [= <-]].
  destruct (items f !! h); cbn; [done|by intros [= <-]].
Qed.

Lemma walk_down_Ok fuel n x f l y :
  fork_wf f -> items f !! fst x = Some (snd x) -> walk_down fuel n x f = Ok (l, y) ->
  items f !! fst y = Some (snd y) /\ branch f (l ++ [fst y]) /\ head (l ++ [fst y]) = Some (fst x)
  /\ item_num (snd y) = Z.min n (item_num (snd x)).
Proof.
  intros Hw. revert x l y. induction fuel as [|fuel IH]; intros x l y Hx; cbn [walk_down];
    (destruct (Z.ltb_spec n (item_num (snd x))) as [Hlt|Hle]; [|intros [= <- <-]; split_and!;
       [done|by intros [|[|k]]|done|lia]]); [done|].
  intros E. repeat inv_ok1. rename a into z, a0 into r.
  destruct (parent_follows f _ _ _ Hw Hx Hrun) as [Hz Hf]. destruct r as [l' y']. cbn in *.
  apply IH in Hrun0 as (Hy & Hb & Hh & Hn); [|done]. split_and!; [done| |done|].
  - destruct (l' ++ [fst y']) as [|u l2] eqn:El; [by destruct l'|]. cbn in Hh. injection Hh as ->.
    by apply branch_cons.
  - destruct Hf as (i & j & Hi & Hj & _ & Hij). simplify_eq. lia.
Qed.
Lemma walk_down_ends fuel n x f :
  fork_wf f -> 0 <= n -> items f !! fst x = Some (snd x) -> (Z.to_nat (item_num (snd x)) <= fuel)%nat ->
  walk_down fuel n x f <> Throw out_of_fuel.
Proof.
  intros Hw Hn. revert x. induction fuel as [|fuel IH]; intros x Hx Hf; cbn [walk_down];
    (destruct (Z.ltb_spec n (item_num (snd x))) as [Hlt|Hle]; [|done]); [lia|].
  destruct (parent (snd x) f) as [y|e] eqn:Ep; cbn; [|intros [= ->]; by apply (parent_throws _ _ _ Ep)].
  destruct (parent_follows f _ _ _ Hw Hx Ep) as [Hy (i & j & Hi & Hj & _ & Hij)]. simplify_eq.
  specialize (IH y Hy ltac:(lia)). destruct (walk_down fuel n y f); cbn; congruence.
Qed.
Lemma walk_both_Ok fuel x y f l1 l2 :
  fork_wf f -> items f !! fst x = Some (snd x) -> items f !! fst y = Some (snd y) ->
  item_num (snd x) = item_num (snd y) -> walk_both fuel x y f = Ok (l1, l2) ->
  exists p1 p2 u v, l1 = p1 ++ [u] /\ l2 = p2 ++ [v] /\ length p1 = length p2
    /\ head l1 = Some (fst x) /\ head l2 = Some (fst y) /\ branch f l1 /\ branch f l2 /\ same_previous f u v
    /\ forall k a b, p1 !! k = Some a -> p2 !! k = Some b -> ~ same_previous f a b.
Proof.
  intros Hw. revert x y l1 l2. induction fuel as [|fuel IH]; intros x y l1 l2 Hx Hy Hn; cbn [walk_both];
    (case_bool_decide as Hp; [intros [= <- <-]; exists [], [], (fst x), (fst y); split_and!;
       [done..|by intros [|[|k]]|by intros [|[|k]]|by exists (snd x), (snd y)|done]|]); [done|].
  intros E. repeat inv_ok1. rename a into x', a0 into y', a1 into r.
  destruct (parent_follows f _ _ _ Hw Hx Hrun) as [Hx' Fx]. destruct (parent_follows f _ _ _ Hw Hy Hrun0) as [Hy' Fy].
  destruct r as [r1 r2]. apply IH in Hrun1 as (p1 & p2 & u & v & -> & -> & Hl & H1' & H2' & B1 & B2 & Hs & Hd); [|done..|].
  - exists (fst x :: p1), (fst y :: p2), u, v. cbn. split_and!; try done; [congruence|..].
    + destruct (p1 ++ [u]) eqn:E1; [done|]. cbn in H1'. injection H1' as ->. by apply branch_cons.
    + destruct (p2 ++ [v]) eqn:E2; [done|]. cbn in H2'. injection H2' as ->. by apply branch_cons.
    + intros [|k] a b Ha Hb; [|by apply (Hd k)]. cbn in *. simplify_eq. intros (i & j & Hi & Hj & Hpr & _). by simplify_eq.
  - destruct Fx as (? & ? & ? & ? & _ & ?), Fy as (? & ? & ? & ? & _ & ?). simplify_eq. lia.
Qed.
Lemma walk_both_ends fuel x y f :
  fork_wf f -> items f !! fst x = Some (snd x) -> items f !! fst y = Some (snd y) ->
  (Z.to_nat (item_num (snd x)) < fuel)%nat -> walk_both fuel x y f <> Throw out_of_fuel.
Proof.
  intros Hw. revert x y. induction fuel as [|fuel IH]; intros x y Hx Hy Hf; [lia|]. cbn [walk_both]. case_bool_decide; [done|].
  destruct (parent (snd x) f) as [x'|e] eqn:Ep; cbn; [|intros [= ->]; by apply (parent_throws _ _ _ Ep)].
  destruct (parent (snd y) f) as [y'|e] eqn:Eq; cbn; [|intros [= ->]; by apply (parent_throws _ _ _ Eq)].
  destruct (parent_follows f _ _ _ Hw Hx Ep) as [Hx' (i & j & Hi & Hj & _ & Hij)].
  destruct (parent_follows f _ _ _ Hw Hy Eq) as [Hy' _]. simplify_eq.
  pose proof (item_num_range f _ _ Hw Hx') as Hr.
  specialize (IH x' y' Hx' Hy' ltac:(lia)). destruct (walk_both fuel x' y' f); cbn; congruence.
Qed.
Lemma item_of_Ok id f x :
  fork_wf f -> item_of id f = Ok x -> _index f !! id = Some (fst x) /\ items f !! fst x = Some (snd x).
Proof. intros Hw E. unfold item_of, item_at in E. repeat inv_ok1. done. Qed.
Lemma item_of_throws id f e : item_of id f = Throw e -> e <> out_of_fuel.
Proof.
  unfold item_of, item_at. destruct (_index f !! id) as [h|]; cbn; [|by intros [= <-]].
  destruct (items f !! h); cbn; [done|by intros [= <-]].
Qed.
Lemma branch_app f d x l : branch f (d ++ [x]) -> branch f l -> head l = Some x -> branch f (d ++ l).
Proof.
  intros Hd Hl Hh. destruct l as [|z l]; [done|]. injection Hh as ->. intros k u v Hu Hv.
  destruct (Nat.lt_ge_cases (S k) (length d)) as [Hlt|Hge].
  - rewrite lookup_app_l in Hu, Hv by lia. apply (Hd k); rewrite lookup_app_l by lia; done.
  - rewrite lookup_app_r in Hv by lia. destruct (decide (S k = length d)) as [E|Hne].
    + rewrite E, Nat.sub_diag in Hv. injection Hv as <-. rewrite lookup_app_l in Hu by lia.
      apply (Hd k); [by rewrite lookup_app_l by lia|]. by rewrite lookup_app_r, E, Nat.sub_diag by lia.
    + rewrite lookup_app_r in Hu by lia. apply (Hl (k - length d)%nat); [done|].
      by replace (S (k - length d)) with (S k - length d)%nat by lia.
Qed.
(** The first part of a branch, and how long it is. *)
Lemma walk_down_length f d x y :
  branch f (d ++ [fst y]) -> head (d ++ [fst y]) = Some (fst x) ->
  items f !! fst x = Some (snd x) -> items f !! fst y = Some (snd y) ->
  item_num (snd y) = item_num (snd x) - Z.of_nat (length d).
Proof.
  intros Hb Hh Hx Hy. destruct (d ++ [fst y]) as [|z l] eqn:E; [by destruct d|]. injection Hh as ->.
  destruct (branch_num f _ _ _ (length d) (fst y) Hb Hx) as (j & Hj & Hn).
  - rewrite <- E. by rewrite lookup_app_r, Nat.sub_diag by lia.
  - simplify_eq. lia.
Qed.

(** C23: the branches of two blocks.  The search ends, whatever the blocks; the
    branches it returns start at the two blocks, lead from each item to the item
    of the previous block, and end at the first pair of items that have the same
    previous block. *)
Theorem fetch_branch_from_exact (first second : block_id_type) (f : fork_database) :
  fork_wf f ->
  fetch_branch_from first second f <> Throw out_of_fuel
  /\ forall l1 l2, fetch_branch_from first second f = Ok (l1, l2) ->
       exists p1 u p2 v, l1 = p1 ++ [u] /\ l2 = p2 ++ [v]
         /\ head l1 = _index f !! first /\ head l2 = _index f !! second
         /\ branch f l1 /\ branch f l2 /\ same_previous f u v
         /\ forall a b, a ∈ p1 -> b ∈ p2 -> ~ same_previous f a b.
Proof.
  intros Hw. unfold fetch_branch_from. split.
  - destruct (item_of first f) as [x|e] eqn:E1; cbn -[walk_both walk_down]; [|intros [= ->]; by apply item_of_throws in E1].
    destruct (item_of second f) as [y|e] eqn:E2; cbn -[walk_both walk_down]; [|intros [= ->]; by apply item_of_throws in E2].
    apply item_of_Ok in E1 as [_ Hx], E2 as [_ Hy]; [|done..].
    pose proof (item_num_range f _ _ Hw Hx). pose proof (item_num_range f _ _ Hw Hy).
    destruct (walk_down _ (item_num (snd y)) x f) as [[d1 x']|e] eqn:W1; cbn -[walk_both walk_down];
      [|intros [= ->]; revert W1; apply walk_down_ends; unfold walk_fuel; auto; lia].
    apply walk_down_Ok in W1 as (Hx' & _ & _ & Hn1); [|done..].
    destruct (walk_down _ (item_num (snd x')) y f) as [[d2 y']|e] eqn:W2; cbn -[walk_both walk_down];
      [|intros [= ->]; revert W2; apply walk_down_ends; unfold walk_fuel; auto; lia].
    apply walk_down_Ok in W2 as (Hy' & _); [|done..].
    destruct (walk_both (S (walk_fuel x')) x' y' f) eqn:W3; cbn; [done|]. intros [= ->]. revert W3. apply walk_both_ends; auto.
  - intros l1 l2 E. do 5 inv_ok1. rename a into x, a0 into y. destruct a1 as [d1 x'], a2 as [d2 y'], a3 as [q1 q2]. cbn -[walk_both walk_down] in *.
    apply item_of_Ok in Hrun as [Hf Hx], Hrun0 as [Hs Hy]; [|done..].
    apply walk_down_Ok in Hrun1 as (Hx' & B1 & Hh1 & Hn1), Hrun2 as (Hy' & B2 & Hh2 & Hn2); [|done..].
    apply walk_both_Ok in Hrun3 as (p1 & p2 & u & v & -> & -> & Hl & Hq1 & Hq2 & C1 & C2 & Hsp & Hd); [|done..|lia].
    injection E as <- <-.
    pose proof (branch_app f _ _ _ B1 C1 Hq1) as D1. pose proof (branch_app f _ _ _ B2 C2 Hq2) as D2.
    pose proof (walk_down_length f _ _ _ B1 Hh1 Hx Hx') as L1. pose proof (walk_down_length f _ _ _ B2 Hh2 Hy Hy') as L2.
    assert (Hd1 : head (d1 ++ p1 ++ [u]) = Some (fst x)) by (destruct d1; [cbn in *; congruence|done]).
    assert (Hd2 : head (d2 ++ p2 ++ [v]) = Some (fst y)) by (destruct d2; [cbn in *; congruence|done]).
    exists (d1 ++ p1), u, (d2 ++ p2), v. rewrite <- !app_assoc. split_and!; [done|done|congruence|congruence|done|done|done|].
    intros a b [ka Ha]%list_elem_of_lookup [kb Hb]%list_elem_of_lookup Hab.
    destruct (d1 ++ p1 ++ [u]) as [|z1 l1] eqn:El1; [done|]. injection Hd1 as ->.
    destruct (d2 ++ p2 ++ [v]) as [|z2 l2] eqn:El2; [done|]. injection Hd2 as ->.
    destruct (branch_num f _ _ _ ka a D1 Hx) as (i & Hi & Ni); [rewrite <- El1, app_assoc; by apply lookup_app_l_Some|].
    destruct (branch_num f _ _ _ kb b D2 Hy) as (j & Hj & Nj); [rewrite <- El2, app_assoc; by apply lookup_app_l_Some|].
    destruct Hab as (i' & j' & Hi' & Hj' & Hp & Hn). simplify_eq.
    assert (ka - length d1 = kb - length d2 /\ length d1 <= ka /\ length d2 <= kb)%nat as (Hk & ? & ?) by lia.
    rewrite lookup_app_r in Ha, Hb by done. rewrite <- Hk in Hb. apply (Hd _ _ _ Ha Hb). by exists i', j'.
Qed.
End Tree.






(** ** Concrete runs *)
Import BlockSample.
Module ForkSample.
(** A root at number 100, one block on it from witness 1, and two from witness 2. *)
Definition after_block (b : signed_block) (time w : Z) : signed_block := mk_block (block_id b) time w 0 [] (200 + w).
Definition root_block : signed_block := mk_block (mk_block_id (reverse_word 99) 0 0) 1600000000 1 0 [] 201.
Definition left1 : signed_block := after_block root_block 1600000005 1.
Definition right1 : signed_block := after_block root_block 1600000010 2.
Definition right2 : signed_block := after_block right1 1600000015 2.
Definition push_all (l : list signed_block) (f : fork_database) : fork_database :=
  fold_left (fun f b => match _push_block b f with Ok f' => f' | Throw _ => f end) l f.
Lemma push_all_grown l f : grown f -> grown (push_all l f).
Proof.
  revert f. induction l as [|b l IH]; intros f Hf; cbn; [done|]. apply IH.
  destruct (_push_block b f) eqn:E; [|done]. by eapply grown_push.
Qed.
Definition tree : fork_database := push_all [left1; right1; right2] (start_block root_block (empty_fork 10)).
Lemma tree_grown : grown tree.
Proof. apply push_all_grown. by apply grown_start. Qed.
Definition the_item (id : block_id_type) : nat * fork_item :=
  match item_of id tree with Ok x => x | Throw _ => (O, new_item None root_block) end.
Lemma tree_branches :
  fetch_branch_from (block_id left1) (block_id right2) tree
  = Ok ([fst (the_item (block_id left1))], [fst (the_item (block_id right2)); fst (the_item (block_id right1))]).
Proof. vm_compute. reflexivity. Qed.
End ForkSample.
Import ForkSample.
Lemma longest_chain_witness :
  item_num (snd (the_item (block_id right2))) = 102 /\ _max_size tree = 10
  /\ forall id k j, _index tree !! id = Some k -> items tree !! k = Some j ->
       item_id j = id
       /\ item_num (snd (the_item (block_id right2))) - _max_size tree <= item_num j <= item_num (snd (the_item (block_id right2))).
Proof.
  split; [by vm_compute|]. split; [by vm_compute|].
  refine (proj1 (longest_chain tree (fst (the_item (block_id right2))) (snd (the_item (block_id right2))) tree_grown _ _));
    vm_compute; reflexivity.
Defined.
Lemma fetch_branch_from_exact_witness :
  exists p1 u p2 v, [fst (the_item (block_id left1))] = p1 ++ [u]
    /\ [fst (the_item (block_id right2)); fst (the_item (block_id right1))] = p2 ++ [v]
    /\ same_previous tree u v.
Proof.
  destruct (proj2 (fetch_branch_from_exact (block_id left1) (block_id right2) tree (proj1 (proj2 (grown_inv tree tree_grown)))) _ _ tree_branches)
    as (p1 & u & p2 & v & E1 & E2 & _ & _ & _ & _ & Hs & _).
  exists p1, u, p2, v. by split_and!.
Defined.
End ForkDb.
