(* ===== verification/BlockDb.v ===== *)
(** * The block database ([block_database.hpp], [block_database.cpp])

    Two files: an index of fixed-size entries, one per block number, and the
    packed blocks, to which every stored block is appended.  A file is the list
    of its entries or bytes; writing past the end fills the gap with zeros, and
    a read that is too short is an exception, which the fetches turn into no
    result.  [fc::raw::pack] and [unpack] are parameters.  The stream flags, and
    a trailing piece of an entry after a crash, are not modelled. *)
From Stdlib Require Import ZArith Lia String.
From stdpp Require Import base list strings.
From S2P Require Import Prelude External Chain Market Operations Block.

Module BlockDb.
Import Chain Operations Block.

Record index_entry : Type := mk_entry {
  block_pos : Z;
  block_size : Z;
  entry_id : block_id_type;
}.
Record block_database (byte : Type) : Type := mk_block_db {
  _block_num_to_pos : list index_entry;
  _blocks : list byte;
}.
Arguments mk_block_db {byte}.
Arguments _block_num_to_pos {byte}.
Arguments _blocks {byte}.
Definition zero_entry : index_entry := mk_entry 0 0 null_block_id.

(** Nothing depends on what a byte is. *)
Class RawOps (byte : Type) : Type := {
  pack_block : signed_block -> list byte;
  unpack_block : list byte -> result signed_block;
}.
Class RawLaws (byte : Type) `{RawOps byte} : Prop := {
  unpack_pack b : unpack_block (pack_block b) = Ok b;
  unpack_nothing : is_ok (unpack_block []) = false;
}.

(** [seekp] and [write] of the [n]th entry. *)
Definition write_entry (n : nat) (e : index_entry) (l : list index_entry) : list index_entry :=
  if (n <? length l)%nat then <[n := e]> l else l ++ replicate (n - length l) zero_entry ++ [e].
(** [seekg] and [read]. *)
Definition read_bytes {byte} (pos size : Z) (l : list byte) : result (list byte) :=
  if pos + size <=? Z.of_nat (length l) then Ok (take (Z.to_nat size) (drop (Z.to_nat pos) l))
  else Throw "ios_base::failure".
Definition entry_at {byte} (n : Z) (d : block_database byte) : option index_entry := _block_num_to_pos d !! Z.to_nat n.

Section Database.
Context `{BlockOps} {byte : Type} `{!RawOps byte}.

Definition store (_id : block_id_type) (b : signed_block) (d : block_database byte) : block_database byte :=
  let id := if bool_decide (_id = null_block_id) then block_id b else _id in
  let vec := pack_block b in
  let e := mk_entry (Z.of_nat (length (_blocks d))) (wrap 32 (Z.of_nat (length vec))) id in
  mk_block_db (write_entry (Z.to_nat (num_from_id id)) e (_block_num_to_pos d)) (_blocks d ++ vec).
Definition remove (id : block_id_type) (d : block_database byte) : result (block_database byte) :=
  let n := num_from_id id in
  e ← of_option (entry_at n d) "Block not contained in block database";
  if bool_decide (entry_id e = id) then
    Ok (mk_block_db (write_entry (Z.to_nat n) (mk_entry (block_pos e) 0 (entry_id e)) (_block_num_to_pos d)) (_blocks d))
  else Ok d.
Definition contains (id : block_id_type) (d : block_database byte) : bool :=
  if bool_decide (id = null_block_id) then false
  else match entry_at (num_from_id id) d with
       | Some e => bool_decide (entry_id e = id) && (0 <? block_size e)
       | None => false
       end.
Definition fetch_block_id (block_num : Z) (d : block_database byte) : result block_id_type :=
  _ ← fc_assert (negb (block_num =? 0)) "assert( block_num != 0 )";
  e ← of_option (entry_at block_num d) "Block number not contained in block database";
  _ ← fc_assert (negb (bool_decide (entry_id e = null_block_id))) "Empty block_id in block_database";
  Ok (entry_id e).
(** The block an entry is at, when its identifier is the entry's. *)
Definition block_of (e : index_entry) (d : block_database byte) : result signed_block :=
  data ← read_bytes (block_pos e) (block_size e) (_blocks d);
  result ← unpack_block data;
  _ ← fc_assert (bool_decide (block_id result = entry_id e)) "result.id() == e.block_id";
  Ok result.
Definition to_option {A} (r : result A) : option A := match r with Ok a => Some a | Throw _ => None end.
Definition fetch_optional (id : block_id_type) (d : block_database byte) : option signed_block :=
  match entry_at (num_from_id id) d with
  | None => None
  | Some e => if bool_decide (entry_id e = id) then to_option (block_of e d) else None
  end.
Definition fetch_by_number (block_num : Z) (d : block_database byte) : option signed_block :=
  match entry_at block_num d with None => None | Some e => to_option (block_of e d) end.

(** [last_index_entry] looks from the end of the index for an entry whose block
    can be read, and cuts off the entries it passes ([fc::resize_file]). *)
Definition int64_of (z : Z) : Z := (z + 2 ^ 63) mod 2 ^ 64 - 2 ^ 63.
Definition readable (e : index_entry) (d : block_database byte) : bool :=
  (0 <? block_size e) && (int64_of (block_pos e + block_size e) <=? Z.of_nat (length (_blocks d)))
  && is_ok (block_of e d).
Fixpoint scan_back (n : nat) (d : block_database byte) : option index_entry * block_database byte :=
  match n with
  | O => (None, d)
  | S n' =>
      match _block_num_to_pos d !! n' with
      | None => (None, d)
      | Some e =>
          if readable e d then (Some e, d)
          else scan_back n' (mk_block_db (take n' (_block_num_to_pos d)) (_blocks d))
      end
  end.
Definition last_index_entry (d : block_database byte) : option index_entry * block_database byte :=
  scan_back (length (_block_num_to_pos d)) d.
Definition last (d : block_database byte) : option signed_block * block_database byte :=
  let r := last_index_entry d in
  (match fst r with Some e => fetch_by_number (num_from_id (entry_id e)) (snd r) | None => None end, snd r).
Definition last_id (d : block_database byte) : option block_id_type * block_database byte :=
  let r := last_index_entry d in
  (match fst r with Some e => Some (entry_id e) | None => None end, snd r).
End Database.

(** ** The database as a map from numbers to blocks *)
Section Laws.
Context `{BlockLaws} {byte : Type} `{!RawOps byte, !RawLaws byte}.

(** Every entry points into the file of blocks. *)
Definition entries_in_range (d : block_database byte) : Prop :=
  forall n e, _block_num_to_pos d !! n = Some e ->
    0 <= block_pos e /\ 0 <= block_size e /\ block_pos e + block_size e <= Z.of_nat (length (_blocks d)).

Lemma write_entry_lookup n e l k :
  write_entry n e l !! k
  = if decide (k = n) then Some e
    else match l !! k with Some x => Some x | None => if decide (k < n)%nat then Some zero_entry else None end.
Proof.
  unfold write_entry. destruct (Nat.ltb_spec n (length l)) as [Hlt|Hge].
  - case_decide as Hk; [subst; by rewrite list_lookup_insert_eq|]. rewrite list_lookup_insert_ne by done.
    destruct (l !! k) eqn:E; [done|]. apply lookup_ge_None in E. case_decide; [lia|done].
  - destruct (Nat.lt_ge_cases k (length l)) as [Hk|Hk].
    + rewrite lookup_app_l by done. case_decide; [lia|]. by destruct (lookup_lt_is_Some_2 l k Hk) as [x ->].
    + rewrite lookup_app_r by done. rewrite (lookup_ge_None_2 l k) by done.
      destruct (Nat.lt_ge_cases (k - length l) (n - length l)) as [Hr|Hr].
      * rewrite lookup_app_l by (by rewrite length_replicate). rewrite lookup_replicate_2 by done.
        case_decide; [lia|]. case_decide; [done|lia].
      * rewrite lookup_app_r by (by rewrite length_replicate). rewrite length_replicate.
        case_decide as Hkn; [subst; by rewrite Nat.sub_diag|]. case_decide; [lia|].
        apply lookup_ge_None_2. cbn. lia.
Qed.
Lemma read_bytes_app pos size (l l' : list byte) :
  0 <= pos -> 0 <= size -> pos + size <= Z.of_nat (length l) -> read_bytes pos size (l ++ l') = read_bytes pos size l.
Proof.
  intros Hp Hs Hl. unfold read_bytes. rewrite length_app.
  destruct (Z.leb_spec (pos + size) (Z.of_nat (length l))); [|lia].
  destruct (Z.leb_spec (pos + size) (Z.of_nat (length l + length l'))); [|lia].
  rewrite drop_app_le by lia. rewrite take_app_le; [done|]. rewrite length_drop. lia.
Qed.
Lemma read_bytes_end (l l' : list byte) : read_bytes (Z.of_nat (length l)) (Z.of_nat (length l')) (l ++ l') = Ok l'.
Proof.
  unfold read_bytes. rewrite length_app. destruct (Z.leb_spec (Z.of_nat (length l) + Z.of_nat (length l')) (Z.of_nat (length l + length l'))); [|lia].
  rewrite !Nat2Z.id, drop_app_length, firstn_all. done.
Qed.
Lemma block_of_zero d : to_option (block_of zero_entry d) = None.
Proof.
  assert (Hr : read_bytes 0 0 (_blocks d) = Ok []).
  { unfold read_bytes. destruct (Z.leb_spec (0 + 0) (Z.of_nat (length (_blocks d)))); [done|lia]. }
  pose proof (unpack_nothing (byte:=byte)) as Hu. unfold block_of. cbn [block_pos block_size zero_entry]. rewrite Hr.
  cbn. destruct (unpack_block []); done.
Qed.
(** The identifier under which a block is stored. *)
Definition stored_id (id : block_id_type) (b : signed_block) : block_id_type :=
  if bool_decide (id = null_block_id) then block_id b else id.
Lemma num_from_id_range id : 0 <= num_from_id id < 2 ^ 32.
Proof. apply endian_reverse_range. Qed.
Lemma entry_at_store id b d n :
  0 <= n ->
  entry_at n (store id b d)
  = if decide (n = num_from_id (stored_id id b))
    then Some (mk_entry (Z.of_nat (length (_blocks d))) (wrap 32 (Z.of_nat (length (pack_block b)))) (stored_id id b))
    else match entry_at n d with
         | Some e => Some e
         | None => if decide (n < num_from_id (stored_id id b)) then Some zero_entry else None
         end.
Proof.
  intros Hn. unfold entry_at, store. cbn. rewrite write_entry_lookup. fold (stored_id id b).
  pose proof (num_from_id_range (stored_id id b)).
  destruct (decide (n = num_from_id (stored_id id b))) as [->|Hne]; [by rewrite decide_True|].
  rewrite decide_False by lia. destruct (_ !! _); [done|]. by repeat case_decide; try lia.
Qed.
Lemma store_in_range id b d : entries_in_range d -> entries_in_range (store id b d).
Proof.
  intros Hd n e He. replace n with (Z.to_nat (Z.of_nat n)) in He by lia. change (entry_at (Z.of_nat n) (store id b d) = Some e) in He.
  rewrite entry_at_store in He by lia. cbn. rewrite length_app. case_decide.
  - injection He as <-. cbn. unfold wrap. pose proof (Z.mod_pos_bound (Z.of_nat (length (pack_block b))) (2 ^ 32)).
    pose proof (Z.mod_le (Z.of_nat (length (pack_block b))) (2 ^ 32)). lia.
  - unfold entry_at in He. rewrite Nat2Z.id in He. destruct (_ !! n) as [e'|] eqn:E.
    + injection He as <-. specialize (Hd _ _ E). lia.
    + case_decide; [|done]. injection He as <-. cbn. lia.
Qed.
Lemma block_of_store_old id b d n e :
  entries_in_range d -> entry_at n d = Some e -> block_of e (store id b d) = block_of e d.
Proof. intros Hd He. unfold block_of, store. cbn. specialize (Hd _ _ He). by rewrite read_bytes_app by tauto. Qed.
Lemma block_of_stored id b d :
  Z.of_nat (length (pack_block b)) < 2 ^ 32 ->
  to_option (block_of (mk_entry (Z.of_nat (length (_blocks d))) (wrap 32 (Z.of_nat (length (pack_block b)))) (stored_id id b)) (store id b d))
  = if decide (stored_id id b = block_id b) then Some b else None.
Proof.
  intros Hl. unfold block_of, store. cbn. rewrite wrap_id by lia. rewrite read_bytes_end. cbn. rewrite unpack_pack. cbn.
  case_bool_decide as Hi; case_decide; try congruence; done.
Qed.

(** C31: a stored block is found by its identifier and by its number, and the
    blocks at the other numbers stay what they were.  Under an identifier that
    is not its own the block is never found again, and the block that was at the
    number is lost. *)
Theorem store_exact (id : block_id_type) (b : signed_block) (d : block_database byte) :
  entries_in_range d -> Z.of_nat (length (pack_block b)) < 2 ^ 32 ->
  let n := num_from_id (stored_id id b) in
  let found := if decide (stored_id id b = block_id b) then Some b else None in
  entries_in_range (store id b d)
  /\ (forall m, 0 <= m -> fetch_by_number m (store id b d) = if decide (m = n) then found else fetch_by_number m d)
  /\ (forall k, fetch_optional k (store id b d)
        = if decide (num_from_id k = n) then if decide (k = stored_id id b) then found else None else fetch_optional k d)
  /\ (0 < Z.of_nat (length (pack_block b)) -> forall k, k <> null_block_id ->
        contains k (store id b d) = if decide (num_from_id k = n) then bool_decide (k = stored_id id b) else contains k d).
Proof.
  intros Hd Hl n found. split_and!.
  - by apply store_in_range.
  - intros m Hm. unfold fetch_by_number. rewrite entry_at_store by done. fold n. case_decide; [by apply block_of_stored|].
    destruct (entry_at m d) eqn:E; [by erewrite block_of_store_old|]. case_decide; [apply block_of_zero|done].
  - intros k. unfold fetch_optional. rewrite entry_at_store by apply num_from_id_range. fold n. case_decide.
    + cbn. case_bool_decide; case_decide; try congruence. by apply block_of_stored.
    + destruct (entry_at _ d) eqn:E; [by erewrite block_of_store_old|]. case_decide; [|done].
      case_bool_decide; [apply block_of_zero|done].
  - intros Hp k Hk. unfold contains. rewrite !bool_decide_eq_false_2 by done. rewrite entry_at_store by apply num_from_id_range. fold n.
    case_decide; cbn [entry_id block_size].
    + rewrite wrap_id by lia. destruct (Z.ltb_spec 0 (Z.of_nat (length (pack_block b)))); [|lia].
      rewrite andb_true_r. by apply bool_decide_ext.
    + destruct (entry_at _ d); [done|]. case_decide; [|done]. cbn. by rewrite andb_false_r.
Qed.

(** *** The last block *)
Lemma scan_back_spec n d :
  n = length (_block_num_to_pos d) ->
  let r := scan_back n d in
  _blocks (snd r) = _blocks d
  /\ match fst r with
     | Some e => exists k, _block_num_to_pos d !! k = Some e /\ readable e d = true
         /\ _block_num_to_pos (snd r) = take (S k) (_block_num_to_pos d)
         /\ forall j e', (k < j)%nat -> _block_num_to_pos d !! j = Some e' -> readable e' d = false
     | None => _block_num_to_pos (snd r) = []
         /\ forall j e', _block_num_to_pos d !! j = Some e' -> readable e' d = false
     end.
Proof.
  revert d. induction n as [|n IH]; intros d Hn; cbn.
  - split; [done|]. symmetry in Hn. apply length_zero_iff_nil in Hn. rewrite Hn. by split.
  - destruct (_block_num_to_pos d !! n) as [e|] eqn:He; [|apply lookup_ge_None in He; lia].
    destruct (readable e d) eqn:Hr; cbn.
    + split; [done|]. exists n. split_and!; [done|done|by rewrite take_ge by lia|].
      intros j e' Hj Hl. apply lookup_lt_Some in Hl. lia.
    + set (d' := mk_block_db (take n (_block_num_to_pos d)) (_blocks d)).
      destruct (IH d') as [Hb Hm]; [cbn; rewrite length_take; lia|]. cbn in Hb, Hm. split; [done|].
      assert (Hold : forall j e', (j < n)%nat -> _block_num_to_pos d !! j = Some e' -> take n (_block_num_to_pos d) !! j = Some e')
        by (intros; by rewrite lookup_take_lt).
      assert (Hlast : forall j e', _block_num_to_pos d !! j = Some e' -> (j < n)%nat \/ e' = e).
      { intros j e' Hj. pose proof (lookup_lt_Some _ _ _ Hj). destruct (decide (j = n)) as [->|]; [right; congruence|left; lia]. }
      destruct (fst (scan_back n d')) as [x|].
      * destruct Hm as (k & Hk & Hx & Ht & Hj). apply lookup_take_Some in Hk as [Hk Hlt]. exists k.
        split_and!; [done|done|rewrite Ht; cbn; rewrite take_take; f_equal; lia|].
        intros j e' Hkj He'. destruct (Hlast _ _ He') as [Hlt'| ->]; [|done]. apply (Hj j); auto.
      * destruct Hm as [Ht Hj]. split; [done|]. intros j e' He'. destruct (Hlast _ _ He') as [Hlt'| ->]; [|done]. apply (Hj j); auto.
Qed.
Lemma readable_stored b d :
  Z.of_nat (length (_blocks d)) + Z.of_nat (length (pack_block b)) < 2 ^ 63 -> 0 < Z.of_nat (length (pack_block b)) < 2 ^ 32 ->
  block_id b <> null_block_id ->
  readable (mk_entry (Z.of_nat (length (_blocks d))) (wrap 32 (Z.of_nat (length (pack_block b)))) (block_id b)) (store (block_id b) b d) = true.
Proof.
  intros Hf Hl Hb. pose proof (block_of_stored (block_id b) b d ltac:(lia)) as Hs. unfold stored_id in Hs.
  rewrite bool_decide_eq_false_2 in Hs by done. rewrite decide_True in Hs by done. unfold readable.
  destruct (block_of _ _) as [x|]; [|done]. cbn. rewrite wrap_id by lia. unfold int64_of.
  rewrite Z.mod_small by lia. rewrite length_app, andb_true_r, andb_true_iff, Z.ltb_lt, Z.leb_le. lia.
Qed.

(** Recovery.  The search for the last block ends with the highest entry whose
    block can be read, and cuts the index off behind it; a block that was just
    stored above all others is the last. *)
Theorem last_exact (d : block_database byte) :
  (let r := last_index_entry d in
   _blocks (snd r) = _blocks d
   /\ match fst r with
      | Some e => exists k, _block_num_to_pos d !! k = Some e /\ readable e d = true
          /\ _block_num_to_pos (snd r) = take (S k) (_block_num_to_pos d)
          /\ forall j e', (k < j)%nat -> _block_num_to_pos d !! j = Some e' -> readable e' d = false
      | None => _block_num_to_pos (snd r) = []
          /\ forall j e', _block_num_to_pos d !! j = Some e' -> readable e' d = false
      end)
  /\ forall b, Z.of_nat (length (_blocks d)) + Z.of_nat (length (pack_block b)) < 2 ^ 63 ->
       0 < Z.of_nat (length (pack_block b)) < 2 ^ 32 -> block_id b <> null_block_id ->
       Z.of_nat (length (_block_num_to_pos d)) <= num_from_id (block_id b) ->
       last (store (block_id b) b d) = (Some b, store (block_id b) b d).
Proof.
  split; [by apply scan_back_spec|]. intros b Hf Hl Hb Hn.
  pose proof (readable_stored b d Hf Hl Hb) as Hr. pose proof (num_from_id_range (block_id b)).
  set (n := Z.to_nat (num_from_id (block_id b))). set (d' := store (block_id b) b d) in *.
  assert (Hlen : length (_block_num_to_pos d') = S n).
  { unfold d', store. cbn. rewrite bool_decide_eq_false_2 by done. fold n. unfold write_entry.
    destruct (Nat.ltb_spec n (length (_block_num_to_pos d))); [unfold n in *; lia|]. rewrite !length_app, length_replicate. cbn. lia. }
  pose proof (entry_at_store (block_id b) b d (num_from_id (block_id b)) ltac:(apply num_from_id_range)) as He.
  fold d' in He. unfold stored_id in He. rewrite bool_decide_eq_false_2 in He by done.
  rewrite decide_True in He by done. unfold last, last_index_entry. rewrite Hlen. cbn [scan_back].
  unfold entry_at in He. fold n in He. rewrite He, Hr. cbn.
  f_equal. unfold fetch_by_number, entry_at. fold n. rewrite He.
  pose proof (block_of_stored (block_id b) b d ltac:(lia)) as Hs. unfold stored_id in Hs.
  rewrite bool_decide_eq_false_2 in Hs by done. by rewrite decide_True in Hs by done.
Qed.
End Laws.

(** ** Concrete runs: a file whose bytes are blocks *)
Import BlockSample.
Module RawSample.
#[export] Instance raw_ops : RawOps signed_block :=
  { pack_block b := [b]; unpack_block l := match l with [b] => Ok b | _ => Throw "unpack" end }.
#[export] Instance raw_laws : RawLaws signed_block.
Proof. by split. Qed.
Definition block_at (n w : Z) : signed_block := mk_block (mk_block_id (reverse_word (n - 1)) 0 0) (1600000000 + n) w 0 [] w.
Definition one_block : block_database signed_block := store (block_id (block_at 1 7)) (block_at 1 7) (mk_block_db [] []).
Lemma one_block_in_range : entries_in_range one_block.
Proof. apply store_in_range. by intros [] e [=]. Qed.
End RawSample.
Import RawSample.
(** Block 1 stored under the identifier of block 2 is not found again. *)
Lemma store_exact_witness :
  let d := store (block_id (block_at 2 8)) (block_at 1 7) one_block in
  fetch_by_number 1 d = Some (block_at 1 7) /\ fetch_by_number 2 d = None.
Proof.
  destruct (store_exact (block_id (block_at 2 8)) (block_at 1 7) one_block one_block_in_range) as (_ & Hf & _); [by vm_compute|].
  cbv zeta. rewrite !Hf by lia. split; vm_compute; reflexivity.
Defined.
Lemma last_exact_witness :
  last (store (block_id (block_at 3 9)) (block_at 3 9) one_block)
  = (Some (block_at 3 9), store (block_id (block_at 3 9)) (block_at 3 9) one_block).
Proof. refine (proj2 (last_exact one_block) _ _ _ _ _); by vm_compute. Defined.
End BlockDb.
