(* ===== verification/Blocks.v ===== *)
(** * Blocks, transactions and forks ([db_block.cpp], [db_with.hpp])

    The node: the object database with the undo stack over it, the pending
    transactions, the fork database and the block database.  Exceptions keep
    what was done before them, so a step returns the node next to its result.
    The undo stack is a stack of snapshots, which the undo database implements
    for every sequence of its operations ([UndoDb]). *)
From Stdlib Require Import ZArith Lia String.
From stdpp Require Import base gmap sets list strings.
From S2P Require Import Prelude External Asset Vesting Authority Chain Market Evaluator MarketEvaluator AssetObject Transfers AssetOps AssetEvaluator BitassetEvaluator ExchangeRate Credit CreditEvaluator Operations Schedule Block DbUpdate ForkDb BlockDb.

Module Blocks.
Import Asset Vesting Authority Chain Market Evaluator MarketEvaluator AssetObject Transfers AssetOps AssetEvaluator BitassetEvaluator ExchangeRate Credit CreditEvaluator Operations Schedule Block DbUpdate.

Definition skip_block_size_check : Z := 2 ^ 4.
(** [~0]. *)
Definition skip_everything : Z := 2 ^ 32 - 1.

Record node (byte : Type) : Type := mk_node {
  chain : database;
  snapshots : list database;          (* _undo_db._stack, the newest first *)
  active_sessions : Z;
  undo_max_size : Z;
  _pending_tx_session : bool;         (* valid(); then the newest snapshot is its own *)
  _pending_tx : list processed_transaction;
  _popped_tx : list processed_transaction;
  _fork_db : ForkDb.fork_database;
  _block_id_to_block : BlockDb.block_database byte;
  _checkpoints : list (Z * block_id_type);
}.
Arguments mk_node {byte}.
Arguments chain {byte}.
Arguments snapshots {byte}.
Arguments active_sessions {byte}.
Arguments undo_max_size {byte}.
Arguments _pending_tx_session {byte}.
Arguments _pending_tx {byte}.
Arguments _popped_tx {byte}.
Arguments _fork_db {byte}.
Arguments _block_id_to_block {byte}.
Arguments _checkpoints {byte}.

(** The maintenance, as the node needs it; [MaintainedNode] implements it. *)
Class Housekeeping : Type := { perform_chain_maintenance : signed_block -> M database unit }.
(** [fc::raw::pack_size] of transactions, blocks and an empty header, and the
    keys and signatures of [fc::ecc]. *)
Class GenerateOps : Type := {
  pack_size_trx : processed_transaction -> Z;
  pack_size_block : signed_block -> Z;
  pack_size_header : Z;
  get_public_key : Z -> Z;
  sign_compact : Z -> signed_block -> Z;
}.

(** ** Steps of a node *)
Definition N (byte A : Type) : Type := node byte -> result A * node byte.
#[export] Instance N_ret byte : MRet (N byte) := fun A a n => (Ok a, n).
#[export] Instance N_bind byte : MBind (N byte) :=
  fun A B f m n => match m n with (Ok a, n') => f a n' | (Throw e, n') => (Throw e, n') end.

Section Node.
Context `{SafeOps, U128Ops, RationalOps, IndexOps, NthOps, TimeOps, AddressOps, PackOps, CreditOps, SignatureOps, BlockOps, ShiftOps}
        {byte : Type} `{!BlockDb.RawOps byte} `{!Housekeeping} `{!GenerateOps}.
Notation N := (N byte).
Implicit Types n : node byte.

Definition get_node : N (node byte) := fun n => (Ok n, n).
Definition lift_n {A} (r : result A) : N A := fun n => (r, n).
Definition throw_n {A} (msg : string) : N A := lift_n (Throw msg).
Definition set_node (f : node byte -> node byte) : N unit := fun n => (Ok tt, f n).
(** [try { m } catch ( const fc::exception& e ) { h( e ) }]. *)
Definition catch {A} (m : N A) (h : string -> N A) : N A :=
  fun n => match m n with (Ok a, n') => (Ok a, n') | (Throw e, n') => h e n' end.
Fixpoint each {A} (l : list A) (f : A -> N unit) : N unit :=
  match l with [] => mret tt | x :: l' => _ ← f x; each l' f end.

Definition with_chain (s : database) n : node byte :=
  mk_node s (snapshots n) (active_sessions n) (undo_max_size n) (_pending_tx_session n) (_pending_tx n) (_popped_tx n)
    (_fork_db n) (_block_id_to_block n) (_checkpoints n).
Definition with_undo (s : database) (l : list database) (active : Z) n : node byte :=
  mk_node s l active (undo_max_size n) (_pending_tx_session n) (_pending_tx n) (_popped_tx n)
    (_fork_db n) (_block_id_to_block n) (_checkpoints n).
Definition with_max_size (max : Z) n : node byte :=
  mk_node (chain n) (snapshots n) (active_sessions n) max (_pending_tx_session n) (_pending_tx n) (_popped_tx n)
    (_fork_db n) (_block_id_to_block n) (_checkpoints n).
Definition with_pending (valid : bool) n : node byte :=
  mk_node (chain n) (snapshots n) (active_sessions n) (undo_max_size n) valid (_pending_tx n) (_popped_tx n)
    (_fork_db n) (_block_id_to_block n) (_checkpoints n).
Definition with_pending_tx (l : list processed_transaction) n : node byte :=
  mk_node (chain n) (snapshots n) (active_sessions n) (undo_max_size n) (_pending_tx_session n) l (_popped_tx n)
    (_fork_db n) (_block_id_to_block n) (_checkpoints n).
Definition with_popped_tx (l : list processed_transaction) n : node byte :=
  mk_node (chain n) (snapshots n) (active_sessions n) (undo_max_size n) (_pending_tx_session n) (_pending_tx n) l
    (_fork_db n) (_block_id_to_block n) (_checkpoints n).
Definition with_fork (f : ForkDb.fork_database) n : node byte :=
  mk_node (chain n) (snapshots n) (active_sessions n) (undo_max_size n) (_pending_tx_session n) (_pending_tx n) (_popped_tx n)
    f (_block_id_to_block n) (_checkpoints n).
Definition with_store (d : BlockDb.block_database byte) n : node byte :=
  mk_node (chain n) (snapshots n) (active_sessions n) (undo_max_size n) (_pending_tx_session n) (_pending_tx n) (_popped_tx n)
    (_fork_db n) d (_checkpoints n).
Definition with_checkpoints (l : list (Z * block_id_type)) n : node byte :=
  mk_node (chain n) (snapshots n) (active_sessions n) (undo_max_size n) (_pending_tx_session n) (_pending_tx n) (_popped_tx n)
    (_fork_db n) (_block_id_to_block n) l.

(** A run on the object database.  Every use is inside an undo session, so what a
    failed run has done is taken back before anything can see it. *)
Definition on_chain {A} (m : M database A) : N A :=
  fun n => match m (chain n) with Ok (a, s') => (Ok a, with_chain s' n) | Throw (e, _) => (Throw e, n) end.
Definition on_fork {A} (f : ForkDb.fork_database -> result (A * ForkDb.fork_database)) : N A :=
  fun n => match f (_fork_db n) with Ok (a, f') => (Ok a, with_fork f' n) | Throw e => (Throw e, n) end.
Definition on_fork_ (f : ForkDb.fork_database -> result ForkDb.fork_database) : N unit :=
  on_fork (fun g => g' ← f g; Ok (tt, g')).

(** ** The undo database

    Its sessions as a stack of the states they started from, which [UndoDb] refines
    while the undo database is enabled; it is disabled only while the files are
    opened or replayed, which is not modelled, so there is no flag here.  Taking a
    session back gives its state; the undo database itself can fail at that when
    two objects exchanged a unique key in the session (shown at the end of
    [UndoDb]), and the node is modelled where it does not. *)
Definition start_undo_session : N unit :=
  set_node (fun n => with_undo (chain n) (chain n :: take (Z.to_nat (undo_max_size n)) (snapshots n)) (active_sessions n + 1) n).
Definition undo : N unit := fun n =>
  match snapshots n with
  | s :: l => if 0 <? active_sessions n then (Ok tt, with_undo s l (active_sessions n - 1) n)
              else (Throw "_active_sessions > 0", n)
  | [] => (Throw dangling, n)
  end.
Definition commit : N unit := fun n =>
  if 0 <? active_sessions n then (Ok tt, with_undo (chain n) (snapshots n) (active_sessions n - 1) n)
  else (Throw "_active_sessions > 0", n).
Definition merge : N unit := fun n =>
  if 0 <? active_sessions n then
    match snapshots n with
    | [_] => if active_sessions n =? 1 then (Ok tt, with_undo (chain n) [] 0 n) else (Throw "_stack.size() >=2", n)
    | _ :: l => (Ok tt, with_undo (chain n) l (active_sessions n - 1) n)
    | [] => (Throw "_stack.size() >=2", n)
    end
  else (Throw "_active_sessions > 0", n).
Definition pop_undo : N unit := fun n =>
  if active_sessions n =? 0 then
    match snapshots n with
    | s :: l => (Ok tt, with_undo s l 0 n)
    | [] => (Throw "! _stack.empty()", n)
    end
  else (Throw "_active_sessions == 0", n).
(** A session in a scope: its destructor undoes it when an exception passes. *)
Definition session {A} (m : N A) (finish : N unit) : N A :=
  _ ← start_undo_session;
  catch (a ← m; _ ← finish; mret a) (fun e => _ ← undo; throw_n e).
(** [_pending_tx_session.reset()]. *)
Definition reset_pending_session : N unit :=
  n ← get_node;
  if _pending_tx_session n then _ ← undo; set_node (with_pending false) else mret tt.

(** ** Applying a block *)
Definition validate_block_header (skip : Z) (next_block : signed_block) : M database Z :=
  s ← get_state;
  _ ← require (bool_decide (head_block_id (dgp s) = previous next_block)) "head_block_id() == next_block.previous";
  _ ← require (head_block_time s <? timestamp next_block) "head_block_time() < next_block.timestamp";
  w ← get witness_object (witness next_block);
  _ ← (if has_flag skip skip_witness_signature then mret tt
       else ok ← lift (validate_signee (signing_key w) next_block);
            require ok "next_block.validate_signee( witness.signing_key )");
  _ ← (if has_flag skip skip_witness_schedule_check then mret tt
       else slot_num ← lift (get_slot_at_time (timestamp next_block) s);
            _ ← require (0 <? slot_num) "slot_num > 0";
            scheduled_witness ← lift (get_scheduled_witness slot_num s);
            require (witness next_block =? scheduled_witness) "Witness produced block at wrong time");
  mret (witness next_block).
Definition clear_applied_ops : M database unit := update (set_applied_ops []).
Definition apply_transactions (skip : Z) (l : list processed_transaction) : M database unit :=
  for_each l (fun t => _ ← _apply_transaction skip (trx t); mret tt).
(** The part of [_apply_block] before the sizes of the undo and fork databases are
    set; it returns the witness, whether there is maintenance, and the size. *)
Definition begin_block (checkpoints : list (Z * block_id_type)) (skip : Z) (next_block : signed_block)
  : M database (Z * bool * Z) :=
  _ ← clear_applied_ops;
  _ ← require (has_flag skip skip_merkle_check || bool_decide (calculate_merkle_root next_block = Some (transaction_merkle_root next_block)))
        "next_block.transaction_merkle_root == next_block.calculate_merkle_root()";
  signing_witness ← validate_block_header skip next_block;
  maint_needed ← gets (fun s => next_maintenance_time (dgp s) <=? timestamp next_block);
  _ ← apply_transactions skip (block_transactions next_block);
  size ← update_global_dynamic_data checkpoints skip next_block;
  mret (signing_witness, maint_needed, size).
(** The part after it. *)
Definition finish_block (next_block : signed_block) (signing_witness : Z) (maint_needed : bool) : M database unit :=
  _ ← update_signing_witness signing_witness next_block;
  _ ← update_last_irreversible_block;
  _ ← when maint_needed (perform_chain_maintenance next_block);
  _ ← create_block_summary next_block;
  _ ← clear_expired_transactions;
  _ ← clear_expired_proposals;
  _ ← clear_expired_orders;
  _ ← update_expired_feeds;
  _ ← update_withdraw_permissions;
  _ ← process_credit_stories;
  _ ← process_exchange_rates;
  _ ← update_maintenance_flag maint_needed;
  _ ← update_witness_schedule;
  clear_applied_ops.
Definition _apply_block (skip : Z) (next_block : signed_block) : N unit :=
  n ← get_node;
  r ← on_chain (begin_block (_checkpoints n) skip next_block);
  _ ← set_node (with_max_size (snd r));
  _ ← on_fork_ (ForkDb.set_max_size (snd r));
  on_chain (finish_block next_block (fst (fst r)) (snd (fst r))).
Definition apply_block (next_block : signed_block) (skip : Z) : N unit :=
  n ← get_node;
  let block_num := block_num next_block in
  match last (_checkpoints n) with
  | Some (num, id) =>
      if bool_decide (id = null_block_id) then _apply_block skip next_block
      else
        _ ← lift_n (match List.find (fun c => fst c =? block_num) (_checkpoints n) with
                    | Some c => fc_assert (bool_decide (block_id next_block = snd c)) "Block did not match checkpoint"
                    | None => Ok tt
                    end);
        _apply_block (if block_num <=? num then skip_everything else skip) next_block
  | None => _apply_block skip next_block
  end.

(** ** Looking up blocks *)
Definition is_known_block (id : block_id_type) n : bool :=
  ForkDb.is_known_block id (_fork_db n) || BlockDb.contains id (_block_id_to_block n).
Definition is_known_transaction (id : Z) (s : database) : bool := known_transaction id s.
Definition get_block_id_for_num (num : Z) n : result block_id_type := BlockDb.fetch_block_id num (_block_id_to_block n).
Definition fetch_block_by_id (id : block_id_type) n : option signed_block :=
  match ForkDb.fetch_block id (_fork_db n) with
  | Some h => match ForkDb.items (_fork_db n) !! h with Some i => Some (ForkDb.item_data i) | None => None end
  | None => BlockDb.fetch_optional id (_block_id_to_block n)
  end.
Definition fetch_block_by_number (num : Z) n : option signed_block :=
  match ForkDb.fetch_block_by_number num (_fork_db n) with
  | [h] => match ForkDb.items (_fork_db n) !! h with Some i => Some (ForkDb.item_data i) | None => None end
  | _ => BlockDb.fetch_by_number num (_block_id_to_block n)
  end.
Definition item_data_of (f : ForkDb.fork_database) (h : nat) : result signed_block :=
  i ← ForkDb.item_at h f; Ok (ForkDb.item_data i).
Fixpoint data_of (f : ForkDb.fork_database) (l : list nat) : result (list signed_block) :=
  match l with [] => Ok [] | h :: l' => b ← item_data_of f h; bs ← data_of f l'; Ok (b :: bs) end.
Definition head_id n : block_id_type := head_block_id (dgp (chain n)).
Definition back {A} (l : list A) : result A := of_option (last l) "back() of an empty branch".
Definition get_block_ids_on_fork (head_of_fork : block_id_type) n : result (list block_id_type) :=
  branches ← ForkDb.fetch_branch_from (head_id n) head_of_fork (_fork_db n);
  first ← data_of (_fork_db n) (fst branches);
  second ← data_of (_fork_db n) (snd branches);
  f ← back first;
  s ← back second;
  _ ← fc_assert (bool_decide (previous f = previous s)) "assert( first.back()->previous_id() == second.back()->previous_id() )";
  Ok ((block_id <$> second) ++ [previous f]).

(** ** Popping a block *)
Definition pop_block : N unit :=
  _ ← reset_pending_session;
  n ← get_node;
  head_block ← lift_n (of_option (fetch_block_by_id (head_id n) n) "there are no blocks to pop");
  _ ← on_fork_ ForkDb.pop_block;
  _ ← pop_undo;
  set_node (fun n => with_popped_tx (block_transactions head_block ++ _popped_tx n) n).
(** [while( head_block_id() != id ) pop_block();] - a pop takes a snapshot. *)
Fixpoint pop_until (fuel : nat) (id : block_id_type) : N unit :=
  n ← get_node;
  if bool_decide (head_id n = id) then mret tt
  else match fuel with O => throw_n out_of_fuel | S fuel' => _ ← pop_block; pop_until fuel' id end.
Definition pop_back_to (id : block_id_type) : N unit :=
  n ← get_node; pop_until (S (length (snapshots n))) id.

(** ** Pushing a block *)
Definition store_block (id : block_id_type) (b : signed_block) : N unit :=
  set_node (fun n => with_store (BlockDb.store id b (_block_id_to_block n)) n).
Definition apply_and_store (id : block_id_type) (b : signed_block) (skip : Z) : N unit :=
  session (_ ← apply_block b skip; store_block id b) commit.
(** The blocks of the branch, the oldest first; the first that fails is returned
    with those after it and the exception. *)
Fixpoint push_branch (l : list signed_block) (skip : Z) : N (option (list signed_block * string)) :=
  match l with
  | [] => mret None
  | b :: l' =>
      r ← catch (_ ← apply_and_store (block_id b) b skip; mret None) (fun e => mret (Some e));
      match r with None => push_branch l' skip | Some e => mret (Some (b :: l', e)) end
  end.
Definition switch_forks (new_block : signed_block) (new_head : ForkDb.fork_item) (skip : Z) : N bool :=
  n ← get_node;
  branches ← lift_n (ForkDb.fetch_branch_from (ForkDb.item_id new_head) (head_id n) (_fork_db n));
  first ← lift_n (data_of (_fork_db n) (fst branches));
  second ← lift_n (data_of (_fork_db n) (snd branches));
  _ ← set_node (fun n => with_fork (ForkDb.set_held (fst branches ++ snd branches ++ ForkDb.held (_fork_db n)) (_fork_db n)) n);
  fork_point ← lift_n (back second);
  _ ← pop_back_to (previous fork_point);
  r ← push_branch (rev first) skip;
  match r with
  | None => mret true
  | Some (invalid, except) =>
      _ ← each invalid (fun b => set_node (fun n => with_fork (ForkDb.remove (block_id b) (_fork_db n)) n));
      good ← lift_n (of_option (head (snd branches)) dangling);
      _ ← set_node (fun n => with_fork (ForkDb.set_head good (_fork_db n)) n);
      _ ← pop_back_to (previous fork_point);
      _ ← each (rev second) (fun b => apply_and_store (block_id new_block) b skip);
      throw_n except
  end.
Definition append_block (new_block : signed_block) (skip : Z) : N bool :=
  catch (_ ← apply_and_store (block_id new_block) new_block skip; mret false)
        (fun e => _ ← set_node (fun n => with_fork (ForkDb.remove (block_id new_block) (_fork_db n)) n); throw_n e).
Definition _push_block (new_block : signed_block) (skip : Z) : N bool :=
  if has_flag skip skip_fork_db then append_block new_block skip
  else
    h ← on_fork (fun f => r ← ForkDb.push_block new_block f; Ok (snd r, fst r));
    n ← get_node;
    new_head ← lift_n (ForkDb.item_at h (_fork_db n));
    if bool_decide (previous (ForkDb.item_data new_head) = head_id n) then append_block new_block skip
    else if head_block_number (dgp (chain n)) <? block_num (ForkDb.item_data new_head) then
      held ← (n ← get_node; mret (ForkDb.held (_fork_db n)));
      let release := set_node (fun n => with_fork (ForkDb.set_held held (_fork_db n)) n) in
      _ ← set_node (fun n => with_fork (ForkDb.set_held (h :: held) (_fork_db n)) n);
      catch (r ← switch_forks new_block new_head skip; _ ← release; mret r) (fun e => _ ← release; throw_n e)
    else mret false.

(** ** Transactions *)
Definition _push_transaction (t : signed_transaction) (skip : Z) : N processed_transaction :=
  n ← get_node;
  _ ← (if _pending_tx_session n then mret tt else _ ← start_undo_session; set_node (with_pending true));
  session
    (rs ← on_chain (_apply_transaction skip t);
     let processed_trx := mk_processed t rs in
     _ ← set_node (fun n => with_pending_tx (_pending_tx n ++ [processed_trx]) n);
     mret processed_trx) merge.
Definition push_transaction (t : signed_transaction) (skip : Z) : N processed_transaction := _push_transaction t skip.
Definition validate_transaction (t : signed_transaction) (skip : Z) : N processed_transaction :=
  session (rs ← on_chain (_apply_transaction skip t); mret (mk_processed t rs)) undo.
Definition clear_pending : N unit :=
  n ← get_node;
  _ ← lift_n (fc_assert ((length (_pending_tx n) =? 0)%nat || _pending_tx_session n) "assert( pending session )");
  _ ← set_node (with_pending_tx []);
  reset_pending_session.
(** [pending_transactions_restorer]. *)
Definition repush (skip : Z) (t : processed_transaction) : N unit :=
  catch (n ← get_node;
         if is_known_transaction (transaction_id (trx t)) (chain n) then mret tt
         else _ ← _push_transaction (trx t) skip; mret tt)
        (fun _ => mret tt).
Definition restore_pending (pending : list processed_transaction) (skip : Z) : N unit :=
  n ← get_node;
  _ ← each (_popped_tx n) (repush skip);
  _ ← set_node (with_popped_tx []);
  each pending (repush skip).
Definition without_pending_transactions {A} (skip : Z) (callback : N A) : N A :=
  n ← get_node;
  let pending := _pending_tx n in
  _ ← set_node (with_pending_tx []);          (* std::move *)
  _ ← clear_pending;
  catch (a ← callback; _ ← restore_pending pending skip; mret a)
        (fun e => _ ← restore_pending pending skip; throw_n e).
Definition push_block (new_block : signed_block) (skip : Z) : N bool :=
  without_pending_transactions skip (_push_block new_block skip).

(** ** Generating a block *)
Definition unsigned_block (prev : block_id_type) (when_ witness_id : Z) (l : list processed_transaction)
  : result signed_block :=
  root ← of_option (calculate_merkle_root (mk_block prev when_ witness_id 0 l 0)) out_of_fuel;
  Ok (mk_block prev when_ witness_id root l 0).
Definition sign (key : Z) (b : signed_block) : signed_block :=
  mk_block (previous b) (timestamp b) (witness b) (transaction_merkle_root b) (block_transactions b) (sign_compact key b).
(** The pending transactions that still apply and fit. *)
Fixpoint gather (l : list processed_transaction) (skip max_size total : Z) (acc : list processed_transaction)
  : N (list processed_transaction) :=
  match l with
  | [] => mret acc
  | t :: l' =>
      if max_size <=? total + pack_size_trx t then gather l' skip max_size total acc
      else
        r ← catch (rs ← session (on_chain (_apply_transaction skip (trx t))) merge; mret (Some (mk_processed (trx t) rs)))
                  (fun _ => mret None);
        match r with
        | Some ptx => gather l' skip max_size (total + pack_size_trx ptx) (acc ++ [ptx])
        | None => gather l' skip max_size total acc
        end
  end.
Definition generate_block (when_ witness_id block_signing_private_key skip : Z) : N signed_block :=
  n ← get_node;
  slot_num ← lift_n (get_slot_at_time when_ (chain n));
  _ ← lift_n (fc_assert (0 <? slot_num) "slot_num > 0");
  scheduled_witness ← lift_n (get_scheduled_witness slot_num (chain n));
  _ ← lift_n (fc_assert (scheduled_witness =? witness_id) "scheduled_witness == witness_id");
  w ← lift_n (of_option (witnesses (chain n) !! witness_id) "Unable to find Object");
  _ ← lift_n (fc_assert (has_flag skip skip_witness_signature || (signing_key w =? get_public_key block_signing_private_key))
                "witness_obj.signing_key == block_signing_private_key.get_public_key()");
  let max_size := maximum_block_size (parameters (gpo (chain n))) in
  _ ← reset_pending_session;
  _ ← start_undo_session;
  _ ← set_node (with_pending true);
  txs ← gather (_pending_tx n) skip max_size (pack_size_header + 4) [];
  _ ← reset_pending_session;
  n ← get_node;
  b ← lift_n (unsigned_block (head_id n) when_ witness_id txs);
  let b := if has_flag skip skip_witness_signature then b else sign block_signing_private_key b in
  _ ← lift_n (fc_assert (has_flag skip skip_block_size_check || (pack_size_block b <=? maximum_block_size (parameters (gpo (chain n)))))
                "fc::raw::pack_size(pending_block) <= maximum_block_size");
  _ ← push_block b skip;
  mret b.

(** ** Checkpoints *)
Definition add_checkpoint (c : Z * block_id_type) (l : list (Z * block_id_type)) : list (Z * block_id_type) :=
  filter (fun x => x.1 < c.1) l ++ c :: filter (fun x => c.1 < x.1) l.
Definition add_checkpoints (checkpts : list (Z * block_id_type)) : N unit :=
  set_node (fun n => with_checkpoints (fold_left (fun l c => add_checkpoint c l) checkpts (_checkpoints n)) n).
Definition before_last_checkpoint n : bool :=
  match last (_checkpoints n) with Some c => head_block_number (dgp (chain n)) <=? fst c | None => false end.
End Node.
End Blocks.
