(* ===== verification/BlocksLaws.v ===== *)
(** * The books of a node

    Whatever a node is given - blocks on its head or on forks, transactions,
    requests to pop or to generate - and however it ends, every state it holds
    stays well formed and every surplus is what it was, when the operations given
    are plain and the maintenance keeps the law [HousekeepingLaws]. *)
From Stdlib Require Import ZArith Lia String.
From stdpp Require Import base gmap sets list strings.
From S2P Require Import Prelude External Asset Vesting Authority Chain Balance Accounting Market MarketSupply Evaluator MarketEvaluator MarketLaws AssetObject Transfers AssetOps AssetEvaluator BitassetEvaluator AssetLaws ExchangeRate Credit CreditEvaluator CreditLaws ExchangeRateLaws Operations ProposalLaws Scenario Invariant Schedule Block DbUpdate DbUpdateLaws ForkDb BlockDb Blocks.

Module BlocksLaws.
Import Asset Vesting Authority Chain Balance Accounting Market MarketSupply Evaluator MarketEvaluator MarketLaws AssetObject Transfers AssetOps AssetEvaluator BitassetEvaluator AssetLaws ExchangeRate Credit CreditEvaluator CreditLaws ExchangeRateLaws Operations ProposalLaws Scenario Invariant Schedule Block DbUpdate DbUpdateLaws Blocks.

(** What a maintenance promises. *)
Class HousekeepingLaws `{Housekeeping, SafeOps, U128Ops, RationalOps, IndexOps, NthOps, TimeOps, AddressOps, PackOps, CreditOps} : Prop :=
  { maintenance_balanced b s u s' : books_ok s -> perform_chain_maintenance b s = Ok (u, s') -> balanced s s' }.

Definition plain_transaction (t : processed_transaction) : Prop := Forall plain_operation (operations (trx t)).
Definition plain_block (b : signed_block) : Prop := Forall plain_transaction (block_transactions b).

Section Books.
Context `{SafeLaws, U128Laws, RationalLaws, IndexLaws, NthLaws, TimeLaws, AddressOps, PackOps, CreditOpsLaws, SignatureOps, BlockLaws, ShiftOps}
        {byte : Type} `{!BlockDb.RawOps byte, !BlockDb.RawLaws byte} `{!Housekeeping, !HousekeepingLaws} `{!GenerateOps}.
Notation N := (N byte).
Notation node := (node byte).

(** ** One block *)
Lemma apply_transaction_balanced skip t s rs s' :
  books_ok s -> Forall plain_operation (operations t) -> _apply_transaction skip t s = Ok (rs, s') -> balanced s s'.
Proof.
  intros Hok Hp E. apply apply_transaction_Ok, apply_transaction_history in E as (s1 & Hs & Hh & Hd & _); [|done].
  destruct (Hs Hok) as [Hok1 Hs1]. pose proof (operation_run_keeps s1 s' Hh Hok1) as R.
  split; [|by rewrite (run_head _ _ _ R)]. split; [intros _; by eapply keeps_books_ok|]. intros x. rewrite (run_surplus _ _ _ R), Hs1. lia.
Qed.
Lemma apply_transactions_balanced skip l s s' :
  books_ok s -> Forall plain_transaction l -> apply_transactions skip l s = Ok (tt, s') -> balanced s s'.
Proof.
  intros Hw Hl. unfold apply_transactions. apply for_each_balanced; [|done].
  intros t s1 u s2 Ht Hw1 E. rewrite Forall_forall in Hl. specialize (Hl t Ht).
  repeat run_ok1. subst. by eapply apply_transaction_balanced.
Qed.
Lemma clear_applied_ops_balanced s u s' : clear_applied_ops s = Ok (u, s') -> balanced s s'.
Proof. unfold clear_applied_ops. intros E. run_ok1. subst. split; [split; [by intros [[] ?]|done]|done]. Qed.
Lemma validate_block_header_pure skip b s w s' : validate_block_header skip b s = Ok (w, s') -> s' = s.
Proof.
  unfold validate_block_header. intros E. repeat run_ok1. reads_ok. subst.
  repeat match goal with Hv : (if ?c then _ else _) ?s = Ok (_, ?t) |- _ =>
    assert (t = s) as -> by (destruct c; repeat run_ok1; done); clear Hv end. done.
Qed.
Lemma begin_block_same checkpoints skip b s r s' :
  books_ok s -> plain_block b -> begin_block checkpoints skip b s = Ok (r, s') ->
  same_books s s' /\ head_of s' = (block_num b, block_id b, timestamp b).
Proof.
  intros Hw Hb. unfold begin_block. intros E. run_ok1.
  match goal with Hc : clear_applied_ops s = Ok _ |- _ => apply clear_applied_ops_balanced in Hc end.
  repeat run_ok1. subst. repeat match goal with u : () |- _ => destruct u end.
  match goal with Hv : validate_block_header _ _ _ = Ok _ |- _ => apply validate_block_header_pure in Hv; subst end.
  match goal with Hc : balanced s ?t, Ht : apply_transactions _ _ ?t = Ok (tt, ?t'), Hu : update_global_dynamic_data _ _ _ ?t' = _ |- _ =>
    pose proof (bal_wf _ _ Hc Hw) as Hw1; apply apply_transactions_balanced in Ht; [|done..];
    apply update_global_same in Hu as [Hu Hh]; [|by apply (bal_wf _ _ Ht)]; split; [|done];
    etrans; [exact (bal_same _ _ Hc)|]; etrans; [exact (bal_same _ _ Ht)|exact Hu] end.
Qed.
(** A step of the housekeeping, chained with those before it. *)
Lemma balanced_bind {A B} (m : M database A) (k : A -> M database B) s b s' :
  books_ok s -> (forall x t, m s = Ok (x, t) -> balanced s t) ->
  (forall x t, books_ok t -> k x t = Ok (b, s') -> balanced t s') -> (m ≫= k) s = Ok (b, s') -> balanced s s'.
Proof.
  intros Hw Hm Hk E. run_ok1. specialize (Hm _ _ Hrun). etrans; [exact Hm|].
  eapply Hk; [|exact E]. by apply (bal_wf _ _ Hm).
Qed.
Lemma finish_block_balanced b w maint s u s' :
  books_ok s -> finish_block b w maint s = Ok (u, s') -> balanced s s'.
Proof.
  intros Hw. unfold finish_block.
  repeat (apply balanced_bind; [assumption|intros [] ? ?|clear dependent s; intros _ s ?]);
    eauto using signing_witness_balanced, irreversible_balanced, block_summary_balanced, clear_expired_orders_balanced,
      expired_feeds_balanced, maintenance_flag_balanced, witness_schedule_balanced, expired_proposals_balanced,
      clear_applied_ops_balanced.
  - match goal with Hm : when _ _ _ = Ok _ |- _ => apply when_Ok in Hm as [[_ Hm]|[_ ->]]; [|done] end.
    by eapply maintenance_balanced.
  - apply expired_rows_balanced. by left.
  - apply expired_rows_balanced. by right.
  - eapply step_balanced, process_credit_stories_step; [|eassumption]. by match goal with Hok : books_ok _ |- _ => destruct Hok end.
  - by eapply step_balanced, process_exchange_rates_step.
Qed.

(** ** The books of a node *)
(** The surplus every state of the node has. *)
Variable total : Z -> Z.
Definition in_books (s : database) : Prop := books_ok s /\ forall a, surplus a s = total a.
Lemma same_in_books s s' : in_books s -> same_books s s' -> in_books s'.
Proof. intros [Hw Hs] [W S']. split; [auto|]. intros a. by rewrite S'. Qed.
Record books (n : node) : Prop := {
  books_chain : in_books (chain n);
  books_snapshots : Forall in_books (snapshots n);
  books_pending : Forall plain_transaction (_pending_tx n);
  books_popped : Forall plain_transaction (_popped_tx n);
  books_fork : forall h i, ForkDb.items (_fork_db n) !! h = Some i -> plain_block (ForkDb.item_data i);
  books_range : BlockDb.entries_in_range (_block_id_to_block n);
  books_store : forall k e b, BlockDb.entry_at k (_block_id_to_block n) = Some e ->
    BlockDb.block_of e (_block_id_to_block n) = Ok b -> plain_block b;
}.
(** A step keeps the books whatever its outcome, and what it returns is in [Q]. *)
Definition keeps {A} (m : N A) (Q : A -> Prop) : Prop :=
  forall n, books n -> books (snd (m n)) /\ forall x, fst (m n) = Ok x -> Q x.
Notation keeps_ m := (keeps m (fun _ => True)).

Lemma keeps_weaken {A} (m : N A) (P Q : A -> Prop) : keeps m P -> (forall x, P x -> Q x) -> keeps m Q.
Proof. intros Hm HPQ n Hn. destruct (Hm n Hn) as [Hb Hx]. split; [done|]. auto. Qed.
Lemma keeps_bind {A B} (m : N A) (k : A -> N B) P Q : keeps m P -> (forall x, P x -> keeps (k x) Q) -> keeps (m ≫= k) Q.
Proof.
  intros Hm Hk n Hn. unfold mbind, N_bind. destruct (Hm n Hn) as [Hb Hx]. destruct (m n) as [[x|e] n']; cbn in *.
  - by apply (Hk x (Hx x eq_refl)).
  - by split.
Qed.
Lemma keeps_ret {A} (x : A) (Q : A -> Prop) : Q x -> keeps (mret x) Q.
Proof. intros Hx n Hn. split; [done|]. by intros ? [= <-]. Qed.
Lemma keeps_lift {A} (r : result A) (Q : A -> Prop) : (forall x, r = Ok x -> Q x) -> keeps (lift_n r) Q.
Proof. intros Hr n Hn. by split. Qed.
Lemma keeps_throw {A} e (Q : A -> Prop) : keeps (throw_n e) Q.
Proof. by apply keeps_lift. Qed.
Lemma keeps_catch {A} (m : N A) h Q : keeps m Q -> (forall e, keeps (h e) Q) -> keeps (catch m h) Q.
Proof.
  intros Hm Hh n Hn. unfold catch. destruct (Hm n Hn) as [Hb Hx]. destruct (m n) as [[x|e] n']; cbn in *; [by split|].
  by apply Hh.
Qed.
Lemma keeps_get {A} (k : node -> N A) Q : (forall n, books n -> keeps (k n) Q) -> keeps (n ← get_node; k n) Q.
Proof. intros Hk n Hn. by apply (Hk n Hn). Qed.
Lemma keeps_set f : (forall n, books n -> books (f n)) -> keeps_ (set_node f).
Proof. intros Hf n Hn. split; [by apply Hf|done]. Qed.
Lemma keeps_each {A} (l : list A) f : (forall x, x ∈ l -> keeps_ (f x)) -> keeps_ (each l f).
Proof.
  induction l as [|x l IH]; intros Hf; cbn; [by apply keeps_ret|].
  eapply keeps_bind; [apply Hf; by left|]. intros _ _. apply IH. intros y Hy. apply Hf. by right.
Qed.
Lemma keeps_on_chain {A} (m : M database A) :
  (forall s x s', books_ok s -> m s = Ok (x, s') -> same_books s s') -> keeps_ (on_chain m).
Proof.
  intros Hm n [Hc]. unfold on_chain. destruct (m (chain n)) as [[x s']|[e s']] eqn:E; cbn; [|by split].
  split; [|done]. split; try done. cbn. eapply same_in_books; [exact Hc|]. eapply Hm; [|exact E]. apply Hc.
Qed.

(** *** The undo stack *)
Lemma keeps_start : keeps_ start_undo_session.
Proof.
  apply keeps_set. intros n [Hc Hs]. split; try done. cbn. constructor; [done|]. by apply Forall_take.
Qed.
Lemma keeps_undo : keeps_ (undo (byte := byte)).
Proof.
  intros n Hn. unfold undo. destruct (snapshots n) as [|t l] eqn:E; [by split|]. destruct (0 <? _); [|by split].
  pose proof (books_snapshots n Hn) as Hs. rewrite E in Hs. apply Forall_cons in Hs as [Ht Hl].
  split; [|done]. by destruct Hn; split.
Qed.
Lemma keeps_pop_undo : keeps_ (pop_undo (byte := byte)).
Proof.
  intros n Hn. unfold pop_undo. destruct (_ =? 0); [|by split]. destruct (snapshots n) as [|t l] eqn:E; [by split|].
  pose proof (books_snapshots n Hn) as Hs. rewrite E in Hs. apply Forall_cons in Hs as [Ht Hl].
  split; [|done]. by destruct Hn; split.
Qed.
Lemma keeps_commit : keeps_ (commit (byte := byte)).
Proof. intros n Hn. unfold commit. destruct (0 <? _); (split; [|done]); [|done]. by destruct Hn; split. Qed.
Lemma keeps_merge : keeps_ (merge (byte := byte)).
Proof.
  intros n Hn. unfold merge. destruct (0 <? _); [|by split].
  pose proof (books_snapshots n Hn) as Hs. destruct (snapshots n) as [|t [|t' l]] eqn:E; [by split| |].
  - destruct (_ =? 1); (split; [|done]); [|done]. by destruct Hn; split.
  - apply Forall_cons in Hs as [Ht Hl]. split; [|done]. by destruct Hn; split.
Qed.
Lemma keeps_session {A} (m : N A) finish Q : keeps m Q -> keeps_ finish -> keeps (session m finish) Q.
Proof.
  intros Hm Hf. eapply keeps_bind; [apply keeps_start|]. intros _ _. apply keeps_catch.
  - eapply keeps_bind; [exact Hm|]. intros x Hx. eapply keeps_bind; [exact Hf|]. intros _ _. by apply keeps_ret.
  - intros e. eapply keeps_bind; [apply keeps_undo|]. intros _ _. apply keeps_throw.
Qed.
Lemma keeps_reset_pending : keeps_ (reset_pending_session (byte := byte)).
Proof.
  apply keeps_get. intros n _. destruct (_pending_tx_session n); [|by apply keeps_ret].
  eapply keeps_bind; [apply keeps_undo|]. intros _ _. apply keeps_set. by intros ? [].
Qed.

(** *** The fork database *)
Definition fork_plain (f : ForkDb.fork_database) : Prop :=
  forall h i, ForkDb.items f !! h = Some i -> plain_block (ForkDb.item_data i).
Lemma keeps_with_fork (g : node -> ForkDb.fork_database) :
  (forall n, books n -> ForkDb.items (g n) = ForkDb.items (_fork_db n)) -> keeps_ (set_node (fun n => with_fork (g n) n)).
Proof. intros Hg. apply keeps_set. intros n Hn. destruct Hn eqn:E. split; try done. cbn. rewrite (Hg n Hn). done. Qed.
Lemma keeps_on_fork {A} (f : ForkDb.fork_database -> result (A * ForkDb.fork_database)) :
  (forall g x g', f g = Ok (x, g') -> fork_plain g -> fork_plain g') -> keeps_ (on_fork f).
Proof.
  intros Hf n Hn. pose proof (books_fork n Hn) as Hp. unfold on_fork. destruct (f (_fork_db n)) as [[x g]|e] eqn:E; [|by split].
  split; [|done]. destruct Hn. split; try done. cbn. by apply (Hf _ _ _ E).
Qed.
Lemma fork_set_max_size_items k f f' : ForkDb.set_max_size k f = Ok f' -> ForkDb.items f' = ForkDb.items f.
Proof. unfold ForkDb.set_max_size. intros E. inv_ok1. destruct a; by injection E as <-. Qed.
Lemma fork_pop_block_items f f' : ForkDb.pop_block f = Ok f' -> ForkDb.items f' = ForkDb.items f.
Proof. unfold ForkDb.pop_block. intros E. repeat inv_ok1. done. Qed.
Lemma fork_push_plain b f h f' : plain_block b -> fork_plain f -> ForkDb.push_block b f = Ok (f', h) -> fork_plain f'.
Proof.
  intros Hb Hf. unfold ForkDb.push_block, ForkDb._push_block. intros E. do 6 inv_ok1.
  assert (Hi : exists p, ForkDb.items f' = <[ForkDb.fresh_handle f := ForkDb.new_item p b]> (ForkDb.items f)).
  { exists a3. clear Hrun1 Hrun2 Hrun3. injection E as -> ->. destruct a1 as [k|]; [destruct (k <? _)|]; by injection Hrun as <-. }
  destruct Hi as [p Hi]. intros k i. rewrite Hi. intros [[<- <-]|[_ Hk]]%lookup_insert_Some; [done|by eapply Hf].
Qed.
Lemma data_of_plain f l bs : fork_plain f -> data_of f l = Ok bs -> Forall plain_block bs.
Proof.
  intros Hf. revert bs. induction l as [|h l IH]; intros bs E; cbn in E; [by injection E as <-|].
  unfold item_data_of, ForkDb.item_at in E. repeat inv_ok1. constructor; [by eapply Hf|by apply IH].
Qed.
Lemma to_option_Some {A} (r : result A) x : BlockDb.to_option r = Some x -> r = Ok x.
Proof. destruct r; cbn; congruence. Qed.
Lemma fetch_block_plain n id b : books n -> fetch_block_by_id id n = Some b -> plain_block b.
Proof.
  intros Hn. unfold fetch_block_by_id. destruct (ForkDb.fetch_block id (_fork_db n)) as [h|].
  - destruct (ForkDb.items (_fork_db n) !! h) as [i|] eqn:E; [|done]. intros [= <-]. by eapply (books_fork n Hn).
  - unfold BlockDb.fetch_optional. destruct (BlockDb.entry_at _ _) as [e|] eqn:E; [|done]. case_bool_decide; [|done].
    intros Hb%to_option_Some. by eapply (books_store n Hn).
Qed.

(** *** Storing a block *)
Hypothesis pack_short : forall b, Z.of_nat (length (BlockDb.pack_block b : list byte)) < 2 ^ 32.
Lemma keeps_store id b : plain_block b -> keeps_ (store_block id b).
Proof.
  intros Hb. apply keeps_set. intros n Hn. pose proof (books_range n Hn) as Hr. pose proof (books_store n Hn) as Hs.
  destruct Hn. split; try done; cbn; [by apply BlockDb.store_in_range|].
  intros k e b' He Hb'. assert (Hk : BlockDb.entry_at (Z.max 0 k) (BlockDb.store id b (_block_id_to_block n)) = Some e).
  { unfold BlockDb.entry_at in *. by replace (Z.to_nat (Z.max 0 k)) with (Z.to_nat k) by lia. }
  rewrite BlockDb.entry_at_store in Hk by lia. case_decide as Hd.
  - injection Hk as <-. pose proof (BlockDb.block_of_stored id b (_block_id_to_block n) (pack_short b)) as Hst.
    rewrite Hb' in Hst. cbn in Hst. case_decide; [|done]. by injection Hst as ->.
  - destruct (BlockDb.entry_at (Z.max 0 k) (_block_id_to_block n)) as [e'|] eqn:E.
    + injection Hk as ->. erewrite BlockDb.block_of_store_old in Hb' by done. by eapply Hs.
    + case_decide; [|done]. injection Hk as <-. pose proof (BlockDb.block_of_zero (BlockDb.store id b (_block_id_to_block n))) as Hz.
      by rewrite Hb' in Hz.
Qed.

(** *** Blocks *)
Lemma keeps_apply_block_ skip b : plain_block b -> keeps_ (_apply_block skip b).
Proof.
  intros Hb. apply keeps_get. intros n _. eapply keeps_bind.
  { apply keeps_on_chain. intros. by eapply begin_block_same. }
  intros r _. eapply keeps_bind; [apply keeps_set; by intros ? []|]. intros _ _.
  eapply keeps_bind.
  { apply keeps_on_fork. intros g x g' E. inv_ok1. injection E as _ <-. apply fork_set_max_size_items in Hrun.
    intros Hg h i. rewrite Hrun. apply Hg. }
  intros _ _. apply keeps_on_chain. intros. by eapply bal_same, finish_block_balanced.
Qed.
Lemma keeps_apply_block skip b : plain_block b -> keeps_ (apply_block b skip).
Proof.
  intros Hb. apply keeps_get. intros n _. destruct (last (_checkpoints n)) as [[num id]|]; [|by apply keeps_apply_block_].
  case_bool_decide; [by apply keeps_apply_block_|]. eapply keeps_bind; [by apply (keeps_lift _ (fun _ => True))|].
  intros _ _. by apply keeps_apply_block_.
Qed.
Lemma keeps_apply_and_store id b skip : plain_block b -> keeps_ (apply_and_store id b skip).
Proof.
  intros Hb. apply keeps_session; [|apply keeps_commit]. eapply keeps_bind; [by apply keeps_apply_block|].
  intros _ _. by apply keeps_store.
Qed.
Lemma keeps_pop_block : keeps_ (pop_block (byte := byte)).
Proof.
  eapply keeps_bind; [apply keeps_reset_pending|]. intros _ _. apply keeps_get. intros n Hn.
  eapply keeps_bind; [apply (keeps_lift _ plain_block)|].
  { intros b E%of_option_Ok. by eapply fetch_block_plain. }
  intros b Hb. eapply keeps_bind.
  { apply keeps_on_fork. intros g x g' E. inv_ok1. injection E as _ <-. apply fork_pop_block_items in Hrun.
    intros Hg h i. rewrite Hrun. apply Hg. }
  intros _ _. eapply keeps_bind; [apply keeps_pop_undo|]. intros _ _. apply keeps_set.
  intros n' Hn'. pose proof (books_popped n' Hn'). destruct Hn'; split; try done. cbn. by apply Forall_app.
Qed.
Lemma keeps_pop_until fuel id : keeps_ (pop_until fuel id).
Proof.
  induction fuel as [|fuel IH]; cbn [pop_until]; apply keeps_get; intros n _;
    (case_bool_decide; [by apply keeps_ret|]); [apply keeps_throw|].
  eapply keeps_bind; [apply keeps_pop_block|]. by intros _ _.
Qed.
Lemma keeps_pop_back_to id : keeps_ (pop_back_to id).
Proof. apply keeps_get. intros n _. apply keeps_pop_until. Qed.
Definition rest_plain (r : option (list signed_block * string)) : Prop :=
  match r with Some x => Forall plain_block (fst x) | None => True end.
Lemma keeps_push_branch l skip : Forall plain_block l -> keeps (push_branch l skip) rest_plain.
Proof.
  induction 1 as [|b l Hb Hl IH]; cbn [push_branch]; [by apply keeps_ret|].
  eapply (keeps_bind _ _ (fun _ => True)).
  - apply keeps_catch; [|intros e; by apply keeps_ret].
    eapply keeps_bind; [by apply keeps_apply_and_store|]. intros _ _. by apply keeps_ret.
  - intros [e|] _; [|done]. apply keeps_ret. by constructor.
Qed.
Lemma keeps_switch_forks b i skip : plain_block b -> keeps_ (switch_forks b i skip).
Proof.
  intros Hb. apply keeps_get. intros n Hn. eapply keeps_bind; [by apply (keeps_lift _ (fun _ => True))|]. intros branches _.
  eapply keeps_bind; [apply (keeps_lift _ (Forall plain_block)); intros; eapply data_of_plain; [exact (books_fork n Hn)|eassumption]|].
  intros first Hfirst.
  eapply keeps_bind; [apply (keeps_lift _ (Forall plain_block)); intros; eapply data_of_plain; [exact (books_fork n Hn)|eassumption]|].
  intros second Hsecond. eapply keeps_bind; [by apply keeps_with_fork|]. intros _ _.
  eapply keeps_bind; [by apply (keeps_lift _ (fun _ => True))|]. intros fork_point _.
  eapply keeps_bind; [apply keeps_pop_back_to|]. intros _ _.
  eapply keeps_bind; [apply keeps_push_branch; by apply Forall_rev|]. intros [[invalid except]|] Hr; [|by apply keeps_ret].
  eapply keeps_bind; [apply keeps_each; intros; by apply keeps_with_fork|]. intros _ _.
  eapply keeps_bind; [by apply (keeps_lift _ (fun _ => True))|]. intros good _.
  eapply keeps_bind; [by apply keeps_with_fork|]. intros _ _. eapply keeps_bind; [apply keeps_pop_back_to|]. intros _ _.
  eapply keeps_bind; [apply keeps_each|intros _ _; apply keeps_throw].
  intros x Hx%list_elem_of_In%in_rev%list_elem_of_In. apply keeps_apply_and_store. rewrite Forall_forall in Hsecond. by apply Hsecond.
Qed.
Lemma keeps_append_block b skip : plain_block b -> keeps_ (append_block b skip).
Proof.
  intros Hb. apply keeps_catch.
  - eapply keeps_bind; [by apply keeps_apply_and_store|]. intros _ _. by apply keeps_ret.
  - intros e. eapply keeps_bind; [by apply keeps_with_fork|]. intros _ _. apply keeps_throw.
Qed.
Lemma keeps_push_block_ b skip : plain_block b -> keeps_ (_push_block b skip).
Proof.
  intros Hb. unfold _push_block. destruct (has_flag skip skip_fork_db); [by apply keeps_append_block|].
  eapply keeps_bind.
  { apply keeps_on_fork. intros g x g' E Hg. inv_ok1. injection E as <- <-. destruct a. by eapply fork_push_plain. }
  intros h _. apply keeps_get. intros n _. eapply keeps_bind; [by apply (keeps_lift _ (fun _ => True))|]. intros new_head _.
  case_bool_decide; [by apply keeps_append_block|]. destruct (_ <? _); [|by apply keeps_ret].
  eapply keeps_bind; [apply keeps_get; intros; by apply (keeps_ret _ (fun _ => True))|]. intros l _.
  eapply keeps_bind; [by apply keeps_with_fork|]. intros _ _. apply keeps_catch.
  - eapply keeps_bind; [by apply keeps_switch_forks|]. intros r _.
    eapply keeps_bind; [by apply keeps_with_fork|]. intros _ _. by apply keeps_ret.
  - intros e. eapply keeps_bind; [by apply keeps_with_fork|]. intros _ _. apply keeps_throw.
Qed.

(** *** Transactions *)
Lemma keeps_apply_transaction (t : signed_transaction) skip :
  Forall plain_operation (operations t) -> keeps_ (on_chain (_apply_transaction skip t)).
Proof. intros Ht. apply keeps_on_chain. intros. by eapply bal_same, apply_transaction_balanced. Qed.
Lemma keeps_push_transaction t skip : Forall plain_operation (operations t) -> keeps_ (_push_transaction t skip).
Proof.
  intros Ht. apply keeps_get. intros n _. eapply keeps_bind.
  - destruct (_pending_tx_session n); [by apply (keeps_ret _ (fun _ => True))|].
    eapply keeps_bind; [apply keeps_start|]. intros _ _. apply keeps_set. by intros ? [].
  - intros _ _. apply keeps_session; [|apply keeps_merge]. eapply keeps_bind; [by apply keeps_apply_transaction|].
    intros rs _. eapply keeps_bind; [|intros _ _; by apply keeps_ret]. apply keeps_set. intros n' Hn'.
    pose proof (books_pending n' Hn'). destruct Hn'; split; try done. cbn. apply Forall_app. by repeat constructor.
Qed.
Lemma keeps_validate_transaction t skip : Forall plain_operation (operations t) -> keeps_ (validate_transaction t skip).
Proof.
  intros Ht. apply keeps_session; [|apply keeps_undo]. eapply keeps_bind; [by apply keeps_apply_transaction|].
  intros rs _. by apply keeps_ret.
Qed.
Lemma keeps_clear_pending : keeps_ (clear_pending (byte := byte)).
Proof.
  apply keeps_get. intros n _. eapply keeps_bind; [by apply (keeps_lift _ (fun _ => True))|]. intros _ _.
  eapply keeps_bind; [|intros _ _; apply keeps_reset_pending]. apply keeps_set. intros ? []; split; try done.
Qed.
Lemma keeps_repush skip t : plain_transaction t -> keeps_ (repush skip t).
Proof.
  intros Ht. apply keeps_catch; [|intros e; by apply keeps_ret]. apply keeps_get. intros n _.
  destruct (is_known_transaction _ _); [by apply keeps_ret|].
  eapply keeps_bind; [by apply keeps_push_transaction|]. intros _ _. by apply keeps_ret.
Qed.
Lemma keeps_restore_pending l skip : Forall plain_transaction l -> keeps_ (restore_pending l skip).
Proof.
  rewrite Forall_forall. intros Hl. apply keeps_get. intros n Hn. pose proof (books_popped n Hn) as Hp. rewrite Forall_forall in Hp.
  eapply keeps_bind; [apply keeps_each; intros t Ht; by apply keeps_repush, Hp|]. intros _ _.
  eapply keeps_bind; [apply keeps_set; intros ? []; split; try done; by constructor|]. intros _ _.
  apply keeps_each. intros t Ht. by apply keeps_repush, Hl.
Qed.
Lemma keeps_push_block b skip : plain_block b -> keeps_ (push_block b skip).
Proof.
  intros Hb. apply keeps_get. intros n Hn. pose proof (books_pending n Hn) as Hp.
  eapply keeps_bind; [apply keeps_set; intros ? []; by split|]. intros _ _.
  eapply keeps_bind; [apply keeps_clear_pending|]. intros _ _. apply keeps_catch.
  - eapply keeps_bind; [by apply keeps_push_block_|]. intros r _.
    eapply keeps_bind; [by apply keeps_restore_pending|]. intros _ _. by apply keeps_ret.
  - intros e. eapply keeps_bind; [by apply keeps_restore_pending|]. intros _ _. apply keeps_throw.
Qed.
Lemma keeps_gather l skip m sz acc :
  Forall plain_transaction l -> Forall plain_transaction acc -> keeps (gather l skip m sz acc) (Forall plain_transaction).
Proof.
  intros Hl. revert sz acc. induction Hl as [|t l Ht Hl IH]; intros sz acc Ha; cbn [gather]; [by apply keeps_ret|].
  destruct (_ <=? _); [by apply IH|].
  eapply (keeps_bind _ _ (fun r => match r with Some x => plain_transaction x | None => True end)).
  - apply keeps_catch; [|intros e; by apply keeps_ret]. eapply keeps_bind.
    { apply keeps_session; [by apply keeps_apply_transaction|apply keeps_merge]. }
    intros rs _. by apply keeps_ret.
  - intros [x|] Hx; apply IH; [|done]. apply Forall_app. by repeat constructor.
Qed.
Lemma keeps_generate_block t w key skip : keeps_ (generate_block t w key skip).
Proof.
  apply keeps_get. intros n Hn. pose proof (books_pending n Hn) as Hp.
  do 6 (eapply keeps_bind; [by apply (keeps_lift _ (fun _ => True))|intros ? _]).
  eapply keeps_bind; [apply keeps_reset_pending|]. intros _ _. eapply keeps_bind; [apply keeps_start|]. intros _ _.
  eapply keeps_bind; [apply keeps_set; by intros ? []|]. intros _ _. eapply keeps_bind; [by apply keeps_gather|].
  intros txs Htxs. eapply keeps_bind; [apply keeps_reset_pending|]. intros _ _. apply keeps_get. intros n' _.
  eapply keeps_bind; [apply (keeps_lift _ plain_block)|].
  { unfold unsigned_block. intros b E. inv_ok1. by injection E as <-. }
  intros b Hb. eapply keeps_bind; [by apply (keeps_lift _ (fun _ => True))|]. intros _ _.
  eapply keeps_bind; [|intros r _; by apply keeps_ret]. apply keeps_push_block. by destruct (has_flag _ _).
Qed.

(** ** What a node can be asked *)
Inductive request : Type :=
| request_push_block (b : signed_block) (skip : Z)
| request_push_transaction (t : signed_transaction) (skip : Z)
| request_validate_transaction (t : signed_transaction) (skip : Z)
| request_pop_block
| request_clear_pending
| request_generate_block (t w key skip : Z)
| request_add_checkpoints (l : list (Z * block_id_type)).
(** The node after the request, whether it was answered or refused. *)
Definition serve (n : node) (r : request) : node :=
  match r with
  | request_push_block b skip => snd (push_block b skip n)
  | request_push_transaction t skip => snd (push_transaction t skip n)
  | request_validate_transaction t skip => snd (validate_transaction t skip n)
  | request_pop_block => snd (pop_block n)
  | request_clear_pending => snd (clear_pending n)
  | request_generate_block t w key skip => snd (generate_block t w key skip n)
  | request_add_checkpoints l => snd (add_checkpoints l n)
  end.
Definition plain_request (r : request) : Prop :=
  match r with
  | request_push_block b _ => plain_block b
  | request_push_transaction t _ | request_validate_transaction t _ => Forall plain_operation (operations t)
  | _ => True
  end.
Lemma serve_books r n : plain_request r -> books n -> books (serve n r).
Proof.
  intros Hr Hn. destruct r; cbn in *.
  - by apply keeps_push_block.
  - by apply keeps_push_transaction.
  - by apply keeps_validate_transaction.
  - by apply keeps_pop_block.
  - by apply keeps_clear_pending.
  - by apply keeps_generate_block.
  - destruct Hn; by split.
Qed.

Lemma requests_books (l : list request) (n : node) :
  books n -> Forall plain_request l -> books (fold_left serve l n).
Proof. intros Hn Hl. revert n Hn. induction Hl as [|r l Hr Hl IH]; intros n Hn; cbn; [done|]. by apply IH, serve_books. Qed.
End Books.
End BlocksLaws.
