(* ===== verification/MaintainedNode.v ===== *)
(** * The maintenance in the application of blocks ([db_maint.cpp], [db_block.cpp])

    The interface [Housekeeping] of the node is implemented by the maintenance of
    [Maintenance] ([coded_housekeeping]).  For the proofs there is a second
    implementation, [watched_housekeeping]: the same maintenance under a watch, which
    ends the run when an operation that the maintenance applies for itself throws
    while it is applied, and when a position is left with a negative collateral.  It
    has the law [HousekeepingLaws], by [ReviveLaws]; and a watched run that is not
    ended is a run of the code ([watched_agrees]). *)
From Stdlib Require Import ZArith Lia String.
From stdpp Require Import base gmap sets list strings.
From S2P Require Import Prelude External Asset Chain Balance Accounting Evaluator MarketEvaluator AccountEvaluator OperationRules Authority Operations ExchangeRate Credit CreditEvaluator ProposalLaws Schedule Block DbUpdate DbUpdateLaws Maintenance MaintenanceLaws ReviveLaws BlockDb Blocks BlocksLaws.

Module MaintainedNode.
Import Asset Chain Balance Accounting Evaluator MarketEvaluator AccountEvaluator OperationRules Authority Operations ExchangeRate Credit CreditEvaluator ProposalLaws Schedule Block DbUpdate DbUpdateLaws Maintenance MaintenanceLaws ReviveLaws Blocks BlocksLaws.

Section Books.
Context `{SafeLaws, U128Laws, RationalLaws, IndexLaws, NthLaws, TimeLaws, AddressOps, PackOps, CreditOpsLaws, SignatureOps, BlockOps, ShiftOps}.

(** The code's maintenance. *)
Definition coded_housekeeping : Housekeeping :=
  {| Blocks.perform_chain_maintenance := Maintenance.perform_chain_maintenance (AP := as_coded) |}.

(** The maintenance under the watch, which keeps the laws of the interface. *)
Definition negative_position : string := "undefined: a position with a negative collateral".
Definition watched_maintenance (b : signed_block) : M database unit :=
  _ ← Maintenance.perform_chain_maintenance (AP := watched) b;
  s ← get_state;
  require (bool_decide (solvent s)) negative_position.
Definition watched_housekeeping : Housekeeping := {| Blocks.perform_chain_maintenance := watched_maintenance |}.
#[local] Existing Instance watched_housekeeping.
Lemma watched_housekeeping_laws : HousekeepingLaws.
Proof.
  split. intros b s u s' Hw E. cbn in E. unfold watched_maintenance in E. repeat run_ok1.
  match goal with Hb : bool_decide _ = true |- _ => apply bool_decide_eq_true in Hb end.
  subst. by eapply maintenance_balances.
Qed.

(** *** A watched run that is not ended is a run of the code *)
(** [m] does what [m'] does, unless it ends. *)
Definition agrees {A} (m m' : M database A) : Prop :=
  forall s, m s = m' s \/ exists e t, m s = Throw (e, t) /\ fatal e = true.
Lemma agrees_refl {A} (m : M database A) : agrees m m.
Proof. by left. Qed.
Lemma agrees_bind {A B} (m m' : M database A) (f f' : A -> M database B) :
  agrees m m' -> (forall x, agrees (f x) (f' x)) -> agrees (m ≫= f) (m' ≫= f').
Proof.
  intros Hm Hf s. unfold mbind, M_bind. destruct (Hm s) as [->|(e & t & -> & He)]; [|right; eauto].
  destruct (m' s) as [[x t]|]; [apply Hf|by left].
Qed.
Lemma agrees_when b (m m' : M database unit) : agrees m m' -> agrees (when b m) (when b m').
Proof. intros Hm. by destruct b; [|left]. Qed.
Lemma agrees_for_each {A} (l : list A) (f f' : A -> M database unit) :
  (forall x, agrees (f x) (f' x)) -> agrees (for_each l f) (for_each l f').
Proof. intros Hf. induction l as [|x l IH]; cbn; [apply agrees_refl|by apply agrees_bind]. Qed.
Lemma agrees_catching {A} (m m' h : M database A) : agrees m m' -> agrees (catching m h) (catching m' h).
Proof.
  intros Hm s. unfold catching. destruct (Hm s) as [->|(e & t & -> & He)]; [by left|]. rewrite He. right. eauto.
Qed.
Lemma agrees_apply {Op E R} `{!Evaluator Op E R} op (o : Op) :
  agrees (apply_operation (AP := watched) op o) (apply_operation (AP := as_coded) op o).
Proof.
  unfold apply_operation. repeat (apply agrees_bind; [apply agrees_refl|intros ?]).
  intros s. unfold applying, watched, as_coded. destruct (apply _ _ _ _ s) as [[r t]|[e t]]; [by left|].
  destruct (fatal e) eqn:He; [by left|]. right. by eexists _, _.
Qed.
Ltac solve_agrees :=
  repeat (intros; first
    [ apply agrees_refl | match goal with |- agrees (apply_operation _ _) _ => apply agrees_apply end | apply agrees_bind | apply agrees_when | apply agrees_for_each | apply agrees_catching
    | match goal with |- agrees (match ?x with _ => _ end) _ => destruct x end ]).
Lemma agrees_sell_holdings sales account allowed y fuel from :
  agrees (sell_holdings (AP := watched) sales account allowed y fuel from)
    (sell_holdings (AP := as_coded) sales account allowed y fuel from).
Proof.
  revert fuel from. induction sales as [|sales IHs]; intros fuel; induction fuel as [|fuel IH]; intros from;
    cbn [sell_holdings]; (apply agrees_bind; [apply agrees_refl|intros [[x n]|]; [|apply agrees_refl]]);
    (destruct (for_sale_now _ _ _ _); [|first [apply IH|apply agrees_refl]]); try apply agrees_refl.
  all: unfold sell_all. all: solve_agrees.
  all: intros; apply IHs.
Qed.
Lemma watched_agrees b : agrees (Maintenance.perform_chain_maintenance (AP := watched) b) (Maintenance.perform_chain_maintenance (AP := as_coded) b).
Proof.
  unfold Maintenance.perform_chain_maintenance, create_buyback_orders, create_buyback_order, fix_next_maintenance,
    deprecate_annual_members, deprecate_annual_member. solve_agrees. intros. apply agrees_sell_holdings.
Qed.
Lemma watched_run b s r :
  Maintenance.perform_chain_maintenance (AP := watched) b s = Ok r -> Maintenance.perform_chain_maintenance (AP := as_coded) b s = Ok r.
Proof. intros E. destruct (watched_agrees b s) as [<-|(e & t & E' & _)]; congruence. Qed.
End Books.
End MaintainedNode.
