(* ===== verification/BlocksTheorems.v ===== *)
(** * The node, with its maintenance ([db_block.cpp])

    The checks a block passed when it was applied; that no transaction is applied
    twice; what is left when a block or a transaction is refused, and what a popped
    block leaves; and the books of a node after any requests. *)
From Stdlib Require Import ZArith Lia String.
From stdpp Require Import base gmap sets list strings.
From S2P Require Import Prelude External Asset Vesting Authority Chain Balance Accounting Market MarketSupply Evaluator MarketEvaluator MarketLaws AssetObject Transfers AssetOps AssetEvaluator BitassetEvaluator AssetLaws ExchangeRate Credit CreditEvaluator CreditLaws ExchangeRateLaws Operations ProposalLaws Scenario Invariant Schedule Block DbUpdate DbUpdateLaws Frames ForkDb BlockDb Blocks BlocksLaws MaintainedNode.

Module BlocksTheorems.
Import Asset Vesting Authority Chain Balance Accounting Market MarketSupply Evaluator MarketEvaluator MarketLaws AssetObject Transfers AssetOps AssetEvaluator BitassetEvaluator AssetLaws ExchangeRate Credit CreditEvaluator CreditLaws ExchangeRateLaws Operations ProposalLaws Scenario Invariant Schedule Block DbUpdate DbUpdateLaws Frames Blocks BlocksLaws MaintainedNode.

(** ** Runs of a node *)
Lemma N_bind_Ok {byte A B} (m : N byte A) (k : A -> N byte B) n y n' :
  (m ≫= k) n = (Ok y, n') -> exists x n1, m n = (Ok x, n1) /\ k x n1 = (Ok y, n').
Proof. unfold mbind, N_bind. destruct (m n) as [[x|e] n1]; [eauto|done]. Qed.

Lemma N_bind_run {byte A B} (m : N byte A) (k : A -> N byte B) n x n' : m n = (Ok x, n') -> (m ≫= k) n = k x n'.
Proof. intros E. unfold mbind, N_bind. by rewrite E. Qed.
Lemma N_bind_throw {byte A B} (m : N byte A) (k : A -> N byte B) n e n' : m n = (Throw e, n') -> (m ≫= k) n = (Throw e, n').
Proof. intros E. unfold mbind, N_bind. by rewrite E. Qed.
Lemma on_chain_Ok {byte A} (m : M database A) (n : node byte) x n' :
  on_chain m n = (Ok x, n') -> exists s', m (chain n) = Ok (x, s') /\ n' = with_chain s' n.
Proof. unfold on_chain. destruct (m (chain n)) as [[y s']|[e s']]; [|done]. intros [= -> <-]. by exists s'. Qed.

(** ** The application of a block *)
#[local] Existing Instance coded_housekeeping.
Section Applied.
Context `{SafeOps, U128Ops, RationalOps, IndexLaws, NthOps, TimeOps, AddressOps, PackOps, CreditOps, SignatureOps, BlockOps, ShiftOps}.
(** What the header and the transactions of a block went through. *)
Definition header_accepted (skip : Z) (b : signed_block) (s : database) : Prop :=
  previous b = head_block_id (dgp s) /\ head_block_time s < timestamp b
  /\ (has_flag skip skip_witness_signature = false ->
        exists w, witnesses s !! witness b = Some w /\ signee b = Ok (signing_key w))
  /\ (has_flag skip skip_witness_schedule_check = false ->
        exists slot, get_slot_at_time (timestamp b) s = Ok slot /\ 0 < slot /\ get_scheduled_witness slot s = Ok (witness b))
  /\ (has_flag skip skip_merkle_check = false -> calculate_merkle_root b = Some (transaction_merkle_root b)).
Lemma validate_block_header_Ok skip b s w s' :
  validate_block_header skip b s = Ok (w, s') ->
  previous b = head_block_id (dgp s) /\ head_block_time s < timestamp b
  /\ (has_flag skip skip_witness_signature = false ->
        exists w, witnesses s !! witness b = Some w /\ signee b = Ok (signing_key w))
  /\ (has_flag skip skip_witness_schedule_check = false ->
        exists slot, get_slot_at_time (timestamp b) s = Ok slot /\ 0 < slot /\ get_scheduled_witness slot s = Ok (witness b)).
Proof.
  unfold validate_block_header. intros E. repeat run_ok1. reads_ok. subst.
  repeat match goal with Hd : bool_decide _ = true |- _ => apply bool_decide_eq_true in Hd end.
  split_and!; [done|lia| |].
  - intros Hf. rewrite Hf in *. repeat run_ok1. eexists. split; [eassumption|].
    unfold validate_signee in *. repeat inv_ok1. match goal with Hk : (_ =? _) = true |- _ => apply Z.eqb_eq in Hk; by subst end.
  - intros Hf.
    match goal with Hv : (if has_flag skip skip_witness_signature then _ else _) ?s = Ok (_, ?t) |- _ =>
      assert (t = s) as -> by (destruct (has_flag skip skip_witness_signature); repeat run_ok1; done) end.
    rewrite Hf in *. repeat run_ok1. eexists. split_and!; [eassumption|lia|].
    match goal with Hk : (_ =? _) = true |- _ => apply Z.eqb_eq in Hk; by subst end.
Qed.
(** The head after the parts of a block, and the records of the transactions. *)
Definition record_of (t : signed_transaction) : transaction_object := mk_transaction_object (transaction_id t) (expires t).
Definition recorded (t : transaction_object) (s : database) : Prop := exists k, transactions s !! k = Some t.
Lemma bind_kept {A B} (m : M database A) (k : A -> M database B) s y s' :
  (m ≫= k) s = Ok (y, s') -> kept m -> exists x t, m s = Ok (x, t) /\ same_head s t /\ k x t = Ok (y, s').
Proof. intros (x & t & E & E')%M_bind_Ok Hm. exists x, t. split_and!; [done|by eapply kept_Ok|done]. Qed.
Lemma same_head_of s s' : same_head s s' -> head_of s' = head_of s.
Proof. intros (Hn & Hi & Ht & _). unfold head_of, head_block_time. congruence. Qed.
Lemma same_recorded s s' x : same_head s s' -> recorded x s -> recorded x s'.
Proof. intros (_ & _ & _ & E) [k Hk]. exists k. congruence. Qed.
Lemma create_records (r : transaction_object) s id s' :
  create r s = Ok (id, s') -> head_of s' = head_of s /\ recorded r s' /\ forall x, recorded x s -> recorded x s'.
Proof.
  unfold create. intros E. repeat run_ok1. subst.
  match goal with Hn : bool_decide (_ = None) = true |- _ => apply bool_decide_eq_true in Hn; cbn in Hn end.
  split_and!; [done|eexists; cbn; apply lookup_insert_eq|]. intros x [k Hk]. exists k. cbn.
  rewrite lookup_insert_ne; [done|congruence].
Qed.
Lemma apply_transaction_records skip t s rs s' :
  _apply_transaction skip t s = Ok (rs, s') ->
  head_of s' = head_of s /\ (forall x, recorded x s -> recorded x s')
  /\ (has_flag skip skip_transaction_dupe_check = false -> recorded (record_of t) s').
Proof.
  unfold _apply_transaction. intros E.
  do 6 (apply bind_kept in E as (? & ? & _ & ? & E); [|solve_kept]). apply M_bind_Ok in E as ([] & s1 & Ec & E).
  do 3 (apply bind_kept in E as (? & ? & _ & ? & E); [|first [apply apply_operations_kept|solve_kept]]). apply M_ret_Ok in E as [_ <-].
  match goal with H1 : same_head s1 ?t2, H2 : same_head ?t2 ?t3, H3 : same_head ?t3 ?t4 |- _ =>
    assert (A : same_head s1 t4) by (do 2 (etrans; [eassumption|]); done) end.
  match type of Ec with when _ _ ?t0 = _ =>
    assert (B : same_head s t0) by (do 5 (etrans; [eassumption|]); done) end.
  apply when_Ok in Ec as [[_ Ec]|[Hf ->]].
  - run_ok1. apply create_records in Hrun as (Hh & Hr & Hk). run_ok1.
    split_and!; [by rewrite (same_head_of _ _ A), Hh, (same_head_of _ _ B)| |].
    + intros y Hy. by eapply same_recorded, Hk, same_recorded.
    + intros _. by eapply same_recorded.
  - apply negb_false_iff in Hf. split_and!; [by rewrite (same_head_of _ _ A), (same_head_of _ _ B)| |congruence].
    intros y Hy. by eapply same_recorded, same_recorded.
Qed.
Lemma apply_transactions_records skip l s s' :
  apply_transactions skip l s = Ok (tt, s') -> head_of s' = head_of s /\ forall x, recorded x s -> recorded x s'.
Proof.
  unfold apply_transactions.
  apply (for_each_ind (fun s s' => head_of s' = head_of s /\ forall x, recorded x s -> recorded x s')); [done| |].
  - intros s1 s2 s3 [Ha Ra] [Hb Rb]. split; [congruence|auto].
  - intros t s1 s2 v _ E. run_ok1. apply apply_transaction_records in Hrun as (Hh & Hr & _). by run_ok1.
Qed.
Lemma header_kept skip b : kept (validate_block_header skip b).
Proof. unfold validate_block_header. solve_kept. Qed.
Lemma begin_block_records cps skip b s r s' :
  begin_block cps skip b s = Ok (r, s') ->
  header_accepted skip b s /\ head_of s' = (block_num b, block_id b, timestamp b) /\ forall x, recorded x s -> recorded x s'.
Proof.
  unfold begin_block. intros E. apply M_bind_Ok in E as (u & t1 & Ec & E). unfold clear_applied_ops in Ec. apply update_Ok in Ec.
  apply M_bind_Ok in E as (v & t2 & Em & E). apply require_Ok in Em as [Hm ->].
  apply M_bind_Ok in E as (w & t3 & Ev & E). pose proof (kept_Ok _ _ _ _ (header_kept skip b) Ev) as K.
  apply validate_block_header_Ok in Ev as (Hp & Ht & Hsig & Hslot).
  apply M_bind_Ok in E as (maint & t4 & Eg & E). apply gets_Ok in Eg as [_ ->].
  apply M_bind_Ok in E as ([] & t5 & Ea & E). apply apply_transactions_records in Ea as [Hh Hr].
  apply M_bind_Ok in E as (z & t6 & Eu & E). apply M_ret_Ok in E as [_ <-].
  split; [subst t1; split_and!; [done..|]; intros Hf; rewrite Hf in Hm; cbn in Hm; by apply bool_decide_eq_true in Hm|].
  unfold update_global_dynamic_data in Eu.
  do 3 (apply bind_kept in Eu as (? & ? & _ & ? & Eu); [|solve_kept]).
  apply bind_kept in Eu as (? & t7 & _ & ? & Eu); [|apply kept_for_each; intros; unfold miss_slot; solve_kept].
  assert (A : same_head t5 t7) by (do 3 (etrans; [eassumption|]); done).
  apply M_bind_Ok in Eu as ([] & t8 & Ed & Eu). apply update_Ok in Ed.
  do 2 (apply bind_kept in Eu as (? & ? & _ & ? & Eu); [|solve_kept]). apply M_ret_Ok in Eu as [_ <-].
  match goal with Ka : same_head t8 ?y, Kb : same_head ?y ?z |- _ => assert (B : same_head t8 z) by (etrans; [exact Ka|exact Kb]) end.
  split; [by rewrite (same_head_of _ _ B), Ed|]. intros y Hy. eapply same_recorded; [exact B|]. subst t8.
  change (recorded y t7). eapply same_recorded; [exact A|]. apply Hr. eapply same_recorded; [exact K|]. by subst t1.
Qed.
(** The records that the end of a block removes have expired. *)
Definition kept_or_expired (s s' : database) : Prop :=
  head_of s' = head_of s /\ forall x, recorded x s -> recorded x s' \/ trx_expiration x < head_block_time s.
#[local] Instance kept_or_expired_preorder : PreOrder kept_or_expired.
Proof.
  split; [by split; [|left]|]. intros s1 s2 s3 [Ha Ra] [Hb Rb]. split; [congruence|]. intros x Hx.
  apply Ra in Hx as [Hx|?]; [|by right]. apply Rb in Hx as [?|Hx]; [by left|right].
  unfold head_of in Ha. congruence.
Qed.
Lemma same_kept_or_expired s s' : same_head s s' -> kept_or_expired s s'.
Proof. intros K. split; [by apply same_head_of|]. intros x Hx. left. by eapply same_recorded. Qed.
Lemma drop_records fuel s u s' : drop_expired fuel trx_expiration transaction_expired s = Ok (u, s') -> kept_or_expired s s'.
Proof.
  revert s. induction fuel as [|fuel IH]; intros s; cbn [drop_expired]; intros E; run_ok1; apply get_state_Ok in Hrun as [-> ->];
    (destruct (ordered _ _) as [|[id x] l] eqn:Hl; [by run_ok1|]); (destruct (transaction_expired s x) eqn:Ex; [|by run_ok1]); [done|].
  run_ok1. apply remove_Ok in Hrun as (y & Hy & ->). etrans; [|by eapply IH]. apply by_time_first in Hl as [Hx _].
  split; [done|]. intros z [k Hk]. destruct (decide (k = id)) as [->|Hne].
  - right. change (transactions s !! id = Some x) in Hx. assert (z = x) as -> by congruence. by apply Z.ltb_lt in Ex.
  - left. exists k. cbn. by rewrite lookup_delete_ne.
Qed.
Lemma finish_block_records b w maint s u s' :
  finish_block b w maint s = Ok (u, s') -> kept_or_expired s s'.
Proof.
  unfold finish_block. intros E.
  do 4 (apply bind_kept in E as (? & ? & _ & ?%same_kept_or_expired & E);
    [|first [apply kept_when, maintenance_kept|apply signing_witness_kept|apply irreversible_kept|apply block_summary_kept]]).
  apply M_bind_Ok in E as ([] & t & Ex & E). apply M_bind_Ok in Ex as (n & t' & Eg & Ex).
  apply gets_Ok in Eg as [_ ->]. apply drop_records in Ex. change (kept_or_expired s s').
  do 8 (apply bind_kept in E as (? & ? & _ & ?%same_kept_or_expired & E);
    [|first [apply expired_proposals_kept|apply expired_orders_kept|apply expired_feeds_kept|apply permissions_kept
      |apply credit_stories_kept|apply exchange_rates_kept|apply maintenance_flag_kept|apply witness_schedule_kept]]).
  unfold clear_applied_ops in E. apply update_Ok in E. subst s'.
  repeat (etrans; [eassumption|]). by apply same_kept_or_expired.
Qed.

(** *** Accepted blocks *)
Context {byte : Type} `{!BlockDb.RawOps byte}.
Lemma apply_block_parts skip b (n n' : node byte) :
  _apply_block skip b n = (Ok tt, n') ->
  exists r s1, begin_block (_checkpoints n) skip b (chain n) = Ok (r, s1)
    /\ finish_block b (fst (fst r)) (snd (fst r)) s1 = Ok (tt, chain n')
    /\ undo_max_size n' = snd r /\ ForkDb.set_max_size (snd r) (_fork_db n) = Ok (_fork_db n').
Proof.
  intros E. unfold _apply_block in E. apply N_bind_Ok in E as (n0 & ? & [= <- <-] & E).
  apply N_bind_Ok in E as (r & n1 & E1 & E). apply on_chain_Ok in E1 as (s1 & E1 & ->).
  apply N_bind_Ok in E as ([] & ? & [= <-] & E). apply N_bind_Ok in E as ([] & n2 & Ef & E).
  apply on_chain_Ok in E as (s2 & E2 & ->). exists r, s1. split; [done|].
  unfold on_fork_, on_fork in Ef. change (_fork_db (with_max_size (snd r) (with_chain s1 n))) with (_fork_db n) in Ef.
  destruct (ForkDb.set_max_size (snd r) (_fork_db n)) as [g|e]; [|done]. by injection Ef as <-.
Qed.
(** The head and the fork database after a block was applied, in a session or not. *)
Definition heads (b : signed_block) (n n' : node byte) : Prop :=
  head_id n' = block_id b /\ ForkDb.set_max_size (undo_max_size n') (_fork_db n) = Ok (_fork_db n').
Lemma apply_block_heads b skip (n n' : node byte) : apply_block b skip n = (Ok tt, n') -> heads b n n'.
Proof.
  assert (Hp : forall skip n n', _apply_block skip b n = (Ok tt, n') -> heads b n n').
  { intros sk m m' (r & s1 & (_ & Hh & _)%begin_block_records & [Hf _]%finish_block_records & Hmax & Hs)%apply_block_parts.
    rewrite Hh in Hf. unfold head_of in Hf. split; [by injection Hf|by rewrite Hmax]. }
  unfold apply_block. intros (n0 & ? & [= <- <-] & E)%N_bind_Ok. destruct (last (_checkpoints n)) as [[num id]|]; [|by eapply Hp].
  case_bool_decide; [by eapply Hp|]. apply N_bind_Ok in E as (u & n1 & El & E). unfold lift_n in El. injection El as _ <-. by eapply Hp.
Qed.
Lemma apply_and_store_heads id b skip (n n' : node byte) u : apply_and_store id b skip n = (Ok u, n') -> heads b n n'.
Proof.
  unfold apply_and_store, session. intros (u1 & n1 & [= <- <-] & E)%N_bind_Ok. unfold catch in E.
  match type of E with match ?m with _ => _ end = _ => destruct m as [[x|e] n2] eqn:Em end.
  2: { unfold mbind, N_bind, throw_n, lift_n in E. by destruct (undo n2) as [[]]. }
  apply N_bind_Ok in Em as (u2 & n3 & Ea & Em). apply N_bind_Ok in Ea as ([] & n4 & Ea & [= <- <-]).
  apply N_bind_Ok in Em as (u3 & n5 & Ec & [= <- <-]). unfold commit in Ec. destruct (0 <? _); [|done]. injection Ec as <- <-.
  injection E as _ <-. apply apply_block_heads in Ea as [Hh Hf]. by split.
Qed.
(** C2: accepted blocks.  Any block that is applied, whatever its transactions,
    names the head block as its predecessor and is later than it; unless the
    checks are skipped it is signed by the witness it names, who is scheduled for
    its slot, and its Merkle root is that of its transactions.  Afterwards it is
    the head block: neither its transactions nor the maintenance and the other
    work that follow them move the head. *)
Theorem accepted_block (skip : Z) (b : signed_block) (n n' : node byte) :
  _apply_block skip b n = (Ok tt, n') ->
  header_accepted skip b (chain n) /\ head_of (chain n') = (block_num b, block_id b, timestamp b).
Proof.
  intros (r & s1 & (Hacc & Hh & _)%begin_block_records & [Hf _]%finish_block_records & _)%apply_block_parts.
  split; [done|]. by rewrite Hf.
Qed.

(** *** No replay *)
(** The states a chain reaches going forward: by blocks, with everything that
    follows them, by the transactions that are pending, and by single operations. *)
Inductive advances (s : database) : database -> Prop :=
| adv_here : advances s s
| adv_block s1 skip b (n n' : node byte) :
    advances s s1 -> chain n = s1 -> 0 < block_num b -> _apply_block skip b n = (Ok tt, n') -> advances s (chain n')
| adv_transaction s1 skip t rs s2 :
    advances s s1 -> _apply_transaction skip t s1 = Ok (rs, s2) -> advances s s2
| adv_operation s1 trx op r s2 :
    advances s s1 -> apply_operation trx op s1 = Ok (r, s2) -> advances s s2.
Definition remembered (t : signed_transaction) (s : database) : Prop :=
  recorded (record_of t) s \/ (expires t < head_block_time s /\ 0 < head_block_number (dgp s)).
Lemma advances_remembered t s s' : advances s s' -> remembered t s -> remembered t s'.
Proof.
  intros Hadv Hr. induction Hadv as [|s1 skip b n n' _ IH <- Hn E|s1 skip u rs s2 _ IH E|s1 trx op r s2 _ IH E]; [done|..].
  - apply apply_block_parts in E as (r & s2 & (Hacc & Hh & Hk)%begin_block_records & [Hf Hx]%finish_block_records & _).
    rewrite Hh in Hf. unfold head_of in Hh, Hf. injection Hh as Hn2 _ Ht2. injection Hf as Hn3 _ Ht3.
    destruct Hacc as (_ & Hlater & _). destruct IH as [IH|[He _]].
    + apply Hk, Hx in IH as [IH|He]; [by left|right]. cbn in He. split; [congruence|lia].
    + right. split; lia.
  - apply apply_transaction_records in E as (Hh & Hk & _). unfold head_of in Hh. injection Hh as Hn _ Ht.
    destruct IH as [IH|[? ?]]; [left; by apply Hk|right]. by rewrite Hn, Ht.
  - apply (kept_Ok _ _ _ _ (apply_operation_kept _ _)) in E. pose proof (same_head_of _ _ E) as Hh. unfold head_of in Hh. injection Hh as Hn _ Ht.
    destruct IH as [IH|[? ?]]; [left; by eapply same_recorded|right]. by rewrite Hn, Ht.
Qed.
Lemma known_transaction_spec id s :
  known_transaction id s = true <-> exists k t, transactions s !! k = Some t /\ trx_id t = id.
Proof.
  unfold known_transaction. rewrite existsb_exists. split.
  - intros ([k t] & Hk%list_elem_of_In%elem_of_map_to_list & Ht). cbn in Ht. exists k, t. split; [done|]. by apply Z.eqb_eq.
  - intros (k & t & Hk & Ht). exists (k, t). split; [by apply list_elem_of_In, elem_of_map_to_list|]. by apply Z.eqb_eq.
Qed.
(** C7: a transaction is not applied a second time.  After it was applied with the
    check for duplicates, it is refused in every state the chain reaches going
    forward - by blocks with their transactions, maintenance, expirations and the
    rest of what follows them, by pending transactions and by operations -,
    whatever the other checks skip: its record is there until the head is later
    than its expiration, and from then on it is refused as expired. *)
Theorem no_replay skip skip' trx s rs s1 s2 :
  has_flag skip skip_transaction_dupe_check = false -> has_flag skip' skip_transaction_dupe_check = false ->
  _apply_transaction skip trx s = Ok (rs, s1) -> advances s1 s2 ->
  is_ok (_apply_transaction skip' trx s2) = false.
Proof.
  intros Hs Hs' (_ & _ & Hrec)%apply_transaction_records Hadv.
  apply (advances_remembered trx) in Hadv as Hm; [|left; by apply Hrec].
  destruct (_apply_transaction skip' trx s2) as [[rs' s3]|] eqn:E; [|done]. exfalso.
  unfold _apply_transaction in E. apply M_bind_Ok in E as (u & t1 & Ev & E). apply lift_Ok in Ev as [_ ->].
  apply M_bind_Ok in E as (known & t2 & Eg & E). apply gets_Ok in Eg as [-> ->].
  apply M_bind_Ok in E as (v & t3 & Eq & E). apply require_Ok in Eq as [Hnew ->]. rewrite Hs' in Hnew. apply negb_true_iff in Hnew.
  destruct Hm as [[k Hk]|[Hexp Hnum]].
  { assert (known_transaction (transaction_id trx) s2 = true); [|congruence].
    apply known_transaction_spec. by exists k, (record_of trx). }
  apply M_bind_Ok in E as (x & t4 & Eg & E). apply get_state_Ok in Eg as [-> ->].
  apply bind_kept in E as (y & t5 & _ & K & E); [|solve_kept]. apply M_bind_Ok in E as (w & t6 & Ec & _).
  rewrite (proj2 (Z.ltb_lt _ _) Hnum) in Ec. cbn [when] in Ec. apply bind_kept in Ec as (z & t7 & _ & K' & Ec); [|solve_kept].
  unfold check_expiration in Ec. apply M_bind_Ok in Ec as (x & t8 & Eg & Ec). apply get_state_Ok in Eg as [-> ->].
  apply M_bind_Ok in Ec as (m & t9 & _ & Ec). apply require_Ok in Ec as [Hle%Z.leb_le _].
  destruct K as (_ & _ & Kt & _), K' as (_ & _ & Kt' & _). unfold head_block_time in *. lia.
Qed.
End Applied.

Section Blocks.
Context `{SafeLaws, U128Laws, RationalLaws, IndexLaws, NthLaws, TimeLaws, AddressOps, PackOps, CreditOpsLaws, SignatureOps, BlockLaws, ShiftOps}
        {byte : Type} `{!BlockDb.RawOps byte} `{!Housekeeping} `{!GenerateOps}.
Notation node := (node byte).

(** *** What the application of a block leaves alone *)
Definition same_rest (n n' : node) : Prop :=
  snapshots n' = snapshots n /\ active_sessions n' = active_sessions n /\ _pending_tx_session n' = _pending_tx_session n
  /\ _pending_tx n' = _pending_tx n /\ _popped_tx n' = _popped_tx n /\ _block_id_to_block n' = _block_id_to_block n
  /\ _checkpoints n' = _checkpoints n.
#[export] Instance same_rest_preorder : PreOrder same_rest.
Proof. split; [by intros n; repeat split|]. unfold same_rest. intros n1 n2 n3 ? ?. intuition congruence. Qed.
Lemma bind_rest {A B} (m : N byte A) (k : A -> N byte B) n :
  same_rest n (snd (m n)) -> (forall x n1, same_rest n1 (snd (k x n1))) -> same_rest n (snd ((m ≫= k) n)).
Proof.
  intros Hm Hk. unfold mbind, N_bind. destruct (m n) as [[x|e] n1]; cbn in *; [|done]. etrans; [exact Hm|apply Hk].
Qed.
Lemma on_chain_rest {A} (m : M database A) n : same_rest n (snd (on_chain m n)).
Proof. unfold on_chain. by destruct (m (chain n)) as [[x s]|[e s]]. Qed.
Lemma on_fork_rest {A} (f : ForkDb.fork_database -> result (A * ForkDb.fork_database)) (n : node) : same_rest n (snd (on_fork f n)).
Proof. unfold on_fork. by destruct (f (_fork_db n)) as [[x g]|]. Qed.
Lemma _apply_block_rest skip b n : same_rest n (snd (_apply_block skip b n)).
Proof.
  apply bind_rest; [done|]. intros n0 n1. apply bind_rest; [apply on_chain_rest|]. intros r n2.
  apply bind_rest; [done|]. intros _ n3. apply bind_rest; [apply on_fork_rest|]. intros _ n4. apply on_chain_rest.
Qed.
Lemma apply_block_rest b skip n : same_rest n (snd (apply_block b skip n)).
Proof.
  apply bind_rest; [done|]. intros n0 n1. destruct (last (_checkpoints n0)) as [[num id]|]; [|apply _apply_block_rest].
  case_bool_decide; [apply _apply_block_rest|]. apply bind_rest; [done|]. intros _ n2. apply _apply_block_rest.
Qed.

(** A session around the application of a block: the state before it is saved, and
    it is back when the application fails. *)
Definition saved (n : node) : list database := chain n :: take (Z.to_nat (undo_max_size n)) (snapshots n).
Lemma apply_and_store_spec id b skip n :
  0 <= active_sessions n ->
  let n' := snd (apply_and_store id b skip n) in
  _pending_tx_session n' = _pending_tx_session n /\ _pending_tx n' = _pending_tx n /\ _popped_tx n' = _popped_tx n
  /\ _checkpoints n' = _checkpoints n /\ active_sessions n' = active_sessions n
  /\ match fst (apply_and_store id b skip n) with
     | Ok _ => snapshots n' = saved n /\ _block_id_to_block n' = BlockDb.store id b (_block_id_to_block n)
     | Throw _ => chain n' = chain n /\ snapshots n' = tail (saved n) /\ _block_id_to_block n' = _block_id_to_block n
     end.
Proof.
  intros Ha. unfold apply_and_store, session, catch, mbind, N_bind, start_undo_session, set_node, store_block, commit, undo, throw_n, lift_n.
  fold (saved n). set (n1 := with_undo (chain n) (saved n) (active_sessions n + 1) n).
  pose proof (apply_block_rest b skip n1) as Hr. destruct (apply_block b skip n1) as [[[]|e] n2]; cbn in Hr |- *;
    destruct Hr as (Rs & Ra & Rp & Rt & Rq & Rd & Rc); cbn in *; rewrite ?Rs, ?Ra;
    (destruct (Z.ltb_spec 0 (active_sessions n + 1)); [|lia]); cbn; split_and!; try done; try lia; congruence.
Qed.

(** A push stays on the branch of the head block when the fork database is skipped,
    refuses the block, or has a head, with the block, that follows the head block. *)
Definition no_switch (b : signed_block) (skip : Z) (n : node) : Prop :=
  has_flag skip skip_fork_db = false -> forall f h i,
    ForkDb.push_block b (_fork_db n) = Ok (f, h) -> ForkDb.items f !! h = Some i -> previous (ForkDb.item_data i) = head_id n.
Lemma pushed_parts b skip n :
  ForkDb.fork_wf (_fork_db n) -> no_switch b skip n ->
  (exists e, _push_block b skip n = (Throw e, n)) \/ exists f, _push_block b skip n = append_block b skip (with_fork f n).
Proof.
  intros Hw Hns. unfold _push_block. destruct (has_flag skip skip_fork_db) eqn:Hf; [right; exists (_fork_db n); by destruct n|].
  specialize (Hns Hf). destruct (ForkDb.push_block b (_fork_db n)) as [[f h]|e] eqn:E.
  - right. exists f. specialize (Hns f h). pose proof E as E'. unfold ForkDb.push_block in E'. repeat inv_ok1.
    apply ForkDb.push_item in Hrun as (p & Hw' & _); [|done]. destruct (ForkDb.wf_head _ Hw' h) as [i Hi]; [done|].
    erewrite N_bind_run by (unfold on_fork; by rewrite E). erewrite N_bind_run by done.
    erewrite N_bind_run by (unfold lift_n, ForkDb.item_at; cbn; by rewrite Hi). rewrite bool_decide_true; [done|]. by apply Hns.
  - left. exists e. erewrite N_bind_throw by (unfold on_fork; by rewrite E). done.
Qed.
(** What a push never touches unless it applies the block. *)
Definition unmoved (n n' : node) : Prop :=
  chain n' = chain n /\ (snapshots n' = snapshots n \/ snapshots n' = take (Z.to_nat (undo_max_size n)) (snapshots n))
  /\ active_sessions n' = active_sessions n /\ _pending_tx_session n' = _pending_tx_session n
  /\ _pending_tx n' = _pending_tx n /\ _popped_tx n' = _popped_tx n /\ _block_id_to_block n' = _block_id_to_block n
  /\ _checkpoints n' = _checkpoints n.
(** C28: refused blocks, on the branch of the head block: [_push_block] of a block that
    does not lead to a switch to another fork.  When it is refused, the state, the
    blocks on disk, the sessions and the pending transactions are what they were,
    and so are the states to go back to, as many as the undo history holds; and
    the fork database is what it was, or no longer knows the block.  (A refused
    switch of forks can leave the node elsewhere.) *)
Theorem refused_block_unwound (b : signed_block) (skip : Z) (n : node) (e : string) (n' : node) :
  0 <= active_sessions n -> ForkDb.fork_wf (_fork_db n) -> no_switch b skip n ->
  _push_block b skip n = (Throw e, n') ->
  unmoved n n' /\ (_fork_db n' = _fork_db n \/ ForkDb.fetch_block (block_id b) (_fork_db n') = None).
Proof.
  intros Ha Hw Hns. destruct (pushed_parts b skip n Hw Hns) as [[e' ->]|[f ->]].
  { intros [= _ <-]. split; [|by left]. split_and!; try done. by left. }
  pose proof (apply_and_store_spec (block_id b) b skip (with_fork f n) Ha) as Hs. cbv zeta in Hs.
  unfold append_block, catch. unfold mbind at 1, N_bind at 1.
  destruct (apply_and_store (block_id b) b skip (with_fork f n)) as [[u|e'] n1]; cbn in Hs |- *; [done|]. intros [= <- <-]. cbn.
  destruct Hs as (Hp & Ht & Hq & Hc & Hact & Hch & Hsn & Hd). split; [|right; apply lookup_delete_eq].
  split_and!; try done. by right.
Qed.

(** *** Pending transactions *)
(** One session is open exactly while there is a pending state, and its snapshot
    is the state of the head block. *)
Definition sessions_ok (n : node) : Prop :=
  if _pending_tx_session n then active_sessions n = 1 /\ snapshots n <> [] else active_sessions n = 0.
Definition head_state (n : node) : database :=
  if _pending_tx_session n then match snapshots n with s :: _ => s | [] => chain n end else chain n.

(** Counts sessions from 0 or 1. *)
Ltac by_count :=
  cbv [Z.add Z.sub Z.opp Z.ltb Z.eqb Z.compare Pos.add Pos.succ Pos.compare Pos.compare_cont Pos.eqb Z.pos_sub Z.succ_double
       Z.pred_double Z.double Pos.pred_double]; cbn;
  repeat match goal with Hp : _pending_tx_session _ = _ |- _ => rewrite Hp; clear Hp end; by split_and!.

(** C30: pushed transactions.  A transaction is applied to the pending state or not
    at all, and the state of the head block is kept either way. *)
Theorem pushed_transaction_exact (t : signed_transaction) (skip : Z) (n : node) :
  1 <= undo_max_size n -> sessions_ok n ->
  let r := fst (_push_transaction t skip n) in
  let n' := snd (_push_transaction t skip n) in
  head_state n' = head_state n /\ sessions_ok n'
  /\ match _apply_transaction skip t (chain n) with
     | Ok (rs, s') => r = Ok (mk_processed t rs) /\ chain n' = s' /\ _pending_tx n' = _pending_tx n ++ [mk_processed t rs]
     | Throw (e, _) => r = Throw e /\ chain n' = chain n /\ _pending_tx n' = _pending_tx n
     end.
Proof.
  intros Hmax Hok. unfold _push_transaction, session, catch, mbind, N_bind, get_node, start_undo_session, set_node, on_chain, undo,
    merge, mret, N_ret, throw_n, lift_n.
  assert (Ht : forall (x : database) l, take (Z.to_nat (undo_max_size n)) (x :: l) = x :: take (Z.to_nat (undo_max_size n) - 1) l).
  { intros x l. destruct (Z.to_nat (undo_max_size n)) as [|k] eqn:E; [lia|]. cbn. by rewrite Nat.sub_0_r. }
  unfold sessions_ok, head_state in *. destruct (_pending_tx_session n) eqn:Hp.
  - destruct Hok as [Ha Hs]. destruct (snapshots n) as [|s0 l] eqn:El; [done|]. rewrite Ha.
    destruct (_apply_transaction skip t (chain n)) as [[rs s']|[e s']] eqn:Er; cbn; rewrite ?Er, ?Hp, ?Ha, ?El, ?Ht; cbn; by_count.
  - destruct (_apply_transaction skip t (chain n)) as [[rs s']|[e s']] eqn:Er; cbn; rewrite ?Hok, ?Er; cbn; rewrite ?Ht; cbn; by_count.
Qed.
End Blocks.

(** ** A block taken back *)
Section Popped.
Context `{SafeLaws, U128Laws, RationalLaws, IndexLaws, NthLaws, TimeLaws, AddressOps, PackOps, CreditOpsLaws, SignatureOps, BlockLaws, ShiftOps}
        {byte : Type} `{!BlockDb.RawOps byte} `{!GenerateOps}.
Lemma push_on_head b skip (n : node byte) h i :
  has_flag skip skip_fork_db = false -> previous b = head_id n -> ForkDb.on_top b (_fork_db n) h i ->
  exists f k, _push_block b skip n = append_block b skip (with_fork f n)
    /\ ForkDb.items f !! k = Some (ForkDb.new_item (Some h) b) /\ ForkDb._head f = Some k /\ ForkDb.items f !! h = Some i
    /\ ForkDb._index f !! block_id b = Some k /\ ForkDb._index f !! previous b = Some h.
Proof.
  intros Hf Hp Htop. destruct (ForkDb.push_on_top _ _ _ _ Htop) as (f & E & Hh & Hk & Hi & Hb & Hb').
  exists f, (ForkDb.fresh_handle (_fork_db n)). split_and!; try done. unfold _push_block. rewrite Hf.
  erewrite N_bind_run by (unfold on_fork; by rewrite E). erewrite N_bind_run by done.
  erewrite N_bind_run by (unfold lift_n, ForkDb.item_at; cbn; by rewrite Hk). by rewrite bool_decide_true.
Qed.
(** C29: pop after push.  A new block on the head block, which is the head of the fork
    database too, is pushed and not refused.  When at least one state to go back to
    is kept from then on, the head block can be popped: the state is the one before
    the push, with the states before it, the head of the fork database is the block
    before, and the transactions of this block are in front of those that wait to
    be pushed again. *)
Theorem pop_restores (b : signed_block) (skip : Z) (n n1 : node byte) (r : bool) h i :
  active_sessions n = 0 -> _pending_tx_session n = false -> has_flag skip skip_fork_db = false ->
  previous b = head_id n -> ForkDb.on_top b (_fork_db n) h i ->
  _push_block b skip n = (Ok r, n1) -> 1 <= undo_max_size n1 ->
  exists n2, pop_block n1 = (Ok tt, n2)
    /\ chain n2 = chain n /\ snapshots n2 = take (Z.to_nat (undo_max_size n)) (snapshots n)
    /\ ForkDb._head (_fork_db n2) = ForkDb._head (_fork_db n)
    /\ _popped_tx n2 = block_transactions b ++ _popped_tx n
    /\ active_sessions n2 = 0 /\ _pending_tx_session n2 = false /\ _pending_tx n2 = _pending_tx n.
Proof.
  intros Ha Hp Hf Hprev Htop Hpush Hmax. destruct (push_on_head _ _ _ _ _ Hf Hprev Htop) as (f & k & E & Hk & Hh & Hi & Hb & Hb').
  rewrite E in Hpush. pose proof (ForkDb.top_next _ _ _ _ Htop) as Hnum. pose proof (ForkDb.top_number _ _ _ _ Htop) as Hpos.
  pose proof (apply_and_store_spec (block_id b) b skip (with_fork f n) ltac:(cbn; lia)) as Hs. cbv zeta in Hs.
  unfold append_block, catch in Hpush. unfold mbind at 1, N_bind at 1 in Hpush.
  destruct (apply_and_store (block_id b) b skip (with_fork f n)) as [[u|e'] n0] eqn:Es; cbn in Hs, Hpush; [|done]. injection Hpush as _ ->.
  apply apply_and_store_heads in Es as [Hid Hset]. destruct Hs as (Hp' & Ht & Hq & Hc & Hact & Hsn & Hd).
  eapply (ForkDb.pop_after_size _ b) in Hset as (Hbk & Hits & g & Hg & Hgh); try done; [|exact Hpos].
  unfold pop_block, reset_pending_session. unfold mbind, N_bind, get_node, set_node, lift_n. rewrite Hp', Hp. cbn [mret N_ret].
  unfold fetch_block_by_id, ForkDb.fetch_block. rewrite Hid, Hbk, Hits. change (_fork_db (with_fork f n)) with f. rewrite Hk. cbn [of_option ForkDb.item_data ForkDb.new_item].
  unfold on_fork_, on_fork. cbn [mbind result_bind]. rewrite Hg. cbn. unfold pop_undo. cbn. rewrite Hact, Ha, Hsn. cbn.
  eexists. split; [done|]. cbn. rewrite Hgh, Hq, Ht, Hp'. split_and!; try done. symmetry. exact (ForkDb.top_head _ _ _ _ Htop).
Qed.
End Popped.

(** ** The books of a node *)
Section Books.
Context `{SafeLaws, U128Laws, RationalLaws, IndexLaws, NthLaws, TimeLaws, AddressOps, PackOps, CreditOpsLaws, SignatureOps, BlockLaws, ShiftOps}
        {byte : Type} `{!BlockDb.RawOps byte, !BlockDb.RawLaws byte} `{!GenerateOps}.
(** The node after the requests, with the maintenance of the code, and with the
    maintenance under the watch. *)
Definition serve_all (maintenance : Housekeeping) : list request -> node byte -> node byte := fold_left serve.
Definition served : list request -> node byte -> node byte := serve_all coded_housekeeping.
Definition served_watched : list request -> node byte -> node byte := serve_all watched_housekeeping.

(** C1: the books of a node.  The requests come in any order and number, and are
    answered or refused: blocks on the head or on a fork that is switched to or
    fails on the way, transactions, blocks to pop and to generate.  Then every
    state the node holds, for the head block, for the pending transactions and for
    every block it can still go back to, stays well formed with the surplus of every
    asset it had.  Two conditions exclude what breaks the books in the code.  No
    operation in a request updates a bitasset, or requests a credit with a deposit
    ([plain_request]; and the blocks and transactions that the node already holds
    have none, [books]).  And no maintenance on the way breaks them: the node that
    serves the same requests with the maintenance under the watch - which is ended
    when an operation the chain applies for itself throws once it is being applied,
    or a revived position has a negative collateral - ends the same.  A packed block
    is shorter than the 32 bits the block database has for its size. *)
Theorem node_keeps_the_books (total : Z -> Z) (l : list request) (n : node byte) :
  (forall b, Z.of_nat (length (BlockDb.pack_block (byte := byte) b)) < 2 ^ 32) ->
  books total n -> Forall plain_request l -> served_watched l n = served l n ->
  books total (served l n)
  /\ Forall (fun s => books_ok s /\ forall a, surplus a s = total a) (chain (served l n) :: snapshots (served l n)).
Proof.
  intros Hpack Hn Hl <-. pose proof watched_housekeeping_laws as Hlaws.
  assert (Hb : books total (served_watched l n)) by by apply (requests_books (H21 := watched_housekeeping)).
  split; [done|]. constructor; [apply Hb|apply Hb].
Qed.
End Books.

(** ** Concrete runs *)
Import Ref BlockSample UpdateSample BlockDb.RawSample.
Import (hints) Invariant.Sample.
Module NodeSample.
Export (hints) MaintainedNode.
#[export] Existing Instance coded_housekeeping.
#[export] Instance generate_ops : GenerateOps := {
  pack_size_trx _ := 200;
  pack_size_block _ := 1000;
  pack_size_header := 100;
  get_public_key k := k + 100;
  sign_compact k _ := k + 100;
}.
(** The chain of [three] at block 100, which the fork database starts with; block
    101 is signed by witness 3 and holds a transaction of alice. *)
Definition block100 : signed_block := mk_block (mk_block_id (reverse_word 99) 0 0) 1600000000 1 0 [] 201.
Definition chain100 : database :=
  set_block_summaries {[100 := mk_block_id 0 77 1; 101 := null_block_id]}
    (set_dgp (mk_dgp 100 (block_id block100) 1600000000 1 1600080000 500000 0 100 0 0 97 1599990000 0) three).
Lemma chain100_wf : books_ok chain100.
Proof. split; [apply chain_wfb_wf; vm_compute; reflexivity|done]. Qed.
Definition node100 : node signed_block :=
  mk_node chain100 [] 0 1000 false [] [] (ForkDb.start_block block100 (ForkDb.empty_fork 1000)) (BlockDb.mk_block_db [] []) [].
Definition block101 : signed_block :=
  let b := mk_block (block_id block100) 1600000005 3 0 [mk_processed Invariant.Sample.trx []] 203 in
  mk_block (previous b) (timestamp b) (witness b) (default 0 (calculate_merkle_root b)) (block_transactions b) (witness_signature b).
Lemma block101_plain : plain_block block101.
Proof. repeat constructor; by_decide. Qed.
Definition forged101 : signed_block :=
  mk_block (previous block101) (timestamp block101) (witness block101) (transaction_merkle_root block101)
    (block_transactions block101) 999.
Lemma run_pair {A B} (p : A * B) a : fst p = a -> p = (a, snd p).
Proof. by destruct p; cbn; intros ->. Qed.
(** The fork database of the node, with block 100. *)
Definition block100_item : ForkDb.fork_item := ForkDb.new_item None block100.
Lemma fork100_wf : ForkDb.fork_wf (_fork_db node100).
Proof. by apply ForkDb.grown_inv, ForkDb.grown_start. Qed.
Lemma block101_on_top : ForkDb.on_top block101 (_fork_db node100) 0 block100_item.
Proof. split; [exact fork100_wf|vm_compute; congruence || reflexivity..]. Qed.
Lemma forged_no_switch : no_switch forged101 0 node100.
Proof.
  intros _ f h i E Hi. assert (Hall : match ForkDb.push_block forged101 (_fork_db node100) with
    | Ok (f, h) => match ForkDb.items f !! h with Some i => bool_decide (previous (ForkDb.item_data i) = head_id node100) | None => false end
    | Throw _ => true end = true) by (vm_compute; reflexivity).
  rewrite E, Hi in Hall. exact (bool_decide_eq_true_1 _ Hall).
Qed.
Lemma pushed_size : 1 <= undo_max_size (snd (_push_block block101 0 node100)).
Proof. by_decide. Qed.
Lemma node100_books : books (fun a => surplus a chain100) node100.
Proof.
  split; cbn; [split; [exact chain100_wf|done]|constructor..| | |].
  - intros h i Hi. apply lookup_insert_Some in Hi as [[_ <-]|[_ Hi]]; [constructor|by destruct (lookup_empty_Some _ _ Hi)].
  - by intros [] e [=].
  - unfold BlockDb.entry_at. cbn. by intros k e b [=].
Qed.
Definition requests : list request :=
  [request_push_transaction Invariant.Sample.trx 0; request_push_block forged101 0; request_push_block block101 0; request_pop_block].
Lemma requests_plain : Forall plain_request requests.
Proof. repeat constructor; by_decide. Qed.
Definition after_requests : node signed_block := served requests node100.
(** The transaction is pending, and an empty block follows. *)
Definition trx_node : node signed_block := with_chain (after (_apply_transaction 0 Invariant.Sample.trx) chain100) node100.
Lemma pending_trx_returned : is_ok (_apply_transaction 0 Invariant.Sample.trx chain100) = true.
Proof. vm_compute. reflexivity. Qed.
Definition empty_block101 : signed_block :=
  let b := mk_block (block_id block100) 1600000005 3 0 [] 203 in
  mk_block (previous b) (timestamp b) (witness b) (default 0 (calculate_merkle_root b)) (block_transactions b) (witness_signature b).
Lemma empty_block_applied : fst (_apply_block 0 empty_block101 trx_node) = Ok tt.
Proof. vm_compute. reflexivity. Qed.
Lemma requests_watched : served_watched requests node100 = after_requests.
Proof. vm_compute. reflexivity. Qed.
End NodeSample.
Import NodeSample.
Lemma accepted_block_witness :
  header_accepted 0 block101 chain100
  /\ head_of (chain (snd (_apply_block 0 block101 node100))) = (101, block_id block101, 1600000005).
Proof. refine (accepted_block 0 block101 node100 _ (run_pair _ _ _)). vm_compute. reflexivity. Defined.
Lemma no_replay_witness :
  is_ok (_apply_transaction skip_nothing Invariant.Sample.trx (chain (snd (_apply_block 0 empty_block101 trx_node)))) = false.
Proof.
  assert (E : exists rs, _apply_transaction 0 Invariant.Sample.trx chain100 = Ok (rs, chain trx_node)).
  { pose proof pending_trx_returned as Hr. cbn [chain trx_node with_chain]. unfold after.
    destruct (_apply_transaction _ _ _) as [[rs t]|]; [by exists rs|done]. }
  destruct E as [rs E].
  refine (no_replay (byte := signed_block) 0 skip_nothing Invariant.Sample.trx chain100 rs (chain trx_node) _ eq_refl eq_refl E _).
  refine (adv_block _ _ 0 empty_block101 trx_node _ (adv_here _) eq_refl eq_refl (run_pair _ _ empty_block_applied)).
Defined.
Lemma refused_block_unwound_witness :
  unmoved node100 (snd (_push_block forged101 0 node100))
  /\ ForkDb.fetch_block (block_id forged101) (_fork_db (snd (_push_block forged101 0 node100))) = None.
Proof.
  assert (Hf : bool_decide (ForkDb.fetch_block (block_id forged101) (_fork_db (snd (_push_block forged101 0 node100))) = None) = true)
    by (vm_compute; reflexivity).
  split; [|exact (bool_decide_eq_true_1 _ Hf)].
  refine (proj1 (refused_block_unwound forged101 0 node100 "next_block.validate_signee( witness.signing_key )" _
    ltac:(by vm_compute) _ _ (run_pair _ _ ltac:(vm_compute; reflexivity)))); [apply fork100_wf|exact forged_no_switch].
Defined.
Lemma pop_restores_witness :
  exists n2, pop_block (snd (_push_block block101 0 node100)) = (Ok tt, n2) /\ chain n2 = chain100
    /\ _popped_tx n2 = [mk_processed Invariant.Sample.trx []].
Proof.
  destruct (pop_restores block101 0 node100 _ false 0%nat block100_item ltac:(reflexivity) ltac:(reflexivity) ltac:(reflexivity)
    ltac:(vm_compute; reflexivity) block101_on_top (run_pair _ _ ltac:(vm_compute; reflexivity)) pushed_size)
    as (n2 & E & Hc & _ & _ & Hq & _). exists n2. exact (conj E (conj Hc Hq)).
Defined.
Lemma pushed_transaction_exact_witness :
  head_state (snd (_push_transaction Invariant.Sample.trx 0 node100)) = chain100
  /\ is_ok (_apply_transaction 0 Invariant.Sample.trx chain100) = true.
Proof.
  split; [|by vm_compute]. refine (proj1 (pushed_transaction_exact Invariant.Sample.trx 0 node100 _ _)); by vm_compute.
Defined.
Lemma node_keeps_the_books_witness :
  books_ok (chain after_requests) /\ forall a, surplus a (chain after_requests) = surplus a chain100.
Proof.
  destruct (node_keeps_the_books (fun a => surplus a chain100) requests node100 ltac:(by intros) node100_books requests_plain requests_watched) as [_ Hf].
  by apply Forall_cons in Hf as [Hf _].
Defined.
End BlocksTheorems.
