(* ===== verification/MaintenanceTheorems.v ===== *)
(** * Chain maintenance: theorems ([db_maint.cpp])

    The books over a whole maintenance, the time of the next one, the fee for
    registering an account, and the rounds of the buybacks. *)
From Stdlib Require Import ZArith Lia String Sorting.Sorted.
From stdpp Require Import base gmap sets list strings.
From S2P Require Import Prelude External Asset Vesting Authority Float Chain Balance Accounting Market MarketSupply Evaluator MarketEvaluator MarketLaws AssetObject Transfers AssetOps AccountOps AccountEvaluator AssetEvaluator BitassetEvaluator AssetLaws Votes Elections Budget BudgetLaws ExchangeRate Credit CreditEvaluator Operations ProposalLaws Scenario Invariant Schedule Block DbUpdate DbUpdateLaws Maintenance MaintenanceLaws ReviveLaws ForkDb BlockDb Blocks BlocksLaws MaintainedNode BlocksTheorems.

Module MaintenanceTheorems.
Import Asset Vesting Authority Float Chain Balance Accounting Market MarketSupply Evaluator MarketEvaluator MarketLaws AssetObject Transfers AssetOps AccountOps AccountEvaluator AssetEvaluator BitassetEvaluator AssetLaws Votes Elections Budget BudgetLaws ExchangeRate Credit CreditEvaluator Operations ProposalLaws Scenario Invariant Schedule Block DbUpdate DbUpdateLaws Maintenance MaintenanceLaws ReviveLaws Blocks BlocksLaws MaintainedNode BlocksTheorems.

(** ** The books *)
Section Books.
Context `{SafeLaws, U128Laws, RationalLaws, IndexLaws, NthLaws, TimeLaws, AddressOps, PackOps, CreditOpsLaws, SignatureOps, BlockOps, ShiftOps}.

(** C5: a maintenance keeps the books: the objects stay well formed and what is
    held of each asset still adds up to its supply as it did before, over the
    distribution of the collected fees, the orders of the buyback accounts, the
    elections, the new parameters, the revival of settled assets by the bids on
    them and the budget.  For the maintenances in which no operation that the chain
    applies for itself (the orders of the buyback accounts, the upgrades of annual
    members) throws once it is being applied, so that the handler around it goes on
    with half of its changes - exceptions of its evaluation are caught as in the
    code -, and which leave no position with a negative collateral: if the watched
    run returns, so does the code's, with the same state, and its books are kept. *)
Theorem maintenance_keeps_the_books b s u s' :
  books_ok s -> Maintenance.perform_chain_maintenance (AP := watched) b s = Ok (u, s') -> solvent s' ->
  Maintenance.perform_chain_maintenance (AP := as_coded) b s = Ok (u, s')
  /\ books_ok s' /\ forall a, surplus a s' = surplus a s.
Proof.
  intros Hw E Hv. split; [by apply watched_run|]. apply maintenance_balances in E as [[Hs Hsur] _]; [|done..]. split; [by apply Hs|done].
Qed.
End Books.

(** ** The time of the next maintenance *)
Lemma least_multiple y i : 0 <= y -> 0 < i -> y < (y / i + 1) * i <= y + i.
Proof. intros Hy Hi. pose proof (Z.div_mod y i ltac:(lia)). pose proof (Z.mod_pos_bound y i Hi). nia. Qed.
Section Times.
Context `{SafeLaws, U128Laws, RationalLaws, IndexLaws, NthLaws, TimeLaws, AddressOps, PackOps, CreditOpsLaws, SignatureOps, BlockOps, ShiftOps}.

(** C19: the next maintenance is at the first time of the schedule after the head:
    the schedule goes on in steps of the interval from the last one, or starts at a
    multiple of the interval when the chain starts; and the count of the accounts
    registered in an interval begins anew. Times are within the 32 bits of a
    [time_point_sec]. *)
Theorem next_maintenance_due num s u s' :
  let interval := maintenance_interval (parameters (gpo s)) in
  let last := next_maintenance_time (dgp s) in
  let next := next_maintenance_time (dgp s') in
  0 < interval -> 0 <= last <= head_block_time s -> head_block_time s + interval < 2 ^ 32 ->
  fix_next_maintenance (head_block_time s) num s = Ok (u, s') ->
  head_block_time s < next <= head_block_time s + interval
  /\ (if num =? 1 then next mod interval = 0 else (next - last) mod interval = 0)
  /\ accounts_registered_this_interval (dgp s') = 0.
Proof.
  intros interval last next Hi Hl Hh. unfold fix_next_maintenance. intros E. repeat run_ok1. unfold update_dgp in E. run_ok1. subst s'. fold interval last in Hval.
  subst next. cbn [dgp set_dgp next_maintenance_time accounts_registered_this_interval with_accounts_registered_this_interval with_next_maintenance_time].
  unfold next_maintenance in Hval. rewrite (proj2 (Z.leb_le _ _)) in Hval by lia. run_ok1. clear Hrun.
  assert (Hstep : forall y, 0 <= y -> y + interval < 2 ^ 32 -> wrap 32 ((y / interval + 1) * interval) = (y / interval + 1) * interval).
  { intros y Hy Hr. apply wrap_id. pose proof (least_multiple y interval Hy Hi). lia. }
  destruct (num =? 1); injection Hval as <-; rewrite Hstep by lia.
  - pose proof (least_multiple (head_block_time s) interval ltac:(lia) Hi). rewrite time_add_spec by lia.
    split_and!; [lia..| |done]. by rewrite Z.add_0_l, Z.mod_mul by lia.
  - pose proof (least_multiple (head_block_time s - last) interval ltac:(lia) Hi). rewrite time_add_spec by lia.
    split_and!; [lia..| |done]. rewrite Z.add_simpl_l. by apply Z.mod_mul; lia.
Qed.
End Times.

(** ** The fee for registering an account *)
(** The parameters with the fee for registering multiplied by [2 ^ bits]. *)
Definition scaled_parameters (p : chain_parameters) (k : fee_parameters) (bits : Z) : chain_parameters :=
  with_current_fees (mk_fee_schedule
    (<[account_create_tag := with_flat_fee (flat_fee k * 2 ^ bits) k]> (fee_table (current_fees p))) (scale (current_fees p))) p.
Definition account_fee (p : chain_parameters) (k : fee_parameters) : Prop :=
  fee_table (current_fees p) !! account_create_tag = Some k.
Lemma scaled_0 p k : account_fee p k -> scaled_parameters p k 0 = p.
Proof.
  intros Hk. unfold scaled_parameters, account_fee in *. rewrite Z.mul_1_r.
  assert (with_flat_fee (flat_fee k) k = k) as -> by by destruct k. rewrite insert_id by done.
  destruct p as [? ? ? ? ? ? ? ? ? ? ? ? [] ? ? ? ? ? ? ? ? ? ? ? ? ? ? ? ? ?]. done.
Qed.
Lemma set_scaled f p k bits :
  set_account_fee f (scaled_parameters p k bits)
  = (k' ← f (with_flat_fee (flat_fee k * 2 ^ bits) k);
     Ok (with_current_fees (mk_fee_schedule (<[account_create_tag := k']> (fee_table (current_fees p))) (scale (current_fees p))) p)).
Proof.
  unfold set_account_fee, scaled_parameters. cbn [current_fees with_current_fees fee_table scale]. rewrite lookup_insert_eq. cbn.
  destruct (f _); cbn; [|done]. by rewrite insert_insert_eq.
Qed.
Lemma scale_up p k bits shift :
  0 <= bits -> 0 <= shift < 64 -> 0 <= flat_fee k -> flat_fee k * 2 ^ (bits + shift) < 2 ^ 64 ->
  set_account_fee (shift_fee_left shift) (scaled_parameters p k bits) = Ok (scaled_parameters p k (bits + shift)).
Proof.
  intros Hb Hs Hk Hr. rewrite set_scaled. unfold shift_fee_left. rewrite (proj2 (Z.ltb_lt _ _)) by lia. cbn.
  rewrite Z.shiftl_mul_pow2, <- Z.mul_assoc, <- Z.pow_add_r by lia. rewrite wrap_id; [done|].
  split; [|done]. apply Z.mul_nonneg_nonneg; [done|]. apply Z.pow_nonneg. lia.
Qed.
Lemma scale_down p k bits :
  account_fee p k -> 0 <= bits < 64 -> set_account_fee (shift_fee_right bits) (scaled_parameters p k bits) = Ok p.
Proof.
  intros Hk Hb. rewrite set_scaled. unfold shift_fee_right. rewrite (proj2 (Z.ltb_lt _ _)) by lia. cbn.
  rewrite Z.shiftr_div_pow2, Z.div_mul by lia. pose proof (scaled_0 p k Hk) as E0. unfold scaled_parameters in E0.
  rewrite Z.mul_1_r in E0. exact (f_equal Ok E0).
Qed.
Lemma quotient_succ i n : 0 <= i -> 0 < n -> (i + 1) / n = i / n + (if (i + 1) mod n =? 0 then 1 else 0).
Proof.
  intros Hi Hn. pose proof (Z.div_mod i n ltac:(lia)). pose proof (Z.mod_pos_bound i n Hn).
  destruct (Z.eqb_spec ((i + 1) mod n) 0) as [E|E].
  - pose proof (Z.div_mod (i + 1) n ltac:(lia)). nia.
  - symmetry. rewrite Z.add_0_r. apply (Z.div_unique (i + 1) n _ (i mod n + 1)); [|lia]. left. split; [lia|].
    destruct (Z.eq_dec (i mod n + 1) n) as [E1|]; [|lia]. exfalso. apply E.
    replace (i + 1) with ((i / n + 1) * n) by lia. apply Z.mod_mul. lia.
Qed.
Section Fees.
Context `{SafeLaws, U128Laws, RationalLaws, IndexLaws, NthLaws, TimeLaws}.
(** [n] accounts are registered. *)
Definition registrations (n : nat) : M database unit := for_each (replicate n tt) (fun _ => scale_account_fee).
(** After [i] registrations of the interval. *)
Record scaled_after (p : chain_parameters) (k : fee_parameters) (i : Z) (g : global_property_object) (s : database) : Prop := {
  sc_count : accounts_registered_this_interval (dgp s) = i;
  sc_gpo : gpo s = with_parameters (scaled_parameters p k (account_fee_scale_bitshifts p * (i / accounts_per_fee_scale p))) g;
}.
Lemma registration_scales p k i g s u s' :
  let shifts j := account_fee_scale_bitshifts p * (j / accounts_per_fee_scale p) in
  0 < accounts_per_fee_scale p -> 0 <= account_fee_scale_bitshifts p -> 0 <= flat_fee k -> 0 <= i -> i + 1 < 2 ^ 32 ->
  shifts (i + 1) < 64 -> flat_fee k * 2 ^ shifts (i + 1) < 2 ^ 64 ->
  scaled_after p k i g s -> scale_account_fee s = Ok (u, s') -> scaled_after p k (i + 1) g s'.
Proof.
  intros shifts Hn Hb Hk Hi Hr Hs Hf [Hc Hg]. unfold scale_account_fee, update_dgp. intros E. repeat run_ok1. subst.
  cbn [gpo dgp set_dgp] in E. rewrite Hg in E. cbn in E. rewrite wrap_id in E by lia.
  pose proof (quotient_succ _ _ Hi Hn) as Hq. pose proof (Z.div_pos _ _ Hi Hn) as Hp.
  apply when_Ok in E as [[Ht E]|[Ht ->]]; rewrite Ht in Hq.
  - unfold shifts in Hs, Hf. rewrite Hq, Z.mul_add_distr_l, Z.mul_1_r in Hs, Hf.
    rewrite scale_up in E by nia || done. unfold lift in E. run_ok1. unfold update_gpo in E. repeat run_ok1. subst. split; [done|].
    cbn [gpo set_gpo set_dgp]. rewrite Hg, Hq, Z.mul_add_distr_l, Z.mul_1_r. done.
  - split; [done|]. by rewrite Hq, Z.add_0_r.
Qed.
Lemma registrations_scale p k g n i s u s' :
  let shifts j := account_fee_scale_bitshifts p * (j / accounts_per_fee_scale p) in
  0 < accounts_per_fee_scale p -> 0 <= account_fee_scale_bitshifts p -> 0 <= flat_fee k -> 0 <= i -> i + Z.of_nat n < 2 ^ 32 ->
  shifts (i + Z.of_nat n) < 64 -> flat_fee k * 2 ^ shifts (i + Z.of_nat n) < 2 ^ 64 ->
  scaled_after p k i g s -> registrations n s = Ok (u, s') -> scaled_after p k (i + Z.of_nat n) g s'.
Proof.
  intros shifts Hn Hb Hk. revert i s. induction n as [|n IH]; intros i s Hi Hr Hs Hf Ha; cbn; intros E.
  - run_ok1. by rewrite Z.add_0_r.
  - run_ok1. assert (Hm : forall j, i + j <= i + Z.of_nat (S n) -> shifts (i + j) <= shifts (i + Z.of_nat (S n))).
    { intros j Hj. unfold shifts. apply Z.mul_le_mono_nonneg_l; [done|]. apply Z.div_le_mono; lia. }
    replace (i + Z.of_nat (S n)) with (i + 1 + Z.of_nat n) in * by lia.
    eapply IH; [lia|lia|done|done| |exact E]. eapply registration_scales; [done|done|done|done|lia| | |exact Ha|exact Hrun].
    + change (shifts (i + 1) < 64). specialize (Hm 1 ltac:(lia)). lia.
    + eapply Z.le_lt_trans; [|exact Hf]. apply Z.mul_le_mono_nonneg_l; [done|]. apply Z.pow_le_mono_r; [lia|]. apply (Hm 1). lia.
Qed.

(** C18: the fee for registering an account, which is shifted up each time a number
    of accounts has been registered, is shifted back by as much at the maintenance:
    the parameters are again exactly those at the start of the interval when they
    have a fee for exchange rates; when that fee is missing it is added, and with it
    the scale of the whole schedule becomes that of a new schedule, 100 percent;
    when parameters are pending, those take effect instead.  For as many
    registrations as shift the fee by less than 64 bits and not out of its 64 bits,
    with a count of registrations within its 32 bits. *)
Theorem fee_scaling_undone n s s1 s2 k :
  let p := parameters (gpo s) in
  let shifts := account_fee_scale_bitshifts p * (Z.of_nat n / accounts_per_fee_scale p) in
  account_fee p k -> 0 <= flat_fee k -> 0 < accounts_per_fee_scale p -> 0 <= account_fee_scale_bitshifts p ->
  Z.of_nat n < 2 ^ 32 -> shifts < 64 -> flat_fee k * 2 ^ shifts < 2 ^ 64 ->
  accounts_registered_this_interval (dgp s) = 0 ->
  registrations n s = Ok (tt, s1) -> change_parameters s1 = Ok (tt, s2) ->
  parameters (gpo s2) = match pending_parameters (gpo s) with
                        | Some q => complete_extensions q
                        | None =>
                            match fee_table (current_fees p) !! exchange_rate_set_tag with
                            | Some _ => p
                            | None => with_current_fees
                                (mk_fee_schedule (<[exchange_rate_set_tag := default_exchange_rate_fee]> (fee_table (current_fees p)))
                                   GRAPHENE_100_PERCENT) p
                            end
                        end
  /\ pending_parameters (gpo s2) = None.
Proof.
  intros p shifts Hk Hf Hn Hb Hr Hs Hl Hz E E2.
  assert (Ha : scaled_after p k 0 (gpo s) s).
  { split; [done|]. rewrite Z.div_0_l, Z.mul_0_r, scaled_0 by lia || done. unfold p. by destruct (gpo s). }
  apply (registrations_scale p k (gpo s) n 0) in E as [Hc Hg]; [|done..]. rewrite Z.add_0_l in Hc, Hg.
  unfold change_parameters in E2. repeat run_ok1. subst s2. unfold update_parameters, unscale_account_fee in Hval. rewrite Hc, Hg in Hval.
  repeat run_ok1.
  match goal with Hu : set_account_fee _ _ = Ok ?x |- _ =>
    change (set_account_fee (shift_fee_right (wrap 32 shifts)) (scaled_parameters p k shifts) = Ok x) in Hu;
    assert (0 <= shifts) by (apply Z.mul_nonneg_nonneg; [done|]; apply Z.div_pos; lia);
    rewrite wrap_id, scale_down in Hu by lia || done; injection Hu as <- end.
  subst. cbn. unfold apply_pending_parameters. cbn. by destruct (pending_parameters (gpo s)) eqn:Ep.
Qed.
End Fees.

(** ** The rounds of a buyback *)
Section Buybacks.
Context `{SafeLaws, U128Laws, RationalLaws, IndexLaws, NthLaws, TimeLaws, AddressOps, PackOps, CreditOpsLaws, SignatureOps, BlockOps, ShiftOps}.
(** The balances of the owner from an asset on. *)
Definition holdings (owner from : Z) (s : database) : gmap (Z * Z) Z :=
  filter (fun x => x.1.1 = owner /\ from <= x.1.2) (account_balances s).
Definition still_allowed (allowed : gset Z) (from : Z) : gset Z := filter (fun x => from <= x) allowed.
Lemma holdings_fewer owner from s x n :
  next_balance owner from s = Some (x, n) -> (size (holdings owner (x + 1) s) < size (holdings owner from s))%nat.
Proof.
  intros [Hb Hx]%next_balance_Ok. apply map_subset_size. unfold holdings. split.
  - apply map_filter_subseteq_ext. intros [o y] m _ [-> Hy]. cbn in *. split; [done|lia].
  - intros Hs. assert (Hl : filter (fun x => x.1.1 = owner /\ from <= x.1.2) (account_balances s) !! (owner, x) = Some n)
      by (apply map_lookup_filter_Some; done).
    eapply lookup_weaken in Hl; [|exact Hs]. apply map_lookup_filter_Some in Hl as [_ [_ Hl]]. cbn in Hl. lia.
Qed.
Lemma still_allowed_fewer allowed from x :
  from <= x -> x ∈ allowed -> (size (still_allowed allowed (x + 1)) < size (still_allowed allowed from))%nat.
Proof.
  intros Hx Hin. apply subset_size. unfold still_allowed. split; [set_solver by lia|].
  intros Hs. specialize (Hs x). rewrite !elem_of_filter in Hs. destruct Hs as [? _]; [done|lia].
Qed.
Lemma still_allowed_less allowed from x : from <= x -> (size (still_allowed allowed (x + 1)) <= size (still_allowed allowed from))%nat.
Proof. intros Hx. apply subseteq_size. unfold still_allowed. set_solver by lia. Qed.
Lemma holdings_fuel owner from s : (size (holdings owner from s) <= buyback_fuel s)%nat.
Proof. unfold holdings, buyback_fuel. apply map_subseteq_size, map_filter_subseteq. Qed.
(** One step, with [X] when the steps are used up. *)
Lemma sell_holdings_eq (X : Exhausted database) sales account allowed y fuel from s :
  sell_holdings (EX := X) sales account allowed y fuel from s =
  match next_balance account from s with
  | None => Ok (tt, s)
  | Some (x, n) =>
      if for_sale_now allowed y x n then
        match sales with
        | O => X unit s
        | S sales' =>
            (amount_to_sell ← lift (as_share n);
             _ ← sell_all account x amount_to_sell y;
             fuel ← gets buyback_fuel;
             sell_holdings (EX := X) sales' account allowed y fuel (x + 1)) s
        end
      else match fuel with O => X unit s | S fuel' => sell_holdings (EX := X) sales account allowed y fuel' (x + 1) s end
  end.
Proof.
  destruct sales, fuel; cbn [sell_holdings]; unfold mbind at 1, M_bind at 1, gets; cbn; destruct (next_balance account from s) as [[x n]|]; try done;
    by destruct (for_sale_now allowed y x n).
Qed.
Lemma sell_enough X Y account allowed y n1 n2 f1 f2 from s :
  (size (still_allowed allowed from) <= n1)%nat -> (size (still_allowed allowed from) <= n2)%nat ->
  (size (holdings account from s) <= f1)%nat -> (size (holdings account from s) <= f2)%nat ->
  sell_holdings (EX := X) n1 account allowed y f1 from s = sell_holdings (EX := Y) n2 account allowed y f2 from s.
Proof.
  revert n2 f1 f2 from s. induction n1 as [|n1 IHn]; intros n2 f1; revert n2; induction f1 as [|f1 IHf]; intros n2 f2 from s Hn1 Hn2 Hf1 Hf2;
    rewrite (sell_holdings_eq X), (sell_holdings_eq Y); (destruct (next_balance account from s) as [[x n]|] eqn:En; [|done]);
    pose proof (holdings_fewer _ _ _ _ _ En) as Hh; apply next_balance_Ok in En as [_ Hx];
    destruct (for_sale_now allowed y x n) eqn:Es; try lia.
  all: try (destruct f2 as [|f2]; [lia|]; pose proof (still_allowed_less allowed from x Hx); apply IHf; lia).
  all: unfold for_sale_now in Es; apply andb_true_iff in Es as [_ Hin%bool_decide_eq_true];
    pose proof (still_allowed_fewer allowed from x Hx Hin); try lia; (destruct n2 as [|n2]; [lia|]).
  all: apply M_bind_ext; intros m s1 [_ ->]%lift_Ok; apply M_bind_ext; intros u t _;
    apply M_bind_ext; intros f t' [-> ->]%gets_Ok; apply IHn; try lia; apply holdings_fuel.
Qed.
Lemma for_each_same {A} (l : list A) (f g : A -> M database unit) s :
  (forall x s, f x s = g x s) -> for_each l f s = for_each l g s.
Proof. intros Hfg. revert s. induction l as [|x l IH]; intros s; cbn; [done|]. by apply M_bind_ext'. Qed.

(** C21: the trading of the buyback accounts ends.  A buyback account visits its
    balances in the order of their assets, and the number of its allowed assets
    and of the balances are enough rounds, whatever the orders it places do to the
    balances: what the loop would do if it had used them up ([X] and [Y], anything)
    makes no difference, so that point is never reached, more rounds change nothing,
    and the whole of the buybacks does not depend on it. *)
Theorem buyback_ends (X Y : Exhausted database) account allowed y from s sales fuel :
  ((size allowed <= sales)%nat -> (buyback_fuel s <= fuel)%nat ->
   sell_holdings (EX := X) sales account allowed y fuel from s
   = sell_holdings (EX := Y) (size allowed) account allowed y (buyback_fuel s) from s)
  /\ create_buyback_orders (EX := X) s = create_buyback_orders (EX := Y) s.
Proof.
  assert (Hall : forall allowed' from', (size (still_allowed allowed' from') <= size allowed')%nat)
    by (intros; apply subseteq_size; unfold still_allowed; set_solver).
  split.
  - intros Hs Hf. pose proof (holdings_fuel account from s). specialize (Hall allowed from). apply sell_enough; lia.
  - unfold create_buyback_orders. apply M_bind_ext. intros s0 s1 _. apply for_each_same. intros [i bbo] t.
    unfold create_buyback_order. do 3 (apply M_bind_ext; intros ? ? _). case_match; [|done].
    apply M_bind_ext. intros n t' [-> ->]%gets_Ok. apply sell_enough; try apply Hall; apply holdings_fuel.
Qed.
End Buybacks.

(** ** Concrete runs *)
Import Ref BlockSample UpdateSample.
Import (hints) Invariant.Sample.
Module MaintenanceSample.
(** The dollar is settled; bob and carol bid for all 2000 of it. Alice and bob vote
    for two of three witnesses, a committee member and a worker; an accumulator
    without a designated asset holds 5000. *)
Definition bid_of (owner n d : Z) : collateral_bid_object := mk_bid owner (mk_price (core n) (usd d)).
Definition voter (id : Z) (votes : list Z) : account_object :=
  with_account_opts (mk_account_options 0 GRAPHENE_PROXY_TO_SELF_ACCOUNT 1 1 votes) (plain_account id).
Definition account_fees : fee_parameters := mk_fee_parameters 500000 1000 200000 150000 50000 0 0 0.
Definition fees : fee_schedule := mk_fee_schedule {[account_create_tag := account_fees]} 20000.
Definition settled_usd : asset_bitasset_data_object := usd_bitasset (mk_price (usd 2000) (core 30000)) 30000.
Definition settled : database :=
  set_gpo (with_next_available_vote_id 6 (with_parameters (with_current_fees fees (parameters (gpo three))) (gpo three)))
  (set_dgp (mk_dgp 100 null_block_id 1600080000 1 1600080000 500000 0 100 0 0 90 1599990000 0)
  (set_accounts (<[5 := plain_account 5]> (<[alice := voter alice [1; 257; 768; 1026]]> (<[bob := voter bob [513; 768]]> (accounts three))))
  (set_account_statistics (<[5 := no_statistics]> (account_statistics three))
  (set_committee_members {[1 := mk_committee_member 2 768 0 ""]}
  (set_workers {[1 := mk_worker bob 1500000000 1700000000 500 (burn_worker_type 0) "" "" 1026 1282 0 0]}
  (set_fba_accumulators {[0 := mk_fba_accumulator 5000 None; 1 := mk_fba_accumulator 0 None; 2 := mk_fba_accumulator 0 None]}
  (set_bitasset_data {[0 := settled_usd]}
  (set_call_orders ∅ (set_collateral_bids {[7 := bid_of bob 10000 1000; 8 := bid_of carol 9000 1500]} three))))))))).
Lemma settled_ok : books_ok settled.
Proof. split; [apply chain_wfb_wf; vm_compute; reflexivity|done]. Qed.
Definition first_block : signed_block := mk_block (mk_block_id (reverse_word 99) 0 0) 1600080000 1 0 [] 201.
Definition maintained : database := after (Maintenance.perform_chain_maintenance first_block) settled.
Lemma maintained_watched : Maintenance.perform_chain_maintenance (AP := watched) first_block settled = Ok (tt, maintained).
Proof. vm_compute. reflexivity. Qed.
Lemma maintained_returned : returned (Maintenance.perform_chain_maintenance first_block settled) = Some tt.
Proof. vm_compute. reflexivity. Qed.
Lemma maintained_solvent : solvent maintained.
Proof. apply (bool_decide_unpack _). vm_compute. exact I. Qed.
(** Both bidders have a position, the fund is used up. *)
Lemma maintained_positions :
  debts USD maintained = 2000 /\ (settlement_fund <$> bitasset_data maintained !! 0) = Some 0
  /\ active_witnesses (gpo maintained) = [1; 2; 3] /\ next_maintenance_time (dgp maintained) = 1600166400.
Proof. vm_compute. done. Qed.
Definition tallied : vote_tally :=
  match count_votes_of_accounts settled with Ok (t, _) => t | Throw _ => new_tally (gpo settled) end.
Definition elected_state : database := after (update_active_witnesses tallied) settled.
Lemma elected_returned : returned (update_active_witnesses tallied settled) = Some tt.
Proof. vm_compute. reflexivity. Qed.
Definition three_votes : list (Z * Z) := [(3, 500); (1, 300); (2, 0)].
Definition voted_authority : authority :=
  match counted_authority three_votes (active_authority (plain_account 1)) with Ok a => a | Throw _ => active_authority (plain_account 1) end.
Lemma voted_authority_returned : counted_authority three_votes (active_authority (plain_account 1)) = Ok voted_authority.
Proof. vm_compute. reflexivity. Qed.
(** A day before the next maintenance. *)
Definition budgeted : database :=
  set_dgp (mk_dgp 100 null_block_id 1600080000 1 1600166400 500000 0 100 0 0 90 1599990000 0) settled.
Definition budgeted_after : database := after process_budget budgeted.
Lemma budget_returned : returned (process_budget budgeted) = Some tt.
Proof. vm_compute. reflexivity. Qed.
Lemma budgeted_wf : chain_wf budgeted.
Proof. apply chain_wfb_wf. vm_compute. reflexivity. Qed.
Definition core_record : asset_dynamic_data_object := mk_dynamic_data 1776000 0 0 0.
Lemma budgeted_ranges : budget_ranges budgeted core_object core_record.
Proof.
  split; lazymatch goal with
  | |- worker_pays_ok _ => unfold worker_pays_ok; apply (bool_decide_unpack _); vm_compute; exact I
  | |- _ = _ /\ _ = _ => split; reflexivity
  | |- _ => apply (bool_decide_unpack _); vm_compute; exact I
  end.
Qed.
(** Three accounts are registered, with a scale after every two: the fee is doubled once. *)
Definition scaling : database :=
  set_gpo (with_parameters (with_current_fees fees
    (mk_parameters 5 86400 3 2000 31536000 10000 1000 86400 100 100 86400 2 fees
      2000000 2419200 1209600 2048 1001 1001 10 2000 3000 true false 100000 1 100 2 1 [])) (gpo settled)) settled.
Definition registered : database := after (registrations 3) scaling.
Lemma registered_returned : returned (registrations 3 scaling) = Some tt.
Proof. vm_compute. reflexivity. Qed.
Lemma registered_fee :
  (flat_fee <$> fee_table (current_fees (parameters (gpo registered))) !! account_create_tag) = Some 1000000.
Proof. vm_compute. reflexivity. Qed.
Definition unscaled : database := after change_parameters registered.
Lemma unscaled_returned : returned (change_parameters registered) = Some tt.
Proof. vm_compute. reflexivity. Qed.
Definition rescheduled : database := after (fix_next_maintenance (head_block_time settled) 100) settled.
Lemma rescheduled_returned : returned (fix_next_maintenance (head_block_time settled) 100 settled) = Some tt.
Proof. vm_compute. reflexivity. Qed.
End MaintenanceSample.
Import MaintenanceSample.

Lemma maintenance_keeps_the_books_witness :
  solvent maintained
  /\ Maintenance.perform_chain_maintenance (AP := as_coded) first_block settled = Ok (tt, maintained)
  /\ books_ok maintained /\ forall a, surplus a maintained = surplus a settled.
Proof.
  split; [exact maintained_solvent|].
  refine (maintenance_keeps_the_books first_block settled tt maintained settled_ok maintained_watched maintained_solvent).
Defined.
Lemma witnesses_elected_witness :
  exists none k au cs a,
    head (_witness_count_histogram_buffer tallied) = Some none
    /\ asked_for (as_int64 (wrap 64 (_total_voting_stake tallied - none) / 2)) (_witness_count_histogram_buffer tallied) k
    /\ elected witness_vote_id tallied (witnesses settled)
         (Nat.max (k * 2 + 1) (Z.to_nat (min_witness_count (chain_properties settled)))) (active_witnesses (gpo elected_state))
    /\ active_witnesses (gpo elected_state) ≡ₚ candidate_id <$> cs
    /\ (forall c, c ∈ cs -> witnesses settled !! candidate_id c = Some (candidate_of c)
                            /\ vote_at tallied (witness_vote_id (candidate_of c)) = Ok (candidate_votes c))
    /\ StronglySorted (fun x y => outvotes y x = false) cs
    /\ accounts settled !! GRAPHENE_WITNESS_ACCOUNT = Some a
    /\ elected_authority (head_block_time settled)
         ((fun c => (witness_account (candidate_of c), candidate_votes c)) <$> cs) (active_authority a) = Ok au
    /\ accounts elected_state = <[GRAPHENE_WITNESS_ACCOUNT := with_active_authority au a]> (accounts settled).
Proof. refine (witnesses_elected tallied settled tt elected_state (after_Ok _ _ _ elected_returned)). Defined.
Lemma majority_needed_witness : weights (account_auths voted_authority) < 2 * weight_threshold voted_authority /\ is_impossible voted_authority = false.
Proof.
  refine (proj2 (proj2 (proj2 (proj2 (majority_needed three_votes (active_authority (plain_account 1)) voted_authority voted_authority_returned _ _ _))))).
  - by_decide.
  - repeat constructor; done.
  - left. done.
Defined.
Lemma budget_within_reserve_witness :
  exists r d', core_data budgeted_after d' /\ current_supply d' <= max_supply (options core_object)
    /\ witness_budget (dgp budgeted_after) + (worker_budget r - leftover_worker_funds r) <= total_budget r.
Proof.
  destruct (budget_within_reserve budgeted budgeted_after core_object core_record budgeted_wf budgeted_ranges
    (after_Ok _ _ _ budget_returned)) as (r & d' & _ & _ & _ & Hr & _ & Hd & _ & Hs & _).
  exists r, d'. exact (conj Hd (conj Hs Hr)).
Defined.
Lemma next_maintenance_due_witness :
  head_block_time settled < next_maintenance_time (dgp rescheduled) <= head_block_time settled + 86400.
Proof.
  refine (proj1 (next_maintenance_due 100 settled tt rescheduled _ _ _ (after_Ok _ _ _ rescheduled_returned))); vm_compute; repeat split; congruence.
Defined.
Lemma fee_scaling_undone_witness :
  parameters (gpo unscaled) = add_exchange_rate_fee (parameters (gpo scaling)) /\ pending_parameters (gpo unscaled) = None.
Proof.
  refine (fee_scaling_undone 3 scaling registered unscaled account_fees _ _ _ _ _ _ _ _
    (after_Ok _ _ _ registered_returned) (after_Ok _ _ _ unscaled_returned)); vm_compute; done.
Defined.
Definition rounds_used_up : Exhausted database := fun A => throw "the rounds are used up".
Lemma buyback_ends_witness :
  sell_holdings (EX := rounds_used_up) 9 alice {[core_asset; USD]} USD 99 0 settled
  = sell_holdings (EX := exhausted_throws database) (size ({[core_asset; USD]} : gset Z)) alice {[core_asset; USD]} USD
      (buyback_fuel settled) 0 settled.
Proof.
  refine (proj1 (buyback_ends rounds_used_up (exhausted_throws database) alice {[core_asset; USD]} USD 0 settled 9 99) _ _);
    vm_compute; lia.
Defined.

(** ** A block at the time of a maintenance *)
(** Applying an empty block to a node whose maintenance is due holds it: the dollar
    is revived, and the next maintenance is a day later. *)
Import BlockDb.RawSample NodeSample.
Definition due : database :=
  set_block_summaries {[100 := mk_block_id 0 77 1; 101 := null_block_id]}
    (set_dgp (mk_dgp 100 (block_id block100) 1600000000 1 1600000005 500000 0 100 0 0 97 1599990000 0) settled).
Definition empty101 : signed_block :=
  let b := mk_block (block_id block100) 1600000005 3 0 [] 203 in
  mk_block (previous b) (timestamp b) (witness b) (default 0 (calculate_merkle_root b)) (block_transactions b) (witness_signature b).
Definition held : database := chain (snd (_apply_block 0 empty101 (with_chain due node100))).
Example maintenance_in_a_block :
  head_block_number (dgp held) = 101 /\ next_maintenance_time (dgp held) = 1600086405
  /\ debts USD held = 2000 /\ size (collateral_bids held) = 0%nat /\ witness_budget (dgp held) = 17280000.
Proof. vm_compute. repeat split. Qed.

(** ** The scale of the fees *)
(** The schedule built for a missing fee has the scale of a new schedule, whatever
    scale the chain had set. *)
Lemma exchange_rate_fee_resets_scale p :
  fee_table (current_fees p) !! exchange_rate_set_tag = None ->
  scale (current_fees (add_exchange_rate_fee p)) = GRAPHENE_100_PERCENT.
Proof. unfold add_exchange_rate_fee. by intros ->. Qed.
End MaintenanceTheorems.
